(* ===== verification/_CoqProject ===== *)
-Q . S2P
Prelude.v
Config.v
UInt256.v
Compact.v
Consensus.v
Sha256.v
Ripemd160.v
Crypto.v
Transaction.v
Encoding.v
Keys.v
Value.v
KeyStore.v
Script.v
Utxo.v
Block.v
GenesisMiner.v
Validation.v
Mempool.v
Chain.v
Storage.v
Mining.v
Protocol.v
Net.v
Handlers.v
Wallet.v
Daemon.v
Accounts.v
Text.v
Connect.v
NetThreads.v
Rpc.v
RpcMethods.v
RpcServer.v
Bson.v
Dns.v
Mongo.v
Registry.v
Node.v
System.v
Tls.v
UInt160.v
GenesisTool.v
