(* ===== verification/Prelude.v ===== *)
(** * CDX: a verified model of the node

    CDX is a proof-of-work currency node written in C++: blocks of UTXO
    transactions, a script interpreter for P2PKH outputs, a mempool, a chain
    manager with reorganisation, block files, a peer-to-peer protocol, a miner,
    a wallet with an encrypted key store, a JSON-RPC interface with its
    command-line client, and a client for a peer registry kept in MongoDB.  This
    library is a shallow embedding of that code: each function is a Rocq
    function over the same data, and the theorems are about those functions.

    ** The program and the files

    - [Prelude]: machine integers ([u8] .. [u128], [i32], [i64] are the wrap-around
      of the C++ types on [Z]), little-endian bytes, the result type [res] (a
      [bool] with an error string), the outcome type ([Undef] is undefined
      behaviour), sums, tactics and the hint database [cdx].
    - [Config]: [config/networks]: the parameters of the three networks.
    - [UInt256], [Compact]: [crypto/uint256]: four 64-bit words with their
      carries, shifts, division, bytes, hex and the compact form of targets.
    - [Consensus]: [consensus/rewards], [difficulty], [chainwork], [rules],
      [policy].
    - [Sha256]: the SHA-256 and the midstate hashing of [tools/mine_genesis.cpp].
    - [Ripemd160]: [crypto/ripemd160].
    - [Crypto]: [crypto/hash] and [VerifySignature] of [crypto/keys].  OpenSSL is
      the class [OpenSSL] (digest and curve operations) with the laws
      [OpenSSLLaws] (a digest is 32 bytes); [eval_ossl] and [toy_ossl] are
      concrete instances for evaluation.
    - [Transaction]: [transaction/], [blockchain/block]: data, serializer, and the
      bounds-checked deserializer as a reader monad.
    - [Encoding]: [crypto/encoding], [wallet/address]: Base58, Base58Check, hex,
      varints, addresses and WIF keys.
    - [Keys]: the private-key half of [crypto/keys] and [wallet/keypair]: key
      generation, deterministic nonces, signing and its DER encoding.  The curve
      and HMAC are the class [EcKeys] with the laws [EcKeysLaws] (the multiples
      of the generator form a cyclic group, the verification equation, DER
      decoding); [mini_ec] is a concrete instance over the integers modulo 101.
    - [Value]: [transaction/transaction.cpp]: amounts as text.
    - [KeyStore]: [wallet/keystore]: the store in a state monad with exceptions
      and undefined behaviour, its abstract specification [Vault], and the wallet
      file.  PBKDF2 and AES-GCM are the class [Cipher] ([CipherLaws]: decryption
      inverts encryption).
    - [Script]: [script/interpreter]: pushes, opcodes, limits, P2PKH.
    - [Utxo]: [utxo/]: the coin view (a [gmap]), balances, greedy coin selection.
    - [Block]: [blockchain/merkle], [blockchain/genesis].
    - [GenesisMiner]: the rest of [tools/mine_genesis.cpp]: target comparison,
      header builder and the worker threads as a step relation.
    - [Validation]: [consensus/validation]: transactions, headers and blocks
      against a view.
    - [Mempool]: [mempool/]: the pool, including the reference that
      [RemoveConflicts] passes into the map it erases from.
    - [Chain]: [blockchain/blockchain], [blockchain/reorg] over the storage
      interface [IStorage] ([storage/interface.h]), in a state monad with errors
      and undefined behaviour.
    - [Storage]: [storage/blocks.cpp]: block files, index, chain state and peer
      list over a map of named files; it implements [IStorage].
    - [Mining]: [mining/pow], [mining/miner]: nonce search and block template.
    - [Protocol]: [p2p/protocol], [p2p/sync]: framing and payloads.
    - [Net]: [p2p/server], [p2p/peer]: receive loop, sending and the peer table;
      complete messages go to a handler with the interface [NodeHandler].
    - [Handlers]: the message handlers of [bin/cdxd.cpp], an instance of
      [NodeHandler] over chain, pool, history and connections, with a small
      weakest-precondition logic.
    - [Wallet]: [wallet/wallet], [signer], [recovery]: balance, coin selection,
      payments, backup and restore, rescan.
    - [Daemon]: the command line and the mining thread of [bin/cdxd.cpp].
    - [Accounts]: the wallet's balance and rescan against the coins and the
      blocks of the chain.
    - [Text]: the members of [std::string] the text interfaces use, with lemmas
      that evaluate a search in a string put together from parts.
    - [Connect]: the outgoing half of [p2p/server]: dialling, targets and the
      redial loop.  The [connect] call is a function argument.
    - [NetThreads]: the threads of [p2p/server] ([Start], [Stop], [AcceptLoop],
      [ConnectLoop], [ConnectTo], [ReadLoop]) as a step relation on the nodes,
      the peer table and the descriptors of the process that they share.
    - [Rpc]: [rpc/server] (request reader, authentication, JSON scanner,
      dispatcher), [cli/commands] and [bin/cdx-cli.cpp].  A socket is the list of
      events its [poll] and [recv] calls saw.
    - [RpcMethods]: [rpc/methods] and the methods [bin/cdxd.cpp] registers, over
      the state of [Handlers], the wallet, the miner and the connections.
    - [RpcServer]: [Start], [Stop] and [AcceptLoop] of [rpc/server]: the listening
      socket, one client after the other, and the loop that sends an answer.
    - [Bson], [Dns], [Mongo], [Tls]: [storage/mongo.cpp]: documents, the SRV
      lookup, the OP_MSG exchange with SCRAM authentication and the three
      registry commands, and the TLS socket.  The client is proved against the
      socket interface [TlsSocket], of which the loops of [Tls] are the instance
      [tls_stream]; the hash functions and base64 of OpenSSL are [ScramLib]
      with the laws [ScramLaws] (the lengths of a MAC, and base64 decoding
      inverts encoding).
    - [Registry]: [RunMongoRegistry] and [DetectLocalIp] of [bin/cdxd.cpp], the
      composition of the client with [AddTarget] of [Connect].
    - [Node]: [main] of [bin/cdxd.cpp]: from options, storage and wallet file to a
      running node, and what is written when it stops; the backup file.
    - [System]: all threads of the node together on one state ([sys_step]).
    - [UInt160]: the 160-bit hash of [crypto/uint256], and the remaining
      operators of [uint256].
    - [GenesisTool]: [bin/cdx-genesis.cpp], and [main] of
      [tools/mine_genesis.cpp] around [GenesisMiner].

    ** What the theorems show

    - Money: [check_block_no_inflation], [chain_supply_cap],
      [network_cannot_inflate] and [node_cannot_inflate] bound the value of all
      coins by the subsidies, for one block, for every reachable chain, for
      every sequence of network messages and for everything a started node
      does; [cumulative_supply_exact] is the closed sum.
    - Authorisation: [p2pkh_spend_authorised], [check_inputs_exact],
      [signature_hash_commits], [check_block_no_double_spend].
    - Chain: [chain_well_formed], [accepted_on_active_parent], and where the code
      is undefined ([accept_boundary_undefined], [message_defined]).
    - Persistence: [storage_refines_map] (the block files implement a map),
      [chainstate_save_load], [restart_restores_chain] (with the case in which a
      restart loses the chain).
    - Pool: [mempool_no_conflicts], [remove_spent_exact],
      [remove_conflicts_behaviour].
    - Mining: [mine_header_correct], [candidate_block_valid],
      [mined_block_extends_chain], [genesis_miner_sound],
      [genesis_miner_exhaustion].
    - Network: [stream_reassembly], [parse_message_safe], [handshake_reply],
      [sync_progress], [target_redialled] (a lost target is dialled again).
    - Threads: [server_descriptors] (in every interleaving a descriptor is closed
      once, by its owner, and each peer of the table has its own),
      [server_shutdown] (once [Stop] has begun all threads end and nothing is
      left open), [start_failed], and [reader_on_foreign_descriptor], the one
      moment at which a reader may use a number that is not its own.
    - Wallet: [sign_verifies] (what [Sign] returns, [VerifySignature] accepts),
      [keystore_refines_vault] (the store implements a map of keys under a
      password), [keystore_file_roundtrip], [payment_succeeds] and
      [payment_refused] (a payment is built and valid exactly when the funds
      suffice, once the signatures come out, and taken by a pool that does not
      spend its coins yet), [backup_restore] (open and locked),
      [backup_file_roundtrip], [wallet_survives_restart],
      [wallet_balance_exact] and [wallet_rescan_exact] (what the wallet shows is
      what the coins and the blocks say); the example [new_address_lost] of
      [System] runs a key that a node made and did not write.
    - RPC: [rpc_call_end_to_end] (what the client sends reaches the method as it
      was given, and its answer comes back), [cli_command_answered],
      [rpc_authentication] (without the credentials no method runs),
      [rpc_reader_exact], [rpc_methods_safe] (no method changes the
      chain, drops a key or puts into the pool what validation rejects),
      [rpc_session_safe] (nor does any session of clients),
      [rpc_strangers_change_nothing], [rpc_queries_exact],
      [sendtoaddress_exact], [json_escape_roundtrip], [cli_defined].
    - Registry: [bson_roundtrip], [bson_reader_bounds] (for which bytes the reader
      stays inside its buffer: every read of the parser is a checked one, [rd]
      and [rd_bytes]), [srv_lookup_defined], [srv_answer_read],
      [scram_proof_accepted] (a server that holds the stored key accepts the
      client's proof), [mongo_uri_parsed], [registry_round_targets] (a round
      adds the fetched peers, never the node itself), [detected_address],
      [read_exact_stream], [write_all_stream], [tls_resources],
      [command_over_tls] (a command and its reply over the loops of the socket).
    - Node: [node_start_ready] (the start-up gives a state the other theorems
      speak about), [genesis_tool_first] and [mine_genesis_prints_genesis] (the
      tools print the first block that meets its target), [genesis_resume] and
      [resume_skips_nonce] (what a resumed search may miss).
    - Arithmetic and encodings: the 256-bit operations are arithmetic modulo
      2^256 ([compound_assignments] for sequences of them), compact targets, the midstate hash, serialization, addresses and
      amounts round-trip.

    Two statements are about digests that agree: [signature_hash_commits] and
    [merkle_root_binding] then say of which inputs.  What is the same is the
    content, or the two encodings (of the two lists, at one node of their
    trees) are named as a collision.

    ** Fuel and bounds

    [supply_loop] runs at most 65 times (the subsidy is zero after 64 halvings);
    [merkle_loop] as often as there are hashes; [eval_loop] has the operation
    budget of the interpreter, 201; [last_push] the script length; [fork_loop] the
    height plus two; [digits_loop] twice the number of bytes; [dec_digits] 20
    (64-bit numbers have at most 20 digits); [process_loop] the buffer length plus
    one (a message takes at least 24 bytes); [locator_loop] 32 and [locator_from]
    the height plus one; [headers_from] the number of heights left;
    [genesis_search] [0xffffffff] and [nonce_loop] [2^32] nonces.  Where a
    theorem speaks of a result it shows that the fuel is enough.  The loops of
    [Sign] and of its nonce are unbounded in the source: [sign_verifies] says
    for which fuel they return, and when the first never does.  [hash_loop] of the mining
    thread is unbounded in the source; its theorems hold for any fuel.
    [ParseBson] has the document length plus one (a field takes a byte; the fuel
    is enough by [parse_total]); [skip_name] and [read_target] the answer length
    plus one ([skip_name_stops]); [emit] of the base64 encoder 3 rounds (a byte
    completes at most two characters); [tool_loop] is unbounded in the
    source and [genesis_tool_first] holds for any fuel.  The loops over sockets
    ([read_loop], [send_loop], [AcceptLoop], [ReadExact], [WriteAll]) are
    structural in the events; [send_loop], [ReadExact] and [WriteAll] give
    [None] when the events end before the loop does.  The threads of [NetThreads] are a relation without fuel;
    [server_shutdown] bounds their steps by [weight].

    ** Not modelled

    The mutexes of the chain and of the wallet, which make the handlers, the RPC
    methods and the mining round atomic: the model takes that as given (the
    threads of the P2P server and of the genesis miner are modelled down to
    their accesses to shared data); the crash handler, which prints a backtrace
    and exits; usage texts and log lines, the genesis miner's rate report, and
    floating-point display values ([GetDifficultyFromBits]; the texts of the
    difficulty and of the fee rate are parameters); what a detached reader does
    to a server that was destroyed.  The answers of the system calls, the
    clock and random bytes are arguments or are chosen by the step relations.
    The MongoDB server is another program: the theorems on the client say what
    they take its replies to be.  Elliptic curves, the digests, AES and TLS are
    OpenSSL and enter as parameters; a failure of a digest, which the code
    turns into an exception, is not modelled.

    ** Order of the development

    The files come in the order in which they depend on each other, from
    arithmetic through validation, the chain and its storage, to the servers,
    and the node.  Every operation of the program that changes
    state has a definition; what is left is under "Not modelled". *)
From Stdlib Require Export ZArith Lia List.
From stdpp Require Export base gmap list strings.

(** * Machine integers

    Every fixed-width C++ integer is a [Z] together with the wrap-around of
    its width: [u8] .. [u64] are the casts to the unsigned types, [i32] and
    [i64] the casts to the signed types (two's complement). *)

Declare Scope cdx_scope.
Delimit Scope cdx_scope with cdx.
Open Scope Z_scope.

Definition u8 (z : Z) : Z := z mod 2 ^ 8.
Definition u16 (z : Z) : Z := z mod 2 ^ 16.
Definition u32 (z : Z) : Z := z mod 2 ^ 32.
Definition u64 (z : Z) : Z := z mod 2 ^ 64.
Definition u128 (z : Z) : Z := z mod 2 ^ 128.
Definition i32 (z : Z) : Z := (z + 2 ^ 31) mod 2 ^ 32 - 2 ^ 31.
Definition i64 (z : Z) : Z := (z + 2 ^ 63) mod 2 ^ 64 - 2 ^ 63.

(** Range predicates of the types. *)
Definition is_u8 (z : Z) : Prop := 0 <= z < 2 ^ 8.
Definition is_u16 (z : Z) : Prop := 0 <= z < 2 ^ 16.
Definition is_u32 (z : Z) : Prop := 0 <= z < 2 ^ 32.
Definition is_u64 (z : Z) : Prop := 0 <= z < 2 ^ 64.
Definition is_i32 (z : Z) : Prop := - 2 ^ 31 <= z < 2 ^ 31.
Definition is_i64 (z : Z) : Prop := - 2 ^ 63 <= z < 2 ^ 63.

(** Signed 64-bit addition and subtraction.  Overflow of a signed addition is
    undefined in C++; the model takes the two's complement result, and the
    theorems about sums show where the exact result is in range. *)
Definition i64_add (a b : Z) : Z := i64 (a + b).
Definition i64_sub (a b : Z) : Z := i64 (a - b).

Notation "a '+i' b" := (i64_add a b) (at level 50, left associativity) : cdx_scope.
Notation "a '-i' b" := (i64_sub a b) (at level 50, left associativity) : cdx_scope.

(** * Bytes *)

(** [std::vector<uint8_t>] is a list of [Z] whose elements are bytes. *)
Abbreviation bytes := (list Z).
Definition bytes_wf (bs : bytes) : Prop := Forall is_u8 bs.

(** The loop [for i < n: push_back((uint8_t)(v >> (8*i)))]. *)
Definition le_bytes (n : nat) (v : Z) : bytes :=
  map (fun i => u8 (Z.shiftr v (8 * Z.of_nat i))) (seq 0 n).

(** The loop [for i: v |= (uintN_t)b[i] << (8*i)], started at byte [k]. *)
Fixpoint le_read_from (k : Z) (bs : bytes) : Z :=
  match bs with
  | [] => 0
  | b :: r => Z.lor (Z.shiftl b (8 * k)) (le_read_from (k + 1) r)
  end.
Definition le_read (bs : bytes) : Z := le_read_from 0 bs.

(** * Results

    A C++ function that returns [bool] and fills an [error] string is a
    computation in [res]. *)
Inductive res (A : Type) : Type :=
| Ok (a : A)
| Err (e : string).
Arguments Ok {A} a.
Arguments Err {A} e.

#[export] Instance res_ret : MRet res := fun A a => Ok a.
#[export] Instance res_bind : MBind res :=
  fun A B f m => match m with Ok a => f a | Err e => Err e end.

(** [if (c) { error = e; return false; }] *)
Definition fail_if (c : bool) (e : string) : res unit :=
  if c then Err e else Ok tt.

(** A loop that threads a state and may fail. *)
Fixpoint res_fold {A S} (f : S -> A -> res S) (s : S) (l : list A) : res S :=
  match l with
  | [] => Ok s
  | a :: r => s' ← f s a; res_fold f s' r
  end.

Definition is_ok {A} (r : res A) : bool :=
  match r with Ok _ => true | Err _ => false end.

(** Code that may have undefined behaviour (an index outside a vector, a read
    through a dangling reference) ends in an [outcome]. *)
Inductive outcome (A : Type) : Type :=
| Done (a : A)
| Undef.
Arguments Done {A} a.
Arguments Undef {A}.

#[export] Instance outcome_ret : MRet outcome := fun A a => Done a.
#[export] Instance outcome_bind : MBind outcome :=
  fun A B f m => match m with Done a => f a | Undef => Undef end.

(** A loop with such a body. *)
Fixpoint out_fold {A S} (f : S -> A -> outcome S) (s : S) (l : list A) : outcome S :=
  match l with
  | [] => Done s
  | a :: r => s' ← f s a; out_fold f s' r
  end.

(** Plain sum of a list of integers. *)
Definition sumZ (l : list Z) : Z := foldr Z.add 0 l.
(** The loop [int64_t s = 0; for (v : l) s += v;] *)
Definition i64_sum (l : list Z) : Z := foldl i64_add 0 l.

(** * Automation *)

Create HintDb cdx.
Create Rewrite HintDb cdx.

(** [u_range] exposes the range predicates and calls [lia]. *)
Ltac u_range :=
  unfold is_u8, is_u16, is_u32, is_u64, is_i32, is_i64 in *; lia.

(** The same with quotients and remainders turned into equations. *)
Ltac u_divmod :=
  unfold u8, u16, u32, u64, u128, is_u8, is_u16, is_u32, is_u64, is_i32, is_i64 in *;
  Z.to_euclidean_division_equations; lia.

Lemma bind_Ok {A B} (m : res A) (f : A -> res B) b :
  m ≫= f = Ok b <-> exists a, m = Ok a /\ f a = Ok b.
Proof.
  destruct m; simpl; split; intros H; try by eauto.
  - by destruct H as (? & [= <-] & ?).
  - by destruct H as (? & ? & ?).
Qed.

Lemma fail_if_Ok c e u : fail_if c e = Ok u <-> c = false.
Proof. destruct c, u; simpl; split; congruence. Qed.

(** [res_inv H] decomposes a hypothesis [m ≫= f = Ok b] into the results of
    its parts. *)
Ltac res_inv H :=
  repeat match type of H with
  | _ ≫= _ = Ok _ =>
      let a := fresh "a" in let Ha := fresh "Hr" in
      apply bind_Ok in H as (a & Ha & H);
      try (apply fail_if_Ok in Ha)
  end.

(** Case analysis on the [if]s of the goal or of a hypothesis. *)
Ltac case_if :=
  match goal with
  | |- context [if ?b then _ else _] => destruct b eqn:?
  | H : context [if ?b then _ else _] |- _ => destruct b eqn:?
  end.

(** * Machine-integer lemmas *)

Lemma u8_range z : is_u8 (u8 z).
Proof. unfold u8, is_u8. apply Z.mod_pos_bound. lia. Qed.
Lemma u32_range z : is_u32 (u32 z).
Proof. unfold u32, is_u32. apply Z.mod_pos_bound. lia. Qed.
Lemma u64_range z : is_u64 (u64 z).
Proof. unfold u64, is_u64. apply Z.mod_pos_bound. lia. Qed.

Lemma u8_id z : is_u8 z -> u8 z = z.
Proof. unfold u8, is_u8. intros. by apply Z.mod_small. Qed.
Lemma u16_id z : is_u16 z -> u16 z = z.
Proof. unfold u16, is_u16. intros. by apply Z.mod_small. Qed.
Lemma u32_id z : is_u32 z -> u32 z = z.
Proof. unfold u32, is_u32. intros. by apply Z.mod_small. Qed.
Lemma u64_id z : is_u64 z -> u64 z = z.
Proof. unfold u64, is_u64. intros. by apply Z.mod_small. Qed.

Lemma i64_id z : is_i64 z -> i64 z = z.
Proof. unfold i64, is_i64. intros. rewrite Z.mod_small; lia. Qed.
Lemma i32_id z : is_i32 z -> i32 z = z.
Proof. unfold i32, is_i32. intros. rewrite Z.mod_small; lia. Qed.
Lemma i64_range z : is_i64 (i64 z).
Proof. unfold i64, is_i64. pose proof (Z.mod_pos_bound (z + 2^63) (2^64)). lia. Qed.
Lemma i32_range z : is_i32 (i32 z).
Proof. unfold i32, is_i32. pose proof (Z.mod_pos_bound (z + 2^31) (2^32)). lia. Qed.

(** Casting to unsigned and back is the identity on the signed type. *)
Lemma i64_u64 z : is_i64 z -> i64 (u64 z) = z.
Proof.
  unfold i64, u64, is_i64. intros.
  rewrite Zplus_mod_idemp_l, Z.mod_small; lia.
Qed.
Lemma i32_u32 z : is_i32 z -> i32 (u32 z) = z.
Proof.
  unfold i32, u32, is_i32. intros.
  rewrite Zplus_mod_idemp_l, Z.mod_small; lia.
Qed.

#[export] Hint Resolve u8_range u32_range u64_range i64_range i32_range : cdx.

(** * Byte lemmas *)

Lemma lor_disjoint_add a b k :
  0 <= k -> 0 <= a < 2 ^ k -> Z.lor a (b * 2 ^ k) = a + b * 2 ^ k.
Proof.
  intros Hk Ha. rewrite <- Z.shiftl_mul_pow2 by done.
  symmetry. apply Z.add_nocarry_lor, Z.bits_inj'. intros i Hi.
  rewrite Z.land_spec, Z.bits_0, Z.shiftl_spec by done.
  destruct (Z.ltb_spec i k).
  - rewrite (Z.testbit_neg_r b) by lia. apply andb_false_r.
  - replace a with (a mod 2 ^ k) by (apply Z.mod_small; lia).
    by rewrite Z.mod_pow2_bits_high by lia.
Qed.

Lemma le_read_from_S k bs :
  0 <= k -> le_read_from (k + 1) bs = Z.shiftl (le_read_from k bs) 8.
Proof.
  revert k. induction bs as [|b bs IH]; intros k Hk; simpl.
  - by rewrite Z.shiftl_0_l.
  - rewrite IH, Z.shiftl_lor, Z.shiftl_shiftl by lia.
    do 2 f_equal. lia.
Qed.

Lemma le_read_cons b bs :
  is_u8 b -> le_read (b :: bs) = b + 2 ^ 8 * le_read bs.
Proof.
  intros Hb. unfold le_read. simpl le_read_from. change (8 * 0) with 0.
  rewrite Z.shiftl_0_r, (le_read_from_S 0), Z.shiftl_mul_pow2 by lia.
  rewrite lor_disjoint_add by u_range. lia.
Qed.

Lemma le_read_bound bs : bytes_wf bs -> 0 <= le_read bs < 2 ^ (8 * Z.of_nat (length bs)).
Proof.
  induction 1 as [|b bs Hb Hbs IH]; [done|].
  rewrite le_read_cons by done.
  replace (8 * Z.of_nat (length (b :: bs))) with (8 + 8 * Z.of_nat (length bs)) by (simpl; lia).
  rewrite Z.pow_add_r by lia. u_range.
Qed.

Lemma le_bytes_S n v : le_bytes (S n) v = u8 v :: le_bytes n (Z.shiftr v 8).
Proof.
  unfold le_bytes. simpl. f_equal. rewrite <- seq_shift, map_map.
  apply map_ext. intros i. rewrite Z.shiftr_shiftr by lia. do 2 f_equal. lia.
Qed.

Lemma length_le_bytes n v : length (le_bytes n v) = n.
Proof. unfold le_bytes. by rewrite length_map, length_seq. Qed.

Lemma le_bytes_wf n v : bytes_wf (le_bytes n v).
Proof. unfold bytes_wf, le_bytes. apply Forall_map, Forall_true. intros. apply u8_range. Qed.

(** Reading back what the write loop produced gives the value modulo the
    width written. *)
Lemma le_read_bytes n v : le_read (le_bytes n v) = v mod 2 ^ (8 * Z.of_nat n).
Proof.
  revert v. induction n as [|n IH]; intros v.
  - change (2 ^ (8 * Z.of_nat 0)) with 1. by rewrite Z.mod_1_r.
  - rewrite le_bytes_S, le_read_cons, IH by apply u8_range.
    replace (8 * Z.of_nat (S n)) with (8 + 8 * Z.of_nat n) by lia.
    rewrite Z.pow_add_r, Z.rem_mul_r by lia.
    rewrite Z.shiftr_div_pow2 by lia. done.
Qed.

Lemma le_bytes_read bs : bytes_wf bs -> le_bytes (length bs) (le_read bs) = bs.
Proof.
  induction 1 as [|b bs Hb Hbs IH]; [done|].
  simpl length. rewrite le_bytes_S, le_read_cons by done.
  rewrite Z.shiftr_div_pow2 by lia. f_equal.
  - unfold u8. rewrite Z.mul_comm, Z.mod_add by lia. apply u8_id, Hb.
  - rewrite Z.mul_comm, Z.div_add, Z.div_small, Z.add_0_l by u_range. done.
Qed.

#[export] Hint Resolve le_bytes_wf : cdx.
#[export] Hint Rewrite length_le_bytes : cdx.

(** * Sums *)

Lemma sumZ_cons a l : sumZ (a :: l) = a + sumZ l.
Proof. reflexivity. Qed.

Lemma sumZ_app l1 l2 : sumZ (l1 ++ l2) = sumZ l1 + sumZ l2.
Proof. induction l1; simpl; lia. Qed.

Lemma sumZ_nonneg l : Forall (fun v => 0 <= v) l -> 0 <= sumZ l.
Proof. induction 1; simpl; lia. Qed.

Lemma i64_add_assoc_i64 a b : i64 (i64 a + b) = i64 (a + b).
Proof.
  unfold i64. f_equal.
  replace ((a + 2 ^ 63) mod 2 ^ 64 - 2 ^ 63 + b + 2 ^ 63)
    with ((a + 2 ^ 63) mod 2 ^ 64 + b) by lia.
  rewrite Zplus_mod_idemp_l. f_equal. lia.
Qed.

Lemma i64_sum_acc l a : foldl i64_add (i64 a) l = i64 (a + sumZ l).
Proof.
  revert a. induction l as [|v l IH]; intros a; simpl.
  - f_equal. lia.
  - unfold i64_add at 2. rewrite i64_add_assoc_i64, IH. f_equal. lia.
Qed.

(** The wrapped accumulation equals the exact sum whenever that fits. *)
Lemma i64_sum_eq l : i64_sum l = i64 (sumZ l).
Proof. unfold i64_sum. change 0 with (i64 0) at 1. rewrite i64_sum_acc. done. Qed.

(** * Lists *)

Lemma res_fold_app {A S} (f : S -> A -> res S) s l1 l2 :
  res_fold f s (l1 ++ l2) = (s' ← res_fold f s l1; res_fold f s' l2).
Proof.
  revert s. induction l1 as [|a l1 IH]; intros s; simpl; [done|].
  destruct (f s a); simpl; auto.
Qed.

(** An invariant of the loop body is an invariant of the loop. *)
Lemma res_fold_inv {A S} (P : S -> Prop) (f : S -> A -> res S) l s s' :
  P s -> (forall s a s', a ∈ l -> P s -> f s a = Ok s' -> P s') ->
  res_fold f s l = Ok s' -> P s'.
Proof.
  revert s. induction l as [|a l IH]; intros s Hs Hf H; simpl in H.
  - by injection H as <-.
  - apply bind_Ok in H as (s1 & H1 & H2).
    apply (IH s1); [|intros ???? |done].
    + by apply (Hf s a); [left|..].
    + apply Hf. by right.
Qed.

(** Cutting a chunk of length [n] out of a concatenation. *)
Lemma chunk_app {A} (n k : nat) (l1 l2 l3 : list A) :
  length l1 = k -> length l2 = n -> take n (drop k (l1 ++ l2 ++ l3)) = l2.
Proof. intros <- <-. by rewrite drop_app_length, take_app_length. Qed.

Lemma le_bytes_read_u64 v : is_u64 v -> le_read (le_bytes 8 v) = v.
Proof. intros. rewrite le_read_bytes. by apply Z.mod_small. Qed.
Lemma le_bytes_read_u32 v : is_u32 v -> le_read (le_bytes 4 v) = v.
Proof. intros. rewrite le_read_bytes. by apply Z.mod_small. Qed.
Lemma le_bytes_read_u16 v : is_u16 v -> le_read (le_bytes 2 v) = v.
Proof. intros. rewrite le_read_bytes. by apply Z.mod_small. Qed.
