(* ===== verification/UInt256.v ===== *)
(** [crypto/uint256.h]: the 256-bit unsigned integer used for block hashes,
    difficulty targets and chain work, four 64-bit words with word 0 the least
    significant.  Definitions follow the loops of the source word by word;
    the theorems relate each operation to integer arithmetic modulo 2^256. *)
From S2P Require Import Prelude.

(** * Definitions *)

Record uint256 := U256 { w0 : Z; w1 : Z; w2 : Z; w3 : Z }.

#[export] Instance uint256_eq_dec : EqDecision uint256.
Proof. solve_decision. Defined.
#[export] Instance uint256_countable : Countable uint256.
Proof.
  refine (inj_countable' (fun u => (w0 u, w1 u, w2 u, w3 u))
            (fun '(a, b, c, d) => U256 a b c d) _).
  by intros [].
Defined.

Module uint256.

(** [w[i]] *)
Definition w (u : uint256) (i : Z) : Z :=
  if i =? 0 then w0 u else if i =? 1 then w1 u
  else if i =? 2 then w2 u else if i =? 3 then w3 u else 0.

(** [for i in 0..3: r.w[i] = f(i)] *)
Definition words (f : Z -> Z) : uint256 := U256 (f 0) (f 1) (f 2) (f 3).

(** [uint256()] and [uint256(uint64_t v)] *)
Definition zero : uint256 := U256 0 0 0 0.
Definition of_u64 (v : Z) : uint256 := U256 v 0 0 0.

Definition isZero (u : uint256) : bool :=
  Z.lor (Z.lor (Z.lor (w0 u) (w1 u)) (w2 u)) (w3 u) =? 0.

(** [operator==] *)
Definition eqb (a b : uint256) : bool :=
  (w0 a =? w0 b) && (w1 a =? w1 b) && (w2 a =? w2 b) && (w3 a =? w3 b).

(** [operator<]: the first differing word from the top decides. *)
Definition ltb (a b : uint256) : bool :=
  if negb (w3 a =? w3 b) then w3 a <? w3 b
  else if negb (w2 a =? w2 b) then w2 a <? w2 b
  else if negb (w1 a =? w1 b) then w1 a <? w1 b
  else if negb (w0 a =? w0 b) then w0 a <? w0 b
  else false.
Definition gtb (a b : uint256) : bool := ltb b a.
Definition leb (a b : uint256) : bool := negb (ltb b a).
Definition geb (a b : uint256) : bool := negb (ltb a b).

(** Bitwise operators, word by word. *)
Definition lnot (a : uint256) : uint256 := words (fun i => u64 (Z.lnot (w a i))).
Definition land (a b : uint256) : uint256 := words (fun i => Z.land (w a i) (w b i)).
Definition lor (a b : uint256) : uint256 := words (fun i => Z.lor (w a i) (w b i)).
Definition lxor (a b : uint256) : uint256 := words (fun i => Z.lxor (w a i) (w b i)).

(** Body of the [operator<<] loop. *)
Definition shl_word (a : uint256) (wordShift bitShift i : Z) : Z :=
  let src := i - wordShift in
  if src <? 0 then 0
  else
    let r := u64 (Z.shiftl (w a src) bitShift) in
    if negb (bitShift =? 0) && (src - 1 >=? 0)
    then Z.lor r (Z.shiftr (w a (src - 1)) (64 - bitShift))
    else r.
Definition shl (a : uint256) (n : Z) : uint256 :=
  if n >=? 256 then zero else words (shl_word a (n / 64) (n mod 64)).

(** Body of the [operator>>] loop. *)
Definition shr_word (a : uint256) (wordShift bitShift i : Z) : Z :=
  let src := i + wordShift in
  if src >=? 4 then 0
  else
    let r := Z.shiftr (w a src) bitShift in
    if negb (bitShift =? 0) && (src + 1 <? 4)
    then Z.lor r (u64 (Z.shiftl (w a (src + 1)) (64 - bitShift)))
    else r.
Definition shr (a : uint256) (n : Z) : uint256 :=
  if n >=? 256 then zero else words (shr_word a (n / 64) (n mod 64)).

(** One iteration of the carry loop of [operator+]: 128-bit sum, low word,
    next carry. *)
Definition add_step (x y carry : Z) : Z * Z :=
  let s := u128 (x + y + carry) in (u64 s, Z.shiftr s 64).
Definition add (a b : uint256) : uint256 :=
  let '(r0, c0) := add_step (w0 a) (w0 b) 0 in
  let '(r1, c1) := add_step (w1 a) (w1 b) c0 in
  let '(r2, c2) := add_step (w2 a) (w2 b) c1 in
  let '(r3, _) := add_step (w3 a) (w3 b) c2 in
  U256 r0 r1 r2 r3.

(** One iteration of the borrow loop of [operator-]; [o.w[i] + borrow] is a
    128-bit sum in the source. *)
Definition sub_step (x y borrow : Z) : Z * Z :=
  let d := u128 (x - y - borrow) in
  (u64 d, if x <? u128 (y + borrow) then 1 else 0).
Definition sub (a b : uint256) : uint256 :=
  let '(r0, c0) := sub_step (w0 a) (w0 b) 0 in
  let '(r1, c1) := sub_step (w1 a) (w1 b) c0 in
  let '(r2, c2) := sub_step (w2 a) (w2 b) c1 in
  let '(r3, _) := sub_step (w3 a) (w3 b) c2 in
  U256 r0 r1 r2 r3.

(** [mul64] *)
Definition mul64_step (x m carry : Z) : Z * Z :=
  let p := u128 (x * m + carry) in (u64 p, Z.shiftr p 64).
Definition mul64 (a : uint256) (m : Z) : uint256 :=
  let '(r0, c0) := mul64_step (w0 a) m 0 in
  let '(r1, c1) := mul64_step (w1 a) m c0 in
  let '(r2, c2) := mul64_step (w2 a) m c1 in
  let '(r3, _) := mul64_step (w3 a) m c2 in
  U256 r0 r1 r2 r3.

(** [div64], from the top word down; the second component is [*rem].
    The divisor is not zero in the source's calls. *)
Definition div64_step (x d acc : Z) : Z * Z :=
  let acc := Z.lor (u128 (Z.shiftl acc 64)) x in
  (u64 (acc / d), acc mod d).
Definition div64 (a : uint256) (d : Z) : uint256 * Z :=
  let '(r3, a3) := div64_step (w3 a) d 0 in
  let '(r2, a2) := div64_step (w2 a) d a3 in
  let '(r1, a1) := div64_step (w1 a) d a2 in
  let '(r0, a0) := div64_step (w0 a) d a1 in
  (U256 r0 r1 r2 r3, u64 a0).

Definition bitTest (u : uint256) (n : Z) : bool :=
  negb (Z.land (Z.shiftr (w u (n / 64)) (n mod 64)) 1 =? 0).
Definition setBit (u : uint256) (n : Z) : uint256 :=
  words (fun i => if i =? n / 64
                  then Z.lor (w u i) (u64 (Z.shiftl 1 (n mod 64)))
                  else w u i).

(** Body of the [div] loop for one [bit], on the pair [(q, rem)]. *)
Definition div_step (a d : uint256) (bit : Z) (s : uint256 * uint256)
    : uint256 * uint256 :=
  let '(q, rem) := s in
  let rem := shl rem 1 in
  let rem := if bitTest a bit
             then U256 (Z.lor (w0 rem) 1) (w1 rem) (w2 rem) (w3 rem) else rem in
  if geb rem d then (setBit q bit, sub rem d) else (q, rem).
(** [for (int bit = n - 1; bit >= 0; --bit)] *)
Fixpoint div_loop (a d : uint256) (n : nat) (s : uint256 * uint256)
    : uint256 * uint256 :=
  match n with
  | O => s
  | S k => div_loop a d k (div_step a d (Z.of_nat k) s)
  end.
Definition div (a d : uint256) : uint256 :=
  if isZero d then zero
  else if ltb a d then zero
  else fst (div_loop a d 256 (zero, zero)).

(** [highestBit]: scan the words and then their bits from the top. *)
Fixpoint highestBit_word (x : Z) (n : nat) : Z :=
  match n with
  | O => -1
  | S b => if negb (Z.land (Z.shiftr x (Z.of_nat b)) 1 =? 0)
           then Z.of_nat b else highestBit_word x b
  end.
Fixpoint highestBit_from (u : uint256) (n : nat) : Z :=
  match n with
  | O => -1
  | S i =>
      if negb (w u (Z.of_nat i) =? 0) then
        let b := highestBit_word (w u (Z.of_nat i)) 64 in
        if b >=? 0 then Z.of_nat i * 64 + b else highestBit_from u i
      else highestBit_from u i
  end.
Definition highestBit (u : uint256) : Z := highestBit_from u 4.
Definition getBitLength (u : uint256) : Z := highestBit u + 1.

(** Little-endian byte representation. *)
Definition setBytesLE (p : bytes) : uint256 :=
  words (fun i => le_read (take 8 (drop (Z.to_nat (i * 8)) p))).
Definition getBytesLE (u : uint256) : bytes :=
  le_bytes 8 (w0 u) ++ le_bytes 8 (w1 u) ++ le_bytes 8 (w2 u) ++ le_bytes 8 (w3 u).
(** [getBytesBE]: byte [i] is taken from word [3 - i/8]. *)
Definition getBytesBE (u : uint256) : bytes :=
  map (fun i => let wordIdx := 3 - i / 8 in
                let shift := 56 - 8 * (i mod 8) in
                u8 (Z.shiftr (w u wordIdx) shift))
      (map Z.of_nat (seq 0 32)).

(** [pow2_256_div]: 2^256 / d by shift and subtract on a 256-bit remainder. *)
Definition pow2_step (d : uint256) (bit : Z) (s : uint256 * uint256)
    : uint256 * uint256 :=
  let '(q, rem) := s in
  let rem := shl rem 1 in
  if geb rem d then (setBit q bit, sub rem d) else (q, rem).
Fixpoint pow2_loop (d : uint256) (n : nat) (s : uint256 * uint256)
    : uint256 * uint256 :=
  match n with
  | O => s
  | S k => pow2_loop d k (pow2_step d (Z.of_nat k) s)
  end.
Definition pow2_256_div (d : uint256) : uint256 :=
  if isZero d then zero else fst (pow2_loop d 256 (zero, of_u64 1)).
Definition chainWorkOfTarget (target : uint256) : uint256 :=
  pow2_256_div (add target (of_u64 1)).

(** * Specification: the integer a value denotes *)

Definition to_Z (u : uint256) : Z :=
  w0 u + 2 ^ 64 * w1 u + 2 ^ 128 * w2 u + 2 ^ 192 * w3 u.
Definition wf (u : uint256) : Prop :=
  is_u64 (w0 u) /\ is_u64 (w1 u) /\ is_u64 (w2 u) /\ is_u64 (w3 u).
(** The representation of an integer below 2^256. *)
Definition of_Z (z : Z) : uint256 :=
  words (fun i => u64 (Z.shiftr z (64 * i))).

End uint256.

(** * Representation lemmas *)

Import uint256.

Lemma to_Z_bound u : wf u -> 0 <= to_Z u < 2 ^ 256.
Proof. unfold wf, to_Z. u_range. Qed.

Lemma to_Z_inj a b : wf a -> wf b -> to_Z a = to_Z b -> a = b.
Proof.
  destruct a, b. unfold wf, to_Z. simpl. intros (?&?&?&?) (?&?&?&?) E.
  f_equal; u_range.
Qed.

Lemma wf_words f : (forall i, 0 <= i < 4 -> is_u64 (f i)) -> wf (words f).
Proof. intros H. unfold wf, words. simpl. repeat split; apply H; lia. Qed.

Lemma wf_w u i : wf u -> is_u64 (w u i).
Proof. intros (?&?&?&?). unfold w. by repeat case_match. Qed.

Lemma wf_zero : wf zero.
Proof. unfold wf. simpl. u_range. Qed.
Lemma wf_of_u64 v : is_u64 v -> wf (of_u64 v).
Proof. unfold wf. simpl. u_range. Qed.
Lemma to_Z_of_u64 v : to_Z (of_u64 v) = v.
Proof. unfold to_Z. simpl. lia. Qed.
Lemma to_Z_zero : to_Z zero = 0.
Proof. done. Qed.

Lemma of_Z_wf z : wf (of_Z z).
Proof. apply wf_words. intros. apply u64_range. Qed.

Lemma to_Z_of_Z z : to_Z (of_Z z) = z mod 2 ^ 256.
Proof.
  unfold of_Z, to_Z, words, u64. simpl w0. simpl w1. simpl w2. simpl w3.
  rewrite !Z.shiftr_div_pow2 by lia.
  change (64 * 0) with 0. change (64 * 1) with 64. change (64 * 2) with (64 + 64).
  change (64 * 3) with (64 + 64 + 64).
  rewrite !Z.pow_add_r, <- !Z.div_div by lia.
  change (2 ^ 0) with 1. rewrite Z.div_1_r.
  change (2 ^ 256) with (2 ^ 64 * (2 ^ 64 * (2 ^ 64 * 2 ^ 64))).
  rewrite !Z.rem_mul_r by lia. lia.
Qed.

Lemma of_Z_to_Z u : wf u -> of_Z (to_Z u) = u.
Proof.
  intros H. apply to_Z_inj; [apply of_Z_wf|done|].
  rewrite to_Z_of_Z. apply Z.mod_small, to_Z_bound, H.
Qed.

Lemma isZero_spec u : wf u -> isZero u = (to_Z u =? 0).
Proof.
  intros (H0&H1&H2&H3). unfold isZero, to_Z. apply eq_true_iff_eq.
  rewrite !Z.eqb_eq, !Z.lor_eq_0_iff. u_range.
Qed.

Lemma eqb_spec a b : eqb a b = bool_decide (a = b).
Proof.
  apply eq_true_iff_eq. unfold eqb. rewrite bool_decide_eq_true, !andb_true_iff, !Z.eqb_eq.
  destruct a, b; simpl. split; [intros [[[-> ->] ->] ->]; done | by intros [= -> -> -> ->]].
Qed.

Lemma ltb_spec a b : wf a -> wf b -> ltb a b = (to_Z a <? to_Z b).
Proof.
  intros (?&?&?&?) (?&?&?&?). unfold ltb, to_Z.
  apply eq_true_iff_eq. rewrite Z.ltb_lt.
  repeat match goal with |- context [?x =? ?y] => destruct (Z.eqb_spec x y) end;
    simpl; rewrite ?Z.ltb_lt; u_range || (split; [done|u_range]).
Qed.

Lemma leb_spec a b : wf a -> wf b -> leb a b = (to_Z a <=? to_Z b).
Proof. intros. unfold leb. rewrite ltb_spec by done. by rewrite Z.leb_antisym. Qed.

Lemma geb_spec a b : wf a -> wf b -> geb a b = (to_Z b <=? to_Z a).
Proof. intros. unfold geb. rewrite ltb_spec by done. by rewrite Z.leb_antisym. Qed.

(** * Addition, subtraction, multiplication and division by a word *)

Lemma add_step_spec x y c r c' :
  is_u64 x -> is_u64 y -> 0 <= c <= 1 -> add_step x y c = (r, c') ->
  is_u64 r /\ 0 <= c' <= 1 /\ x + y + c = r + 2 ^ 64 * c'.
Proof.
  unfold add_step, u128. intros ??? [= <- <-].
  rewrite (Z.mod_small (x + y + c)), Z.shiftr_div_pow2 by u_range.
  split; [apply u64_range|]. u_divmod.
Qed.

Lemma add_spec a b : wf a -> wf b ->
  wf (add a b) /\ to_Z (add a b) = (to_Z a + to_Z b) mod 2 ^ 256.
Proof.
  intros (?&?&?&?) (?&?&?&?). unfold add.
  destruct (add_step _ _ 0) as [r0 c0] eqn:E0.
  destruct (add_step (w1 a) _ c0) as [r1 c1] eqn:E1.
  destruct (add_step (w2 a) _ c1) as [r2 c2] eqn:E2.
  destruct (add_step (w3 a) _ c2) as [r3 c3] eqn:E3.
  apply add_step_spec in E0 as (?&?&?); [|done..|lia].
  apply add_step_spec in E1 as (?&?&?); [|done..].
  apply add_step_spec in E2 as (?&?&?); [|done..].
  apply add_step_spec in E3 as (?&?&?); [|done..].
  split; [done|]. unfold to_Z. simpl.
  apply Z.mod_unique_pos with c3; u_range.
Qed.

Lemma sub_step_spec x y c r c' :
  is_u64 x -> is_u64 y -> 0 <= c <= 1 -> sub_step x y c = (r, c') ->
  is_u64 r /\ 0 <= c' <= 1 /\ x - y - c = r - 2 ^ 64 * c'.
Proof.
  unfold sub_step, u128. intros ??? [= <- <-].
  rewrite (Z.mod_small (y + c)) by u_range.
  split; [apply u64_range|].
  assert (u64 ((x - y - c) mod 2 ^ 128) = (x - y - c) mod 2 ^ 64) as ->.
  { unfold u64. change (2 ^ 128) with (2 ^ 64 * 2 ^ 64).
    rewrite Z.rem_mul_r, Z.mul_comm, Z.mod_add by lia. apply Z.mod_mod. lia. }
  destruct (Z.ltb_spec x (y + c)); split; try lia.
  - symmetry. assert ((x - y - c) mod 2 ^ 64 = x - y - c + 2 ^ 64); [|lia].
    symmetry. apply Z.mod_unique_pos with (-1); u_range.
  - rewrite Z.mod_small; u_range.
Qed.

Lemma sub_spec a b : wf a -> wf b ->
  wf (sub a b) /\ to_Z (sub a b) = (to_Z a - to_Z b) mod 2 ^ 256.
Proof.
  intros (?&?&?&?) (?&?&?&?). unfold sub.
  destruct (sub_step _ _ 0) as [r0 c0] eqn:E0.
  destruct (sub_step (w1 a) _ c0) as [r1 c1] eqn:E1.
  destruct (sub_step (w2 a) _ c1) as [r2 c2] eqn:E2.
  destruct (sub_step (w3 a) _ c2) as [r3 c3] eqn:E3.
  apply sub_step_spec in E0 as (?&?&?); [|done..|lia].
  apply sub_step_spec in E1 as (?&?&?); [|done..].
  apply sub_step_spec in E2 as (?&?&?); [|done..].
  apply sub_step_spec in E3 as (?&?&?); [|done..].
  split; [done|]. unfold to_Z. simpl.
  apply Z.mod_unique_pos with (- c3); u_range.
Qed.

Lemma mul64_step_spec x m c r c' :
  is_u64 x -> is_u64 m -> is_u64 c -> mul64_step x m c = (r, c') ->
  is_u64 r /\ is_u64 c' /\ x * m + c = r + 2 ^ 64 * c'.
Proof.
  unfold mul64_step, u128. intros ??? [= <- <-].
  assert (0 <= x * m <= (2 ^ 64 - 1) * (2 ^ 64 - 1)) by (unfold is_u64 in *; nia).
  rewrite (Z.mod_small (x * m + c)), Z.shiftr_div_pow2 by u_range.
  split; [apply u64_range|]. generalize dependent (x * m). intros. u_divmod.
Qed.

Lemma mul64_spec a m : wf a -> is_u64 m ->
  wf (mul64 a m) /\ to_Z (mul64 a m) = (to_Z a * m) mod 2 ^ 256.
Proof.
  intros (?&?&?&?) ?. unfold mul64.
  destruct (mul64_step _ _ 0) as [r0 c0] eqn:E0.
  destruct (mul64_step (w1 a) _ c0) as [r1 c1] eqn:E1.
  destruct (mul64_step (w2 a) _ c1) as [r2 c2] eqn:E2.
  destruct (mul64_step (w3 a) _ c2) as [r3 c3] eqn:E3.
  apply mul64_step_spec in E0 as (?&?&?); [|done..|u_range].
  apply mul64_step_spec in E1 as (?&?&?); [|done..].
  apply mul64_step_spec in E2 as (?&?&?); [|done..].
  apply mul64_step_spec in E3 as (?&?&?); [|done..].
  split; [done|]. unfold to_Z. simpl.
  apply Z.mod_unique_pos with c3; [u_range|].
  rewrite !Z.mul_add_distr_r, <- !Z.mul_assoc. u_range.
Qed.

Lemma div64_step_spec x d acc r acc' :
  is_u64 x -> 0 < d < 2 ^ 64 -> 0 <= acc < d -> div64_step x d acc = (r, acc') ->
  is_u64 r /\ 0 <= acc' < d /\ acc * 2 ^ 64 + x = r * d + acc'.
Proof.
  unfold div64_step, u128. intros Hx Hd Ha [= <- <-].
  rewrite Z.shiftl_mul_pow2, (Z.mod_small (acc * _)), Z.lor_comm by lia.
  rewrite lor_disjoint_add by u_range.
  split; [apply u64_range|]. split; [apply Z.mod_pos_bound; lia|].
  assert (0 <= (x + acc * 2 ^ 64) / d < 2 ^ 64).
  { split; [apply Z.div_pos; u_range|]. apply Z.div_lt_upper_bound; unfold is_u64 in *; nia. }
  rewrite u64_id by done. pose proof (Z.div_mod (x + acc * 2 ^ 64) d). lia.
Qed.

Lemma div64_spec a d : wf a -> 0 < d < 2 ^ 64 ->
  wf (fst (div64 a d)) /\ to_Z (fst (div64 a d)) = to_Z a / d /\
  snd (div64 a d) = to_Z a mod d.
Proof.
  intros (?&?&?&?) ?. unfold div64.
  destruct (div64_step (w3 a) _ 0) as [r3 a3] eqn:E3.
  destruct (div64_step (w2 a) _ a3) as [r2 a2] eqn:E2.
  destruct (div64_step (w1 a) _ a2) as [r1 a1] eqn:E1.
  destruct (div64_step (w0 a) _ a1) as [r0 a0] eqn:E0.
  apply div64_step_spec in E3 as (?&?&?); [|done..|lia].
  apply div64_step_spec in E2 as (?&?&?); [|done..].
  apply div64_step_spec in E1 as (?&?&?); [|done..].
  apply div64_step_spec in E0 as (?&?&?); [|done..].
  assert (to_Z a = d * to_Z (U256 r0 r1 r2 r3) + a0) as E.
  { unfold to_Z. simpl. lia. }
  split; [done|]. simpl. rewrite u64_id by u_range. split.
  - by apply Z.div_unique_pos with a0.
  - by apply Z.mod_unique_pos with (to_Z (U256 r0 r1 r2 r3)).
Qed.

(** * Shifts *)

(** Decides the index tests [w] leaves on concrete indices. *)
Ltac w_index :=
  unfold w in *;
  repeat match goal with
  | |- context [?x =? ?y] =>
      let v := eval vm_compute in (x =? y) in
      match v with true => idtac | false => idtac end; change (x =? y) with v
  | H : context [?x =? ?y] |- _ =>
      let v := eval vm_compute in (x =? y) in
      match v with true => idtac | false => idtac end; change (x =? y) with v in H
  end; cbv iota in *.

(** The bits of [x << b] that stay in the word and those carried out. *)
Definition shl_lo (b x : Z) : Z := (x mod 2 ^ (64 - b)) * 2 ^ b.
Definition shl_hi (b x : Z) : Z := x / 2 ^ (64 - b).

Lemma pow2_split b : 0 <= b <= 64 ->
  0 < 2 ^ b /\ 0 < 2 ^ (64 - b) /\ 2 ^ b * 2 ^ (64 - b) = 2 ^ 64.
Proof.
  intros. repeat split; try (apply Z.pow_pos_nonneg; lia).
  rewrite <- Z.pow_add_r by lia. f_equal. lia.
Qed.

Lemma shl_lo_hi b x : 0 <= b <= 64 -> x * 2 ^ b = shl_lo b x + 2 ^ 64 * shl_hi b x.
Proof.
  intros Hb. destruct (pow2_split b Hb) as (?&?&E). unfold shl_lo, shl_hi.
  rewrite (Z.div_mod x (2 ^ (64 - b))) at 1 by lia. rewrite <- E. ring.
Qed.

Lemma u64_shiftl b x : 0 <= b <= 64 -> u64 (Z.shiftl x b) = shl_lo b x.
Proof.
  intros Hb. destruct (pow2_split b Hb) as (?&?&E).
  rewrite Z.shiftl_mul_pow2 by lia. unfold u64, shl_lo.
  rewrite <- E, Z.mul_comm, Z.mul_mod_distr_l by lia. ring.
Qed.

Lemma shl_hi_range b x : 0 <= b <= 64 -> is_u64 x -> 0 <= shl_hi b x < 2 ^ b.
Proof.
  intros Hb Hx. destruct (pow2_split b Hb) as (?&?&E). unfold shl_hi, is_u64 in *.
  split; [apply Z.div_pos; lia|]. apply Z.div_lt_upper_bound; lia.
Qed.

Lemma shl_lo_range b x : 0 <= b <= 64 -> 0 <= shl_lo b x <= 2 ^ 64 - 2 ^ b.
Proof.
  intros Hb. destruct (pow2_split b Hb) as (?&?&E). unfold shl_lo.
  pose proof (Z.mod_pos_bound x (2 ^ (64 - b))). nia.
Qed.

Lemma lor_shl b x y : 0 <= b <= 64 -> is_u64 y ->
  Z.lor (shl_lo b x) (shl_hi b y) = shl_lo b x + shl_hi b y.
Proof.
  intros Hb Hy. rewrite Z.lor_comm. unfold shl_lo at 1.
  rewrite lor_disjoint_add by (try apply shl_hi_range; done || lia).
  unfold shl_lo. lia.
Qed.

Lemma shl_word_spec a k b i : wf a -> 0 <= b < 64 -> 0 <= k <= i -> i < 4 ->
  shl_word a k b i =
  shl_lo b (w a (i - k)) + (if i - k =? 0 then 0 else shl_hi b (w a (i - k - 1))).
Proof.
  intros Ha Hb Hk Hi. unfold shl_word.
  destruct (Z.ltb_spec (i - k) 0); [lia|]. rewrite u64_shiftl by lia.
  destruct (Z.eqb_spec b 0) as [->|]; simpl.
  - destruct (Z.eqb_spec (i - k) 0); [lia|]. unfold shl_hi at 1.
    rewrite Z.sub_0_r, Z.div_small by apply wf_w, Ha. lia.
  - destruct (Z.geb_spec (i - k - 1) 0), (Z.eqb_spec (i - k) 0); try lia.
    rewrite Z.shiftr_div_pow2 by lia. fold (shl_hi b (w a (i - k - 1))).
    apply lor_shl; [lia|]. apply wf_w, Ha.
Qed.

Lemma shl_word_low a k b i : i < k -> shl_word a k b i = 0.
Proof. intros. unfold shl_word. by destruct (Z.ltb_spec (i - k) 0); [|lia]. Qed.

Lemma wf_shl a n : wf a -> 0 <= n -> wf (shl a n).
Proof.
  intros Ha Hn. unfold shl. case_match; [apply wf_zero|].
  assert (0 <= n mod 64 < 64) as Hb0 by (apply Z.mod_pos_bound; lia).
  assert (0 <= n mod 64 <= 64) as Hb by lia.
  assert (0 <= n / 64) by (apply Z.div_pos; lia).
  apply wf_words. intros i Hi. destruct (Z.ltb_spec i (n / 64)).
  { rewrite shl_word_low by done. u_range. }
  rewrite shl_word_spec by (done || lia).
  pose proof (shl_lo_range _ (w a (i - n / 64)) Hb).
  pose proof (shl_hi_range _ _ Hb (wf_w a (i - n / 64 - 1) Ha)).
  destruct (i - n / 64 =? 0); u_range.
Qed.

Lemma to_Z_shl a n : wf a -> 0 <= n -> to_Z (shl a n) = (to_Z a * 2 ^ n) mod 2 ^ 256.
Proof.
  intros Ha Hn. pose proof (to_Z_bound _ (wf_shl _ _ Ha Hn)) as Hr.
  unfold shl in *. rewrite Z.geb_leb in *. destruct (Z.leb_spec 256 n).
  { rewrite to_Z_zero. replace n with ((n - 256) + 256) by lia.
    rewrite Z.pow_add_r, Z.mul_assoc, Z.mod_mul by lia. done. }
  pose proof (Z.div_mod n 64 ltac:(lia)) as En.
  pose proof (Z.mod_pos_bound n 64 ltac:(lia)) as Hb.
  assert (n / 64 < 4) by (apply Z.div_lt_upper_bound; lia).
  assert (0 <= n / 64) by (apply Z.div_pos; lia).
  remember (n / 64) as k. remember (n mod 64) as b. clear Heqk Heqb.
  assert (0 <= b <= 64) as Hb' by lia.
  pose proof (shl_lo_hi b (w0 a) Hb') as E0. pose proof (shl_lo_hi b (w1 a) Hb') as E1.
  pose proof (shl_lo_hi b (w2 a) Hb') as E2. pose proof (shl_lo_hi b (w3 a) Hb') as E3.
  unfold words, to_Z in *; simpl in Hr |- *.
  assert (k = 0 \/ k = 1 \/ k = 2 \/ k = 3) as Hk by lia.
  rewrite En, Z.pow_add_r, (Z.mul_comm (2 ^ (64 * k))), Z.mul_assoc, !Z.mul_add_distr_r,
    <- !(Z.mul_assoc _ _ (2 ^ b)) by lia.
  rewrite E0, E1, E2, E3.
  destruct Hk as [->|[->|[->| ->]]];
    rewrite ?shl_word_low in * by lia; rewrite !shl_word_spec in * by (done || lia); w_index.
  - apply Z.mod_unique_pos with (shl_hi b (w3 a)); lia.
  - apply Z.mod_unique_pos with (shl_lo b (w3 a) + shl_hi b (w2 a) + 2 ^ 64 * shl_hi b (w3 a)); lia.
  - apply Z.mod_unique_pos with (shl_lo b (w2 a) + shl_hi b (w1 a)
      + 2 ^ 64 * (shl_lo b (w3 a) + shl_hi b (w2 a)) + 2 ^ 128 * shl_hi b (w3 a)); lia.
  - apply Z.mod_unique_pos with (shl_lo b (w1 a) + shl_hi b (w0 a)
      + 2 ^ 64 * (shl_lo b (w2 a) + shl_hi b (w1 a))
      + 2 ^ 128 * (shl_lo b (w3 a) + shl_hi b (w2 a)) + 2 ^ 192 * shl_hi b (w3 a)); lia.
Qed.

Lemma shr_word_spec a k b i : wf a -> 0 <= b < 64 -> 0 <= k -> 0 <= i -> i + k < 4 ->
  shr_word a k b i = shl_hi (64 - b) (w a (i + k)) + shl_lo (64 - b) (w a (i + k + 1)).
Proof.
  intros Ha Hb Hk Hi Hik. unfold shr_word. rewrite Z.geb_leb.
  destruct (Z.leb_spec 4 (i + k)); [lia|].
  assert (forall x, Z.shiftr x b = shl_hi (64 - b) x) as Hr.
  { intros x. unfold shl_hi. rewrite Z.shiftr_div_pow2 by lia. do 2 f_equal. lia. }
  destruct (Z.eqb_spec b 0) as [->|]; simpl.
  - rewrite Hr. unfold shl_lo. change (64 - (64 - 0)) with 0.
    rewrite Z.mod_1_r. lia.
  - destruct (Z.ltb_spec (i + k + 1) 4).
    + rewrite u64_shiftl, Hr, Z.lor_comm, lor_shl by (lia || apply wf_w, Ha). lia.
    + rewrite Hr. replace (w a (i + k + 1)) with 0; [unfold shl_lo; by rewrite Z.mod_0_l, Z.add_0_r by lia|].
      replace (i + k + 1) with 4 by lia. done.
Qed.

Lemma shr_word_high a k b i : 4 <= i + k -> shr_word a k b i = 0.
Proof. intros. unfold shr_word. rewrite Z.geb_leb. by destruct (Z.leb_spec 4 (i + k)); [|lia]. Qed.

Lemma wf_shr a n : wf a -> 0 <= n -> wf (shr a n).
Proof.
  intros Ha Hn. unfold shr. case_match; [apply wf_zero|].
  assert (0 <= n mod 64 < 64) by (apply Z.mod_pos_bound; lia).
  assert (0 <= n / 64) by (apply Z.div_pos; lia).
  apply wf_words. intros i Hi. destruct (Z.ltb_spec (i + n / 64) 4).
  2: { rewrite shr_word_high by done. u_range. }
  rewrite shr_word_spec by (done || lia).
  assert (0 <= 64 - n mod 64 <= 64) as Hb by lia.
  pose proof (shl_lo_range _ (w a (i + n / 64 + 1)) Hb).
  pose proof (shl_hi_range _ _ Hb (wf_w a (i + n / 64) Ha)). u_range.
Qed.

Lemma to_Z_shr a n : wf a -> 0 <= n -> to_Z (shr a n) = to_Z a / 2 ^ n.
Proof.
  intros Ha Hn. pose proof (to_Z_bound _ Ha).
  unfold shr in *. rewrite Z.geb_leb in *. destruct (Z.leb_spec 256 n).
  { rewrite to_Z_zero. symmetry. apply Z.div_small.
    pose proof (Z.pow_le_mono_r 2 256 n). lia. }
  pose proof (Z.div_mod n 64 ltac:(lia)) as En.
  pose proof (Z.mod_pos_bound n 64 ltac:(lia)) as Hb.
  assert (n / 64 < 4) by (apply Z.div_lt_upper_bound; lia).
  assert (0 <= n / 64) by (apply Z.div_pos; lia).
  remember (n / 64) as k. remember (n mod 64) as b. clear Heqk Heqb.
  assert (0 <= 64 - b <= 64) as Hc by lia.
  rewrite <- (Z.div_mul_cancel_r _ _ (2 ^ (64 - b))), <- Z.pow_add_r by lia.
  replace (n + (64 - b)) with (64 * (k + 1)) by lia.
  pose proof (shl_lo_hi _ (w0 a) Hc) as E0. pose proof (shl_lo_hi _ (w1 a) Hc) as E1.
  pose proof (shl_lo_hi _ (w2 a) Hc) as E2. pose proof (shl_lo_hi _ (w3 a) Hc) as E3.
  pose proof (fun i => shl_lo_range _ (w a i) Hc) as Hlo.
  pose proof (fun i => shl_hi_range _ _ Hc (wf_w a i Ha)) as Hhi.
  destruct (pow2_split _ Hc) as (HP & _ & _).
  pose proof (Z.pow_le_mono_r 2 (64 - b) 64 ltac:(lia) ltac:(lia)).
  pose proof (Hlo 0). pose proof (Hlo 1). pose proof (Hlo 2). pose proof (Hlo 3).
  pose proof (Hhi 0). pose proof (Hhi 1). pose proof (Hhi 2). pose proof (Hhi 3).
  assert (shl_lo (64 - b) 0 = 0) as Z0 by (unfold shl_lo; rewrite Z.mod_0_l; lia).
  clear Hlo Hhi.
  unfold words, to_Z in *; simpl.
  rewrite !Z.mul_add_distr_r, <- !(Z.mul_assoc _ _ (2 ^ (64 - b))).
  rewrite E0, E1, E2, E3.
  assert (k = 0 \/ k = 1 \/ k = 2 \/ k = 3) as Hk by lia.
  destruct Hk as [->|[->|[->| ->]]];
    repeat match goal with |- context [shr_word a ?k b ?i] =>
      first [ rewrite (shr_word_high a k b i) by lia
            | rewrite (shr_word_spec a k b i) by (done || lia) ] end;
    w_index; rewrite ?Z0.
  - change (64 * (0 + 1)) with 64. apply Z.div_unique_pos with (shl_lo (64 - b) (w0 a)); lia.
  - change (64 * (1 + 1)) with 128. apply Z.div_unique_pos with (shl_lo (64 - b) (w0 a)
      + 2 ^ 64 * (shl_hi (64 - b) (w0 a) + shl_lo (64 - b) (w1 a))); lia.
  - change (64 * (2 + 1)) with 192. apply Z.div_unique_pos with (shl_lo (64 - b) (w0 a)
      + 2 ^ 64 * (shl_hi (64 - b) (w0 a) + shl_lo (64 - b) (w1 a))
      + 2 ^ 128 * (shl_hi (64 - b) (w1 a) + shl_lo (64 - b) (w2 a))); lia.
  - change (64 * (3 + 1)) with 256. apply Z.div_unique_pos with (shl_lo (64 - b) (w0 a)
      + 2 ^ 64 * (shl_hi (64 - b) (w0 a) + shl_lo (64 - b) (w1 a))
      + 2 ^ 128 * (shl_hi (64 - b) (w1 a) + shl_lo (64 - b) (w2 a))
      + 2 ^ 192 * (shl_hi (64 - b) (w2 a) + shl_lo (64 - b) (w3 a))); lia.
Qed.

(** * Single bits *)

Lemma w_spec u i : wf u -> 0 <= i < 4 -> w u i = (to_Z u / 2 ^ (64 * i)) mod 2 ^ 64.
Proof.
  intros Hu Hi. rewrite <- (of_Z_to_Z u Hu) at 1. unfold of_Z, words, u64.
  assert (i = 0 \/ i = 1 \/ i = 2 \/ i = 3) as Hc by lia.
  destruct Hc as [->|[->|[->| ->]]]; w_index; cbn [w0 w1 w2 w3];
    by rewrite Z.shiftr_div_pow2 by lia.
Qed.

Lemma bitTest_spec u n : wf u -> 0 <= n < 256 -> bitTest u n = Z.testbit (to_Z u) n.
Proof.
  intros Hu Hn. unfold bitTest.
  assert (0 <= n / 64 < 4) by (split; [apply Z.div_pos|apply Z.div_lt_upper_bound]; lia).
  assert (0 <= n mod 64 < 64) by (apply Z.mod_pos_bound; lia).
  change 1 with (Z.ones 1) at 1. rewrite Z.land_ones, <- Z.bit0_mod by lia.
  rewrite Z.shiftr_spec, w_spec, Z.mod_pow2_bits_low, Z.div_pow2_bits by (done || lia).
  replace (0 + n mod 64 + 64 * (n / 64)) with n by (pose proof (Z.div_mod n 64); lia).
  by destruct (Z.testbit _ n).
Qed.

Lemma lor_pow2_add x m : 0 <= m -> Z.testbit x m = false -> Z.lor x (2 ^ m) = x + 2 ^ m.
Proof.
  intros Hm Hx. symmetry. apply Z.add_nocarry_lor, Z.bits_inj'. intros i Hi.
  rewrite Z.land_spec, Z.bits_0, Z.pow2_bits_eqb by done.
  destruct (Z.eqb_spec m i) as [<-|]; [by rewrite Hx|apply andb_false_r].
Qed.

Lemma setBit_spec u n : wf u -> 0 <= n < 256 -> Z.testbit (to_Z u) n = false ->
  wf (setBit u n) /\ to_Z (setBit u n) = to_Z u + 2 ^ n.
Proof.
  intros Hu Hn Hb.
  assert (0 <= n / 64 < 4) as Hk by (split; [apply Z.div_pos|apply Z.div_lt_upper_bound]; lia).
  assert (0 <= n mod 64 < 64) as Hm by (apply Z.mod_pos_bound; lia).
  pose proof (Z.div_mod n 64 ltac:(lia)) as En.
  assert (Z.testbit (w u (n / 64)) (n mod 64) = false) as Hw.
  { rewrite w_spec, Z.mod_pow2_bits_low, Z.div_pow2_bits by (done || lia). rewrite <- Hb. f_equal. lia. }
  unfold setBit. rewrite Z.shiftl_1_l, (u64_id (2 ^ (n mod 64))).
  2: { split; [lia|]. apply Z.pow_lt_mono_r; lia. }
  apply lor_pow2_add in Hw; [|lia].
  rewrite (f_equal (Z.pow 2) En), Z.pow_add_r by lia.
  assert (is_u64 (Z.lor (w u (n / 64)) (2 ^ (n mod 64)))) as Hr.
  { pose proof (wf_w u (n / 64) Hu) as Hx. split; [u_range|].
    apply Z.log2_lt_pow2; [unfold is_u64 in Hx; lia|].
    rewrite Z.log2_lor, Z.log2_pow2 by (unfold is_u64 in Hx; lia).
    destruct (Z.eqb_spec (w u (n / 64)) 0) as [->|]; [change (Z.log2 0) with 0; lia|].
    assert (Z.log2 (w u (n / 64)) < 64) by (apply Z.log2_lt_pow2; unfold is_u64 in Hx; lia). lia. }
  destruct Hu as (?&?&?&?). remember (n / 64) as k. remember (n mod 64) as m.
  clear Heqk Heqm En Hb. unfold to_Z, wf, words.
  assert (k = 0 \/ k = 1 \/ k = 2 \/ k = 3) as Hc by lia.
  destruct Hc as [->|[->|[->| ->]]]; w_index; cbn [w0 w1 w2 w3];
    match goal with |- context [64 * ?c] => let v := eval vm_compute in (64 * c) in
      change (64 * c) with v end; split; try done; lia.
Qed.

(** * Division *)

(** After the bits above [n] are processed, [q] holds the quotient of those
    bits, shifted to their place, and [rem] their remainder. *)
Definition div_inv (A D : Z) (n : nat) (s : uint256 * uint256) : Prop :=
  wf (fst s) /\ wf (snd s) /\ 0 <= to_Z (snd s) < D /\
  exists k, 0 <= k /\ to_Z (fst s) = k * 2 ^ Z.of_nat n /\
    A / 2 ^ Z.of_nat n = k * D + to_Z (snd s).

Lemma div_pow2_step A n : 0 <= n ->
  A / 2 ^ n = 2 * (A / 2 ^ (n + 1)) + (if Z.testbit A n then 1 else 0).
Proof.
  intros Hn. rewrite Z.pow_add_r, <- Z.div_div by lia. change (2 ^ 1) with 2.
  pose proof (Z.div_mod (A / 2 ^ n) 2 ltac:(lia)) as E.
  rewrite <- Z.bit0_mod, Z.div_pow2_bits in E by lia.
  change (0 + n) with n in E. unfold Z.b2z in E. by destruct (Z.testbit A n).
Qed.

(** The compare-and-subtract both division loops end with. *)
Lemma div_finish A d n q rem bit :
  wf q -> wf rem -> wf d -> 0 <= bit < 256 -> n = Z.to_nat bit ->
  0 <= to_Z rem < 2 * to_Z d ->
  (exists k, 0 <= k /\ to_Z q = k * 2 ^ (bit + 1) /\ A / 2 ^ bit = 2 * k * to_Z d + to_Z rem) ->
  div_inv A (to_Z d) n (if geb rem d then (setBit q bit, sub rem d) else (q, rem)).
Proof.
  intros Hq Hr Hd Hb -> Hrem (k & Hk & Eq & Ea). unfold div_inv.
  rewrite Z2Nat.id by lia. rewrite Z.pow_add_r in Eq by lia.
  assert (Z.testbit (to_Z q) bit = false) as Htb.
  { rewrite Eq, (Z.mul_comm (2 ^ bit)), Z.mul_assoc, Z.mul_pow2_bits by lia.
    rewrite Z.sub_diag. change (2 ^ 1) with 2. rewrite Z.bit0_odd, Z.odd_mul. apply andb_false_r. }
  rewrite geb_spec by done. destruct (Z.leb_spec (to_Z d) (to_Z rem)); simpl.
  - destruct (setBit_spec q bit Hq Hb Htb) as [Hws Es].
    destruct (sub_spec rem d Hr Hd) as [Hwr Er].
    pose proof (to_Z_bound _ Hr). pose proof (to_Z_bound _ Hd).
    rewrite Z.mod_small in Er by lia.
    split_and!; [done|done|lia..|]. exists (2 * k + 1). rewrite Es, Er. split_and!; lia.
  - split_and!; [done|done|lia..|]. exists (2 * k). split_and!; lia.
Qed.

Lemma to_Z_shl1 u : wf u -> to_Z u < 2 ^ 255 -> to_Z (shl u 1) = 2 * to_Z u.
Proof.
  intros Hu Hb. rewrite to_Z_shl by (done || lia). change (2 ^ 1) with 2.
  pose proof (to_Z_bound _ Hu). rewrite Z.mod_small; lia.
Qed.

Lemma w0_lor1 u : wf u -> Z.even (to_Z u) = true ->
  wf (U256 (Z.lor (w0 u) 1) (w1 u) (w2 u) (w3 u)) /\
  to_Z (U256 (Z.lor (w0 u) 1) (w1 u) (w2 u) (w3 u)) = to_Z u + 1.
Proof.
  intros Hu He.
  assert (Z.testbit (to_Z u) 0 = false) as Hb.
  { by rewrite Z.bit0_odd, <- Z.negb_even, He. }
  destruct (setBit_spec u 0 Hu ltac:(lia) Hb) as [H1 H2].
  replace (setBit u 0) with (U256 (Z.lor (w0 u) 1) (w1 u) (w2 u) (w3 u)) in *; [done|].
  unfold setBit, words. by simpl.
Qed.

Lemma div_step_inv a d n s : wf a -> wf d -> (n < 256)%nat ->
  div_inv (to_Z a) (to_Z d) (S n) s ->
  div_inv (to_Z a) (to_Z d) n (div_step a d (Z.of_nat n) s).
Proof.
  intros Ha Hd Hn. destruct s as [q rem]. intros (Hq & Hr & Hrem & k & Hk & Eq & Ea).
  cbn [fst snd] in *. pose proof (to_Z_bound _ Ha) as Hab.
  pose proof (div_pow2_step (to_Z a) (Z.of_nat n) ltac:(lia)) as Es.
  replace (Z.of_nat (S n)) with (Z.of_nat n + 1) in * by lia.
  assert (to_Z rem < 2 ^ 255).
  { assert (to_Z a / 2 ^ (Z.of_nat n + 1) < 2 ^ 255); [|nia].
    apply Z.div_lt_upper_bound; [lia|]. rewrite Z.pow_add_r by lia.
    pose proof (Z.pow_pos_nonneg 2 (Z.of_nat n)). nia. }
  rewrite <- bitTest_spec in Es by (done || lia).
  pose proof (to_Z_shl1 _ Hr H) as E2. pose proof (wf_shl _ 1 Hr ltac:(lia)) as W2.
  unfold div_step. cbv zeta. revert E2 W2. generalize (shl rem 1). intros r2 E2 W2.
  destruct (bitTest a (Z.of_nat n)).
  - destruct (w0_lor1 _ W2) as [W3 E3]; [by rewrite E2, Z.even_mul|].
    apply div_finish; rewrite ?E3, ?E2; try done; try lia. exists k. split_and!; nia.
  - apply div_finish; rewrite ?E2; try done; try lia. exists k. split_and!; nia.
Qed.

Lemma div_loop_inv a d n s : wf a -> wf d -> (n <= 256)%nat ->
  div_inv (to_Z a) (to_Z d) n s -> div_inv (to_Z a) (to_Z d) 0 (div_loop a d n s).
Proof.
  intros Ha Hd. revert s. induction n as [|n IH]; intros s Hn Hs; [done|].
  simpl. apply IH; [lia|]. apply div_step_inv; done || lia.
Qed.

Lemma div_inv_init A D : 0 <= A < 2 ^ 256 -> 0 < D -> div_inv A D 256 (zero, zero).
Proof.
  intros. unfold div_inv. cbn [fst snd]. rewrite to_Z_zero. split_and!; try apply wf_zero; try lia.
  exists 0. split_and!; [lia..|]. change (2 ^ Z.of_nat 256) with (2 ^ 256).
  rewrite Z.div_small by lia. done.
Qed.

Lemma div_inv_final A D s : div_inv A D 0 s -> to_Z (fst s) = A / D.
Proof.
  intros (_ & _ & Hr & k & Hk & Eq & Ea). change (2 ^ Z.of_nat 0) with 1 in *.
  rewrite Z.div_1_r in Ea. rewrite Eq, Z.mul_1_r.
  apply Z.div_unique_pos with (to_Z (snd s)); lia.
Qed.

Lemma div_spec a d : wf a -> wf d ->
  wf (div a d) /\ to_Z (div a d) = to_Z a / to_Z d.
Proof.
  intros Ha Hd. unfold div. rewrite isZero_spec by done.
  pose proof (to_Z_bound _ Ha). pose proof (to_Z_bound _ Hd).
  destruct (Z.eqb_spec (to_Z d) 0) as [E|E].
  { rewrite E. split; [apply wf_zero|]. by destruct (to_Z a). }
  rewrite ltb_spec by done. destruct (Z.ltb_spec (to_Z a) (to_Z d)).
  { split; [apply wf_zero|]. rewrite Z.div_small; done || lia. }
  assert (div_inv (to_Z a) (to_Z d) 0 (div_loop a d 256 (zero, zero))) as Hi.
  { apply div_loop_inv; [done..|lia|]. apply div_inv_init; lia. }
  split; [apply Hi|]. by apply div_inv_final.
Qed.

(** * Chain work *)

Lemma pow2_step_inv d n s : wf d -> (n < 256)%nat -> to_Z d <= 2 ^ 255 ->
  div_inv (2 ^ 256) (to_Z d) (S n) s ->
  div_inv (2 ^ 256) (to_Z d) n (pow2_step d (Z.of_nat n) s).
Proof.
  intros Hd Hn Hd255. destruct s as [q rem]. intros (Hq & Hr & Hrem & k & Hk & Eq & Ea).
  cbn [fst snd] in *.
  pose proof (div_pow2_step (2 ^ 256) (Z.of_nat n) ltac:(lia)) as Es.
  rewrite Z.pow2_bits_false in Es by lia.
  replace (Z.of_nat (S n)) with (Z.of_nat n + 1) in * by lia.
  pose proof (to_Z_shl1 _ Hr ltac:(lia)) as E2. pose proof (wf_shl _ 1 Hr ltac:(lia)) as W2.
  unfold pow2_step. cbv zeta. revert E2 W2. generalize (shl rem 1). intros r2 E2 W2.
  apply div_finish; rewrite ?E2; try done; try lia. exists k. split_and!; nia.
Qed.

Lemma pow2_loop_inv d n s : wf d -> (n <= 256)%nat -> to_Z d <= 2 ^ 255 ->
  div_inv (2 ^ 256) (to_Z d) n s -> div_inv (2 ^ 256) (to_Z d) 0 (pow2_loop d n s).
Proof.
  intros Hd Hn Hd2. revert s Hn. induction n as [|n IH]; intros s Hn Hs; [done|].
  simpl. apply IH; [lia|]. apply pow2_step_inv; done || lia.
Qed.

Lemma pow2_inv_init D : 2 <= D -> div_inv (2 ^ 256) D 256 (zero, of_u64 1).
Proof.
  intros. unfold div_inv. cbn [fst snd]. rewrite to_Z_of_u64.
  split_and!; [apply wf_zero|apply wf_of_u64; u_range|lia..|].
  exists 0. rewrite to_Z_zero. split_and!; [lia..|].
  change (2 ^ Z.of_nat 256) with (2 ^ 256). by rewrite Z.div_same by lia.
Qed.

(** With divisor one the remainder stays one and every bit is set. *)
Lemma pow2_loop_one d n q rem : wf d -> to_Z d = 1 -> (n <= 256)%nat ->
  wf q -> wf rem -> to_Z rem = 1 -> to_Z q = 2 ^ 256 - 2 ^ Z.of_nat n ->
  to_Z (fst (pow2_loop d n (q, rem))) = 2 ^ 256 - 1.
Proof.
  intros Hd Hd1. revert q rem. induction n as [|n IH]; intros q rem Hn Hq Hr Er Eq.
  { cbn [pow2_loop fst]. by rewrite Eq. }
  simpl pow2_loop.
  pose proof (to_Z_shl1 _ Hr ltac:(lia)) as E2. pose proof (wf_shl _ 1 Hr ltac:(lia)) as W2.
  unfold pow2_step. cbv zeta. revert E2 W2. generalize (shl rem 1). intros r2 E2 W2.
  rewrite geb_spec by done. destruct (Z.leb_spec (to_Z d) (to_Z r2)); [|lia].
  destruct (sub_spec _ _ W2 Hd) as [Ws Es]. rewrite Z.mod_small in Es by lia.
  replace (Z.of_nat (S n)) with (Z.of_nat n + 1) in Eq by lia.
  assert (Z.testbit (to_Z q) (Z.of_nat n) = false) as Hb.
  { rewrite Eq. replace (2 ^ 256 - 2 ^ (Z.of_nat n + 1))
      with ((2 ^ (255 - Z.of_nat n) - 1) * 2 ^ (Z.of_nat n + 1)).
    - rewrite Z.mul_pow2_bits_low; [done|lia].
    - rewrite Z.mul_sub_distr_r, <- Z.pow_add_r by lia. do 2 f_equal; lia. }
  destruct (setBit_spec q (Z.of_nat n) Hq ltac:(lia) Hb) as [Hws Hes].
  apply IH; try done; [lia|lia|]. rewrite Hes, Eq, Z.pow_add_r by lia. lia.
Qed.

(** A divisor above 2^255 is never subtracted: the remainder doubles to 2^255
    and the last shift drops its only bit. *)
Lemma pow2_loop_large d n rem : wf d -> 2 ^ 255 < to_Z d -> (n <= 256)%nat ->
  wf rem -> to_Z rem = (2 ^ (256 - Z.of_nat n)) mod 2 ^ 256 ->
  pow2_loop d n (zero, rem) = (zero, snd (pow2_loop d n (zero, rem))).
Proof.
  intros Hd Hd1. revert rem. induction n as [|n IH]; intros rem Hn Hr Er; [done|].
  pose proof (to_Z_shl rem 1 Hr ltac:(lia)) as E2. pose proof (wf_shl _ 1 Hr ltac:(lia)) as W2.
  rewrite Er, Z.mul_mod_idemp_l, <- Z.pow_add_r in E2 by lia.
  replace (256 - Z.of_nat (S n) + 1) with (256 - Z.of_nat n) in E2 by lia.
  simpl pow2_loop. unfold pow2_step. cbv zeta. revert E2 W2. generalize (shl rem 1). intros r2 E2 W2.
  rewrite geb_spec by done. destruct (Z.leb_spec (to_Z d) (to_Z r2)).
  - exfalso. destruct n as [|n].
    + change (256 - Z.of_nat 0) with 256 in E2. rewrite Z.mod_same in E2 by lia. lia.
    + rewrite Z.mod_small in E2 by (split; [lia|apply Z.pow_lt_mono_r; lia]).
      pose proof (Z.pow_le_mono_r 2 (256 - Z.of_nat (S n)) 255). lia.
  - apply IH; done || lia.
Qed.

Lemma pow2_256_div_spec d : wf d ->
  to_Z (pow2_256_div d) =
  if to_Z d =? 1 then 2 ^ 256 - 1
  else if to_Z d <=? 2 ^ 255 then 2 ^ 256 / to_Z d else 0.
Proof.
  intros Hd. unfold pow2_256_div. rewrite isZero_spec by done.
  pose proof (to_Z_bound _ Hd). destruct (Z.eqb_spec (to_Z d) 0) as [->|]; [done|].
  assert (wf (of_u64 1)) as W1 by (apply wf_of_u64; u_range).
  destruct (Z.eqb_spec (to_Z d) 1).
  { by apply pow2_loop_one; try apply wf_zero. }
  destruct (Z.leb_spec (to_Z d) (2 ^ 255)).
  - apply div_inv_final, pow2_loop_inv; [done|lia|done|]. apply pow2_inv_init. lia.
  - rewrite pow2_loop_large; done || lia.
Qed.

Lemma chainWorkOfTarget_spec t : wf t ->
  to_Z (chainWorkOfTarget t) =
  if to_Z t =? 0 then 2 ^ 256 - 1
  else if to_Z t <? 2 ^ 255 then 2 ^ 256 / (to_Z t + 1) else 0.
Proof.
  intros Ht. unfold chainWorkOfTarget.
  destruct (add_spec t (of_u64 1) Ht (wf_of_u64 1 ltac:(u_range))) as [Hw He].
  rewrite pow2_256_div_spec by done. rewrite to_Z_of_u64 in He.
  pose proof (to_Z_bound _ Ht). destruct (Z.eqb_spec (to_Z t) (2 ^ 256 - 1)) as [E|E].
  { rewrite He, E. done. }
  rewrite Z.mod_small in He by lia. rewrite He.
  destruct (Z.eqb_spec (to_Z t + 1) 1), (Z.eqb_spec (to_Z t) 0); try done; try lia.
  destruct (Z.leb_spec (to_Z t + 1) (2 ^ 255)), (Z.ltb_spec (to_Z t) (2 ^ 255)); done || lia.
Qed.

(** * Bit length *)

Lemma highestBit_word_spec x n : 0 < x < 2 ^ Z.of_nat n -> highestBit_word x n = Z.log2 x.
Proof.
  induction n as [|n IH]; intros Hx; [change (2 ^ Z.of_nat 0) with 1 in Hx; lia|].
  simpl. rewrite Nat2Z.inj_succ, Z.pow_succ_r in Hx by lia.
  change 1 with (Z.ones 1). rewrite Z.land_ones, Z.shiftr_div_pow2 by lia. change (2 ^ 1) with 2.
  destruct (Z.ltb_spec x (2 ^ Z.of_nat n)).
  - rewrite Z.div_small by lia. simpl. apply IH. lia.
  - replace (x / 2 ^ Z.of_nat n) with 1 by (apply Z.div_unique_pos with (x - 2 ^ Z.of_nat n); lia).
    simpl. symmetry. apply Z.log2_unique; rewrite ?Z.pow_succ_r; lia.
Qed.

Lemma log2_word_range x : 0 < x < 2 ^ 64 -> 0 <= Z.log2 x < 64 /\ 2 ^ Z.log2 x <= x < 2 * 2 ^ Z.log2 x.
Proof.
  intros Hx. pose proof (Z.log2_nonneg x). pose proof (Z.log2_spec x).
  rewrite Z.pow_succ_r in * by lia. split; [split; [lia|]|lia]. apply Z.log2_lt_pow2; lia.
Qed.

Lemma highestBit_spec u : wf u ->
  highestBit u = if to_Z u =? 0 then -1 else Z.log2 (to_Z u).
Proof.
  intros (?&?&?&?).
  assert (forall i x rest, 0 < x < 2 ^ 64 -> 0 <= i -> 0 <= rest < 2 ^ (64 * i) ->
    Z.log2 (rest + 2 ^ (64 * i) * x) = 64 * i + Z.log2 x) as Hlog.
  { intros i x rest Hx Hi Hrest. destruct (log2_word_range x Hx) as [? Hs].
    apply Z.log2_unique; [lia|]. rewrite Z.pow_succ_r, !Z.pow_add_r by lia. nia. }
  unfold highestBit, highestBit_from, is_u64, to_Z in *.
  change (Z.of_nat 3) with 3. change (Z.of_nat 2) with 2. change (Z.of_nat 1) with 1.
  change (Z.of_nat 0) with 0. w_index.
  destruct (Z.eqb_spec (w3 u) 0) as [E3|]; [destruct (Z.eqb_spec (w2 u) 0) as [E2|];
    [destruct (Z.eqb_spec (w1 u) 0) as [E1|]; [destruct (Z.eqb_spec (w0 u) 0) as [E0|]|]|]|];
    cbn [negb]; rewrite ?highestBit_word_spec by (change (Z.of_nat 64) with 64; lia).
  - by rewrite E0, E1, E2, E3.
  - pose proof (Z.log2_nonneg (w0 u)). pose proof (Hlog 0 (w0 u) 0 ltac:(lia) ltac:(lia) ltac:(lia)).
    rewrite Z.geb_leb. destruct (Z.leb_spec 0 (Z.log2 (w0 u))); [|lia].
    rewrite E1, E2, E3. destruct (Z.eqb_spec (w0 u + 2 ^ 64 * 0 + 2 ^ 128 * 0 + 2 ^ 192 * 0) 0); [lia|].
    replace (w0 u + 2 ^ 64 * 0 + 2 ^ 128 * 0 + 2 ^ 192 * 0) with (w0 u); lia.
  - pose proof (Z.log2_nonneg (w1 u)).
    pose proof (Hlog 1 (w1 u) (w0 u) ltac:(lia) ltac:(lia) ltac:(lia)) as HL.
    rewrite Z.geb_leb. destruct (Z.leb_spec 0 (Z.log2 (w1 u))); [|lia].
    rewrite E2, E3. case_match eqn:Hz; [apply Z.eqb_eq in Hz; lia|].
    rewrite (Z.mul_0_r (2 ^ 128)), (Z.mul_0_r (2 ^ 192)), !Z.add_0_r.
    change (2 ^ (64 * 1)) with (2 ^ 64) in HL. lia.
  - pose proof (Z.log2_nonneg (w2 u)).
    pose proof (Hlog 2 (w2 u) (w0 u + 2 ^ 64 * w1 u) ltac:(lia) ltac:(lia) ltac:(lia)) as HL.
    rewrite Z.geb_leb. destruct (Z.leb_spec 0 (Z.log2 (w2 u))); [|lia].
    rewrite E3. case_match eqn:Hz; [apply Z.eqb_eq in Hz; lia|].
    rewrite (Z.mul_0_r (2 ^ 192)), !Z.add_0_r. change (2 ^ (64 * 2)) with (2 ^ 128) in HL. lia.
  - pose proof (Z.log2_nonneg (w3 u)).
    pose proof (Hlog 3 (w3 u) (w0 u + 2 ^ 64 * w1 u + 2 ^ 128 * w2 u) ltac:(lia) ltac:(lia) ltac:(lia)) as HL.
    rewrite Z.geb_leb. destruct (Z.leb_spec 0 (Z.log2 (w3 u))); [|lia].
    case_match eqn:Hz; [apply Z.eqb_eq in Hz; lia|].
    change (2 ^ (64 * 3)) with (2 ^ 192) in HL. lia.
Qed.

(** * Bytes *)

Lemma setBytesLE_wf p : bytes_wf p -> wf (setBytesLE p).
Proof.
  intros Hp. apply wf_words. intros i Hi.
  assert (bytes_wf (take 8 (drop (Z.to_nat (i * 8)) p))) as Hb by (by apply Forall_take, Forall_drop).
  apply le_read_bound in Hb. rewrite length_take in Hb. split; [lia|].
  eapply Z.lt_le_trans; [apply Hb|]. apply Z.pow_le_mono_r; lia.
Qed.

Lemma length_getBytesLE u : length (getBytesLE u) = 32%nat.
Proof. unfold getBytesLE. by rewrite !length_app, !length_le_bytes. Qed.

Lemma getBytesLE_wf u : bytes_wf (getBytesLE u).
Proof. unfold getBytesLE. repeat apply Forall_app_2; apply le_bytes_wf. Qed.

Lemma setBytesLE_getBytesLE u : wf u -> setBytesLE (getBytesLE u) = u.
Proof.
  intros Hu. unfold setBytesLE, getBytesLE, words.
  pose proof (wf_w u 0 Hu). pose proof (wf_w u 1 Hu).
  pose proof (wf_w u 2 Hu). pose proof (wf_w u 3 Hu). w_index.
  change (Z.to_nat (0 * 8)) with 0%nat. change (Z.to_nat (1 * 8)) with 8%nat.
  change (Z.to_nat (2 * 8)) with 16%nat. change (Z.to_nat (3 * 8)) with 24%nat.
  destruct u as [x0 x1 x2 x3]; cbn [w0 w1 w2 w3] in *. f_equal.
  - rewrite drop_0, take_app_length' by (by rewrite length_le_bytes). by apply le_bytes_read_u64.
  - rewrite (chunk_app 8 8) by apply length_le_bytes. by apply le_bytes_read_u64.
  - rewrite app_assoc, (chunk_app 8 16) by (rewrite ?length_app, !length_le_bytes; done).
    by apply le_bytes_read_u64.
  - rewrite 2!app_assoc, <- (app_nil_r (le_bytes 8 x3)), (chunk_app 8 24)
      by (rewrite ?length_app, !length_le_bytes; done).
    by apply le_bytes_read_u64.
Qed.

Lemma getBytesLE_setBytesLE p : bytes_wf p -> length p = 32%nat -> getBytesLE (setBytesLE p) = p.
Proof.
  intros Hp Hl. unfold getBytesLE, setBytesLE, words. cbn [w0 w1 w2 w3].
  assert (forall k, (k + 8 <= 32)%nat ->
    le_bytes 8 (le_read (take 8 (drop k p))) = take 8 (drop k p)) as Hc.
  { intros k Hk. rewrite <- (le_bytes_read (take 8 (drop k p))) at 2
      by (by apply Forall_take, Forall_drop).
    f_equal. rewrite length_take, length_drop. lia. }
  change (Z.to_nat (0 * 8)) with 0%nat. change (Z.to_nat (1 * 8)) with 8%nat.
  change (Z.to_nat (2 * 8)) with 16%nat. change (Z.to_nat (3 * 8)) with 24%nat.
  rewrite !Hc by lia. rewrite drop_0.
  rewrite (take_ge (drop 24 p)) by (rewrite length_drop; lia).
  change 24%nat with (16 + 8)%nat. rewrite <- (drop_drop p 8 16), take_drop.
  change 16%nat with (8 + 8)%nat. rewrite <- (drop_drop p 8 8), take_drop.
  apply take_drop.
Qed.

#[export] Hint Resolve wf_zero wf_shl wf_shr of_Z_wf setBytesLE_wf getBytesLE_wf : cdx.
#[export] Hint Rewrite length_getBytesLE : cdx.

(** * Properties *)

(** The operators [+], [-], [mul64], [<<] and [>>] of [uint256] keep the
    words in range and compute integer arithmetic modulo 2^256; [>>] is the
    floor division by a power of two. *)
Theorem u256_arith_mod_2_256 (a b : uint256) (m n : Z) :
  wf a -> wf b -> is_u64 m -> 0 <= n ->
  (wf (add a b) /\ to_Z (add a b) = (to_Z a + to_Z b) mod 2 ^ 256) /\
  (wf (sub a b) /\ to_Z (sub a b) = (to_Z a - to_Z b) mod 2 ^ 256) /\
  (wf (mul64 a m) /\ to_Z (mul64 a m) = (to_Z a * m) mod 2 ^ 256) /\
  (wf (shl a n) /\ to_Z (shl a n) = (to_Z a * 2 ^ n) mod 2 ^ 256) /\
  (wf (shr a n) /\ to_Z (shr a n) = to_Z a / 2 ^ n).
Proof.
  intros. split_and!; try (by apply add_spec) || (by apply sub_spec) || (by apply mul64_spec).
  all: by apply wf_shl || apply wf_shr || apply to_Z_shl || apply to_Z_shr.
Qed.

Lemma u256_arith_mod_2_256_witness :
  to_Z (add (U256 (2 ^ 64 - 1) 0 0 (2 ^ 64 - 1)) (U256 1 (2 ^ 64 - 1) (2 ^ 64 - 1) 5))
    = (to_Z (U256 (2 ^ 64 - 1) 0 0 (2 ^ 64 - 1))
       + to_Z (U256 1 (2 ^ 64 - 1) (2 ^ 64 - 1) 5)) mod 2 ^ 256.
Proof.
  refine (proj2 (proj1 (u256_arith_mod_2_256 (U256 (2 ^ 64 - 1) 0 0 (2 ^ 64 - 1))
    (U256 1 (2 ^ 64 - 1) (2 ^ 64 - 1) 5) 7 65 _ _ _ _))); repeat split; vm_compute; congruence.
Defined.

(** C37: [div] (256 by 256 bits, shift and subtract) and [div64] compute the
    floor quotient, and [div64] the remainder; a zero divisor of [div] gives
    zero. *)
Theorem u256_div_correct (a d : uint256) (m : Z) :
  wf a -> wf d -> 0 < m < 2 ^ 64 ->
  wf (div a d) /\ to_Z (div a d) = (if to_Z d =? 0 then 0 else to_Z a / to_Z d) /\
  wf (fst (div64 a m)) /\ to_Z (fst (div64 a m)) = to_Z a / m /\
  snd (div64 a m) = to_Z a mod m.
Proof.
  intros Ha Hd Hm. destruct (div_spec a d Ha Hd) as [Hw He].
  split; [done|]. split; [|by apply div64_spec].
  rewrite He. destruct (Z.eqb_spec (to_Z d) 0) as [->|]; [|done]. apply Z.div_0_r.
Qed.

Lemma u256_div_correct_witness :
  to_Z (div (U256 0 0 0 (2 ^ 63)) (U256 3 0 1 0)) = to_Z (U256 0 0 0 (2 ^ 63)) / to_Z (U256 3 0 1 0).
Proof.
  refine (proj1 (proj2 (u256_div_correct (U256 0 0 0 (2 ^ 63)) (U256 3 0 1 0) 10 _ _ _)));
    repeat split; vm_compute; congruence.
Defined.

(** The comparison operators of [uint256] decide the order and the
    equality of the integers denoted. *)
Theorem u256_compare_correct (a b : uint256) :
  wf a -> wf b ->
  (ltb a b = true <-> to_Z a < to_Z b) /\ (leb a b = true <-> to_Z a <= to_Z b) /\
  (geb a b = true <-> to_Z a >= to_Z b) /\ (gtb a b = true <-> to_Z a > to_Z b) /\
  (eqb a b = true <-> to_Z a = to_Z b) /\ (isZero a = true <-> to_Z a = 0).
Proof.
  intros Ha Hb. unfold gtb.
  rewrite !ltb_spec, leb_spec, geb_spec, eqb_spec, isZero_spec, bool_decide_eq_true by done.
  rewrite !Z.ltb_lt, !Z.leb_le, Z.eqb_eq. split_and!; try lia.
  split; [by intros ->|]. by apply to_Z_inj.
Qed.

Lemma u256_compare_correct_witness :
  ltb (U256 5 0 0 1) (U256 0 1 0 1) = true <-> to_Z (U256 5 0 0 1) < to_Z (U256 0 1 0 1).
Proof.
  refine (proj1 (u256_compare_correct (U256 5 0 0 1) (U256 0 1 0 1) _ _));
    repeat split; vm_compute; congruence.
Defined.

(** The exact result of [chainWorkOfTarget]: 2^256 / (target + 1) for a
    target in [1, 2^255), the saturated 2^256 - 1 for target zero, and zero
    for every target of 2^255 or more (the 256-bit remainder loses its top
    bit in the last shift). *)
Theorem chain_work_exact (t : uint256) :
  wf t ->
  to_Z (chainWorkOfTarget t) =
  if to_Z t =? 0 then 2 ^ 256 - 1
  else if to_Z t <? 2 ^ 255 then 2 ^ 256 / (to_Z t + 1) else 0.
Proof. apply chainWorkOfTarget_spec. Qed.

Lemma chain_work_exact_witness :
  to_Z (chainWorkOfTarget (U256 0 0 0 (2 ^ 63))) = 0 /\
  to_Z (chainWorkOfTarget (U256 (2 ^ 64 - 1) 0 0 0)) = 2 ^ 256 / 2 ^ 64.
Proof.
  split.
  - rewrite (chain_work_exact (U256 0 0 0 (2 ^ 63))); [done|]. repeat split; vm_compute; congruence.
  - rewrite (chain_work_exact (U256 (2 ^ 64 - 1) 0 0 0)); [done|]. repeat split; vm_compute; congruence.
Defined.
