(* ===== verification/Compact.v ===== *)
(** [crypto/uint256.cpp]: the compact ("bits") encoding of difficulty targets
    and the hexadecimal forms of [uint256]. *)
From Stdlib Require Import Ascii.
From S2P Require Import Prelude UInt256.
Import uint256.

(** * Compact encoding *)

Definition getCompact (u : uint256) : Z :=
  let nSize := (getBitLength u + 7) / 8 in
  if nSize =? 0 then 0
  else
    let nCompact :=
      if nSize <=? 3 then u32 (Z.shiftl (u32 (w0 u)) (8 * (3 - nSize)))
      else u32 (w0 (shr u (8 * (nSize - 3)))) in
    let '(nCompact, nSize) :=
      if negb (Z.land nCompact 0x00800000 =? 0)
      then (Z.shiftr nCompact 8, nSize + 1) else (nCompact, nSize) in
    Z.lor nCompact (u32 (Z.shiftl nSize 24)).

Definition setCompact (nCompact : Z) : uint256 :=
  let nSize := Z.shiftr nCompact 24 in
  let nWord := Z.land nCompact 0x007fffff in
  if nSize <=? 3 then of_u64 (Z.shiftr nWord (8 * (3 - nSize)))
  else shl (of_u64 nWord) (8 * (nSize - 3)).

(** * Hexadecimal *)

Definition ascii_Z (c : ascii) : Z := Z.of_nat (nat_of_ascii c).

(** The [nib] lambda of [fromHex] and [fromHexReversed]. *)
Definition nib (c : ascii) : Z :=
  let z := ascii_Z c in
  if (48 <=? z) && (z <=? 57) then z - 48
  else if (97 <=? z) && (z <=? 102) then z - 97 + 10
  else if (65 <=? z) && (z <=? 70) then z - 65 + 10
  else 0.

(** [if (h.size() > 64) h = h.substr(h.size() - 64);
     while (h.size() < 64) h = "0" + h;] on the characters of the string. *)
Definition hex_pad (h : list ascii) : list ascii :=
  let h := if (64 <? Z.of_nat (length h)) then drop (length h - 64) h else h in
  repeat "0"%char (64 - length h) ++ h.

Definition hex_at (h : list ascii) (i : nat) : Z := nib (nth i h "0"%char).

(** The loop of [fromHex]: byte [k] of the display order goes to word
    [(31-k)/8], shift [(31-k)%8]. *)
Definition fromHex_step (h : list ascii) (r : uint256) (k : nat) : uint256 :=
  let byte := Z.lor (Z.shiftl (hex_at h (k * 2)) 4) (hex_at h (k * 2 + 1)) in
  let wordIdx := (31 - Z.of_nat k) / 8 in
  let shift := (31 - Z.of_nat k) mod 8 in
  words (fun i => if i =? wordIdx
                  then Z.lor (w r i) (u64 (Z.shiftl byte (8 * shift))) else w r i).
Definition fromHex (hex : string) : uint256 :=
  foldl (fromHex_step (hex_pad (String.list_ascii_of_string hex))) zero (seq 0 32).

(** [fromHexReversed]: the 32 display bytes, reversed in place, read
    little-endian. *)
Definition hex_bytes (h : list ascii) : bytes :=
  map (fun i => u8 (Z.lor (Z.shiftl (hex_at h (i * 2)) 4) (hex_at h (i * 2 + 1)))) (seq 0 32).
Definition fromHexReversed (hex : string) : uint256 :=
  setBytesLE (rev (hex_bytes (hex_pad (String.list_ascii_of_string hex)))).

(** [H[d]] of the source's digit table. *)
Definition hex_digit (d : Z) : ascii :=
  ascii_of_nat (Z.to_nat (if d <? 10 then 48 + d else 97 + (d - 10))).

(** [getHex]: byte [b] from the least significant end is written at position
    [(31 - b) * 2]. *)
Definition getHex (u : uint256) : string :=
  String.string_of_list_ascii
    (flat_map (fun b => [hex_digit (Z.land (Z.shiftr b 4) 0xf); hex_digit (Z.land b 0xf)])
       (rev (getBytesLE u))).

(** * Compact encoding: lemmas *)

(** The integer a compact value denotes. *)
Definition compact_value (size m : Z) : Z :=
  if size <=? 3 then m / 2 ^ (8 * (3 - size))
  else (m * 2 ^ (8 * (size - 3))) mod 2 ^ 256.

Lemma setCompact_spec c : is_u32 c ->
  wf (setCompact c) /\
  to_Z (setCompact c) = compact_value (c / 2 ^ 24) (c mod 2 ^ 23).
Proof.
  intros Hc. unfold setCompact, compact_value.
  rewrite Z.shiftr_div_pow2 by lia. change 0x007fffff with (Z.ones 23).
  rewrite Z.land_ones by lia.
  assert (0 <= c / 2 ^ 24 < 256) by u_divmod.
  assert (0 <= c mod 2 ^ 23 < 2 ^ 23) by (apply Z.mod_pos_bound; lia).
  assert (is_u64 (c mod 2 ^ 23)) by u_range.
  destruct (Z.leb_spec (c / 2 ^ 24) 3).
  - rewrite Z.shiftr_div_pow2, to_Z_of_u64 by lia. split; [|done].
    apply wf_of_u64. pose proof (Z.pow_pos_nonneg 2 (8 * (3 - c / 2 ^ 24))).
    split; [apply Z.div_pos; lia|].
    eapply Z.le_lt_trans; [apply Z.div_le_upper_bound with (q := 2 ^ 23); nia|lia].
  - split; [apply wf_shl; [by apply wf_of_u64|lia]|].
    by rewrite to_Z_shl, to_Z_of_u64 by (lia || by apply wf_of_u64).
Qed.

(** Byte length of a positive integer. *)
Lemma byte_length_spec t n : 0 < t -> n = (Z.log2 t + 1 + 7) / 8 ->
  1 <= n /\ 2 ^ (8 * (n - 1)) <= t < 2 ^ (8 * n).
Proof.
  intros Ht ->. pose proof (Z.log2_nonneg t). pose proof (Z.log2_spec t Ht) as Hs.
  assert (1 <= (Z.log2 t + 1 + 7) / 8) by (apply Z.div_le_lower_bound; lia).
  pose proof (Z.div_mod (Z.log2 t + 1 + 7) 8 ltac:(lia)).
  pose proof (Z.mod_pos_bound (Z.log2 t + 1 + 7) 8 ltac:(lia)).
  split; [done|]. split.
  - eapply Z.le_trans; [|apply Hs]. apply Z.pow_le_mono_r; lia.
  - eapply Z.lt_le_trans; [apply Hs|]. apply Z.pow_le_mono_r; lia.
Qed.

(** Mantissa before the sign-bit adjustment. *)
Definition mant0 (t n : Z) : Z :=
  if n <=? 3 then t * 2 ^ (8 * (3 - n)) else t / 2 ^ (8 * (n - 3)).

Lemma mant0_range t n : 1 <= n -> 2 ^ (8 * (n - 1)) <= t < 2 ^ (8 * n) ->
  2 ^ 16 <= mant0 t n < 2 ^ 24.
Proof.
  intros Hn Ht. unfold mant0. destruct (Z.leb_spec n 3).
  - assert (n = 1 \/ n = 2 \/ n = 3) as [->|[->| ->]] by lia; simpl in *; lia.
  - replace (8 * (n - 1)) with (8 * (n - 3) + 16) in Ht by lia.
    replace (8 * n) with (8 * (n - 3) + 24) in Ht by lia.
    rewrite !Z.pow_add_r in Ht by lia. split.
    + apply Z.div_le_lower_bound; lia.
    + apply Z.div_lt_upper_bound; lia.
Qed.

Lemma land_bit23 m : 2 ^ 16 <= m < 2 ^ 24 ->
  negb (Z.land m 0x00800000 =? 0) = (2 ^ 23 <=? m).
Proof.
  intros Hm. change 0x00800000 with (2 ^ 23).
  assert (Z.land m (2 ^ 23) = if 2 ^ 23 <=? m then 2 ^ 23 else 0) as ->.
  { apply Z.bits_inj'. intros i Hi. rewrite Z.land_spec, Z.pow2_bits_eqb by done.
    destruct (Z.eqb_spec 23 i) as [<-|Hne].
    - rewrite andb_true_r, Z.testbit_eqb by lia.
      destruct (Z.leb_spec (2 ^ 23) m).
      + replace (m / 2 ^ 23) with 1 by (apply Z.div_unique_pos with (m - 2 ^ 23); lia). done.
      + by rewrite Z.div_small by lia.
    - rewrite andb_false_r. destruct (2 ^ 23 <=? m).
      + by rewrite Z.pow2_bits_false by lia.
      + by rewrite Z.bits_0. }
  by destruct (2 ^ 23 <=? m).
Qed.

(** Final size and mantissa of [getCompact]. *)
Definition compact_size (t n : Z) : Z := if 2 ^ 23 <=? mant0 t n then n + 1 else n.
Definition compact_mant (t n : Z) : Z :=
  if 2 ^ 23 <=? mant0 t n then mant0 t n / 2 ^ 8 else mant0 t n.

Lemma getCompact_spec u n : wf u -> 0 < to_Z u -> n = (Z.log2 (to_Z u) + 1 + 7) / 8 ->
  getCompact u = compact_mant (to_Z u) n + compact_size (to_Z u) n * 2 ^ 24.
Proof.
  intros Hu Ht Hn. unfold getCompact, getBitLength. rewrite highestBit_spec by done.
  destruct (Z.eqb_spec (to_Z u) 0); [lia|]. rewrite <- Hn.
  destruct (byte_length_spec _ _ Ht Hn) as [Hn1 Hb].
  destruct (Z.eqb_spec n 0); [lia|].
  pose proof (to_Z_bound _ Hu) as Hub.
  assert (n <= 32).
  { apply Z.nlt_ge. intros ?. pose proof (Z.pow_le_mono_r 2 256 (8 * (n - 1))). lia. }
  pose proof (mant0_range _ _ Hn1 Hb) as Hm.
  assert ((if n <=? 3 then u32 (Z.shiftl (u32 (w0 u)) (8 * (3 - n)))
           else u32 (w0 (shr u (8 * (n - 3))))) = mant0 (to_Z u) n) as ->.
  { unfold mant0 in *. destruct (Z.leb_spec n 3).
    - assert (to_Z u < 2 ^ 24) by (pose proof (Z.pow_le_mono_r 2 (8 * n) 24); lia).
      assert (w0 u = to_Z u) as ->.
      { destruct Hu as (?&?&?&?). unfold to_Z in *. u_range. }
      rewrite (u32_id (to_Z u)), Z.shiftl_mul_pow2 by u_range. apply u32_id. u_range.
    - rewrite <- to_Z_shr in Hm |- * by (done || lia).
      assert (w0 (shr u (8 * (n - 3))) = to_Z (shr u (8 * (n - 3)))) as ->.
      { destruct (wf_shr u (8 * (n - 3)) Hu ltac:(lia)) as (?&?&?&?). unfold to_Z in *. u_range. }
      apply u32_id. u_range. }
  rewrite land_bit23 by done. unfold compact_mant, compact_size.
  destruct (Z.leb_spec (2 ^ 23) (mant0 (to_Z u) n)).
  - rewrite Z.shiftr_div_pow2, Z.shiftl_mul_pow2, u32_id by u_range.
    rewrite lor_disjoint_add by (split_and?; u_divmod). done.
  - rewrite Z.shiftl_mul_pow2, u32_id by u_range.
    rewrite lor_disjoint_add by lia. done.
Qed.

(** Encoding and decoding truncates to a multiple of a power of 256; what is
    kept has at least fifteen significant bits. *)
Lemma compact_truncates u : wf u -> 0 < to_Z u ->
  exists e, 0 <= e /\ is_u32 (getCompact u) /\
    to_Z (setCompact (getCompact u)) = to_Z u / 2 ^ (8 * e) * 2 ^ (8 * e) /\
    (e = 0 \/ 2 ^ 15 <= to_Z u / 2 ^ (8 * e)).
Proof.
  intros Hu Ht. remember ((Z.log2 (to_Z u) + 1 + 7) / 8) as n eqn:Hn.
  rewrite (getCompact_spec u n Hu Ht Hn).
  destruct (byte_length_spec _ _ Ht Hn) as [Hn1 Hb]. pose proof (to_Z_bound _ Hu) as Hub.
  pose proof (mant0_range _ _ Hn1 Hb) as Hm.
  assert (n <= 32).
  { apply Z.nlt_ge. intros ?. pose proof (Z.pow_le_mono_r 2 256 (8 * (n - 1))). lia. }
  set (sz := compact_size (to_Z u) n). set (m := compact_mant (to_Z u) n).
  assert (2 ^ 15 <= m < 2 ^ 23) as Hmr.
  { unfold m, compact_mant. destruct (Z.leb_spec (2 ^ 23) (mant0 (to_Z u) n)); [|lia].
    split; [apply Z.div_le_lower_bound; lia|apply Z.div_lt_upper_bound; lia]. }
  assert (1 <= sz <= 33) as Hsz.
  { unfold sz, compact_size. destruct (2 ^ 23 <=? _); lia. }
  assert (is_u32 (m + sz * 2 ^ 24)) as Hc by u_range.
  destruct (setCompact_spec _ Hc) as [_ ->].
  replace ((m + sz * 2 ^ 24) / 2 ^ 24) with sz by (rewrite Z.div_add, Z.div_small; lia).
  replace ((m + sz * 2 ^ 24) mod 2 ^ 23) with m.
  2: { change (2 ^ 24) with (2 * 2 ^ 23). rewrite Z.mul_assoc, Z.mod_add, Z.mod_small; lia. }
  unfold compact_value. destruct (Z.leb_spec sz 3).
  - exists 0. split_and!; [done..| |by left].
    change (2 ^ (8 * 0)) with 1. rewrite Z.div_1_r, Z.mul_1_r.
    subst sz m. unfold compact_size, compact_mant, mant0 in *.
    destruct (Z.leb_spec n 3); [|destruct (2 ^ 23 <=? _); lia].
    destruct (Z.leb_spec (2 ^ 23) (to_Z u * 2 ^ (8 * (3 - n)))).
    + replace (8 * (3 - n)) with (8 * (3 - (n + 1)) + 8) by lia.
      rewrite Z.pow_add_r, Z.mul_assoc, Z.div_mul, Z.div_mul by lia. done.
    + by rewrite Z.div_mul by lia.
  - exists (sz - 3).
    assert (m = to_Z u / 2 ^ (8 * (sz - 3))) as Em.
    { subst sz m. unfold compact_size, compact_mant, mant0 in *.
      destruct (Z.leb_spec n 3).
      - destruct (Z.leb_spec (2 ^ 23) (to_Z u * 2 ^ (8 * (3 - n)))); [|lia].
        replace n with 3 by lia. change (2 ^ (8 * (3 - 3))) with 1. by rewrite Z.mul_1_r.
      - destruct (Z.leb_spec (2 ^ 23) (to_Z u / 2 ^ (8 * (n - 3)))); [|done].
        rewrite Z.div_div, <- Z.pow_add_r by lia. do 2 f_equal. lia. }
    rewrite Z.mod_small.
    + rewrite <- Em. split_and!; [lia|done..|]. right. lia.
    + rewrite Em. pose proof (Z.pow_pos_nonneg 2 (8 * (sz - 3))).
      pose proof (Z.mul_div_le (to_Z u) (2 ^ (8 * (sz - 3)))).
      split; [|lia]. apply Z.mul_nonneg_nonneg; [apply Z.div_pos|]; lia.
Qed.

Lemma byte_length_unique t n : 1 <= n -> 2 ^ (8 * (n - 1)) <= t < 2 ^ (8 * n) ->
  n = (Z.log2 t + 1 + 7) / 8.
Proof.
  intros Hn [H1 H2]. pose proof (Z.pow_pos_nonneg 2 (8 * (n - 1)) ltac:(lia) ltac:(lia)).
  assert (0 < t) by lia. apply Z.log2_le_pow2 in H1; [|lia]. apply Z.log2_lt_pow2 in H2; [|lia].
  apply Z.div_unique_pos with (Z.log2 t + 8 - 8 * n); lia.
Qed.

(** Compact values the encoder produces for targets of three bytes and more:
    sign bit clear, mantissa not shiftable, value below 2^256. *)
Definition compact_canonical (c : Z) : bool :=
  let s := c / 2 ^ 24 in let m := c mod 2 ^ 24 in
  (0 <=? c) && (c <? 2 ^ 32) && (3 <=? s) && (2 ^ 15 <=? m) && (m <? 2 ^ 23) &&
  ((s <? 33) || ((s =? 33) && (m <? 2 ^ 16))).

Lemma canonical_value c : compact_canonical c = true ->
  let s := c / 2 ^ 24 in let m := c mod 2 ^ 24 in
  c = m + s * 2 ^ 24 /\ is_u32 c /\ 3 <= s /\ 2 ^ 15 <= m < 2 ^ 23 /\
  m * 2 ^ (8 * (s - 3)) < 2 ^ 256 /\ to_Z (setCompact c) = m * 2 ^ (8 * (s - 3)).
Proof.
  intros H s m. unfold compact_canonical in H. fold s m in H.
  rewrite !andb_true_iff, orb_true_iff, andb_true_iff, !Z.leb_le, !Z.ltb_lt, Z.eqb_eq in H.
  destruct H as [[[[[H1 H2] H3] H4] H5] H6].
  pose proof (Z.div_mod c (2 ^ 24) ltac:(lia)) as E. fold s m in E.
  assert (m * 2 ^ (8 * (s - 3)) < 2 ^ 256) as Hlt.
  { destruct H6 as [H6|[-> H6]].
    - pose proof (Z.pow_le_mono_r 2 (8 * (s - 3)) 232 ltac:(lia) ltac:(lia)).
      pose proof (Z.pow_pos_nonneg 2 (8 * (s - 3)) ltac:(lia) ltac:(lia)).
      change (2 ^ 256) with (2 ^ 24 * 2 ^ 232). nia.
    - change (2 ^ (8 * (33 - 3))) with (2 ^ 240). lia. }
  split_and!; try lia; [u_range|].
  destruct (setCompact_spec c ltac:(u_range)) as [_ ->]. fold s.
  assert (c mod 2 ^ 23 = m) as ->.
  { rewrite E. change (2 ^ 24) with (2 ^ 23 * 2). rewrite <- Z.mul_assoc, Z.add_comm, Z.mul_comm,
      Z.mod_add, Z.mod_small; lia. }
  unfold compact_value. destruct (Z.leb_spec s 3).
  - assert (s = 3) as -> by lia. change (2 ^ (8 * (3 - 3))) with 1. by rewrite Z.div_1_r, Z.mul_1_r.
  - apply Z.mod_small. split; [|done]. pose proof (Z.pow_pos_nonneg 2 (8 * (s - 3))). nia.
Qed.

Lemma getCompact_setCompact c : compact_canonical c = true -> getCompact (setCompact c) = c.
Proof.
  intros Hc. destruct (canonical_value c Hc) as (E & H32 & Hs & Hm & Hlt & Ev).
  revert E Hs Hm Hlt Ev. generalize (c / 2 ^ 24) (c mod 2 ^ 24). intros s m E Hs Hm Hlt Ev.
  destruct (setCompact_spec c H32) as [Hw _].
  pose proof (Z.pow_pos_nonneg 2 (8 * (s - 3)) ltac:(lia) ltac:(lia)) as HP.
  assert (0 < m * 2 ^ (8 * (s - 3))) by nia.
  set (n := if 2 ^ 16 <=? m then s else s - 1).
  assert (1 <= n /\ 2 ^ (8 * (n - 1)) <= m * 2 ^ (8 * (s - 3)) < 2 ^ (8 * n)) as [Hn1 Hb].
  { unfold n. destruct (Z.leb_spec (2 ^ 16) m); (split; [lia|]).
    - replace (8 * (s - 1)) with (16 + 8 * (s - 3)) by lia.
      replace (8 * s) with (24 + 8 * (s - 3)) by lia. rewrite !Z.pow_add_r by lia. nia.
    - replace (8 * (s - 1 - 1)) with (8 + 8 * (s - 3)) by lia.
      replace (8 * (s - 1)) with (16 + 8 * (s - 3)) by lia. rewrite !Z.pow_add_r by lia. nia. }
  rewrite (getCompact_spec _ n); rewrite ?Ev; [|done|done|by apply byte_length_unique].
  assert (mant0 (m * 2 ^ (8 * (s - 3))) n = if 2 ^ 16 <=? m then m else m * 2 ^ 8) as Em.
  { unfold mant0, n. destruct (Z.leb_spec (2 ^ 16) m).
    - destruct (Z.leb_spec s 3); [|by rewrite Z.div_mul by lia].
      replace s with 3 by lia. change (8 * (3 - 3)) with 0. lia.
    - destruct (Z.leb_spec (s - 1) 3).
      + rewrite <- Z.mul_assoc, <- Z.pow_add_r by lia. do 2 f_equal. lia.
      + replace (8 * (s - 3)) with (8 + 8 * (s - 1 - 3)) by lia.
        by rewrite Z.pow_add_r, Z.mul_assoc, Z.div_mul by lia. }
  unfold compact_mant, compact_size. rewrite Em. unfold n.
  destruct (Z.leb_spec (2 ^ 16) m).
  - destruct (Z.leb_spec (2 ^ 23) m); [lia|]. lia.
  - destruct (Z.leb_spec (2 ^ 23) (m * 2 ^ 8)); [|lia]. rewrite Z.div_mul by lia. lia.
Qed.

(** * Hexadecimal: lemmas *)

Lemma nib_hex_digit d : 0 <= d < 16 -> nib (hex_digit d) = d.
Proof.
  intros Hd.
  assert (forall n, (n < 16)%nat -> nib (hex_digit (Z.of_nat n)) = Z.of_nat n) as H.
  { intros n Hn. do 16 (destruct n as [|n]; [vm_compute; done|]). lia. }
  rewrite <- (Z2Nat.id d) by lia. apply H. lia.
Qed.

Lemma nibbles_byte b : is_u8 b ->
  u8 (Z.lor (Z.shiftl (Z.land (Z.shiftr b 4) 0xf) 4) (Z.land b 0xf)) = b.
Proof.
  intros Hb. change 0xf with (Z.ones 4). rewrite !Z.land_ones, Z.shiftr_div_pow2 by lia.
  rewrite Z.shiftl_mul_pow2, Z.lor_comm, lor_disjoint_add by (lia || apply Z.mod_pos_bound; lia).
  assert (0 <= b / 2 ^ 4 < 2 ^ 4) by u_divmod. rewrite (Z.mod_small (b / 2 ^ 4)) by lia.
  rewrite u8_id; u_divmod.
Qed.

Definition byte_digits (b : Z) : list ascii :=
  [hex_digit (Z.land (Z.shiftr b 4) 0xf); hex_digit (Z.land b 0xf)].

Lemma nth_byte_digits bs i d :
  nth (i * 2) (flat_map byte_digits bs) d
    = match nth_error bs i with Some b => hex_digit (Z.land (Z.shiftr b 4) 0xf) | None => d end /\
  nth (i * 2 + 1) (flat_map byte_digits bs) d
    = match nth_error bs i with Some b => hex_digit (Z.land b 0xf) | None => d end.
Proof.
  revert i. induction bs as [|b bs IH]; intros [|i]; simpl; try done; try apply IH.
Qed.

Lemma land_f_range b : 0 <= Z.land b 0xf < 16.
Proof. change 0xf with (Z.ones 4). rewrite Z.land_ones by lia. apply Z.mod_pos_bound. lia. Qed.

Lemma hex_bytes_digits bs : bytes_wf bs -> length bs = 32%nat ->
  hex_bytes (flat_map byte_digits bs) = bs.
Proof.
  intros Hb Hl. apply list_eq. intros i. unfold hex_bytes.
  destruct (decide (i < 32)%nat) as [Hi|Hi].
  - rewrite list_lookup_fmap, lookup_seq_lt by done. simpl.
    destruct (nth_byte_digits bs i "0"%char) as [E1 E2]. unfold hex_at. rewrite E1, E2.
    destruct (lookup_lt_is_Some_2 bs i ltac:(lia)) as [b Hbi].
    assert (nth_error bs i = Some b) as ->.
    { revert Hbi. clear. revert i. induction bs as [|x bs IH]; intros [|i]; simpl; try done. apply IH. }
    rewrite !nib_hex_digit by apply land_f_range. rewrite Hbi. f_equal. apply nibbles_byte.
    by apply (Forall_lookup_1 _ _ _ _ Hb Hbi).
  - rewrite list_lookup_fmap, !lookup_ge_None_2; try done; [lia|].
    rewrite length_seq. lia.
Qed.

Lemma length_flat_map_digits bs : length (flat_map byte_digits bs) = (length bs * 2)%nat.
Proof. induction bs; simpl; lia. Qed.

Lemma fromHexReversed_getHex u : wf u -> fromHexReversed (getHex u) = u.
Proof.
  intros Hu. unfold fromHexReversed, getHex. rewrite String.list_ascii_of_string_of_list_ascii.
  fold byte_digits. change (flat_map (fun b : Z => _) ?l) with (flat_map byte_digits l).
  assert (hex_pad (flat_map byte_digits (rev (getBytesLE u))) = flat_map byte_digits (rev (getBytesLE u))) as ->.
  { unfold hex_pad. rewrite length_flat_map_digits, length_rev, length_getBytesLE. done. }
  rewrite hex_bytes_digits; rewrite ?rev_involutive, ?length_rev, ?length_getBytesLE; try done.
  - by apply setBytesLE_getBytesLE.
  - apply Forall_rev || (unfold bytes_wf; rewrite <- reverse_rev; apply Forall_reverse). apply getBytesLE_wf.
Qed.

(** * Properties *)

(** Decoding and re-encoding a canonical compact value gives it back. *)
Theorem compact_roundtrip (c : Z) :
  compact_canonical c = true -> getCompact (setCompact c) = c.
Proof. apply getCompact_setCompact. Qed.

Lemma compact_roundtrip_witness :
  getCompact (setCompact 0x1d00ffff) = 0x1d00ffff /\ getCompact (setCompact 0x207fffff) = 0x207fffff.
Proof. split; apply compact_roundtrip; reflexivity. Defined.

(** Encoding a target and decoding it never gives a larger target, and
    loses less than one part in 2^15 of it. *)
Theorem compact_rounds_down (u : uint256) :
  wf u ->
  let u' := setCompact (getCompact u) in
  to_Z u' <= to_Z u /\ (to_Z u - to_Z u') * 2 ^ 15 <= to_Z u'.
Proof.
  intros Hu u'. pose proof (to_Z_bound _ Hu). destruct (Z.eqb_spec (to_Z u) 0) as [E|E].
  { assert (u = zero) as -> by (apply to_Z_inj; [done|apply wf_zero|done]). done. }
  destruct (compact_truncates u Hu ltac:(lia)) as (e & He & _ & E' & Hk).
  unfold u'. rewrite E'. pose proof (Z.pow_pos_nonneg 2 (8 * e) ltac:(lia) ltac:(lia)).
  pose proof (Z.div_mod (to_Z u) (2 ^ (8 * e)) ltac:(lia)).
  pose proof (Z.mod_pos_bound (to_Z u) (2 ^ (8 * e)) ltac:(lia)).
  destruct Hk as [->|Hk]; [|nia]. change (2 ^ (8 * 0)) with 1 in *. lia.
Qed.

Lemma compact_rounds_down_witness :
  to_Z (setCompact (getCompact (U256 0 0 0x123456789abcdef 1))) <= to_Z (U256 0 0 0x123456789abcdef 1).
Proof.
  refine (proj1 (compact_rounds_down (U256 0 0 0x123456789abcdef 1) _)).
  repeat split; vm_compute; congruence.
Defined.

(** Printing a hash with [getHex] and parsing it with [fromHexReversed]
    is the identity. *)
Theorem hex_roundtrip (u : uint256) : wf u -> fromHexReversed (getHex u) = u.
Proof. apply fromHexReversed_getHex. Qed.

Lemma hex_roundtrip_witness :
  fromHexReversed (getHex (U256 1 2 3 0xfedcba9876543210)) = U256 1 2 3 0xfedcba9876543210.
Proof. apply hex_roundtrip. repeat split; vm_compute; congruence. Defined.
