(* ===== verification/Consensus.v ===== *)
(** [consensus/]: block subsidy and supply (rewards), retargeting and proof of
    work (difficulty, chainwork), limits (rules) and the fee policy. *)
From S2P Require Import Prelude Config UInt256 Compact.
Import uint256.

(** * Definitions *)

(** ** [consensus/rewards.cpp] *)
Module Rewards.

Definition GetBlockSubsidy (height : Z) : Z :=
  let halvings := Z.quot height HALVING_INTERVAL in
  if halvings >=? 64 then 0 else Z.shiftr INITIAL_BLOCK_REWARD halvings.

Definition IsCoinbaseValueValid (coinbaseValue subsidy fees : Z) : bool :=
  coinbaseValue <=? i64_add subsidy fees.

(** The [while (h < height)] loop of [GetCumulativeSupplyAt]; [None] when the
    fuel is used up. *)
Fixpoint supply_loop (fuel : nat) (height h total : Z) : option Z :=
  match fuel with
  | O => None
  | S f =>
      if h <? height then
        let subsidy := GetBlockSubsidy h in
        if subsidy =? 0 then Some total
        else
          let intervalEnd := (Z.quot h HALVING_INTERVAL + 1) * HALVING_INTERVAL in
          let end_ := if intervalEnd <? height then intervalEnd else height in
          supply_loop f height end_ (i64_add total (subsidy * (end_ - h)))
      else Some total
  end.
(** Each iteration ends a halving interval and the subsidy is zero from the
    33rd on, so 65 iterations are enough (theorem [cumulative_supply_exact]). *)
Definition GetCumulativeSupplyAt (height : Z) : option Z := supply_loop 65 height 0 0.

(** Reference definition: the sum of the subsidies of the blocks below [n]. *)
Definition subsidy_sum (n : nat) : Z :=
  sumZ (map (fun h => GetBlockSubsidy (Z.of_nat h)) (seq 0 n)).

End Rewards.

(** ** [consensus/rules.h], [consensus/rules.cpp] *)
Module Rules.

Definition MAX_BLOCK_WEIGHT : Z := 4000000.
Definition MAX_TX_SIZE : Z := 100000.
Definition MAX_TX_COUNT_PER_BLOCK : Z := 10000.
Definition MIN_TX_FEE : Z := 0.
Definition MAX_MONEY : Z := MAX_SUPPLY_BASE.

(** [now] is [time(nullptr)]. *)
Definition IsBlockTimeValid (now timestamp medianTimePast : Z) (p : ChainParams) : bool :=
  if timestamp >? now + 2 * 3600 then false else true.

Definition GetMaxHeightWithSubsidy : Z := 64 * HALVING_INTERVAL.

End Rules.

(** ** [consensus/policy.cpp] *)
Module Policy.

Definition EstimateSmartFee : Z := DEFAULT_FEE_RATE.
Definition GetDefaultFeeRate : Z := DEFAULT_FEE_RATE.
Definition CalculateFee (txSizeBytes : Z) : Z :=
  let fee := i64 (u64 (u64 txSizeBytes * u64 EstimateSmartFee) / 1000) in
  if fee <? 100 then 100 else fee.

End Policy.

(** ** [consensus/difficulty.cpp], [consensus/chainwork.cpp] *)
Module Difficulty.

Definition TargetFromBits (bits : Z) : uint256 := setCompact bits.
Definition GetMaxTarget : uint256 := setCompact DEFAULT_TARGET_BITS.

Definition CheckProofOfWork (hash : uint256) (bits : Z) : bool :=
  let target := TargetFromBits bits in
  if isZero target then false else leb hash target.

Definition GetNextWorkRequired (lastBlockTime lastBlockHeight lastBits
    firstBlockTimeOfInterval : Z) (p : ChainParams) : Z :=
  if powNoRetarget p then lastBits
  else
    let isNewInterval := Z.rem (lastBlockHeight + 1) (difficultyInterval p) =? 0 in
    if negb isNewInterval then lastBits
    else
      let actualTime := i64_sub lastBlockTime firstBlockTimeOfInterval in
      let actualTime :=
        if actualTime <? Z.quot (targetBlockTime p) 4
        then Z.quot (targetBlockTime p) 4 else actualTime in
      let expectedTime := i64 (targetBlockTime p * difficultyInterval p) in
      let actualTime :=
        if actualTime >? i64 (expectedTime * maxAdjustment p)
        then i64 (expectedTime * maxAdjustment p) else actualTime in
      let target := TargetFromBits lastBits in
      let newTarget := fst (div64 (mul64 target (u64 actualTime)) (u64 expectedTime)) in
      let maxTarget := TargetFromBits (minDifficultyBits p) in
      let newTarget := if gtb newTarget maxTarget then maxTarget else newTarget in
      getCompact newTarget.

Definition GetBlockWork (bits : Z) : uint256 := chainWorkOfTarget (TargetFromBits bits).

(** The clamp the retarget applies to the measured time. *)
Definition clamp_time (p : ChainParams) (t : Z) : Z :=
  Z.min (Z.max t (targetBlockTime p / 4))
        (targetBlockTime p * difficultyInterval p * maxAdjustment p).

End Difficulty.

(** * Rewards: lemmas *)

Import Rewards Rules Policy Difficulty.

Lemma subsidy_shift h : 0 <= h ->
  GetBlockSubsidy h = Z.shiftr INITIAL_BLOCK_REWARD (h / HALVING_INTERVAL).
Proof.
  intros Hh. unfold GetBlockSubsidy. rewrite Z.quot_div_nonneg by done || lia.
  rewrite Z.geb_leb. destruct (Z.leb_spec 64 (h / HALVING_INTERVAL)) as [H|H]; [|done].
  rewrite Z.shiftr_div_pow2 by lia. symmetry. apply Z.div_small.
  pose proof (Z.pow_le_mono_r 2 64 _ ltac:(lia) H). unfold INITIAL_BLOCK_REWARD, COIN. lia.
Qed.

Lemma reward_shift_range k : 0 <= k -> 0 <= Z.shiftr INITIAL_BLOCK_REWARD k <= INITIAL_BLOCK_REWARD.
Proof.
  intros. rewrite Z.shiftr_div_pow2 by done. pose proof (Z.pow_pos_nonneg 2 k).
  unfold INITIAL_BLOCK_REWARD, COIN. split; [apply Z.div_pos; lia|].
  apply Z.div_le_upper_bound; nia.
Qed.

Lemma subsidy_range h : 0 <= h -> 0 <= GetBlockSubsidy h <= INITIAL_BLOCK_REWARD.
Proof. intros. rewrite subsidy_shift by done. apply reward_shift_range, Z.div_pos; done || lia. Qed.

(** Rewards of the first [k] halving periods, per block. *)
Definition reward_sum (k : nat) : Z :=
  sumZ (map (fun j => Z.shiftr INITIAL_BLOCK_REWARD (Z.of_nat j)) (seq 0 k)).
(** Closed form of the supply below height [h]. *)
Definition supply_closed (h : Z) : Z :=
  HALVING_INTERVAL * reward_sum (Z.to_nat (h / HALVING_INTERVAL))
  + (h mod HALVING_INTERVAL) * Z.shiftr INITIAL_BLOCK_REWARD (h / HALVING_INTERVAL).

Lemma reward_sum_S k :
  reward_sum (S k) = reward_sum k + Z.shiftr INITIAL_BLOCK_REWARD (Z.of_nat k).
Proof. unfold reward_sum. rewrite seq_S, map_app, sumZ_app. simpl. lia. Qed.

Lemma subsidy_sum_S n : subsidy_sum (S n) = subsidy_sum n + GetBlockSubsidy (Z.of_nat n).
Proof. unfold subsidy_sum. rewrite seq_S, map_app, sumZ_app. simpl. lia. Qed.

Lemma supply_closed_step h : 0 <= h ->
  supply_closed (h + 1) = supply_closed h + Z.shiftr INITIAL_BLOCK_REWARD (h / HALVING_INTERVAL).
Proof.
  intros Hh. unfold supply_closed.
  pose proof (Z.div_mod h HALVING_INTERVAL ltac:(done)) as E.
  pose proof (Z.mod_pos_bound h HALVING_INTERVAL ltac:(done)) as Hm.
  assert (0 <= h / HALVING_INTERVAL) as Hk by (apply Z.div_pos; done).
  set (k := h / HALVING_INTERVAL) in *. set (m := h mod HALVING_INTERVAL) in *.
  destruct (Z.eqb_spec (m + 1) HALVING_INTERVAL) as [Em|Em].
  - assert ((h + 1) / HALVING_INTERVAL = k + 1) as ->
      by (symmetry; apply Z.div_unique_pos with 0; lia).
    assert ((h + 1) mod HALVING_INTERVAL = 0) as ->
      by (symmetry; apply Z.mod_unique_pos with (k + 1); lia).
    replace (Z.to_nat (k + 1)) with (S (Z.to_nat k)) by lia.
    rewrite reward_sum_S, Z2Nat.id by done. nia.
  - assert ((h + 1) / HALVING_INTERVAL = k) as ->
      by (symmetry; apply Z.div_unique_pos with (m + 1); lia).
    assert ((h + 1) mod HALVING_INTERVAL = m + 1) as ->
      by (symmetry; apply Z.mod_unique_pos with k; lia). lia.
Qed.

Lemma subsidy_sum_closed n : subsidy_sum n = supply_closed (Z.of_nat n).
Proof.
  induction n as [|n IH]; [done|].
  rewrite subsidy_sum_S, Nat2Z.inj_succ, <- Z.add_1_r, supply_closed_step, IH, subsidy_shift by lia.
  done.
Qed.

Lemma reward_zero k : 33 <= k -> Z.shiftr INITIAL_BLOCK_REWARD k = 0.
Proof.
  intros. rewrite Z.shiftr_div_pow2 by lia. apply Z.div_small.
  pose proof (Z.pow_le_mono_r 2 33 k). unfold INITIAL_BLOCK_REWARD, COIN. lia.
Qed.

Lemma reward_sum_mono a b : (a <= b)%nat -> reward_sum a <= reward_sum b.
Proof.
  induction 1 as [|b _ IH]; [lia|]. rewrite reward_sum_S.
  pose proof (reward_shift_range (Z.of_nat b)). lia.
Qed.

Lemma reward_sum_33 k : reward_sum k <= reward_sum 33.
Proof.
  destruct (decide (k <= 33)%nat); [by apply reward_sum_mono|].
  assert (forall j, reward_sum (33 + j) = reward_sum 33) as H.
  { induction j as [|j IH]; [done|]. rewrite Nat.add_succ_r, reward_sum_S, IH, reward_zero by lia. lia. }
  replace k with (33 + (k - 33))%nat by lia. rewrite H. lia.
Qed.

Lemma supply_closed_bound h : 0 <= h -> 0 <= supply_closed h <= HALVING_INTERVAL * reward_sum 33.
Proof.
  intros Hh. unfold supply_closed.
  pose proof (Z.mod_pos_bound h HALVING_INTERVAL ltac:(done)) as Hm.
  assert (0 <= h / HALVING_INTERVAL) as Hk by (apply Z.div_pos; done).
  pose proof (reward_shift_range _ Hk) as Hr.
  pose proof (reward_sum_33 (S (Z.to_nat (h / HALVING_INTERVAL)))) as H33.
  pose proof (reward_sum_mono 0 (Z.to_nat (h / HALVING_INTERVAL)) ltac:(lia)) as H0.
  change (reward_sum 0) with 0 in H0. rewrite reward_sum_S, Z2Nat.id in H33 by done.
  unfold HALVING_INTERVAL in *. nia.
Qed.

Lemma subsidy_sum_mono m n : (m <= n)%nat -> subsidy_sum m <= subsidy_sum n.
Proof.
  induction 1 as [|n _ IH]; [lia|]. rewrite subsidy_sum_S.
  pose proof (subsidy_range (Z.of_nat n)). lia.
Qed.

(** No sum of block subsidies exceeds the money supply. *)
Lemma subsidy_sum_max n : 0 <= subsidy_sum n <= MAX_MONEY.
Proof.
  rewrite subsidy_sum_closed. pose proof (supply_closed_bound (Z.of_nat n)) as H.
  assert (HALVING_INTERVAL * reward_sum 33 <= MAX_MONEY) by (by vm_compute). lia.
Qed.

Lemma supply_closed_within h e : 0 <= h -> h mod HALVING_INTERVAL = 0 ->
  h <= e <= h + HALVING_INTERVAL ->
  supply_closed e = supply_closed h + GetBlockSubsidy h * (e - h).
Proof.
  intros Hh Hm He. rewrite subsidy_shift by done.
  assert (0 < HALVING_INTERVAL) as HI by done.
  assert (forall d : nat, Z.of_nat d <= HALVING_INTERVAL ->
    supply_closed (h + Z.of_nat d) =
    supply_closed h + Z.shiftr INITIAL_BLOCK_REWARD (h / HALVING_INTERVAL) * Z.of_nat d) as H.
  { induction d as [|d IH]; intros Hd; [rewrite Z.add_0_r; lia|].
    rewrite Nat2Z.inj_succ, <- Z.add_1_r, Z.add_assoc, supply_closed_step, IH by lia.
    pose proof (Z.div_mod h HALVING_INTERVAL ltac:(lia)).
    replace ((h + Z.of_nat d) / HALVING_INTERVAL) with (h / HALVING_INTERVAL)
      by (apply Z.div_unique_pos with (Z.of_nat d); lia). lia. }
  specialize (H (Z.to_nat (e - h))). rewrite Z2Nat.id in H by lia.
  replace (h + (e - h)) with e in H by lia. apply H. lia.
Qed.

Lemma supply_closed_exhausted h e : 0 <= h <= e -> GetBlockSubsidy h = 0 ->
  supply_closed e = supply_closed h.
Proof.
  intros He H0. rewrite subsidy_shift in H0 by lia.
  assert (forall d : nat, supply_closed (h + Z.of_nat d) = supply_closed h) as H.
  { induction d as [|d IH]; [by rewrite Z.add_0_r|].
    rewrite Nat2Z.inj_succ, <- Z.add_1_r, Z.add_assoc, supply_closed_step, IH by lia.
    assert (h / HALVING_INTERVAL <= (h + Z.of_nat d) / HALVING_INTERVAL) as Hd
      by (apply Z.div_le_mono; done || lia).
    assert (0 <= h / HALVING_INTERVAL) by (apply Z.div_pos; done || lia).
    assert (Z.shiftr INITIAL_BLOCK_REWARD ((h + Z.of_nat d) / HALVING_INTERVAL) = 0); [|lia].
    replace ((h + Z.of_nat d) / HALVING_INTERVAL) with
      (h / HALVING_INTERVAL + ((h + Z.of_nat d) / HALVING_INTERVAL - h / HALVING_INTERVAL)) by lia.
    rewrite <- Z.shiftr_shiftr, H0 by lia. apply Z.shiftr_0_l. }
  specialize (H (Z.to_nat (e - h))). rewrite Z2Nat.id in H by lia.
  by replace (h + (e - h)) with e in H by lia.
Qed.

Lemma supply_loop_spec f height h : 0 <= h <= height ->
  (h = height \/ h mod HALVING_INTERVAL = 0) ->
  (h = height /\ (1 <= f)%nat \/ 35 - h / HALVING_INTERVAL <= Z.of_nat f) -> (1 <= f)%nat ->
  supply_loop f height h (supply_closed h) = Some (supply_closed height).
Proof.
  assert (0 < HALVING_INTERVAL) as HI by done.
  revert h. induction f as [|f IH]; intros h Hh Hal Hf Hf1; [lia|]. simpl.
  destruct (Z.ltb_spec h height) as [Hlt|]; [|by replace h with height by lia].
  destruct Hal as [|Hm]; [lia|].
  destruct (Z.eqb_spec (GetBlockSubsidy h) 0) as [E|E].
  { f_equal. symmetry. by apply supply_closed_exhausted. }
  rewrite Z.quot_div_nonneg by lia.
  pose proof (Z.div_mod h HALVING_INTERVAL ltac:(lia)) as Eh. rewrite Hm in Eh.
  assert (h / HALVING_INTERVAL < 33) as Hk.
  { apply Z.nle_gt. intros ?. rewrite subsidy_shift, reward_zero in E by lia. done. }
  replace ((h / HALVING_INTERVAL + 1) * HALVING_INTERVAL) with (h + HALVING_INTERVAL) by lia.
  set (e := if h + HALVING_INTERVAL <? height then h + HALVING_INTERVAL else height).
  assert (h < e <= height /\ e <= h + HALVING_INTERVAL /\
    (e = height \/ e = h + HALVING_INTERVAL)) as (He & He2 & He3).
  { unfold e. destruct (Z.ltb_spec (h + HALVING_INTERVAL) height); lia. }
  unfold i64_add.
  rewrite <- (supply_closed_within h e) by lia. rewrite i64_id.
  2: { pose proof (supply_closed_bound e ltac:(lia)) as Hb.
       assert (HALVING_INTERVAL * reward_sum 33 < 2 ^ 63) by (by vm_compute). u_range. }
  apply IH; [lia| | |lia].
  - destruct He3 as [->| ->]; [by left|right].
    symmetry. apply Z.mod_unique_pos with (h / HALVING_INTERVAL + 1); lia.
  - destruct He3 as [->| ->]; [left; lia|right].
    replace ((h + HALVING_INTERVAL) / HALVING_INTERVAL) with (h / HALVING_INTERVAL + 1)
      by (apply Z.div_unique_pos with 0; lia). lia.
Qed.

Lemma cumulative_supply h : 0 <= h ->
  GetCumulativeSupplyAt h = Some (subsidy_sum (Z.to_nat h)).
Proof.
  intros Hh. rewrite subsidy_sum_closed, Z2Nat.id by done.
  apply (supply_loop_spec 65 h 0); [lia|by right| |lia]. right. by vm_compute.
Qed.

(** * Difficulty: lemmas *)

Lemma TargetFromBits_wf bits : is_u32 bits -> wf (TargetFromBits bits).
Proof. apply setCompact_spec. Qed.

Lemma CheckProofOfWork_spec hash bits : wf hash -> is_u32 bits ->
  CheckProofOfWork hash bits = true <->
  to_Z (TargetFromBits bits) <> 0 /\ to_Z hash <= to_Z (TargetFromBits bits).
Proof.
  intros Hh Hb. pose proof (TargetFromBits_wf bits Hb) as Ht. unfold CheckProofOfWork.
  rewrite isZero_spec, leb_spec by done.
  destruct (Z.eqb_spec (to_Z (TargetFromBits bits)) 0); rewrite ?Z.leb_le; lia.
Qed.

Lemma getCompact_le u limit : wf u -> wf limit -> to_Z u <= to_Z limit ->
  to_Z (TargetFromBits (getCompact u)) <= to_Z limit.
Proof.
  intros Hu Hl Hle. pose proof (to_Z_bound _ Hu). destruct (Z.eqb_spec (to_Z u) 0) as [E|E].
  { assert (u = zero) as -> by (apply to_Z_inj; [done|apply wf_zero|done]).
    pose proof (to_Z_bound _ Hl). change (to_Z (TargetFromBits (getCompact zero))) with 0. lia. }
  destruct (compact_truncates u Hu ltac:(lia)) as (e & He & _ & E' & _).
  unfold TargetFromBits. rewrite E'.
  pose proof (Z.pow_pos_nonneg 2 (8 * e) ltac:(lia) ltac:(lia)).
  pose proof (Z.mul_div_le (to_Z u) (2 ^ (8 * e)) ltac:(lia)). lia.
Qed.

(** The retarget branch, with every machine operation replaced by integer
    arithmetic. *)
Lemma retarget_wrapped p lastTime lastHeight lastBits firstTime :
  params_ok p -> is_u32 lastBits -> is_i64 (lastTime - firstTime) ->
  powNoRetarget p = false -> 0 <= lastHeight -> (lastHeight + 1) mod difficultyInterval p = 0 ->
  let E := targetBlockTime p * difficultyInterval p in
  exists u, wf u /\
    to_Z u = Z.min ((to_Z (TargetFromBits lastBits) * clamp_time p (lastTime - firstTime)) mod 2 ^ 256 / E)
                   (to_Z (TargetFromBits (minDifficultyBits p))) /\
    GetNextWorkRequired lastTime lastHeight lastBits firstTime p = getCompact u.
Proof.
  intros (Ht & Hi & Ha & HE & Hmin) Hb Htime Hno Hh Hmod E.
  pose proof (TargetFromBits_wf _ Hb) as Hw. pose proof (TargetFromBits_wf _ Hmin) as Hwm.
  unfold GetNextWorkRequired. rewrite Hno, Z.rem_mod_nonneg, Hmod by lia.
  change (negb (0 =? 0)) with false. cbv iota zeta.
  assert (0 < E) as HE0 by (unfold E; nia).
  fold E in HE |- *.
  assert (E <= E * maxAdjustment p) as HEa by nia.
  rewrite (i64_id E), (i64_id (E * maxAdjustment p)) by (unfold is_i64; lia).
  unfold i64_sub. rewrite (i64_id (lastTime - firstTime)) by done.
  rewrite Z.quot_div_nonneg by lia.
  assert (0 <= targetBlockTime p / 4) as Hq by (apply Z.div_pos; lia).
  assert (targetBlockTime p / 4 <= E).
  { transitivity (targetBlockTime p); [apply Z.div_le_upper_bound; lia|unfold E; nia]. }
  set (t1 := if lastTime - firstTime <? targetBlockTime p / 4
             then targetBlockTime p / 4 else lastTime - firstTime).
  assert ((if t1 >? E * maxAdjustment p then E * maxAdjustment p else t1)
          = clamp_time p (lastTime - firstTime)) as ->.
  { unfold clamp_time, t1. fold E. rewrite Z.gtb_ltb.
    destruct (Z.ltb_spec (lastTime - firstTime) (targetBlockTime p / 4));
      match goal with |- context [?a <? ?b] => destruct (Z.ltb_spec a b) end; lia. }
  set (c := clamp_time p (lastTime - firstTime)).
  assert (0 <= c <= E * maxAdjustment p) as Hc by (unfold c, clamp_time; fold E; lia).
  rewrite (u64_id c), (u64_id E) by (unfold is_u64; lia).
  pose proof (to_Z_bound _ Hw) as Htb.
  destruct (mul64_spec _ c Hw ltac:(unfold is_u64; lia)) as [Hwm64 Em].
  destruct (div64_spec _ E Hwm64 ltac:(lia)) as (Hwd & Ed & _). rewrite Em in Ed.
  unfold gtb. rewrite ltb_spec by done.
  destruct (Z.ltb_spec (to_Z (TargetFromBits (minDifficultyBits p)))
    (to_Z (fst (div64 (mul64 (TargetFromBits lastBits) c) E)))) as [Hlt|Hge].
  - eexists. split; [exact Hwm|]. split; [|done]. rewrite <- Ed. lia.
  - eexists. split; [exact Hwd|]. split; [|done]. rewrite <- Ed. lia.
Qed.
Lemma clamp_time_bounds p t : params_ok p ->
  0 <= clamp_time p t <= targetBlockTime p * difficultyInterval p * maxAdjustment p.
Proof.
  intros (Ht & Hi & Ha & HE & Hmin). unfold clamp_time. assert (0 <= targetBlockTime p / 4) by (apply Z.div_pos; lia).
  assert (0 < targetBlockTime p * difficultyInterval p * maxAdjustment p) by (apply Z.mul_pos_pos; [nia|done]). lia.
Qed.
(** The product fits when the clamped time leaves it room. *)
Lemma retarget_value p lastTime lastHeight lastBits firstTime :
  params_ok p -> is_u32 lastBits -> is_i64 (lastTime - firstTime) ->
  powNoRetarget p = false -> 0 <= lastHeight -> (lastHeight + 1) mod difficultyInterval p = 0 ->
  let E := targetBlockTime p * difficultyInterval p in
  to_Z (TargetFromBits lastBits) * (E * maxAdjustment p) < 2 ^ 256 ->
  exists u, wf u /\
    to_Z u = Z.min (to_Z (TargetFromBits lastBits) * clamp_time p (lastTime - firstTime) / E)
                   (to_Z (TargetFromBits (minDifficultyBits p))) /\
    GetNextWorkRequired lastTime lastHeight lastBits firstTime p = getCompact u.
Proof.
  intros Hp Hb Htime Hno Hh Hmod E Hov.
  destruct (retarget_wrapped p lastTime lastHeight lastBits firstTime Hp Hb Htime Hno Hh Hmod) as (u & Hu & Eu & En).
  exists u. split; [done|]. split; [|done]. rewrite Eu, Z.mod_small; [done|].
  pose proof (clamp_time_bounds p (lastTime - firstTime) Hp). pose proof (to_Z_bound _ (TargetFromBits_wf _ Hb)). unfold E in Hov. nia.
Qed.
Lemma no_retarget p lastTime lastHeight lastBits firstTime : params_ok p -> 0 <= lastHeight ->
  powNoRetarget p = true \/ (lastHeight + 1) mod difficultyInterval p <> 0 ->
  GetNextWorkRequired lastTime lastHeight lastBits firstTime p = lastBits.
Proof.
  intros (_ & Hi & _) Hh H. unfold GetNextWorkRequired. destruct (powNoRetarget p) eqn:Hno; [done|].
  rewrite Z.rem_mod_nonneg by lia. destruct H as [?|H]; [done|]. destruct (Z.eqb_spec ((lastHeight + 1) mod difficultyInterval p) 0); done.
Qed.
(** The compact encoding rounds down by at most one part in [2 ^ 15]. *)
Lemma compact_precision u : wf u ->
  (to_Z u - to_Z (TargetFromBits (getCompact u))) * 2 ^ 15 <= to_Z (TargetFromBits (getCompact u)).
Proof.
  intros Hu. pose proof (to_Z_bound _ Hu). destruct (Z.eqb_spec (to_Z u) 0) as [E0|E0].
  { assert (u = zero) as -> by (apply to_Z_inj; [done|apply wf_zero|done]). done. }
  destruct (compact_truncates u Hu ltac:(lia)) as (e & He & _ & E' & Hk).
  unfold TargetFromBits. rewrite E'. pose proof (Z.pow_pos_nonneg 2 (8 * e) ltac:(lia) ltac:(lia)).
  pose proof (Z.div_mod (to_Z u) (2 ^ (8 * e)) ltac:(lia)).
  pose proof (Z.mod_pos_bound (to_Z u) (2 ^ (8 * e)) ltac:(lia)).
  destruct Hk as [->|Hk]; [|nia]. change (2 ^ (8 * 0)) with 1 in *. lia.
Qed.
(** On the networks that retarget, the product of a target within the limit and
    of a clamped time fits into 256 bits. *)
Lemma networks_no_overflow net old t : let p := GetParams net in
  powNoRetarget p = false -> 0 <= old <= to_Z (TargetFromBits (minDifficultyBits p)) -> old * clamp_time p t < 2 ^ 256.
Proof.
  intros p Hno Hold. pose proof (clamp_time_bounds p t (GetParams_ok net)) as Hc.
  assert (to_Z (TargetFromBits (minDifficultyBits p)) * (targetBlockTime p * difficultyInterval p * maxAdjustment p) < 2 ^ 256).
  { unfold p, GetParams in *. repeat case_bool_decide; try discriminate Hno; vm_compute; reflexivity. }
  nia.
Qed.

Lemma GetBlockWork_spec bits : is_u32 bits ->
  let t := to_Z (TargetFromBits bits) in
  to_Z (GetBlockWork bits) =
  if t =? 0 then 2 ^ 256 - 1 else if t <? 2 ^ 255 then 2 ^ 256 / (t + 1) else 0.
Proof. intros Hb t. by apply chainWorkOfTarget_spec, TargetFromBits_wf. Qed.

(** * Properties *)

(** [GetCumulativeSupplyAt] terminates within its iterations, returns the
    sum of [GetBlockSubsidy] over all blocks below the height, and that sum
    never exceeds the 21 million coin limit [MAX_MONEY]. *)
Theorem cumulative_supply_exact (h : Z) :
  0 <= h ->
  GetCumulativeSupplyAt h = Some (subsidy_sum (Z.to_nat h)) /\
  0 <= subsidy_sum (Z.to_nat h) <= MAX_MONEY.
Proof. intros Hh. split; [by apply cumulative_supply|apply subsidy_sum_max]. Qed.

Lemma cumulative_supply_exact_witness :
  GetCumulativeSupplyAt 20 = Some (1000 * COIN) /\ GetCumulativeSupplyAt 10000000 = Some 2099999997690000.
Proof.
  split; [|reflexivity]. rewrite (proj1 (cumulative_supply_exact 20 ltac:(lia))). reflexivity.
Defined.

(** The subsidy schedule: 50 coins in the first interval, halved (rounding
    down) every [HALVING_INTERVAL] blocks, zero from the 33rd interval on. *)
Theorem subsidy_schedule (h : Z) :
  0 <= h ->
  (h < HALVING_INTERVAL -> GetBlockSubsidy h = 50 * COIN) /\
  GetBlockSubsidy (h + HALVING_INTERVAL) = GetBlockSubsidy h / 2 /\
  (GetBlockSubsidy h = 0 <-> 33 * HALVING_INTERVAL <= h).
Proof.
  intros Hh. assert (0 < HALVING_INTERVAL) by done.
  assert (0 <= h / HALVING_INTERVAL) by (apply Z.div_pos; lia).
  rewrite !subsidy_shift by lia. split_and!.
  - intros Hlt. by rewrite Z.div_small by lia.
  - replace (h + HALVING_INTERVAL) with (h + 1 * HALVING_INTERVAL) by lia.
    rewrite Z.div_add, <- Z.shiftr_shiftr, (Z.shiftr_div_pow2 _ 1) by lia. done.
  - split.
    + intros E. apply Z.nlt_ge. intros Hlt.
      assert (h / HALVING_INTERVAL < 33) by (apply Z.div_lt_upper_bound; lia).
      rewrite Z.shiftr_div_pow2 in E by lia.
      apply Z.div_small_iff in E; [|lia]. pose proof (Z.pow_le_mono_r 2 (h / HALVING_INTERVAL) 32).
      unfold INITIAL_BLOCK_REWARD, COIN in E. lia.
    + intros Hle. apply reward_zero. apply Z.div_le_lower_bound; lia.
Qed.

Lemma subsidy_schedule_witness :
  GetBlockSubsidy (209999 + HALVING_INTERVAL) = GetBlockSubsidy 209999 / 2.
Proof. exact (proj1 (proj2 (subsidy_schedule 209999 ltac:(lia)))). Defined.

(** C36: the bits of the next block.  Off an interval boundary, and on a network
    without retargeting, they are the previous block's.  At a boundary they are
    the compact encoding of the previous target times the clamped interval time
    over the expected time, capped at the network limit.  The time is
    clamped from below at a quarter of one block time (not of the interval, as
    the documented factor 4 would have it) and from above at [maxAdjustment]
    times the expected time; the product is taken modulo [2 ^ 256].  When it
    fits, as it does on the mainnet and the testnet for every target within the
    limit, the new target is at most that quotient and less than it by no more
    than one part in [2 ^ 15], and at most [maxAdjustment] times the previous
    one. *)
Theorem retarget_correct (p : ChainParams) (lastTime lastHeight lastBits firstTime : Z) :
  params_ok p -> is_u32 lastBits -> is_i64 (lastTime - firstTime) -> 0 <= lastHeight ->
  let E := targetBlockTime p * difficultyInterval p in
  let old := to_Z (TargetFromBits lastBits) in
  let limit := to_Z (TargetFromBits (minDifficultyBits p)) in
  let time := Z.min (Z.max (lastTime - firstTime) (targetBlockTime p / 4)) (E * maxAdjustment p) in
  let bits := GetNextWorkRequired lastTime lastHeight lastBits firstTime p in
  let new := to_Z (TargetFromBits bits) in
  (powNoRetarget p = true \/ (lastHeight + 1) mod difficultyInterval p <> 0 -> bits = lastBits) /\
  (powNoRetarget p = false -> (lastHeight + 1) mod difficultyInterval p = 0 ->
     bits = getCompact (of_Z (Z.min ((old * time) mod 2 ^ 256 / E) limit)) /\ new <= limit /\
     (old * time < 2 ^ 256 -> let want := Z.min (old * time / E) limit in
        new <= want /\ (want - new) * 2 ^ 15 <= new /\ new <= old * maxAdjustment p)) /\
  (forall net, p = GetParams net -> powNoRetarget p = false -> old <= limit -> old * time < 2 ^ 256).
Proof.
  intros Hp Hb Ht Hh E old limit time bits new. pose proof (to_Z_bound _ (TargetFromBits_wf _ Hb)) as Hob. fold old in Hob.
  change time with (clamp_time p (lastTime - firstTime)).
  split_and!; [by apply no_retarget| |intros net -> Hno Hold; apply networks_no_overflow; [done|lia]].
  intros Hno Hm. destruct (retarget_wrapped p lastTime lastHeight lastBits firstTime Hp Hb Ht Hno Hh Hm) as (u & Hu & Eu & En).
  fold old limit E bits in Eu, En. assert (to_Z (TargetFromBits (getCompact u)) <= to_Z u) as Hle by (by apply getCompact_le). pose proof (compact_precision u Hu) as Hp15.
  rewrite <- En in Hle, Hp15. fold new in Hle, Hp15. split_and!.
  - rewrite <- Eu, En. f_equal. by rewrite of_Z_to_Z.
  - lia.
  - pose proof (clamp_time_bounds p (lastTime - firstTime) Hp) as Hc. fold E in Hc.
    intros Hov want. rewrite Z.mod_small in Eu by nia. fold want in Eu. rewrite Eu in Hle, Hp15. split_and!; [done..|].
    transitivity want; [done|]. unfold want. etransitivity; [apply Z.le_min_l|].
    destruct Hp as (? & ? & ? & ? & _). assert (0 < E) by (unfold E; nia). apply Z.div_le_upper_bound; [done|]. nia.
Qed.

(** A boundary on the mainnet, and a block within an interval. *)
Lemma retarget_correct_witness :
  (let new := to_Z (TargetFromBits (GetNextWorkRequired 2000000 2015 0x1c7fff80 100000 MAINNET)) in
   let want := to_Z (TargetFromBits 0x1c7fff80) * 1900000 / 1209600 in new <= want /\ (want - new) * 2 ^ 15 <= new) /\
  GetNextWorkRequired 2000000 2016 0x1c7fff80 100000 MAINNET = 0x1c7fff80.
Proof.
  assert (is_u32 0x1c7fff80 /\ is_i64 (2000000 - 100000)) as [Hb Ht] by (split; split; vm_compute; congruence). split.
  - destruct (retarget_correct MAINNET 2000000 2015 0x1c7fff80 100000 (GetParams_ok "mainnet") Hb Ht ltac:(lia)) as (_ & H & Hn).
    destruct (H eq_refl eq_refl) as (_ & _ & Hv). destruct Hv as (Hle & Hp & _); [by apply (Hn "mainnet"); vm_compute|].
    split; [exact Hle|exact Hp].
  - apply (retarget_correct MAINNET 2000000 2016 0x1c7fff80 100000 (GetParams_ok "mainnet") Hb Ht ltac:(lia)). right. discriminate.
Defined.

(** The lower clamp of the retarget is a quarter of ONE block time, not a
    quarter of the interval: on mainnet an interval measured at 150 seconds or
    less divides the target by 8064, against the documented factor 4. *)
Theorem retarget_lower_clamp_single_block (lastTime firstTime : Z) :
  is_i64 (lastTime - firstTime) -> lastTime - firstTime <= 150 ->
  GetNextWorkRequired lastTime 2015 DEFAULT_TARGET_BITS firstTime MAINNET =
  getCompact (of_Z (to_Z GetMaxTarget / 8064)) /\
  4 * to_Z (TargetFromBits (GetNextWorkRequired lastTime 2015 DEFAULT_TARGET_BITS firstTime MAINNET))
    < to_Z GetMaxTarget.
Proof.
  intros Hi Hle.
  destruct (retarget_value MAINNET lastTime 2015 DEFAULT_TARGET_BITS firstTime) as (u & Hu & Eu & En);
    [exact (GetParams_ok "mainnet")|split; vm_compute; congruence|exact Hi|reflexivity|lia
    |reflexivity|vm_compute; reflexivity|].
  assert (clamp_time MAINNET (lastTime - firstTime) = 150) as Ec.
  { unfold clamp_time. change (targetBlockTime MAINNET / 4) with 150.
    change (targetBlockTime MAINNET * difficultyInterval MAINNET * maxAdjustment MAINNET) with 4838400. lia. }
  rewrite Ec in Eu. rewrite En.
  assert (u = of_Z (to_Z GetMaxTarget / 8064)) as ->; [|split; [reflexivity|vm_compute; reflexivity]].
  apply to_Z_inj; [done|apply of_Z_wf|]. rewrite Eu. vm_compute. reflexivity.
Qed.

Lemma retarget_lower_clamp_witness :
  GetNextWorkRequired 1000 2015 DEFAULT_TARGET_BITS 900 MAINNET = 0x1b082079.
Proof.
  rewrite (proj1 (retarget_lower_clamp_single_block 1000 900 ltac:(u_range) ltac:(lia))).
  vm_compute. reflexivity.
Defined.

(** Proof of work is accepted exactly when the target the bits denote is
    not zero and the hash does not exceed it; and below 2^255 an easier (larger)
    target never counts for more work, and always for at least one unit. *)
Theorem pow_and_work (hash : uint256) (bits bits' : Z) :
  wf hash -> is_u32 bits -> is_u32 bits' ->
  let t := to_Z (TargetFromBits bits) in let t' := to_Z (TargetFromBits bits') in
  (CheckProofOfWork hash bits = true <-> t <> 0 /\ to_Z hash <= t) /\
  (0 < t <= t' -> t' < 2 ^ 255 ->
   0 < to_Z (GetBlockWork bits') <= to_Z (GetBlockWork bits)).
Proof.
  intros Hh Hb Hb' t t'. split; [by apply CheckProofOfWork_spec|]. intros Ht Ht'.
  rewrite !GetBlockWork_spec by done. fold t t'.
  destruct (Z.eqb_spec t 0), (Z.eqb_spec t' 0); try lia.
  destruct (Z.ltb_spec t (2 ^ 255)), (Z.ltb_spec t' (2 ^ 255)); try lia. split.
  - apply Z.div_str_pos. lia.
  - apply Z.div_le_compat_l; lia.
Qed.

Lemma pow_and_work_witness :
  to_Z (GetBlockWork 0x1d00ffff) <= to_Z (GetBlockWork 0x1c7fff80) /\
  CheckProofOfWork (of_u64 5) 0x1d00ffff = true.
Proof.
  assert (wf (of_u64 5)) as W by (repeat split; vm_compute; congruence).
  destruct (pow_and_work (of_u64 5) 0x1c7fff80 0x1d00ffff W) as [_ H];
    [split; vm_compute; congruence..|].
  split; [apply H; [split; vm_compute; congruence|vm_compute; reflexivity]|].
  refine (proj2 (proj1 (pow_and_work (of_u64 5) 0x1d00ffff 0x1d00ffff W _ _)) _);
    split; vm_compute; congruence.
Defined.
