(* ===== verification/Sha256.v ===== *)
(** [tools/mine_genesis.cpp]: the SHA-256 implementation of the genesis miner
    and its midstate optimisation (the compression of the first 64 header
    bytes is computed once, each nonce only redoes the second block). *)
From S2P Require Import Prelude.

(** * Definitions *)

Module Sha256.

Definition K : list Z := concat [
   [0x428a2f98; 0x71374491; 0xb5c0fbcf; 0xe9b5dba5];
   [0x3956c25b; 0x59f111f1; 0x923f82a4; 0xab1c5ed5];
   [0xd807aa98; 0x12835b01; 0x243185be; 0x550c7dc3];
   [0x72be5d74; 0x80deb1fe; 0x9bdc06a7; 0xc19bf174];
   [0xe49b69c1; 0xefbe4786; 0x0fc19dc6; 0x240ca1cc];
   [0x2de92c6f; 0x4a7484aa; 0x5cb0a9dc; 0x76f988da];
   [0x983e5152; 0xa831c66d; 0xb00327c8; 0xbf597fc7];
   [0xc6e00bf3; 0xd5a79147; 0x06ca6351; 0x14292967];
   [0x27b70a85; 0x2e1b2138; 0x4d2c6dfc; 0x53380d13];
   [0x650a7354; 0x766a0abb; 0x81c2c92e; 0x92722c85];
   [0xa2bfe8a1; 0xa81a664b; 0xc24b8b70; 0xc76c51a3];
   [0xd192e819; 0xd6990624; 0xf40e3585; 0x106aa070];
   [0x19a4c116; 0x1e376c08; 0x2748774c; 0x34b0bcb5];
   [0x391c0cb3; 0x4ed8aa4a; 0x5b9cca4f; 0x682e6ff3];
   [0x748f82ee; 0x78a5636f; 0x84c87814; 0x8cc70208];
   [0x90befffa; 0xa4506ceb; 0xbef9a3f7; 0xc67178f2]].

Definition rotr32 (x n : Z) : Z := Z.lor (Z.shiftr x n) (u32 (Z.shiftl x (32 - n))).

(** The eight working words. *)
Inductive hstate := HS (a b c d e f g h : Z).
Definition hwords (s : hstate) : list Z :=
  let 'HS a b c d e f g h := s in [a; b; c; d; e; f; g; h].

Definition iv : hstate :=
  HS 0x6a09e667 0xbb67ae85 0x3c6ef372 0xa54ff53a 0x510e527f 0x9b05688c 0x1f83d9ab 0x5be0cd19.

(** Big-endian words and bytes. *)
Definition be32 (p : bytes) (i : nat) : Z :=
  Z.lor (Z.lor (Z.lor (Z.shiftl (nth (i * 4) p 0) 24) (Z.shiftl (nth (i * 4 + 1) p 0) 16))
               (Z.shiftl (nth (i * 4 + 2) p 0) 8)) (nth (i * 4 + 3) p 0).
Definition be_bytes32 (x : Z) : bytes :=
  [u8 (Z.shiftr x 24); u8 (Z.shiftr x 16); u8 (Z.shiftr x 8); u8 x].
Definition be_bytes64 (x : Z) : bytes :=
  map (fun i => u8 (Z.shiftr x (56 - 8 * Z.of_nat i))) (seq 0 8).

(** Message schedule: iteration [i] of the second loop, on the words so far. *)
Definition sched_step (w : list Z) (i : nat) : list Z :=
  let w15 := nth (i - 15) w 0 in
  let w2 := nth (i - 2) w 0 in
  let s0 := Z.lxor (Z.lxor (rotr32 w15 7) (rotr32 w15 18)) (Z.shiftr w15 3) in
  let s1 := Z.lxor (Z.lxor (rotr32 w2 17) (rotr32 w2 19)) (Z.shiftr w2 10) in
  w ++ [u32 (nth (i - 16) w 0 + s0 + nth (i - 7) w 0 + s1)].
Definition schedule (p : bytes) : list Z :=
  foldl sched_step (map (be32 p) (seq 0 16)) (seq 16 48).

Definition round (s : hstate) (kw : Z * Z) : hstate :=
  let 'HS a b c d e f g hh := s in
  let '(k, w) := kw in
  let S1 := Z.lxor (Z.lxor (rotr32 e 6) (rotr32 e 11)) (rotr32 e 25) in
  let ch := Z.lxor (Z.land e f) (Z.land (u32 (Z.lnot e)) g) in
  let t1 := u32 (hh + S1 + ch + k + w) in
  let S0 := Z.lxor (Z.lxor (rotr32 a 2) (rotr32 a 13)) (rotr32 a 22) in
  let maj := Z.lxor (Z.lxor (Z.land a b) (Z.land a c)) (Z.land b c) in
  let t2 := u32 (S0 + maj) in
  HS (u32 (t1 + t2)) a b c (u32 (d + t1)) e f g.

Definition sha256_compress (h : hstate) (p : bytes) : hstate :=
  let 'HS a b c d e f g hh := foldl round h (zip K (schedule p)) in
  let 'HS h0 h1 h2 h3 h4 h5 h6 h7 := h in
  HS (u32 (h0 + a)) (u32 (h1 + b)) (u32 (h2 + c)) (u32 (h3 + d))
     (u32 (h4 + e)) (u32 (h5 + f)) (u32 (h6 + g)) (u32 (h7 + hh)).

(** [while (len - off >= 64)]: the state and the remaining bytes. *)
Fixpoint full_blocks (fuel : nat) (h : hstate) (data : bytes) : hstate * bytes :=
  match fuel with
  | O => (h, data)
  | S f => if 64 <=? Z.of_nat (length data)
           then full_blocks f (sha256_compress h (take 64 data)) (drop 64 data)
           else (h, data)
  end.

Definition out_bytes (h : hstate) : bytes := flat_map be_bytes32 (hwords h).

(** The padded tail block(s) of [sha256_full]. *)
Definition pad (rem : bytes) (len : Z) : bytes :=
  let idx := Z.of_nat (length rem) + 1 in
  let padlen := if idx <=? 56 then 64 else 128 in
  rem ++ [0x80] ++ repeat 0 (Z.to_nat (padlen - 8 - idx)) ++ be_bytes64 (u64 (len * 8)).

Definition sha256_full (data : bytes) : bytes :=
  let '(h, rem) := full_blocks (length data) iv data in
  let buf := pad rem (Z.of_nat (length data)) in
  let h := sha256_compress h (take 64 buf) in
  let h := if (64 <? Z.of_nat (length buf)) then sha256_compress h (take 64 (drop 64 buf)) else h in
  out_bytes h.

Definition sha256d_full (data : bytes) : bytes := sha256_full (sha256_full data).

(** ** Mining with a precomputed midstate *)
Record MiningState := {
  hState : hstate;
  block2 : bytes;
  hResult : hstate;
  outPad : bytes
}.

(** [memset(b, 0, 64); memcpy(b, src, n); b[n] = 0x80; b[63-i] = bitlen >> 8i] *)
Definition pad_block (src : bytes) (bitlen : Z) : bytes :=
  src ++ [0x80] ++ repeat 0 (55 - length src) ++ rev (le_bytes 8 bitlen).

Definition prepare (hdr : bytes) : MiningState := {|
  hState := sha256_compress iv (take 64 hdr);
  block2 := pad_block (take 16 (drop 64 hdr)) (80 * 8);
  hResult := iv;
  outPad := pad_block (repeat 0 32) 256 |}.

(** [mine_hash] rewrites bytes 12..15 of [block2] and 0..31 of [outPad] in
    place and returns the hash; the new state is the first component. *)
Definition mine_hash (s : MiningState) (nonce : Z) : MiningState * bytes :=
  let b2 := <[15%nat := u8 (Z.shiftr nonce 24)]> (<[14%nat := u8 (Z.shiftr nonce 16)]>
            (<[13%nat := u8 (Z.shiftr nonce 8)]> (<[12%nat := u8 nonce]> (block2 s)))) in
  let h := sha256_compress (hState s) b2 in
  let op := out_bytes h ++ drop 32 (outPad s) in
  let h2 := sha256_compress (hResult s) op in
  ({| hState := hState s; block2 := b2; hResult := hResult s; outPad := op |}, out_bytes h2).

End Sha256.

(** * Lemmas *)

Import Sha256.

#[local] Opaque sha256_compress.

Lemma length_out_bytes h : length (out_bytes h) = 32%nat.
Proof. by destruct h. Qed.

Lemma out_bytes_wf h : bytes_wf (out_bytes h).
Proof.
  destruct h. unfold out_bytes, be_bytes32. simpl.
  repeat (apply Forall_cons; split; [apply u8_range|]). apply Forall_nil_2.
Qed.

Lemma length_sha256_full m : length (sha256_full m) = 32%nat.
Proof. unfold sha256_full. destruct (full_blocks _ _ _). apply length_out_bytes. Qed.

Lemma sha256_full_wf m : bytes_wf (sha256_full m).
Proof. unfold sha256_full. destruct (full_blocks _ _ _). apply out_bytes_wf. Qed.

Lemma length_pad_block src bl : (length src <= 55)%nat -> length (pad_block src bl) = 64%nat.
Proof.
  intros. unfold pad_block. rewrite !length_app, repeat_length, length_rev, length_le_bytes. simpl. lia.
Qed.

Lemma be_le_64 x : be_bytes64 x = rev (le_bytes 8 x).
Proof. reflexivity. Qed.

(** A message of one block: 64 bytes go through [full_blocks], a short message
    only through the padding. *)
Lemma sha256_full_short m : (length m <= 55)%nat ->
  sha256_full m = out_bytes (sha256_compress iv (pad_block m (8 * Z.of_nat (length m)))).
Proof.
  intros Hm. unfold sha256_full.
  assert (full_blocks (length m) iv m = (iv, m)) as ->.
  { destruct (length m) as [|n] eqn:E; [done|]. simpl. rewrite E.
    destruct (Z.leb_spec 64 (Z.of_nat (S n))); [lia|done]. }
  assert (pad m (Z.of_nat (length m)) = pad_block m (8 * Z.of_nat (length m))) as ->.
  { unfold pad, pad_block. destruct (Z.leb_spec (Z.of_nat (length m) + 1) 56); [|lia].
    rewrite be_le_64, u64_id by (unfold is_u64; lia). rewrite Z.mul_comm.
    do 3 f_equal. f_equal. lia. }
  rewrite length_pad_block by done. simpl.
  by rewrite take_ge by (rewrite length_pad_block; lia).
Qed.

Lemma full_blocks_S f h data :
  full_blocks (S f) h data =
  if 64 <=? Z.of_nat (length data)
  then full_blocks f (sha256_compress h (take 64 data)) (drop 64 data) else (h, data).
Proof. done. Qed.

Lemma sha256_full_80 b1 b2 : length b1 = 64%nat -> length b2 = 16%nat ->
  sha256_full (b1 ++ b2) =
  out_bytes (sha256_compress (sha256_compress iv b1) (pad_block b2 640)).
Proof.
  intros H1 H2. unfold sha256_full. rewrite length_app, H1, H2.
  assert (full_blocks (64 + 16) iv (b1 ++ b2) = (sha256_compress iv b1, b2)) as ->.
  { change (64 + 16)%nat with (S (S 78)). generalize 78%nat. intros f.
    rewrite !full_blocks_S, length_app, take_app_length', drop_app_length', H1, H2 by done. done. }
  assert (pad b2 (Z.of_nat (64 + 16)) = pad_block b2 640) as ->.
  { unfold pad, pad_block. rewrite H2. done. }
  rewrite length_pad_block by lia. simpl.
  by rewrite take_ge by (rewrite length_pad_block; lia).
Qed.

(** What every state reached from [prepare hdr] by [mine_hash] calls keeps. *)
Definition midstate_ok (hdr : bytes) (s : MiningState) : Prop :=
  hState s = sha256_compress iv (take 64 hdr) /\ hResult s = iv /\
  (exists n4, length n4 = 4%nat /\ block2 s = pad_block (take 12 (drop 64 hdr) ++ n4) 640) /\
  drop 32 (outPad s) = drop 32 (pad_block (repeat 0 32) 256).

Lemma prepare_ok hdr : length hdr = 80%nat -> midstate_ok hdr (prepare hdr).
Proof.
  intros Hl. split_and!; [done..| |done].
  exists (take 4 (drop 76 hdr)). rewrite length_take, length_drop. split; [lia|].
  simpl block2. f_equal. change 16%nat with (12 + 4)%nat.
  by rewrite <- take_take_drop, drop_drop.
Qed.

Lemma block2_nonce pre n4 tail nonce : length pre = 12%nat -> length n4 = 4%nat ->
  <[15%nat := u8 (Z.shiftr nonce 24)]> (<[14%nat := u8 (Z.shiftr nonce 16)]>
    (<[13%nat := u8 (Z.shiftr nonce 8)]> (<[12%nat := u8 nonce]> ((pre ++ n4) ++ tail))))
  = (pre ++ le_bytes 4 nonce) ++ tail.
Proof.
  intros Hp Hn. destruct n4 as [|x0 [|x1 [|x2 [|x3 [|]]]]]; try done.
  rewrite <- !app_assoc. simpl.
  rewrite !insert_app_r_alt by (rewrite Hp; lia). rewrite !Hp. simpl.
  unfold le_bytes. simpl. by rewrite !Z.shiftr_0_r.
Qed.

Lemma pad_block_32 m : length m = 32%nat ->
  m ++ drop 32 (pad_block (repeat 0 32) 256) = pad_block m (8 * Z.of_nat 32).
Proof. intros Hm. unfold pad_block. by rewrite Hm. Qed.

Lemma mine_hash_spec hdr s nonce : length hdr = 80%nat -> midstate_ok hdr s ->
  snd (mine_hash s nonce) = sha256d_full (take 76 hdr ++ le_bytes 4 nonce) /\
  midstate_ok hdr (fst (mine_hash s nonce)).
Proof.
  intros Hl (Hh & Hr & (n4 & Hn & Hb) & Ho).
  assert (length (take 12 (drop 64 hdr)) = 12%nat) as H12 by (rewrite length_take, length_drop; lia).
  assert (length (take 64 hdr) = 64%nat) as H64 by (rewrite length_take; lia).
  assert (<[15%nat := u8 (Z.shiftr nonce 24)]> (<[14%nat := u8 (Z.shiftr nonce 16)]>
    (<[13%nat := u8 (Z.shiftr nonce 8)]> (<[12%nat := u8 nonce]> (block2 s))))
    = pad_block (take 12 (drop 64 hdr) ++ le_bytes 4 nonce) 640) as Eb.
  { rewrite Hb. unfold pad_block. rewrite block2_nonce by done.
    by rewrite !length_app, Hn, length_le_bytes. }
  unfold mine_hash. rewrite Eb, Hh, Hr, Ho. cbn [fst snd]. split.
  - unfold sha256d_full.
    replace (take 76 hdr) with (take 64 hdr ++ take 12 (drop 64 hdr)) by (by rewrite take_take_drop).
    rewrite <- app_assoc, sha256_full_80 by (rewrite ?length_app, ?H12, ?length_le_bytes; done).
    rewrite sha256_full_short by (rewrite length_out_bytes; lia).
    rewrite length_out_bytes, pad_block_32 by apply length_out_bytes. reflexivity.
  - split_and!; cbn [hState hResult block2 outPad]; [done..| |].
    + exists (le_bytes 4 nonce). split; [apply length_le_bytes|reflexivity].
    + rewrite drop_app_length' by (symmetry; apply length_out_bytes). reflexivity.
Qed.

(** * Properties *)

(** Mining with the precomputed midstate returns exactly the double
    SHA-256 of the header with the nonce written into its last four bytes,
    and leaves a state for which this stays true for the next nonce. *)
Theorem midstate_mining_correct (hdr : bytes) (s : MiningState) (nonce : Z) :
  length hdr = 80%nat -> midstate_ok hdr s ->
  snd (mine_hash s nonce) = sha256d_full (take 76 hdr ++ le_bytes 4 nonce) /\
  midstate_ok hdr (fst (mine_hash s nonce)).
Proof. apply mine_hash_spec. Qed.

Lemma midstate_mining_witness :
  let hdr := repeat 7 76 ++ [1; 2; 3; 4] in
  snd (mine_hash (prepare hdr) 0x01020304) = sha256d_full (repeat 7 76 ++ [4; 3; 2; 1]).
Proof.
  intros hdr.
  rewrite (proj1 (midstate_mining_correct hdr (prepare hdr) 0x01020304 eq_refl (prepare_ok hdr eq_refl))).
  change (take 76 hdr ++ le_bytes 4 0x01020304) with (repeat 7 76 ++ [4; 3; 2; 1]). reflexivity.
Defined.

#[local] Transparent sha256_compress.

(** SHA-256 of "abc" (FIPS 180-4). *)
Example sha256_abc : sha256_full [0x61; 0x62; 0x63] =
  flat_map be_bytes32 [0xba7816bf; 0x8f01cfea; 0x414140de; 0x5dae2223; 0xb00361a3; 0x96177a9c;
                       0xb410ff61; 0xf20015ad].
Proof. vm_compute. reflexivity. Qed.
