(* ===== verification/Ripemd160.v ===== *)
(** [crypto/ripemd160.cpp]: the RIPEMD-160 implementation behind HASH160. *)
From S2P Require Import Prelude.

(** * Definitions *)

Module Ripemd160.

(** [h] are the five chaining words, [buf] the first [buflen] bytes of the
    block buffer (what lies beyond them is never read). *)
Record ctx := { h : list Z; total : Z; buf : bytes }.

Definition rol (x n : Z) : Z := Z.lor (u32 (Z.shiftl x n)) (Z.shiftr x (32 - n)).
Definition not32 (x : Z) : Z := u32 (Z.lnot x).

Definition f1 (x y z : Z) : Z := Z.lxor (Z.lxor x y) z.
Definition f2 (x y z : Z) : Z := Z.lor (Z.land x y) (Z.land (not32 x) z).
Definition f3 (x y z : Z) : Z := Z.lxor (Z.lor x (not32 y)) z.
Definition f4 (x y z : Z) : Z := Z.lor (Z.land x z) (Z.land y (not32 z)).
Definition f5 (x y z : Z) : Z := Z.lxor x (Z.lor y (not32 z)).

Definition R_ADD : list Z := [0x00000000; 0x5A827999; 0x6ED9EBA1; 0x8F1BBCDC; 0xA953FD4E].
Definition L_ADD : list Z := [0x50A28BE6; 0x5C4DD124; 0x6D703EF3; 0x7A6D76E9; 0x00000000].

Definition R_R : list nat := [
  0; 1; 2; 3; 4; 5; 6; 7; 8; 9; 10; 11; 12; 13; 14; 15;
  7; 4; 13; 1; 10; 6; 15; 3; 12; 0; 9; 5; 2; 14; 11; 8;
  3; 10; 14; 4; 9; 15; 8; 1; 2; 7; 0; 6; 13; 11; 5; 12;
  1; 9; 11; 10; 0; 8; 12; 4; 13; 3; 7; 15; 14; 5; 6; 2;
  4; 0; 5; 9; 7; 12; 2; 10; 14; 1; 3; 8; 11; 6; 15; 13 ]%nat.
Definition L_R : list nat := [
  5; 14; 7; 0; 9; 2; 11; 4; 13; 6; 15; 8; 1; 10; 3; 12;
  6; 11; 3; 7; 0; 13; 5; 10; 14; 15; 8; 12; 4; 9; 1; 2;
  15; 5; 1; 3; 7; 14; 6; 9; 11; 8; 12; 2; 10; 0; 4; 13;
  8; 6; 4; 1; 3; 11; 15; 0; 5; 12; 2; 13; 9; 7; 10; 14;
  12; 15; 10; 4; 1; 5; 8; 7; 6; 2; 13; 14; 0; 3; 9; 11 ]%nat.
Definition R_S : list Z := [
  11; 14; 15; 12; 5; 8; 7; 9; 11; 13; 14; 15; 6; 7; 9; 8;
  7; 6; 8; 13; 11; 9; 7; 15; 7; 12; 15; 9; 11; 7; 13; 12;
  11; 13; 6; 7; 14; 9; 13; 15; 14; 8; 13; 6; 5; 12; 7; 5;
  11; 12; 14; 15; 14; 15; 9; 8; 9; 14; 5; 6; 8; 6; 5; 12;
  9; 15; 5; 11; 6; 8; 13; 12; 5; 12; 13; 14; 11; 8; 5; 6 ].
Definition L_S : list Z := [
  8; 9; 9; 11; 13; 15; 15; 5; 7; 7; 8; 11; 14; 14; 12; 6;
  9; 13; 15; 7; 12; 8; 9; 11; 7; 7; 12; 7; 6; 15; 13; 11;
  9; 7; 15; 11; 8; 6; 6; 14; 12; 13; 5; 14; 13; 13; 7; 5;
  15; 5; 8; 11; 14; 14; 6; 14; 6; 9; 12; 9; 12; 5; 15; 8;
  8; 5; 12; 9; 12; 5; 14; 6; 8; 13; 6; 5; 15; 13; 11; 11 ].

Definition f1of (round : nat) (x y z : Z) : Z :=
  match round with
  | 0 => f1 x y z | 1 => f2 x y z | 2 => f3 x y z | 3 => f4 x y z | _ => f5 x y z
  end%nat.

(** The 16 little-endian words of a block. *)
Definition block_word (block : bytes) (i : nat) : Z :=
  Z.lor (Z.lor (Z.lor (nth (i * 4) block 0) (Z.shiftl (nth (i * 4 + 1) block 0) 8))
               (Z.shiftl (nth (i * 4 + 2) block 0) 16)) (Z.shiftl (nth (i * 4 + 3) block 0) 24).

(** The working words of one line. *)
Inductive line := L5 (a b c d e : Z).

(** [t = rol(a + f(b,c,d) + x + K, s) + e; a = e; e = d; d = rol(c,10); c = b; b = t] *)
Definition line_step (f : Z -> Z -> Z -> Z) (x k s : Z) (l : line) : line :=
  let 'L5 a b c d e := l in
  let t := u32 (rol (u32 (a + f b c d + x + k)) s + e) in
  L5 e t b (rol c 10) d.

Definition round_step (x : list Z) (st : line * line) (j : nat) : line * line :=
  let '(l, r) := st in
  let round := (j / 16)%nat in
  let rround := (4 - round)%nat in
  (line_step (f1of round) (nth (nth j R_R 0%nat) x 0) (nth round R_ADD 0) (nth j R_S 0) l,
   line_step (f1of rround) (nth (nth j L_R 0%nat) x 0) (nth round L_ADD 0) (nth j L_S 0) r).

Definition rmd160_transform (state : list Z) (block : bytes) : list Z :=
  let x := map (block_word block) (seq 0 16) in
  let s := fun i => nth i state 0 in
  let l0 := L5 (s 0%nat) (s 1%nat) (s 2%nat) (s 3%nat) (s 4%nat) in
  let '(L5 al bl cl dl el, L5 ar br cr dr er) := foldl (round_step x) (l0, l0) (seq 0 80) in
  [ u32 (s 1%nat + cl + dr); u32 (s 2%nat + dl + er); u32 (s 3%nat + el + ar);
    u32 (s 4%nat + al + br); u32 (s 0%nat + bl + cr) ].

Definition rmd160_init : ctx :=
  {| h := [0x67452301; 0xEFCDAB89; 0x98BADCFE; 0x10325476; 0xC3D2E1F0]; total := 0; buf := [] |}.

(** The [while (len > 0)] loop: copy up to 64 - buflen bytes, compress a full
    buffer. *)
Fixpoint update_loop (fuel : nat) (c : ctx) (data : bytes) : ctx :=
  match fuel with
  | O => c
  | S f =>
      match data with
      | [] => c
      | _ =>
          let take_ := Nat.min (64 - length (buf c)) (length data) in
          let b := buf c ++ take take_ data in
          let c' := if (length b =? 64)%nat
                    then {| h := rmd160_transform (h c) b; total := total c; buf := [] |}
                    else {| h := h c; total := total c; buf := b |} in
          update_loop f c' (drop take_ data)
      end
  end.
Definition rmd160_update (c : ctx) (data : bytes) : ctx :=
  update_loop (length data)
    {| h := h c; total := u64 (total c + Z.of_nat (length data)); buf := buf c |} data.

Definition rmd160_final (c : ctx) : bytes :=
  let bitlen := u64 (total c * 8) in
  let padlen := if (length (buf c) <? 56)%nat then (56 - length (buf c))%nat
                else (120 - length (buf c))%nat in
  let c := rmd160_update c (take padlen (0x80 :: repeat 0 71)) in
  let c := rmd160_update c (le_bytes 8 bitlen) in
  flat_map (fun i => le_bytes 4 (nth i (h c) 0)) (seq 0 5).

Definition ripemd160 (data : bytes) : bytes :=
  rmd160_final (rmd160_update rmd160_init data).

(** The buffer never holds a full block between calls. *)
Definition ctx_ok (c : ctx) : Prop := (length (buf c) < 64)%nat.

End Ripemd160.

(** * Lemmas *)

Import Ripemd160.

#[local] Opaque rmd160_transform.

Lemma words_bytes (g : nat -> Z) l :
  length (flat_map (fun i => le_bytes 4 (g i)) l) = (4 * length l)%nat /\
  bytes_wf (flat_map (fun i => le_bytes 4 (g i)) l).
Proof.
  induction l as [|i l [IH1 IH2]]; cbn [flat_map]; [split; [done|apply Forall_nil_2]|].
  rewrite length_app, length_le_bytes, IH1. split; [simpl; lia|].
  apply Forall_app_2; [apply le_bytes_wf|done].
Qed.

Lemma length_ripemd160 m : length (ripemd160 m) = 20%nat.
Proof. unfold ripemd160, rmd160_final. apply words_bytes. Qed.

Lemma ripemd160_wf m : bytes_wf (ripemd160 m).
Proof. unfold ripemd160, rmd160_final. apply words_bytes. Qed.

(** One byte fed to the context. *)
Definition feed (c : ctx) (b : Z) : ctx :=
  let bf := buf c ++ [b] in
  if (length bf =? 64)%nat then {| h := rmd160_transform (h c) bf; total := total c; buf := [] |}
  else {| h := h c; total := total c; buf := bf |}.

Lemma feed_ok c b : ctx_ok c -> ctx_ok (feed c b).
Proof.
  unfold ctx_ok, feed. intros Hc. destruct (Nat.eqb_spec (length (buf c ++ [b])) 64); simpl; [lia|].
  rewrite length_app in *. simpl in *. lia.
Qed.

Lemma feed_within c data : (length (buf c) + length data < 64)%nat ->
  foldl feed c data = {| h := h c; total := total c; buf := buf c ++ data |}.
Proof.
  revert c. induction data as [|b data IH]; intros c Hl; simpl in *.
  - rewrite app_nil_r. by destruct c.
  - unfold feed at 2. rewrite length_app. simpl.
    destruct (Nat.eqb_spec (length (buf c) + 1) 64); [lia|].
    rewrite IH by (simpl; rewrite length_app; simpl; lia). simpl. by rewrite <- app_assoc.
Qed.

Lemma feed_full c data : (length (buf c) + length data = 64)%nat -> data <> [] ->
  foldl feed c data = {| h := rmd160_transform (h c) (buf c ++ data); total := total c; buf := [] |}.
Proof.
  intros Hl Hd. destruct (exists_last Hd) as (pre & b & ->).
  rewrite foldl_app, (feed_within c pre) by (rewrite length_app in Hl; simpl in Hl; lia).
  simpl. unfold feed. simpl. rewrite <- app_assoc, length_app, Hl. done.
Qed.

(** The block loop is the byte-by-byte feed, whatever the buffer holds. *)
Lemma update_loop_feed fuel c data : ctx_ok c -> (length data <= fuel)%nat ->
  update_loop fuel c data = foldl feed c data.
Proof.
  revert c data. induction fuel as [|f IH]; intros c data Hc Hf.
  { destruct data; simpl in *; [done|lia]. }
  destruct data as [|b0 d0] eqn:Ed; [done|]. rewrite <- Ed in *.
  assert (data <> []) as Hne by (by rewrite Ed).
  unfold ctx_ok in Hc. set (t := Nat.min (64 - length (buf c)) (length data)).
  assert (0 < t <= length data /\ length (buf c) + t <= 64)%nat as (Ht & Ht2).
  { unfold t. destruct data; [done|]. simpl in *. lia. }
  assert (update_loop (S f) c data = update_loop f
    (if (length (buf c ++ take t data) =? 64)%nat
     then {| h := rmd160_transform (h c) (buf c ++ take t data); total := total c; buf := [] |}
     else {| h := h c; total := total c; buf := buf c ++ take t data |}) (drop t data)) as ->.
  { by destruct data. }
  replace (foldl feed c data) with (foldl feed (foldl feed c (take t data)) (drop t data))
    by (rewrite <- foldl_app, take_drop; done).
  assert (length (take t data) = t) as Hlt by (rewrite length_take; lia).
  assert (take t data <> []) as Hnt by (intros E0; rewrite E0 in Hlt; simpl in Hlt; lia).
  rewrite length_app, Hlt. destruct (Nat.eqb_spec (length (buf c) + t) 64) as [E|E].
  - rewrite <- feed_full by (done || lia).
    apply IH; [|rewrite length_drop; lia].
    rewrite feed_full by (done || lia).
    unfold ctx_ok. simpl. lia.
  - rewrite <- feed_within by lia. apply IH; [|rewrite length_drop; lia].
    rewrite feed_within by lia. unfold ctx_ok. simpl. rewrite length_app. lia.
Qed.

Lemma feed_total c t data :
  foldl feed {| h := h c; total := t; buf := buf c |} data =
  {| h := h (foldl feed c data); total := t; buf := buf (foldl feed c data) |}.
Proof.
  revert c. induction data as [|b data IH]; intros c; [done|]. simpl.
  rewrite <- IH. f_equal. unfold feed. simpl. by destruct (length (buf c ++ [b]) =? 64)%nat.
Qed.

Lemma foldl_feed_ok c data : ctx_ok c -> ctx_ok (foldl feed c data).
Proof. revert c. induction data; intros c Hc; simpl; [done|]. by apply IHdata, feed_ok. Qed.

Lemma update_spec c data : ctx_ok c ->
  rmd160_update c data =
  {| h := h (foldl feed c data); total := u64 (total c + Z.of_nat (length data));
     buf := buf (foldl feed c data) |}.
Proof.
  intros Hc. unfold rmd160_update. rewrite update_loop_feed by (done || lia).
  apply feed_total.
Qed.

(** * Properties *)

(** Feeding data in two parts is feeding their concatenation, from every
    reachable context; the update loop terminates with its buffer below one
    block; the digest is always 20 bytes. *)
Theorem ripemd160_streaming (c : ctx) (a b m : bytes) :
  ctx_ok c ->
  rmd160_update (rmd160_update c a) b = rmd160_update c (a ++ b) /\
  ctx_ok (rmd160_update c a) /\
  length (ripemd160 m) = 20%nat /\ bytes_wf (ripemd160 m).
Proof.
  intros Hc. split_and!.
  - assert (ctx_ok (rmd160_update c a)) as Ha.
    { rewrite update_spec by done. unfold ctx_ok. simpl. by apply foldl_feed_ok. }
    rewrite (update_spec _ b) by done. rewrite !update_spec by done.
    rewrite feed_total. simpl. rewrite foldl_app, length_app. f_equal.
    unfold u64. rewrite Zplus_mod_idemp_l. f_equal. lia.
  - rewrite update_spec by done. unfold ctx_ok. simpl. by apply foldl_feed_ok.
  - apply length_ripemd160.
  - apply ripemd160_wf.
Qed.

Lemma ripemd160_streaming_witness :
  rmd160_update (rmd160_update rmd160_init (repeat 1 70)) [2; 3] = rmd160_update rmd160_init (repeat 1 70 ++ [2; 3]).
Proof.
  refine (proj1 (ripemd160_streaming rmd160_init (repeat 1 70) [2; 3] [] _)). unfold ctx_ok. simpl. lia.
Defined.

#[local] Transparent rmd160_transform.

(** Test vectors of the RIPEMD-160 publication: "" and "abc". *)
Example ripemd160_empty : ripemd160 [] =
  [0x9c;0x11;0x85;0xa5;0xc5;0xe9;0xfc;0x54;0x61;0x28;0x08;0x97;0x7e;0xe8;0xf5;0x48;0xb2;0x25;0x8d;0x31].
Proof. vm_compute. reflexivity. Qed.
Example ripemd160_abc : ripemd160 [0x61; 0x62; 0x63] =
  [0x8e;0xb2;0x08;0xf7;0xe0;0x5d;0x98;0x7a;0x9b;0x04;0x4a;0x8e;0x98;0xc6;0xb0;0x87;0xf1;0x5a;0x0b;0xfc].
Proof. vm_compute. reflexivity. Qed.
