(* ===== verification/Crypto.v ===== *)
(** [crypto/hash.cpp] and the verification half of [crypto/keys.cpp].

    SHA-256 and the elliptic-curve primitives are OpenSSL's: they are the
    operations of the class [OpenSSL], and [OpenSSLLaws] states what the
    theorems use of them (the documented digest size).  RIPEMD-160 is the
    repository's own code ([Ripemd160]). *)
From S2P Require Import Prelude UInt256 Sha256 Ripemd160.
Import uint256.

(** * External primitives *)

Class OpenSSL := {
  (** one-shot [EVP_sha256] digest *)
  EVP_sha256 : bytes -> bytes;
  ec_point : Type;
  ecdsa_sig : Type;
  (** [EC_POINT_oct2point] on secp256k1; [None] when it does not return 1 *)
  EC_POINT_oct2point : bytes -> option ec_point;
  (** [d2i_ECDSA_SIG]; [None] when it returns null *)
  d2i_ECDSA_SIG : bytes -> option ecdsa_sig;
  (** [ECDSA_do_verify(...) == 1] *)
  ECDSA_do_verify : bytes -> ecdsa_sig -> ec_point -> bool
}.

Class OpenSSLLaws (O : OpenSSL) : Prop := {
  EVP_sha256_length m : length (EVP_sha256 m) = 32%nat;
  EVP_sha256_bytes m : bytes_wf (EVP_sha256 m)
}.

(** * Definitions *)

Section Crypto.
Context {O : OpenSSL}.

Definition SHA256 (data : bytes) : bytes := EVP_sha256 data.

(** [SHA256d(data, len, out)] and the overload that returns a [uint256]. *)
Definition SHA256d_bytes (data : bytes) : bytes := EVP_sha256 (EVP_sha256 data).
Definition SHA256d (data : bytes) : uint256 := setBytesLE (SHA256d_bytes data).

(** Two [EVP_DigestUpdate] calls digest the concatenation. *)
Definition SHA256TwoParts (a b : bytes) : bytes := EVP_sha256 (a ++ b).

Definition RIPEMD160 (data : bytes) : bytes := Ripemd160.ripemd160 data.
Definition HASH160 (data : bytes) : bytes := Ripemd160.ripemd160 (EVP_sha256 data).

Definition VerifySignature (hash32 sig pubkey : bytes) : bool :=
  if negb (Z.of_nat (length hash32) =? 32) || (Z.of_nat (length sig) =? 0)
     || (Z.of_nat (length pubkey) =? 0) then false
  else
    match EC_POINT_oct2point pubkey with
    | Some point =>
        match d2i_ECDSA_SIG sig with
        | Some sigObj => ECDSA_do_verify hash32 sigObj point
        | None => false
        end
    | None => false
    end.

End Crypto.

(** A concrete instance for evaluation: the SHA-256 of [Sha256], and a stand-in
    signature scheme in which the signature bytes are the digest followed by
    the key. *)
Definition eval_ossl : OpenSSL := {|
  EVP_sha256 := Sha256.sha256_full;
  ec_point := bytes;
  ecdsa_sig := bytes;
  EC_POINT_oct2point := fun p => if (length p =? 33)%nat then Some p else None;
  d2i_ECDSA_SIG := fun s => Some s;
  ECDSA_do_verify := fun h s p => bool_decide (take (32 + 33) s = h ++ p) |}.

(** A second instance with a cheap digest (the byte sum, which also meets any
    proof-of-work target), for evaluating longer runs. *)
Definition toy_digest (m : bytes) : bytes :=
  if (length m =? 32)%nat then map u8 m else le_bytes 4 (foldl Z.add 1 m) ++ repeat 0 28.
Definition toy_ossl : OpenSSL := {|
  EVP_sha256 := toy_digest;
  ec_point := bytes;
  ecdsa_sig := bytes;
  EC_POINT_oct2point := fun p => if (length p =? 33)%nat then Some p else None;
  d2i_ECDSA_SIG := fun s => Some s;
  ECDSA_do_verify := fun h s p => bool_decide (take (32 + 33) s = h ++ p) |}.

(** * Lemmas *)

#[export] Instance toy_ossl_laws : OpenSSLLaws toy_ossl.
Proof.
  split; intros m; cbn [EVP_sha256 toy_ossl]; unfold toy_digest; destruct (Nat.eqb_spec (length m) 32) as [E|_].
  - by rewrite length_map.
  - by rewrite length_app, length_le_bytes, repeat_length.
  - apply Forall_map, Forall_true. intros. apply u8_range.
  - apply Forall_app. split; [apply le_bytes_wf|]. apply Forall_forall. intros x Hx.
    apply list_elem_of_In, repeat_spec in Hx as ->. by vm_compute.
Qed.

#[export] Instance eval_ossl_laws : OpenSSLLaws eval_ossl.
Proof. split; [apply length_sha256_full|apply sha256_full_wf]. Qed.

Section CryptoFacts.
Context {O : OpenSSL} {L : OpenSSLLaws O}.

Lemma SHA256d_wf m : wf (SHA256d m).
Proof. apply setBytesLE_wf, EVP_sha256_bytes. Qed.

Lemma length_SHA256d_bytes m : length (SHA256d_bytes m) = 32%nat.
Proof. apply EVP_sha256_length. Qed.

(** The [uint256] overload holds exactly the digest bytes. *)
Lemma getBytesLE_SHA256d m : getBytesLE (SHA256d m) = SHA256d_bytes m.
Proof. apply getBytesLE_setBytesLE; [apply EVP_sha256_bytes|apply EVP_sha256_length]. Qed.

Lemma length_HASH160 m : length (HASH160 m) = 20%nat.
Proof. apply length_ripemd160. Qed.

End CryptoFacts.

#[export] Hint Resolve SHA256d_wf : cdx.
