(* ===== verification/Transaction.v ===== *)
(** [transaction/]: the transaction and block data types and the serializer.
    A [CSerializer] is its buffer: every [Write] operation is given by the
    bytes it appends, and a sequence of calls by their concatenation.  A
    [CDeserializer] is its data pointer and position. *)
From S2P Require Import Prelude UInt256 Crypto.
Import uint256.

(** * Data *)

Record COutPoint := { op_hash : uint256; op_n : Z }.
Record CTxIn := { in_prevout : COutPoint; in_scriptSig : bytes; in_sequence : Z }.
Record CTxOut := { out_value : Z; out_scriptPubKey : bytes }.
Record CTransaction := {
  tx_version : Z; tx_vin : list CTxIn; tx_vout : list CTxOut; tx_lockTime : Z }.

(** [blockchain/block.h] *)
Record CBlockHeader := {
  hdr_version : Z; hdr_prevBlockHash : uint256; hdr_merkleRoot : uint256;
  hdr_timestamp : Z; hdr_bits : Z; hdr_nonce : Z }.
Record CBlock := { blk_header : CBlockHeader; blk_vtx : list CTransaction }.

#[export] Instance COutPoint_eq_dec : EqDecision COutPoint.
Proof. solve_decision. Defined.
#[export] Instance COutPoint_countable : Countable COutPoint.
Proof.
  refine (inj_countable' (fun o => (op_hash o, op_n o))
            (fun '(h, n) => {| op_hash := h; op_n := n |}) _). by intros [].
Defined.
#[export] Instance CTxIn_eq_dec : EqDecision CTxIn.
Proof. solve_decision. Defined.
#[export] Instance CTxOut_eq_dec : EqDecision CTxOut.
Proof. solve_decision. Defined.
#[export] Instance CTransaction_eq_dec : EqDecision CTransaction.
Proof. solve_decision. Defined.
#[export] Instance CBlockHeader_eq_dec : EqDecision CBlockHeader.
Proof. solve_decision. Defined.
#[export] Instance CBlock_eq_dec : EqDecision CBlock.
Proof. solve_decision. Defined.

(** [COutPoint::operator==] and [operator<] *)
Definition outpoint_eqb (a b : COutPoint) : bool := eqb (op_hash a) (op_hash b) && (op_n a =? op_n b).
Definition outpoint_ltb (a b : COutPoint) : bool :=
  if negb (eqb (op_hash a) (op_hash b)) then ltb (op_hash a) (op_hash b) else op_n a <? op_n b.

Definition IsCoinBase (tx : CTransaction) : bool :=
  match tx_vin tx with
  | [i] => isZero (op_hash (in_prevout i)) && (op_n (in_prevout i) =? 0xffffffff)
  | _ => false
  end.

(** * Serializer *)

Definition WriteU8 (v : Z) : bytes := [v].
Definition WriteU16 (v : Z) : bytes := [u8 v; u8 (Z.shiftr v 8)].
Definition WriteU32 (v : Z) : bytes := le_bytes 4 v.
Definition WriteU64 (v : Z) : bytes := le_bytes 8 v.
Definition WriteVarInt (v : Z) : bytes :=
  if v <? 0xfd then WriteU8 (u8 v)
  else if v <=? 0xffff then WriteU8 0xfd ++ WriteU16 (u16 v)
  else if v <=? 0xffffffff then WriteU8 0xfe ++ WriteU32 (u32 v)
  else WriteU8 0xff ++ WriteU64 v.
Definition WriteVarStr (v : bytes) : bytes := WriteVarInt (Z.of_nat (length v)) ++ v.
Definition WriteUint256 (h : uint256) : bytes := getBytesLE h.

(** * Deserializer *)

Record CDeserializer := { d_p : bytes; d_pos : nat }.
Definition d_len (d : CDeserializer) : nat := length (d_p d).
Definition remaining (d : CDeserializer) : nat := (d_len d - d_pos d)%nat.
Definition set_pos (d : CDeserializer) (n : nat) : CDeserializer := {| d_p := d_p d; d_pos := n |}.

(** A read either fails ([return false]) or yields a value and advances. *)
Definition Rd (A : Type) : Type := CDeserializer -> option (A * CDeserializer).
#[export] Instance Rd_ret : MRet Rd := fun A a d => Some (a, d).
#[export] Instance Rd_bind : MBind Rd :=
  fun A B f m d => match m d with Some (a, d') => f a d' | None => None end.
Definition rd_fail {A} : Rd A := fun _ => None.

Definition ReadBytes (n : nat) : Rd bytes := fun d =>
  if (d_len d <? d_pos d + n)%nat then None
  else Some (take n (drop (d_pos d) (d_p d)), set_pos d (d_pos d + n)).
Definition ReadU8 : Rd Z := b ← ReadBytes 1; mret (nth 0 b 0).
Definition ReadU16 : Rd Z := b ← ReadBytes 2; mret (le_read b).
Definition ReadU32 : Rd Z := b ← ReadBytes 4; mret (le_read b).
Definition ReadU64 : Rd Z := b ← ReadBytes 8; mret (le_read b).
Definition ReadVarInt : Rd Z :=
  first ← ReadU8;
  if first <? 0xfd then mret first
  else if first =? 0xfd then ReadU16
  else if first =? 0xfe then ReadU32
  else ReadU64.
(** [if (n > len - pos) return false; out.resize(n); return ReadBytes(...)] *)
Definition ReadSized (n : Z) : Rd bytes := fun d =>
  if n >? Z.of_nat (d_len d) - Z.of_nat (d_pos d) then None else ReadBytes (Z.to_nat n) d.
Definition ReadVarStr : Rd bytes := n ← ReadVarInt; ReadSized n.
Definition ReadUint256 : Rd uint256 := b ← ReadBytes 32; mret (setBytesLE b).

(** [for (i < n) { x = rd(); out.push_back(x); }] *)
Fixpoint read_n {A} (rd : Rd A) (n : nat) : Rd (list A) :=
  match n with
  | O => mret []
  | S k => x ← rd; r ← read_n rd k; mret (x :: r)
  end.

(** * Transactions and blocks *)

Definition SerializeTxIn (i : CTxIn) : bytes :=
  WriteUint256 (op_hash (in_prevout i)) ++ WriteU32 (op_n (in_prevout i)) ++
  WriteVarStr (in_scriptSig i) ++ WriteU32 (in_sequence i).
Definition SerializeTxOut (o : CTxOut) : bytes :=
  WriteU64 (u64 (out_value o)) ++ WriteVarStr (out_scriptPubKey o).
Definition SerializeTransaction (tx : CTransaction) : bytes :=
  WriteU32 (u32 (tx_version tx)) ++
  WriteVarInt (Z.of_nat (length (tx_vin tx))) ++ flat_map SerializeTxIn (tx_vin tx) ++
  WriteVarInt (Z.of_nat (length (tx_vout tx))) ++ flat_map SerializeTxOut (tx_vout tx) ++
  WriteU32 (tx_lockTime tx).

Definition ReadTxIn : Rd CTxIn :=
  h ← ReadUint256; n ← ReadU32; s ← ReadVarStr; q ← ReadU32;
  mret {| in_prevout := {| op_hash := h; op_n := n |}; in_scriptSig := s; in_sequence := q |}.
Definition ReadTxOut : Rd CTxOut :=
  v ← ReadU64; s ← ReadVarStr; mret {| out_value := i64 v; out_scriptPubKey := s |}.
Definition ReadTransaction : Rd CTransaction :=
  ver ← ReadU32;
  nvin ← ReadVarInt;
  if nvin >? 100000 then rd_fail else
  vin ← read_n ReadTxIn (Z.to_nat nvin);
  nvout ← ReadVarInt;
  if nvout >? 100000 then rd_fail else
  vout ← read_n ReadTxOut (Z.to_nat nvout);
  lock ← ReadU32;
  mret {| tx_version := i32 ver; tx_vin := vin; tx_vout := vout; tx_lockTime := lock |}.
Definition DeserializeTransaction (data : bytes) : option CTransaction :=
  fst <$> ReadTransaction {| d_p := data; d_pos := 0 |}.

Definition SerializeBlockHeader (h : CBlockHeader) : bytes :=
  WriteU32 (u32 (hdr_version h)) ++ WriteUint256 (hdr_prevBlockHash h) ++
  WriteUint256 (hdr_merkleRoot h) ++ WriteU32 (hdr_timestamp h) ++
  WriteU32 (hdr_bits h) ++ WriteU32 (hdr_nonce h).
Definition ReadBlockHeader : Rd CBlockHeader :=
  ver ← ReadU32; prev ← ReadUint256; mr ← ReadUint256;
  ts ← ReadU32; bits ← ReadU32; nonce ← ReadU32;
  mret {| hdr_version := i32 ver; hdr_prevBlockHash := prev; hdr_merkleRoot := mr;
          hdr_timestamp := ts; hdr_bits := bits; hdr_nonce := nonce |}.
Definition DeserializeBlockHeader (data : bytes) : option CBlockHeader :=
  fst <$> ReadBlockHeader {| d_p := data; d_pos := 0 |}.

Definition SerializeBlock (b : CBlock) : bytes :=
  SerializeBlockHeader (blk_header b) ++
  WriteVarInt (Z.of_nat (length (blk_vtx b))) ++ flat_map SerializeTransaction (blk_vtx b).

(** Loop body of [DeserializeBlock]: parse a transaction from the remaining
    bytes and advance by the size of its re-serialization. *)
Definition ReadBlockTx : Rd CTransaction := fun d =>
  match DeserializeTransaction (drop (d_pos d) (d_p d)) with
  | Some tx => Some (tx, set_pos d (d_pos d + length (SerializeTransaction tx)))
  | None => None
  end.
Definition DeserializeBlock (data : bytes) : option CBlock :=
  match DeserializeBlockHeader data with
  | None => None
  | Some hdr =>
      match (ntx ← ReadVarInt; if ntx >? 100000 then rd_fail else read_n ReadBlockTx (Z.to_nat ntx))
              {| d_p := data; d_pos := 80 |} with
      | Some (vtx, _) => Some {| blk_header := hdr; blk_vtx := vtx |}
      | None => None
      end
  end.

(** [GetTxID], [CBlockHeader::GetHash] and [CBlock::GetHash] *)
Definition GetTxID `{OpenSSL} (tx : CTransaction) : uint256 := SHA256d (SerializeTransaction tx).
Definition HeaderHash `{OpenSSL} (h : CBlockHeader) : uint256 := SHA256d (SerializeBlockHeader h).
Definition BlockHash `{OpenSSL} (b : CBlock) : uint256 := HeaderHash (blk_header b).

(** * Well-formedness: every field in the range of its C++ type *)

Definition script_wf (s : bytes) : Prop := bytes_wf s /\ Z.of_nat (length s) < 2 ^ 64.
Definition txin_wf (i : CTxIn) : Prop :=
  wf (op_hash (in_prevout i)) /\ is_u32 (op_n (in_prevout i)) /\
  script_wf (in_scriptSig i) /\ is_u32 (in_sequence i).
Definition txout_wf (o : CTxOut) : Prop := is_i64 (out_value o) /\ script_wf (out_scriptPubKey o).
Definition tx_wf (tx : CTransaction) : Prop :=
  is_i32 (tx_version tx) /\ Forall txin_wf (tx_vin tx) /\ Forall txout_wf (tx_vout tx) /\
  is_u32 (tx_lockTime tx) /\
  Z.of_nat (length (tx_vin tx)) <= 100000 /\ Z.of_nat (length (tx_vout tx)) <= 100000.
Definition hdr_wf (h : CBlockHeader) : Prop :=
  is_i32 (hdr_version h) /\ wf (hdr_prevBlockHash h) /\ wf (hdr_merkleRoot h) /\
  is_u32 (hdr_timestamp h) /\ is_u32 (hdr_bits h) /\ is_u32 (hdr_nonce h).
Definition blk_wf (b : CBlock) : Prop :=
  hdr_wf (blk_header b) /\ Forall tx_wf (blk_vtx b) /\ Z.of_nat (length (blk_vtx b)) <= 100000.

(** * Lemmas *)

(** [reads m bs a]: on input that starts with [bs], [m] returns [a] and
    advances past [bs]. *)
Definition reads {A} (m : Rd A) (bs : bytes) (a : A) : Prop :=
  forall p pos rest, (pos <= length p)%nat -> drop pos p = bs ++ rest ->
  m {| d_p := p; d_pos := pos |} = Some (a, {| d_p := p; d_pos := pos + length bs |}).

Lemma drop_consume (p : bytes) pos bs rest :
  drop pos p = bs ++ rest -> drop (pos + length bs) p = rest.
Proof. intros H. by rewrite <- drop_drop, H, drop_app_length. Qed.

Lemma drop_room (p : bytes) pos bs rest :
  (pos <= length p)%nat -> drop pos p = bs ++ rest -> (pos + length bs <= length p)%nat.
Proof. intros Hp H. apply (f_equal length) in H. rewrite length_drop, length_app in H. lia. Qed.

Lemma reads_ret {A} (a : A) : reads (mret a) [] a.
Proof. intros p pos rest _ _. simpl. by rewrite Nat.add_0_r. Qed.

Lemma reads_bind {A B} (m : Rd A) (f : A -> Rd B) b1 b2 a b :
  reads m b1 a -> reads (f a) b2 b -> reads (m ≫= f) (b1 ++ b2) b.
Proof.
  intros Hm Hf p pos rest Hp H. rewrite <- app_assoc in H.
  unfold mbind, Rd_bind. rewrite (Hm _ _ _ Hp H).
  rewrite (Hf _ _ rest); [|by eapply drop_room|by eapply drop_consume].
  rewrite length_app. do 3 f_equal. lia.
Qed.

(** Same, when the second part reads nothing. *)
Lemma reads_bind_ret {A B} (m : Rd A) (f : A -> Rd B) bs a b :
  reads m bs a -> f a = mret b -> reads (m ≫= f) bs b.
Proof.
  intros Hm Hf. rewrite <- (app_nil_r bs). eapply reads_bind; [done|].
  rewrite Hf. apply reads_ret.
Qed.

Lemma reads_bytes n bs : length bs = n -> reads (ReadBytes n) bs bs.
Proof.
  intros <- p pos rest Hp H. unfold ReadBytes, d_len. cbn [d_p d_pos].
  pose proof (drop_room _ _ _ _ Hp H).
  destruct (Nat.ltb_spec (length p) (pos + length bs)); [lia|].
  by rewrite H, take_app_length.
Qed.

Lemma reads_u8 v : reads ReadU8 [v] v.
Proof. unfold ReadU8. eapply reads_bind_ret; [by apply reads_bytes|done]. Qed.
Lemma reads_u16 v : is_u16 v -> reads ReadU16 (WriteU16 v) v.
Proof.
  intros Hv. unfold ReadU16. change (WriteU16 v) with (le_bytes 2 v).
  eapply reads_bind_ret; [by apply reads_bytes, length_le_bytes|]. simpl. by rewrite le_bytes_read_u16.
Qed.
Lemma reads_u32 v : is_u32 v -> reads ReadU32 (WriteU32 v) v.
Proof.
  intros Hv. unfold ReadU32, WriteU32. eapply reads_bind_ret; [by apply reads_bytes, length_le_bytes|].
  by rewrite le_bytes_read_u32.
Qed.
Lemma reads_u64 v : is_u64 v -> reads ReadU64 (WriteU64 v) v.
Proof.
  intros Hv. unfold ReadU64, WriteU64. eapply reads_bind_ret; [by apply reads_bytes, length_le_bytes|].
  by rewrite le_bytes_read_u64.
Qed.
Lemma reads_uint256 h : wf h -> reads ReadUint256 (WriteUint256 h) h.
Proof.
  intros Hh. unfold ReadUint256, WriteUint256.
  eapply reads_bind_ret; [by apply reads_bytes, length_getBytesLE|]. by rewrite setBytesLE_getBytesLE.
Qed.

Lemma reads_varint v : is_u64 v -> reads ReadVarInt (WriteVarInt v) v.
Proof.
  intros Hv. unfold ReadVarInt, WriteVarInt.
  destruct (Z.ltb_spec v 0xfd).
  { rewrite u8_id by u_range. rewrite <- (app_nil_r (WriteU8 v)).
    eapply reads_bind; [apply reads_u8|]. destruct (Z.ltb_spec v 0xfd); [apply reads_ret|lia]. }
  destruct (Z.leb_spec v 0xffff).
  { rewrite u16_id by u_range. eapply reads_bind; [apply reads_u8|]. apply reads_u16. u_range. }
  destruct (Z.leb_spec v 0xffffffff).
  { rewrite u32_id by u_range. eapply reads_bind; [apply reads_u8|]. apply reads_u32. u_range. }
  eapply reads_bind; [apply reads_u8|]. by apply reads_u64.
Qed.

Lemma reads_varstr s : Z.of_nat (length s) < 2 ^ 64 -> reads ReadVarStr (WriteVarStr s) s.
Proof.
  intros Hs. unfold ReadVarStr, WriteVarStr. eapply reads_bind; [apply reads_varint; u_range|].
  intros p pos rest Hp H. unfold ReadSized, d_len. cbn [d_p d_pos].
  pose proof (drop_room _ _ _ _ Hp H). rewrite Z.gtb_ltb.
  match goal with |- context [?a <? ?b] => destruct (Z.ltb_spec a b) end; [lia|].
  rewrite Nat2Z.id. by eapply reads_bytes.
Qed.

Lemma reads_list {A} (rd : Rd A) (ser : A -> bytes) l :
  (forall x, x ∈ l -> reads rd (ser x) x) -> reads (read_n rd (length l)) (flat_map ser l) l.
Proof.
  induction l as [|x l IH]; intros Hx; simpl; [apply reads_ret|].
  eapply reads_bind; [apply Hx; by left|]. eapply reads_bind_ret; [apply IH|done].
  intros y Hy. apply Hx. by right.
Qed.

Lemma reads_txin i : txin_wf i -> reads ReadTxIn (SerializeTxIn i) i.
Proof.
  intros (H1 & H2 & (_ & H3) & H4). unfold ReadTxIn, SerializeTxIn.
  eapply reads_bind; [by apply reads_uint256|]. eapply reads_bind; [by apply reads_u32|].
  eapply reads_bind; [by apply reads_varstr|]. eapply reads_bind_ret; [by apply reads_u32|].
  by destruct i as [[]].
Qed.

Lemma reads_txout o : txout_wf o -> reads ReadTxOut (SerializeTxOut o) o.
Proof.
  intros (H1 & _ & H2). unfold ReadTxOut, SerializeTxOut.
  eapply reads_bind; [apply reads_u64, u64_range|]. eapply reads_bind_ret; [by apply reads_varstr|].
  rewrite i64_u64 by done. by destruct o.
Qed.

Lemma reads_tx tx : tx_wf tx -> reads ReadTransaction (SerializeTransaction tx) tx.
Proof.
  intros (H1 & H2 & H3 & H4 & H5 & H6). unfold ReadTransaction, SerializeTransaction.
  eapply reads_bind; [apply reads_u32, u32_range|].
  eapply reads_bind; [apply reads_varint; u_range|].
  rewrite Z.gtb_ltb. destruct (Z.ltb_spec 100000 (Z.of_nat (length (tx_vin tx)))); [lia|].
  rewrite Nat2Z.id. eapply reads_bind.
  { apply reads_list. intros i Hi. apply reads_txin. by eapply Forall_forall in H2. }
  eapply reads_bind; [apply reads_varint; u_range|].
  rewrite Z.gtb_ltb. destruct (Z.ltb_spec 100000 (Z.of_nat (length (tx_vout tx)))); [lia|].
  rewrite Nat2Z.id. eapply reads_bind.
  { apply reads_list. intros o Ho. apply reads_txout. by eapply Forall_forall in H3. }
  eapply reads_bind_ret; [by apply reads_u32|].
  rewrite i32_u32 by done. by destruct tx.
Qed.

Lemma reads_header h : hdr_wf h -> reads ReadBlockHeader (SerializeBlockHeader h) h.
Proof.
  intros (H1 & H2 & H3 & H4 & H5 & H6). unfold ReadBlockHeader, SerializeBlockHeader.
  eapply reads_bind; [apply reads_u32, u32_range|].
  eapply reads_bind; [by apply reads_uint256|]. eapply reads_bind; [by apply reads_uint256|].
  eapply reads_bind; [by apply reads_u32|]. eapply reads_bind; [by apply reads_u32|].
  eapply reads_bind_ret; [by apply reads_u32|]. rewrite i32_u32 by done. by destruct h.
Qed.

Lemma reads_start {A} (m : Rd A) bs a rest :
  reads m bs a -> m {| d_p := bs ++ rest; d_pos := 0 |} =
    Some (a, {| d_p := bs ++ rest; d_pos := length bs |}).
Proof. intros H. by rewrite (H (bs ++ rest) 0%nat rest ltac:(lia) eq_refl). Qed.

Lemma deserialize_tx_prefix tx rest : tx_wf tx ->
  DeserializeTransaction (SerializeTransaction tx ++ rest) = Some tx.
Proof. intros H. unfold DeserializeTransaction. by rewrite (reads_start _ _ _ _ (reads_tx _ H)). Qed.

Lemma deserialize_header_prefix h rest : hdr_wf h ->
  DeserializeBlockHeader (SerializeBlockHeader h ++ rest) = Some h.
Proof. intros H. unfold DeserializeBlockHeader. by rewrite (reads_start _ _ _ _ (reads_header _ H)). Qed.

Lemma length_header h : length (SerializeBlockHeader h) = 80%nat.
Proof.
  unfold SerializeBlockHeader, WriteU32, WriteUint256.
  by rewrite !length_app, !length_le_bytes, !length_getBytesLE.
Qed.

Lemma reads_block_tx tx : tx_wf tx -> reads ReadBlockTx (SerializeTransaction tx) tx.
Proof.
  intros Hw p pos rest Hp H. unfold ReadBlockTx. cbn [d_p d_pos]. rewrite H.
  by rewrite deserialize_tx_prefix.
Qed.

Lemma deserialize_block b : blk_wf b -> DeserializeBlock (SerializeBlock b) = Some b.
Proof.
  intros (H1 & H2 & H3). unfold DeserializeBlock, SerializeBlock.
  rewrite deserialize_header_prefix by done.
  assert (reads (ntx ← ReadVarInt; if ntx >? 100000 then rd_fail else read_n ReadBlockTx (Z.to_nat ntx))
    (WriteVarInt (Z.of_nat (length (blk_vtx b))) ++ flat_map SerializeTransaction (blk_vtx b))
    (blk_vtx b)) as Hr.
  { eapply reads_bind; [apply reads_varint; u_range|].
    rewrite Z.gtb_ltb. destruct (Z.ltb_spec 100000 (Z.of_nat (length (blk_vtx b)))); [lia|].
    rewrite Nat2Z.id. apply reads_list. intros t Ht. apply reads_block_tx. by eapply Forall_forall in H2. }
  rewrite (Hr _ 80%nat []).
  - by destruct b.
  - rewrite length_app, length_header. lia.
  - by rewrite app_nil_r, drop_app_length' by (by rewrite length_header).
Qed.

(** Serialization is injective on well-formed values. *)
Lemma serialize_tx_inj t1 t2 : tx_wf t1 -> tx_wf t2 ->
  SerializeTransaction t1 = SerializeTransaction t2 -> t1 = t2.
Proof.
  intros H1 H2 E. pose proof (deserialize_tx_prefix t1 [] H1) as D1.
  rewrite E, (deserialize_tx_prefix t2 [] H2) in D1. congruence.
Qed.

Lemma serialize_header_inj h1 h2 : hdr_wf h1 -> hdr_wf h2 ->
  SerializeBlockHeader h1 = SerializeBlockHeader h2 -> h1 = h2.
Proof.
  intros H1 H2 E. pose proof (deserialize_header_prefix h1 [] H1) as D1.
  rewrite E, (deserialize_header_prefix h2 [] H2) in D1. congruence.
Qed.

(** ** What a successful parse guarantees *)

(** One successful step from [d] to [d']: the input is unchanged, the position
    stays inside it and advances by at least [n] bytes. *)
Definition advanced (d d' : CDeserializer) (n : nat) : Prop :=
  d_p d' = d_p d /\ (d_pos d + n <= d_pos d' <= d_len d)%nat.

Lemma advanced_trans d1 d2 d3 n m :
  advanced d1 d2 n -> advanced d2 d3 m -> advanced d1 d3 (n + m).
Proof. unfold advanced, d_len. intros (E1 & ?) (E2 & ?). rewrite E2, E1 in *. split; [done|lia]. Qed.

Lemma advanced_weaken d d' n m : advanced d d' n -> (m <= n)%nat -> advanced d d' m.
Proof. unfold advanced. intros [-> ?] ?. split; [done|lia]. Qed.

Lemma Rd_bind_Some {A B} (m : Rd A) (f : A -> Rd B) d r :
  (m ≫= f) d = Some r -> exists a d1, m d = Some (a, d1) /\ f a d1 = Some r.
Proof. unfold mbind, Rd_bind. destruct (m d) as [[a d1]|]; [eauto|done]. Qed.

(** Decomposes [(m ≫= f) d = Some _] one read at a time. *)
Ltac rd_inv H a d :=
  apply Rd_bind_Some in H as (a & d & ?Hrd & H).

Section ParseOk.
Context (p : bytes) (Hp : bytes_wf p).

Lemma ReadBytes_ok n d a d' : d_p d = p -> ReadBytes n d = Some (a, d') ->
  bytes_wf a /\ length a = n /\ advanced d d' n.
Proof.
  intros Ed H. unfold ReadBytes in H.
  destruct (Nat.ltb_spec (d_len d) (d_pos d + n)); [done|]. injection H as <- <-.
  unfold advanced, d_len, set_pos in *. cbn. rewrite Ed in *. split_and!; try done; try lia.
  - by apply Forall_take, Forall_drop.
  - rewrite length_take, length_drop. lia.
Qed.

Lemma ReadU8_ok d v d' : d_p d = p -> ReadU8 d = Some (v, d') -> is_u8 v /\ advanced d d' 1.
Proof.
  intros Ed H. unfold ReadU8 in H. rd_inv H b d1. injection H as <- <-.
  apply ReadBytes_ok in Hrd as (Hw & Hl & Ha); [|done]. split; [|done].
  destruct b as [|x [|]]; try done. by apply Forall_cons_1 in Hw as [? _].
Qed.

Lemma ReadLE_ok n d v d' : d_p d = p -> (b ← ReadBytes n; mret (le_read b)) d = Some (v, d') ->
  0 <= v < 2 ^ (8 * Z.of_nat n) /\ advanced d d' n.
Proof.
  intros Ed H. rd_inv H b d1. injection H as <- <-.
  apply ReadBytes_ok in Hrd as (Hw & <- & Ha); [|done]. split; [by apply le_read_bound|done].
Qed.

Lemma ReadU32_ok d v d' : d_p d = p -> ReadU32 d = Some (v, d') -> is_u32 v /\ advanced d d' 4.
Proof. apply (ReadLE_ok 4). Qed.
Lemma ReadU64_ok d v d' : d_p d = p -> ReadU64 d = Some (v, d') -> is_u64 v /\ advanced d d' 8.
Proof. apply (ReadLE_ok 8). Qed.

Lemma ReadUint256_ok d v d' : d_p d = p -> ReadUint256 d = Some (v, d') -> wf v /\ advanced d d' 32.
Proof.
  intros Ed H. unfold ReadUint256 in H. rd_inv H b d1. injection H as <- <-.
  apply ReadBytes_ok in Hrd as (Hw & Hl & Ha); [|done]. split; [by apply setBytesLE_wf|done].
Qed.

Lemma length_varint v : 0 <= v ->
  length (WriteVarInt v) =
  if v <? 0xfd then 1%nat else if v <=? 0xffff then 3%nat else if v <=? 0xffffffff then 5%nat else 9%nat.
Proof.
  intros. unfold WriteVarInt, WriteU32, WriteU64.
  repeat case_if; rewrite ?length_app, ?length_le_bytes; done.
Qed.

Lemma ReadVarInt_ok d v d' : d_p d = p -> ReadVarInt d = Some (v, d') ->
  is_u64 v /\ advanced d d' (length (WriteVarInt v)).
Proof.
  intros Ed H. unfold ReadVarInt in H. rd_inv H x d1.
  apply ReadU8_ok in Hrd as (Hx & Ha); [|done].
  assert (d_p d1 = p) as Ed1 by (destruct Ha as [-> _]; done).
  destruct (Z.ltb_spec x 0xfd).
  { injection H as <- <-. rewrite length_varint by u_range.
    destruct (Z.ltb_spec x 0xfd); [|lia]. split; [u_range|done]. }
  destruct (x =? 0xfd); [|destruct (x =? 0xfe)].
  - apply (ReadLE_ok 2) in H as (Hv & Hb); [|done]. simpl in Hv. split; [u_range|].
    eapply advanced_weaken; [by eapply advanced_trans|]. rewrite length_varint by lia.
    destruct (v <? 0xfd); [lia|]. destruct (Z.leb_spec v 0xffff); lia.
  - apply ReadU32_ok in H as (Hv & Hb); [|done]. split; [u_range|].
    eapply advanced_weaken; [by eapply advanced_trans|]. rewrite length_varint by u_range.
    destruct (v <? 0xfd); [lia|]. destruct (v <=? 0xffff); [lia|].
    destruct (Z.leb_spec v 0xffffffff); u_range.
  - apply ReadU64_ok in H as (Hv & Hb); [|done]. split; [u_range|].
    eapply advanced_weaken; [by eapply advanced_trans|]. rewrite length_varint by u_range.
    repeat case_if; lia.
Qed.

Lemma ReadVarStr_ok d v d' : d_p d = p -> ReadVarStr d = Some (v, d') ->
  script_wf v /\ advanced d d' (length (WriteVarStr v)).
Proof.
  intros Ed H. unfold ReadVarStr in H. rd_inv H n d1.
  apply ReadVarInt_ok in Hrd as (Hn & Ha); [|done].
  assert (d_p d1 = p) as Ed1 by (destruct Ha as [-> _]; done).
  unfold ReadSized in H. case_match; [done|].
  apply ReadBytes_ok in H as (Hw & Hl & Hb); [|done].
  assert (n = Z.of_nat (length v)) as -> by (unfold is_u64 in Hn; lia).
  split; [split; [done|u_range]|].
  eapply advanced_weaken; [by eapply advanced_trans|]. unfold WriteVarStr. rewrite length_app. lia.
Qed.

Lemma read_n_ok {A} (rd : Rd A) (ser : A -> bytes) (P : A -> Prop) n d l d' :
  (forall d a d', d_p d = p -> rd d = Some (a, d') -> P a /\ advanced d d' (length (ser a))) ->
  (d_pos d <= d_len d)%nat -> d_p d = p -> read_n rd n d = Some (l, d') ->
  Forall P l /\ length l = n /\ advanced d d' (length (flat_map ser l)).
Proof.
  intros Hrd. revert d l. induction n as [|n IH]; intros d l Hpos Ed H; cbn [read_n] in H.
  { injection H as <- <-. split_and!; [apply Forall_nil_2|done|]. unfold advanced. simpl. split; [done|lia]. }
  rd_inv H x d1. rd_inv H r d2. injection H as <- <-.
  apply Hrd in Hrd0 as (Hx & Ha); [|done].
  assert (d_p d1 = p) as Ed1 by (destruct Ha as [-> _]; done).
  apply IH in Hrd1 as (Hr & Hl & Hb); [| |done].
  - split_and!; [by apply Forall_cons|simpl; lia|].
    cbn [flat_map]. rewrite length_app. by eapply advanced_trans.
  - destruct Ha as [Ea ?]. unfold d_len in *. rewrite Ea. lia.
Qed.

(** Chains the [advanced] facts of the successive reads. *)
Ltac adv_done :=
  repeat match goal with
  | H1 : advanced ?a ?b ?n, H2 : advanced ?b ?c ?m |- advanced ?a _ _ =>
      pose proof (advanced_trans a b c n m H1 H2); clear H1 H2
  end;
  eapply advanced_weaken; [eassumption|].

Ltac same_input Ha := let E := fresh "Ed" in pose proof (proj1 Ha) as E; rewrite ?E in *; clear E.

Lemma ReadTxIn_ok d i d' : d_p d = p -> ReadTxIn d = Some (i, d') ->
  txin_wf i /\ advanced d d' (length (SerializeTxIn i)).
Proof.
  intros Ed H. unfold ReadTxIn in H. rd_inv H h d1. rd_inv H n d2. rd_inv H s d3. rd_inv H q d4.
  injection H as <- <-.
  apply ReadUint256_ok in Hrd as (Hh & A1); [|done]. assert (d_p d1 = p) by (by rewrite (proj1 A1)).
  apply ReadU32_ok in Hrd0 as (Hn & A2); [|done]. assert (d_p d2 = p) by (by rewrite (proj1 A2)).
  apply ReadVarStr_ok in Hrd1 as (Hs & A3); [|done]. assert (d_p d3 = p) by (by rewrite (proj1 A3)).
  apply ReadU32_ok in Hrd2 as (Hq & A4); [|done].
  split; [done|]. adv_done. unfold SerializeTxIn, WriteUint256, WriteU32.
  cbn [in_prevout in_scriptSig in_sequence op_hash op_n].
  rewrite !length_app, length_getBytesLE, !length_le_bytes. lia.
Qed.

Lemma ReadTxOut_ok d o d' : d_p d = p -> ReadTxOut d = Some (o, d') ->
  txout_wf o /\ advanced d d' (length (SerializeTxOut o)).
Proof.
  intros Ed H. unfold ReadTxOut in H. rd_inv H v d1. rd_inv H s d2. injection H as <- <-.
  apply ReadU64_ok in Hrd as (Hv & A1); [|done]. assert (d_p d1 = p) by (by rewrite (proj1 A1)).
  apply ReadVarStr_ok in Hrd0 as (Hs & A2); [|done].
  split; [split; [apply i64_range|done]|]. adv_done.
  unfold SerializeTxOut, WriteU64. cbn [out_value out_scriptPubKey]. rewrite !length_app, length_le_bytes. lia.
Qed.

Lemma ReadTransaction_ok d tx d' : (d_pos d <= d_len d)%nat -> d_p d = p ->
  ReadTransaction d = Some (tx, d') ->
  tx_wf tx /\ advanced d d' (length (SerializeTransaction tx)).
Proof.
  intros Hpos Ed H. unfold ReadTransaction in H. rd_inv H ver d1. rd_inv H nin d2.
  apply ReadU32_ok in Hrd as (Hver & A1); [|done]. assert (d_p d1 = p) by (by rewrite (proj1 A1)).
  apply ReadVarInt_ok in Hrd0 as (Hnin & A2); [|done]. assert (d_p d2 = p) by (by rewrite (proj1 A2)).
  rewrite Z.gtb_ltb in H. destruct (Z.ltb_spec 100000 nin); [done|].
  rd_inv H vin d3. rd_inv H nout d4.
  apply (read_n_ok _ SerializeTxIn txin_wf) in Hrd as (Hvin & Lin & A3);
    [|apply ReadTxIn_ok|destruct A2 as [E ?]; unfold d_len in *; rewrite E; lia|done].
  assert (d_p d3 = p) by (by rewrite (proj1 A3)).
  apply ReadVarInt_ok in Hrd0 as (Hnout & A4); [|done]. assert (d_p d4 = p) by (by rewrite (proj1 A4)).
  rewrite Z.gtb_ltb in H. destruct (Z.ltb_spec 100000 nout); [done|].
  rd_inv H vout d5. rd_inv H lock d6. injection H as <- <-.
  apply (read_n_ok _ SerializeTxOut txout_wf) in Hrd as (Hvout & Lout & A5);
    [|apply ReadTxOut_ok|destruct A4 as [E ?]; unfold d_len in *; rewrite E; lia|done].
  assert (d_p d5 = p) by (by rewrite (proj1 A5)).
  apply ReadU32_ok in Hrd0 as (Hlock & A6); [|done].
  assert (nin = Z.of_nat (length vin)) as -> by (unfold is_u64 in *; lia).
  assert (nout = Z.of_nat (length vout)) as -> by (unfold is_u64 in *; lia).
  split.
  - unfold tx_wf. cbn [tx_version tx_vin tx_vout tx_lockTime]. split_and!; try done. apply i32_range.
  - adv_done. unfold SerializeTransaction, WriteU32.
    cbn [tx_version tx_vin tx_vout tx_lockTime].
    rewrite !length_app, !length_le_bytes. lia.
Qed.

End ParseOk.

(** * Properties *)

(** C34: a well-formed transaction, header or block is recovered exactly from
    its serialization; for transactions and headers also when more bytes
    follow. *)
Theorem serialize_roundtrip (tx : CTransaction) (h : CBlockHeader) (b : CBlock) (rest : bytes) :
  tx_wf tx -> hdr_wf h -> blk_wf b ->
  DeserializeTransaction (SerializeTransaction tx ++ rest) = Some tx /\
  DeserializeBlockHeader (SerializeBlockHeader h ++ rest) = Some h /\
  DeserializeBlock (SerializeBlock b) = Some b.
Proof.
  intros Ht Hh Hb. split_and!.
  - by apply deserialize_tx_prefix.
  - by apply deserialize_header_prefix.
  - by apply deserialize_block.
Qed.

(** C35: whatever bytes arrive, a transaction the parser accepts has every
    field in range and at most 100000 inputs and outputs, and its
    re-serialization is not longer than the input (so the position a block
    parser advances to stays inside the block). *)
Theorem deserialize_tx_safe (data : bytes) (tx : CTransaction) :
  bytes_wf data -> DeserializeTransaction data = Some tx ->
  tx_wf tx /\ (length (SerializeTransaction tx) <= length data)%nat.
Proof.
  intros Hd H. unfold DeserializeTransaction in H.
  destruct (ReadTransaction _) as [[t d']|] eqn:E; [|done]. injection H as <-.
  apply (ReadTransaction_ok data Hd) in E as (Hw & _ & Hl); [|apply Nat.le_0_l|reflexivity].
  split; [done|]. unfold d_len in Hl. cbn [d_p d_pos fst] in *. lia.
Qed.

Definition sample_tx : CTransaction := {|
  tx_version := 1;
  tx_vin := [{| in_prevout := {| op_hash := U256 7 0 0 9; op_n := 3 |};
                in_scriptSig := [1; 2; 3]; in_sequence := 0xffffffff |}];
  tx_vout := [{| out_value := 5000; out_scriptPubKey := [0x51] |}];
  tx_lockTime := 0 |}.
Definition sample_hdr : CBlockHeader := {|
  hdr_version := 1; hdr_prevBlockHash := U256 1 2 3 4; hdr_merkleRoot := U256 5 6 7 8;
  hdr_timestamp := 1717200000; hdr_bits := 0x207fffff; hdr_nonce := 42 |}.

Ltac wf_compute :=
  repeat first [ apply Forall_nil_2 | apply Forall_cons_2 | split ];
  vm_compute; first [ reflexivity | congruence | intros; congruence ].

Lemma sample_tx_wf : tx_wf sample_tx.
Proof. wf_compute. Qed.
Lemma sample_hdr_wf : hdr_wf sample_hdr.
Proof. wf_compute. Qed.

Lemma serialize_roundtrip_witness :
  DeserializeBlock (SerializeBlock {| blk_header := sample_hdr; blk_vtx := [sample_tx; sample_tx] |})
    = Some {| blk_header := sample_hdr; blk_vtx := [sample_tx; sample_tx] |}.
Proof.
  refine (proj2 (proj2 (serialize_roundtrip sample_tx sample_hdr
    {| blk_header := sample_hdr; blk_vtx := [sample_tx; sample_tx] |} [] sample_tx_wf sample_hdr_wf _))).
  split; [exact sample_hdr_wf|]. split; [|vm_compute; congruence].
  repeat apply Forall_cons_2; try exact sample_tx_wf. apply Forall_nil_2.
Defined.

Lemma deserialize_tx_safe_witness :
  tx_wf sample_tx /\ 
  (length (SerializeTransaction sample_tx) <= length (SerializeTransaction sample_tx ++ [0%Z; 7%Z]))%nat.
Proof.
  apply (deserialize_tx_safe (SerializeTransaction sample_tx ++ [0; 7]) sample_tx).
  - vm_compute. repeat apply Forall_cons_2; try apply Forall_nil_2; split; congruence.
  - vm_compute. reflexivity.
Defined.
