(* ===== verification/Encoding.v ===== *)
(** [crypto/encoding.cpp] and [wallet/address.cpp]: Base58, Base58Check, hex
    and the pointer-based varints; addresses and WIF keys.  A [std::string] is
    the list of its characters; an exception is an error result. *)
From Stdlib Require Import Ascii.
From S2P Require Import Prelude UInt256 Compact Crypto Transaction.
Import uint256.

Module Encoding.

(** * Base58 *)

Definition BASE58_ALPHABET : list ascii :=
  String.list_ascii_of_string "123456789ABCDEFGHJKLMNPQRSTUVWXYZabcdefghijkmnopqrstuvwxyz".

(** [strchr] finds the terminating NUL of the alphabet too, at index 58. *)
Fixpoint strchr_index (s : list ascii) (c : ascii) (i : Z) : option Z :=
  match s with
  | [] => if bool_decide (c = Ascii.zero) then Some i else None
  | x :: r => if bool_decide (x = c) then Some i else strchr_index r c (i + 1)
  end.
Definition base58Index (c : ascii) : Z :=
  match strchr_index BASE58_ALPHABET c 0 with None => -1 | Some i => i end.

(** [while (zeros < len && data[zeros] == 0) ++zeros] *)
Fixpoint leading_zeros (l : bytes) : nat :=
  match l with
  | x :: r => if x =? 0 then S (leading_zeros r) else O
  | [] => O
  end.

(** The inner [for] loop of [EncodeBase58] on [buf[start..]]: the new bytes
    and the final [rem]. *)
Fixpoint divmod58 (rem : Z) (buf : bytes) : bytes * Z :=
  match buf with
  | [] => ([], rem)
  | b :: r =>
      let acc := rem * 256 + b in
      let '(q, rem') := divmod58 (acc mod 58) r in
      (u8 (acc / 58) :: q, rem')
  end.
(** The outer loop on [buf[start..]]: the digits pushed.  [next] is the first
    non-zero position of the new bytes; each round divides the number by 58, so
    two rounds per byte are enough. *)
Fixpoint digits_loop (fuel : nat) (buf : bytes) : bytes :=
  match fuel with
  | O => []
  | S k =>
      match buf with
      | [] => []
      | _ =>
          let '(q, rem) := divmod58 0 buf in
          let q := drop (leading_zeros q) q in
          match q with [] => [rem] | _ => rem :: digits_loop k q end
      end
  end.
Definition alphabet_at (d : Z) : ascii := nth (Z.to_nat d) BASE58_ALPHABET Ascii.zero.
Definition EncodeBase58 (data : bytes) : list ascii :=
  let zeros := leading_zeros data in
  let digits := digits_loop (2 * length data) (drop zeros data) in
  let result := repeat (alphabet_at 0) zeros ++ map alphabet_at (rev digits) in
  match result with [] => [alphabet_at 0] | _ => result end.

(** The inner loop of [DecodeBase58]: the bytes and the final [carry]. *)
Fixpoint mul58 (carry : Z) (b256 : bytes) : bytes * Z :=
  match b256 with
  | [] => ([], carry)
  | b :: r =>
      let acc := b * 58 + carry in
      let '(l, c) := mul58 (Z.shiftr acc 8) r in
      (u8 (Z.land acc 0xff) :: l, c)
  end.
(** [while (carry > 0)]: at most four rounds for an [int]. *)
Fixpoint push_carry (fuel : nat) (carry : Z) : bytes :=
  match fuel with
  | O => []
  | S k => if carry >? 0 then u8 (Z.land carry 0xff) :: push_carry k (Z.shiftr carry 8) else []
  end.
Definition decode_char (b256 : bytes) (c : ascii) : res bytes :=
  let idx := base58Index c in
  _ ← fail_if (idx <? 0) "Invalid base58 character";
  let '(l, carry) := mul58 idx b256 in
  Ok (l ++ push_carry 4 carry).
(** [while (zeros < s.size() && s[zeros] == '1') ++zeros] *)
Fixpoint leading_ones (s : list ascii) : nat :=
  match s with
  | c :: r => if bool_decide (c = alphabet_at 0) then S (leading_ones r) else O
  | [] => O
  end.
Definition DecodeBase58 (s : list ascii) : res bytes :=
  b256 ← res_fold decode_char [] s;
  Ok (repeat 0 (leading_ones s) ++ rev b256).

Section Base58Check.
Context {ossl : OpenSSL}.

Definition EncodeBase58Check (data : bytes) : list ascii :=
  EncodeBase58 (data ++ take 4 (SHA256d_bytes data)).
Definition DecodeBase58Check (s : list ascii) : res bytes :=
  full ← DecodeBase58 s;
  _ ← fail_if (Z.of_nat (length full) <? 4) "Base58Check too short";
  let payloadLen := (length full - 4)%nat in
  let checksum := SHA256d_bytes (take payloadLen full) in
  _ ← fail_if (negb (bool_decide (take 4 checksum = take 4 (drop payloadLen full)))) "Base58Check checksum mismatch";
  Ok (take payloadLen full).

(** * Addresses *)

Definition Hash160ToAddress (hash160 : bytes) (versionByte : Z) : list ascii :=
  EncodeBase58Check (versionByte :: take 20 hash160).
Definition PubKeyToAddress (pubkey : bytes) (versionByte : Z) : list ascii :=
  Hash160ToAddress (HASH160 pubkey) versionByte.
Definition DecodeAddress (address : list ascii) : option (Z * bytes) :=
  match DecodeBase58Check address with
  | Err _ => None
  | Ok payload =>
      if negb (Z.of_nat (length payload) =? 21) then None
      else Some (nth 0 payload 0, take 20 (drop 1 payload))
  end.
Definition IsValidAddress (address : list ascii) : bool := bool_decide (is_Some (DecodeAddress address)).
Definition PrivKeyToWIF (priv : bytes) (versionByte : Z) : list ascii :=
  EncodeBase58Check (versionByte :: take 32 priv ++ [0x01]).
Definition WIFToPrivKey (wif : list ascii) : option (Z * bytes) :=
  match DecodeBase58Check wif with
  | Err _ => None
  | Ok payload =>
      if negb (Z.of_nat (length payload) =? 34) then None
      else Some (nth 0 payload 0, take 32 (drop 1 payload))
  end.

End Base58Check.

(** * Hex and varints *)

(** The [nib] lambda of [DecodeHex] (-1 for a character that is no digit). *)
Definition hex_nib (c : ascii) : Z :=
  let z := ascii_Z c in
  if (48 <=? z) && (z <=? 57) then z - 48
  else if (97 <=? z) && (z <=? 102) then z - 97 + 10
  else if (65 <=? z) && (z <=? 70) then z - 65 + 10
  else -1.
Fixpoint decode_hex_loop (hex : list ascii) : option bytes :=
  match hex with
  | a :: b :: r =>
      if (hex_nib a <? 0) || (hex_nib b <? 0) then None
      else bs ← decode_hex_loop r; Some (u8 (Z.lor (Z.shiftl (hex_nib a) 4) (hex_nib b)) :: bs)
  | _ => Some []
  end.
Definition DecodeHex (hex : list ascii) : option bytes :=
  if negb (Z.of_nat (length hex) mod 2 =? 0) then None else decode_hex_loop hex.

Definition VarIntSize (v : Z) : Z :=
  if v <? 0xfd then 1 else if v <=? 0xffff then 3 else if v <=? 0xffffffff then 5 else 9.
(** The bytes written to [out]; the returned count is their number. *)
Definition WriteVarIntBuf (v : Z) : bytes :=
  if v <? 0xfd then [u8 v]
  else if v <=? 0xffff then 0xfd :: le_bytes 2 (u16 v)
  else if v <=? 0xffffffff then 0xfe :: le_bytes 4 (u32 v)
  else 0xff :: le_bytes 8 v.
(** The value and the number of bytes read; [None] is the result -1. *)
Definition ReadVarIntBuf (data : bytes) : option (Z * Z) :=
  let len := Z.of_nat (length data) in
  if len <? 1 then None
  else
    let first := nth 0 data 0 in
    if first <? 0xfd then Some (first, 1)
    else if first =? 0xfd then if len <? 3 then None else Some (le_read (take 2 (drop 1 data)), 3)
    else if first =? 0xfe then if len <? 5 then None else Some (le_read (take 4 (drop 1 data)), 5)
    else if len <? 9 then None else Some (le_read (take 8 (drop 1 data)), 9).

End Encoding.
Import Encoding.

(** * Lemmas *)

(** ** Positional numbers, least significant digit first *)

Fixpoint val (B : Z) (l : list Z) : Z :=
  match l with [] => 0 | d :: r => d + B * val B r end.
(** No zero at the most significant end. *)
Definition canonical (l : list Z) : Prop := last l <> Some 0.

Lemma val_app B l1 l2 : val B (l1 ++ l2) = val B l1 + B ^ Z.of_nat (length l1) * val B l2.
Proof.
  induction l1 as [|d l1 IH]; cbn [app val length]; [rewrite Z.pow_0_r; lia|].
  rewrite IH, Nat2Z.inj_succ, Z.pow_succ_r by lia. lia.
Qed.

Lemma canonical_tail d l : canonical (d :: l) -> canonical l.
Proof. unfold canonical. by destruct l. Qed.

Lemma val_bound B l : 0 < B -> Forall (fun d => 0 <= d < B) l -> 0 <= val B l < B ^ Z.of_nat (length l).
Proof.
  intros HB. induction 1 as [|d l Hd _ IH]; cbn [val length]; [done|].
  rewrite Nat2Z.inj_succ, Z.pow_succ_r by lia. nia.
Qed.

Lemma val_zero B l : 0 < B -> Forall (fun d => 0 <= d < B) l -> canonical l -> val B l = 0 -> l = [].
Proof.
  intros HB Hl. induction Hl as [|d l Hd Hl IH]; intros Hc Hv; [done|]. cbn [val] in Hv.
  pose proof (val_bound B l HB Hl) as [Hge _].
  assert (d = 0 /\ val B l = 0) as [-> Hz] by (split; nia).
  pose proof (IH (canonical_tail _ _ Hc) Hz) as ->. by destruct Hc.
Qed.

(** A number has one canonical representation. *)
Lemma val_inj B l1 : 0 < B -> forall l2,
  Forall (fun d => 0 <= d < B) l1 -> Forall (fun d => 0 <= d < B) l2 ->
  canonical l1 -> canonical l2 -> val B l1 = val B l2 -> l1 = l2.
Proof.
  intros HB. induction l1 as [|d1 l1 IH]; intros l2 H1 H2 C1 C2 E.
  { symmetry. apply (val_zero B); try done. }
  destruct l2 as [|d2 l2]; [by apply (val_zero B (d1 :: l1))|].
  apply Forall_cons in H1 as [Hd1 H1], H2 as [Hd2 H2]. cbn [val] in E.
  assert (val B l1 = val B l2) as Ev by (destruct (Z.lt_trichotomy (val B l1) (val B l2)) as [|[|]]; nia).
  assert (d1 = d2) as -> by nia.
  f_equal. apply IH; try done; by eapply canonical_tail.
Qed.

(** ** Encoding *)

Definition is_digit58 (d : Z) : Prop := 0 <= d < 58.

(** The number a big-endian byte string denotes. *)
Definition be_val (l : bytes) : Z := val 256 (rev l).

Lemma be_val_cons b l : be_val (b :: l) = b * 256 ^ Z.of_nat (length l) + be_val l.
Proof. unfold be_val. cbn [rev]. rewrite val_app, length_rev. cbn [val]. lia. Qed.

Lemma bytes_256 l : bytes_wf l -> Forall (fun d => 0 <= d < 256) l.
Proof. intros H. exact H. Qed.

Lemma be_val_bound l : bytes_wf l -> 0 <= be_val l < 256 ^ Z.of_nat (length l).
Proof.
  intros H. unfold be_val. rewrite <- length_rev. apply val_bound; [lia|]. by apply Forall_rev, bytes_256.
Qed.

Lemma divmod58_spec l : forall rem q rem', bytes_wf l -> is_digit58 rem -> divmod58 rem l = (q, rem') ->
  bytes_wf q /\ is_digit58 rem' /\ length q = length l /\
  rem * 256 ^ Z.of_nat (length l) + be_val l = 58 * be_val q + rem'.
Proof.
  induction l as [|b l IH]; intros rem q rem' Hw Hr H; cbn [divmod58] in H.
  { injection H as <- <-. split_and!; [apply Forall_nil_2|done|done|]. cbn. lia. }
  apply Forall_cons in Hw as [Hb Hw]. unfold is_digit58 in Hr.
  set (acc := rem * 256 + b) in *.
  destruct (divmod58 (acc mod 58) l) as [q1 r1] eqn:E. injection H as <- <-.
  apply IH in E as (Hq & Hr1 & Hl & Ev); [|done|apply Z.mod_pos_bound; lia].
  assert (0 <= acc / 58 < 256) as Hd by (unfold acc; u_divmod).
  rewrite u8_id by u_range. split_and!; [by apply Forall_cons|done|cbn; lia|].
  rewrite !be_val_cons, Hl. cbn [length]. rewrite Nat2Z.inj_succ, Z.pow_succ_r by lia.
  pose proof (Z.div_mod acc 58 ltac:(lia)) as Ha. unfold acc in *. nia.
Qed.

Lemma drop_zeros_val l : bytes_wf l ->
  be_val (drop (leading_zeros l) l) = be_val l /\ bytes_wf (drop (leading_zeros l) l) /\
  head (drop (leading_zeros l) l) <> Some 0 /\ (length (drop (leading_zeros l) l) <= length l)%nat /\
  l = repeat 0 (leading_zeros l) ++ drop (leading_zeros l) l.
Proof.
  induction l as [|b l IH]; intros Hw; [done|]. apply Forall_cons in Hw as [Hb Hw].
  cbn [leading_zeros]. destruct (Z.eqb_spec b 0) as [->|Hne].
  - destruct (IH Hw) as (E1 & E2 & E3 & E4 & E5). cbn [drop]. rewrite E1. split_and!; try done.
    + rewrite be_val_cons. lia.
    + cbn [length]. lia.
    + cbn [repeat app]. by rewrite <- E5.
  - cbn [drop repeat app]. split; [done|]. split; [by apply Forall_cons|]. split; [cbn; congruence|done].
Qed.

Lemma head_rev_canonical l : head l <> Some 0 -> canonical (rev l).
Proof.
  unfold canonical. destruct l as [|b l]; [done|]. cbn [rev]. rewrite last_snoc. cbn. congruence.
Qed.

Lemma be_val_pos l : bytes_wf l -> l <> [] -> head l <> Some 0 -> 0 < be_val l.
Proof.
  intros Hw Hne Hh. pose proof (be_val_bound l Hw). destruct (decide (be_val l = 0)) as [Hz|]; [|lia].
  exfalso. apply Hne.
  assert (rev l = []) as E.
  { apply (val_zero 256); [lia|by apply Forall_rev, bytes_256|by apply head_rev_canonical|done]. }
  by rewrite <- (rev_involutive l), E.
Qed.

Lemma digits_loop_spec k : forall l, bytes_wf l -> head l <> Some 0 -> be_val l < 58 ^ Z.of_nat k ->
  Forall is_digit58 (digits_loop k l) /\ canonical (digits_loop k l) /\ val 58 (digits_loop k l) = be_val l.
Proof.
  induction k as [|k IH]; intros l Hw Hh Hb.
  { destruct (decide (l = [])) as [->|Hne]; [split_and!; [apply Forall_nil_2|done|done]|].
    pose proof (be_val_pos l Hw Hne Hh). change (58 ^ Z.of_nat 0) with 1 in Hb. lia. }
  cbn [digits_loop]. destruct l as [|b0 l0]; [split_and!; [apply Forall_nil_2|done|done]|].
  set (l := b0 :: l0) in *. assert (l <> []) as Hne by done.
  destruct (divmod58 0 l) as [q rem] eqn:E.
  apply divmod58_spec in E as (Hq & Hr & Hl & Ev); [|done|done]. rewrite Z.mul_0_l, Z.add_0_l in Ev.
  destruct (drop_zeros_val q Hq) as (E1 & E2 & E3 & _ & _).
  set (q' := drop (leading_zeros q) q) in *. pose proof (be_val_pos l Hw Hne Hh) as Hpos.
  rewrite Nat2Z.inj_succ, Z.pow_succ_r in Hb by lia. unfold is_digit58 in Hr.
  assert (be_val q' < 58 ^ Z.of_nat k) as Hb' by lia.
  destruct (IH q' E2 E3 Hb') as (D1 & D2 & D3).
  destruct q' as [|x q''] eqn:Eq.
  - change (be_val []) with 0 in E1. split_and!.
    + apply Forall_cons_2; [done|apply Forall_nil_2].
    + unfold canonical. cbn. intros [= ->]. lia.
    + cbn [val]. lia.
  - split_and!.
    + by apply Forall_cons_2.
    + unfold canonical in *. destruct (digits_loop k (x :: q'')) eqn:Ed; [|done].
      exfalso. assert (0 < be_val (x :: q'')) by (by apply be_val_pos). cbn [val] in D3. lia.
    + cbn [val]. lia.
Qed.

Lemma digits_fuel l n : bytes_wf l -> (length l <= n)%nat -> be_val l < 58 ^ Z.of_nat (2 * n).
Proof.
  intros Hw Hn. pose proof (be_val_bound l Hw) as [_ Hb].
  replace (Z.of_nat (2 * n)) with (2 * Z.of_nat n) by lia. rewrite Z.pow_mul_r by lia.
  eapply Z.lt_le_trans; [exact Hb|]. etrans; [apply Z.pow_le_mono_l with (b := 58 ^ 2); lia|].
  apply Z.pow_le_mono_r; lia.
Qed.

(** ** Decoding *)

Lemma mul58_spec l : forall c l' c', bytes_wf l -> is_digit58 c -> mul58 c l = (l', c') ->
  bytes_wf l' /\ is_digit58 c' /\ length l' = length l /\
  val 256 l' + 256 ^ Z.of_nat (length l) * c' = 58 * val 256 l + c.
Proof.
  induction l as [|b l IH]; intros c l' c' Hw Hc H; cbn [mul58] in H.
  { injection H as <- <-. split_and!; [apply Forall_nil_2|done|done|]. cbn. lia. }
  apply Forall_cons in Hw as [Hb Hw]. unfold is_digit58 in Hc.
  set (acc := b * 58 + c) in *.
  destruct (mul58 (Z.shiftr acc 8) l) as [l1 c1] eqn:E. injection H as <- <-.
  change 0xff with (Z.ones 8). rewrite Z.land_ones by lia. rewrite Z.shiftr_div_pow2 in E by lia.
  apply IH in E as (Hl & Hc1 & Hlen & Ev); [|done|unfold is_digit58, acc; u_divmod].
  rewrite u8_id by (apply Z.mod_pos_bound; lia).
  split_and!; [apply Forall_cons_2; [apply Z.mod_pos_bound; lia|done]|done|cbn; lia|].
  cbn [val length]. rewrite Nat2Z.inj_succ, Z.pow_succ_r by lia.
  pose proof (Z.div_mod acc (2 ^ 8) ltac:(lia)) as Ha. change (2 ^ 8) with 256 in *. unfold acc in *. lia.
Qed.

Lemma push_carry_digit c : is_digit58 c -> push_carry 4 c = if c >? 0 then [c] else [].
Proof.
  unfold is_digit58. intros Hc. cbn [push_carry].
  change 0xff with (Z.ones 8). rewrite Z.land_ones by lia. rewrite Z.shiftr_div_pow2 by lia.
  rewrite Z.mod_small, u8_id by u_range. rewrite (Z.div_small c) by lia. by destruct (c >? 0).
Qed.

(** Being canonical is a lower bound on the value. *)
Lemma canonical_ge B l x : 0 < B -> Forall (fun d => 0 <= d < B) (l ++ [x]) ->
  x <> 0 <-> B ^ Z.of_nat (length l) <= val B (l ++ [x]).
Proof.
  intros HB Hf. apply Forall_app in Hf as [Hl Hx]. apply Forall_cons in Hx as [Hx _].
  pose proof (val_bound B l HB Hl). rewrite val_app. cbn [val]. rewrite Z.mul_0_r, Z.add_0_r.
  set (p := B ^ _) in *. split; [|intros Hge ->; lia].
  intros Hne. assert (1 <= x) by lia. nia.
Qed.

Lemma decode_char_digit b c d : bytes_wf b -> canonical b -> base58Index c = d -> is_digit58 d ->
  exists b', decode_char b c = Ok b' /\ bytes_wf b' /\ canonical b' /\ val 256 b' = 58 * val 256 b + d.
Proof.
  intros Hw Hcan Hi Hd. unfold decode_char. rewrite Hi. unfold is_digit58 in Hd.
  destruct (Z.ltb_spec d 0); [lia|]. cbn [fail_if mbind res_bind].
  destruct (mul58 d b) as [l c'] eqn:E.
  apply mul58_spec in E as (Hl & Hc' & Hlen & Ev); [|done|done].
  pose proof Hc' as [Hc0 _]. eexists. split; [reflexivity|]. rewrite push_carry_digit by done. rewrite Z.gtb_ltb.
  destruct (Z.ltb_spec 0 c') as [Hpos|Hz].
  - split_and!; [apply Forall_app; split; [done|apply Forall_cons_2; [unfold is_digit58 in Hc'; u_range|constructor]]| |].
    + unfold canonical. rewrite last_snoc. intros [= ->]. lia.
    + rewrite val_app, Hlen. cbn [val]. lia.
  - assert (c' = 0) as -> by lia. rewrite app_nil_r. split_and!; [done| |lia].
    destruct l as [|x l0 _] using rev_ind; [done|]. unfold canonical. rewrite last_snoc. intros [= ->].
    destruct b as [|y b0 _] using rev_ind; [rewrite length_app in Hlen; cbn in Hlen; lia|].
    rewrite !length_app in Hlen. cbn [length] in Hlen.
    assert (length l0 = length b0) as El by lia.
    assert (y <> 0) as Hy by (unfold canonical in Hcan; rewrite last_snoc in Hcan; congruence).
    apply (canonical_ge 256 b0 y) in Hy; [|lia|done].
    assert (0 <> 0); [|done]. apply (canonical_ge 256 l0 0); [lia|done|]. rewrite El. lia.
Qed.

(** The alphabet and [base58Index] are inverse. *)
Lemma alphabet_index d : is_digit58 d -> base58Index (alphabet_at d) = d.
Proof.
  unfold is_digit58. intros Hd.
  assert (forallb (fun i => base58Index (alphabet_at (Z.of_nat i)) =? Z.of_nat i) (seq 0 58) = true) as H
    by (vm_compute; reflexivity).
  rewrite forallb_forall in H. specialize (H (Z.to_nat d)). rewrite Z2Nat.id in H by lia.
  apply Z.eqb_eq, H, in_seq. lia.
Qed.

Lemma alphabet_one d : is_digit58 d -> alphabet_at d = alphabet_at 0 -> d = 0.
Proof. intros Hd E. rewrite <- (alphabet_index d Hd), E. by apply alphabet_index. Qed.

Lemma decode_digits ds : forall b, bytes_wf b -> canonical b -> Forall is_digit58 ds ->
  exists b', res_fold decode_char b (map alphabet_at ds) = Ok b' /\ bytes_wf b' /\ canonical b' /\
    val 256 b' = 58 ^ Z.of_nat (length ds) * val 256 b + val 58 (rev ds).
Proof.
  induction ds as [|d ds IH]; intros b Hw Hc Hds; cbn [map res_fold].
  { exists b. split_and!; try done. cbn. lia. }
  apply Forall_cons in Hds as [Hd Hds].
  destruct (decode_char_digit b (alphabet_at d) d) as (b1 & -> & Hw1 & Hc1 & Ev1); [done..|by apply alphabet_index|done|].
  destruct (IH b1) as (b2 & E2 & Hw2 & Hc2 & Ev2); [done..|].
  exists b2. split_and!; try done. rewrite Ev2, Ev1. cbn [rev length]. rewrite val_app, length_rev.
  rewrite Nat2Z.inj_succ, Z.pow_succ_r by lia. cbn [val]. lia.
Qed.

Lemma leading_ones_digits ds : Forall is_digit58 ds -> leading_ones (map alphabet_at ds) = leading_zeros ds.
Proof.
  induction 1 as [|d ds Hd _ IH]; [done|]. cbn [map leading_ones leading_zeros].
  destruct (Z.eqb_spec d 0) as [->|Hne]; [by rewrite bool_decide_true, IH|].
  rewrite bool_decide_false; [done|]. intros E. by apply Hne, alphabet_one.
Qed.

Lemma leading_zeros_app n l : head l <> Some 0 -> leading_zeros (repeat 0 n ++ l) = n.
Proof.
  intros Hh. induction n as [|n IH]; cbn [repeat app leading_zeros]; [|by rewrite IH].
  destruct l as [|x l]; [done|]. cbn. destruct (Z.eqb_spec x 0); [by subst|done].
Qed.

Lemma val_repeat_zero B n : val B (repeat 0 n) = 0.
Proof. induction n; cbn [repeat val]; lia. Qed.

Lemma rev_repeat_zero n : rev (repeat 0 n) = repeat 0 n.
Proof.
  induction n as [|n IH]; [done|]. cbn [repeat rev]. rewrite IH. clear.
  induction n; cbn; congruence.
Qed.

Lemma canonical_rev_head l : canonical l -> head (rev l) <> Some 0.
Proof.
  unfold canonical. destruct l as [|x l _] using rev_ind; [done|]. by rewrite last_snoc, rev_app_distr.
Qed.

(** What [DecodeBase58] computes on a string of [zeros] ones followed by the
    canonical digits of a number: as many zero bytes, then its bytes. *)
Lemma DecodeBase58_digits n ds payload :
  Forall is_digit58 ds -> canonical ds -> bytes_wf payload -> head payload <> Some 0 ->
  val 58 ds = be_val payload ->
  DecodeBase58 (map alphabet_at (repeat 0 n ++ rev ds)) = Ok (repeat 0 n ++ payload).
Proof.
  intros Hds Hc Hw Hh Ev. unfold DecodeBase58.
  assert (Forall is_digit58 (repeat 0 n ++ rev ds)) as Hall.
  { apply Forall_app. split; [|by apply Forall_rev]. apply Forall_forall. intros x Hx%list_elem_of_In%repeat_spec.
    by subst. }
  destruct (decode_digits (repeat 0 n ++ rev ds) []) as (b & -> & Hbw & Hbc & Hbv); [constructor|done|done|].
  cbn. rewrite leading_ones_digits, leading_zeros_app by (done || by apply canonical_rev_head).
  rewrite rev_app_distr, rev_involutive, rev_repeat_zero, val_app, val_repeat_zero in Hbv. cbn [val] in Hbv.
  assert (b = rev payload) as ->; [|by rewrite rev_involutive].
  apply (val_inj 256); [lia|done|by apply Forall_rev, bytes_256|done|by apply head_rev_canonical|].
  unfold be_val in Ev. lia.
Qed.

(** The digits [EncodeBase58] writes for a non-empty input. *)
Lemma EncodeBase58_digits data : bytes_wf data -> data <> [] ->
  exists n ds payload, data = repeat 0 n ++ payload /\ bytes_wf payload /\ head payload <> Some 0 /\
    Forall is_digit58 ds /\ canonical ds /\ val 58 ds = be_val payload /\
    EncodeBase58 data = map alphabet_at (repeat 0 n ++ rev ds).
Proof.
  intros Hw Hne. destruct (drop_zeros_val data Hw) as (_ & Hpw & Hh & Hlen & Ed).
  unfold EncodeBase58. set (n := leading_zeros data) in *. set (payload := drop n data) in *.
  destruct (digits_loop_spec (2 * length data) payload) as (Hd & Hc & Ev); [done..|by apply digits_fuel|].
  exists n, (digits_loop (2 * length data) payload), payload. split_and!; try done.
  rewrite map_app. assert (map alphabet_at (repeat 0 n) = repeat (alphabet_at 0) n) as ->.
  { clear. induction n; cbn [repeat map]; [done|by f_equal]. }
  destruct (repeat (alphabet_at 0) n ++ _) eqn:E; [|done]. exfalso.
  apply app_eq_nil in E as [E1 E2]. apply map_eq_nil in E2.
  assert (n = O) as Hn by (destruct n; [done|discriminate]).
  rewrite Hn in Ed. cbn in Ed.
  assert (be_val payload = 0) as Hz by (rewrite <- Ev, <- (rev_involutive (digits_loop _ _)), E2; done).
  pose proof (be_val_pos payload Hpw ltac:(congruence) Hh). lia.
Qed.

(** A string over the alphabet is the image of its digits. *)
Lemma alphabet_digits s : Forall (fun c => c ∈ BASE58_ALPHABET) s ->
  exists ds, Forall is_digit58 ds /\ s = map alphabet_at ds.
Proof.
  induction 1 as [|c s Hc _ (ds & Hds & ->)]; [by exists []|].
  apply list_elem_of_lookup_1 in Hc as [i Hi].
  assert (i < 58)%nat by (apply lookup_lt_Some in Hi; exact Hi).
  exists (Z.of_nat i :: ds). split; [apply Forall_cons_2; [unfold is_digit58; lia|done]|].
  cbn [map]. f_equal. unfold alphabet_at. rewrite Nat2Z.id. symmetry.
  by apply nth_lookup_Some with (d := Ascii.zero) in Hi.
Qed.

Lemma leading_zeros_split (l : list Z) : exists n l', l = repeat 0 n ++ l' /\ head l' <> Some 0.
Proof.
  induction l as [|x l (n & l' & -> & Hh)]; [by exists O, []|].
  destruct (decide (x = 0)) as [->|]; [by exists (S n), l'|].
  exists O, (x :: repeat 0 n ++ l'). split; [done|]. cbn. congruence.
Qed.

(** ** Base58Check payloads *)

Section Check.
Context {ossl : OpenSSL} {laws : OpenSSLLaws ossl}.

Lemma checksum_wf data : bytes_wf (take 4 (SHA256d_bytes data)) /\ length (take 4 (SHA256d_bytes data)) = 4%nat.
Proof.
  split; [apply Forall_take, EVP_sha256_bytes|]. rewrite length_take, length_SHA256d_bytes. done.
Qed.

(** A decoder that inverts [EncodeBase58] on the checked payload recovers it. *)
Lemma DecodeBase58Check_of data s :
  DecodeBase58 s = Ok (data ++ take 4 (SHA256d_bytes data)) -> DecodeBase58Check s = Ok data.
Proof.
  intros E. unfold DecodeBase58Check. rewrite E. cbn [mbind res_bind]. destruct (checksum_wf data) as [_ Hl].
  rewrite length_app, Hl. destruct (Z.ltb_spec (Z.of_nat (length data + 4)) 4); [lia|].
  replace (length data + 4 - 4)%nat with (length data) by lia.
  rewrite take_app_length, drop_app_length, take_take, bool_decide_true by done. done.
Qed.

Lemma DecodeBase58Check_inv s data : DecodeBase58Check s = Ok data ->
  DecodeBase58 s = Ok (data ++ take 4 (SHA256d_bytes data)).
Proof.
  intros H. unfold DecodeBase58Check in H. apply bind_Ok in H as (full & Hf & H). res_inv H.
  injection H as <-. rewrite Hf. f_equal. apply Z.ltb_ge in Hr.
  apply negb_false_iff, bool_decide_eq_true in Hr0. rewrite Hr0, (take_ge (drop _ full)).
  - by rewrite take_drop.
  - rewrite length_drop. lia.
Qed.

End Check.

Lemma base58_decode_encode data : bytes_wf data -> data <> [] -> DecodeBase58 (EncodeBase58 data) = Ok data.
Proof.
  intros Hw Hne.
  destruct (EncodeBase58_digits data Hw Hne) as (n & ds & p & -> & Hp & Hh & Hd & Hc & Ev & ->).
  by apply DecodeBase58_digits.
Qed.

Lemma base58_encode_decode s : Forall (fun c => c ∈ BASE58_ALPHABET) s -> s <> [] ->
  exists data, DecodeBase58 s = Ok data /\ bytes_wf data /\ EncodeBase58 data = s.
Proof.
  intros Hs Hne. destruct (alphabet_digits s Hs) as (ds & Hds & ->).
  destruct (leading_zeros_split ds) as (n & ds' & -> & Hh').
  apply Forall_app in Hds as [_ Hds'].
  destruct (decode_digits ds' []) as (b & _ & Hbw & Hbc & Hbv); [constructor|done|done|].
  cbn [val] in Hbv. rewrite Z.mul_0_r, Z.add_0_l in Hbv.
  exists (repeat 0 n ++ rev b).
  assert (bytes_wf (repeat 0 n ++ rev b)) as Hw.
  { apply Forall_app. split; [|by apply Forall_rev]. apply Forall_forall.
    intros x Hx%list_elem_of_In%repeat_spec. subst. u_range. }
  pose proof (canonical_rev_head b Hbc) as Hhb.
  assert (val 58 (rev ds') = be_val (rev b)) as Ev by (unfold be_val; by rewrite rev_involutive).
  split_and!; [|done|].
  + rewrite <- (rev_involutive ds'). apply DecodeBase58_digits; try done.
    * by apply Forall_rev. * by apply head_rev_canonical. * by apply Forall_rev.
  + destruct (EncodeBase58_digits (repeat 0 n ++ rev b) Hw) as (m & es & p & Ed & Hp & Hh & He & Hc & Ee & ->).
    { intros E. apply app_eq_nil in E as [E1 E2]. apply Hne. destruct n; [|done]. cbn [repeat app].
      assert (rev ds' = []) as E.
      { apply (val_zero 58); [lia|by apply Forall_rev|by apply head_rev_canonical|]. rewrite Ev, E2. done. }
      by rewrite <- (rev_involutive ds'), E. }
    pose proof (f_equal leading_zeros Ed) as Hn. rewrite !leading_zeros_app in Hn by done. subst m.
    apply app_inv_head in Ed. subst p. do 2 f_equal.
    rewrite <- (rev_involutive ds'). f_equal.
    apply (val_inj 58); [lia|done|by apply Forall_rev|done|by apply head_rev_canonical|congruence].
Qed.

Lemma base58check_roundtrip {ossl : OpenSSL} {laws : OpenSSLLaws ossl} data :
  bytes_wf data -> DecodeBase58Check (EncodeBase58Check data) = Ok data.
Proof.
  intros Hw. destruct (checksum_wf data) as [Hc Hl]. apply DecodeBase58Check_of, base58_decode_encode.
  - by apply Forall_app.
  - intros E%(f_equal length). rewrite length_app, Hl in E. cbn in E. lia.
Qed.

Lemma base58check_unique {ossl : OpenSSL} {laws : OpenSSLLaws ossl} s data :
  Forall (fun c => c ∈ BASE58_ALPHABET) s -> DecodeBase58Check s = Ok data ->
  bytes_wf data /\ EncodeBase58Check data = s.
Proof.
  intros Hs H%DecodeBase58Check_inv. destruct (decide (s = [])) as [->|Hne].
  { injection H as E%(f_equal length). rewrite length_app in E. destruct (checksum_wf data) as [_ Hl].
    rewrite Hl in E. cbn in E. lia. }
  destruct (base58_encode_decode s Hs Hne) as (d & Hd & Hw & He). rewrite Hd in H. injection H as ->.
  split; [by apply Forall_app in Hw as [? _]|done].
Qed.

Lemma DecodeAddress_of {ossl : OpenSSL} {laws : OpenSSLLaws ossl} h v :
  bytes_wf h -> length h = 20%nat -> is_u8 v -> DecodeAddress (Hash160ToAddress h v) = Some (v, h).
Proof.
  intros Hw Hl Hv. unfold DecodeAddress, Hash160ToAddress. rewrite take_ge by lia.
  rewrite base58check_roundtrip by (by apply Forall_cons_2). cbn [length nth skipn]. rewrite Hl, drop_0.
  change (negb (Z.of_nat 21 =? 21)) with false. cbv iota. by rewrite (take_ge h) by lia.
Qed.

(** The long forms of [ReadVarInt]: a prefix byte, [n] bytes and a tail. *)
Lemma read_varint_tail first n bs v rest :
  length bs = n -> le_read bs = v ->
  (first, n) = (0xfd, 2%nat) \/ (first, n) = (0xfe, 4%nat) \/ (first, n) = (0xff, 8%nat) ->
  ReadVarIntBuf ((first :: bs) ++ rest) = Some (v, Z.of_nat (S n)).
Proof.
  intros Hl <- H. unfold ReadVarIntBuf. cbn [app length nth skipn]. rewrite drop_0, length_app.
  destruct (Z.ltb_spec (Z.of_nat (S (length bs + length rest))) 1); [lia|].
  destruct H as [H|[H|H]]; injection H as -> Hn; rewrite Hn in Hl; subst n;
    [rewrite (take_app_length' bs rest 2) by done; change (0xfd <? 0xfd) with false; change (0xfd =? 0xfd) with true
    |rewrite (take_app_length' bs rest 4) by done; change (0xfe <? 0xfd) with false; change (0xfe =? 0xfd) with false; change (0xfe =? 0xfe) with true
    |rewrite (take_app_length' bs rest 8) by done; change (0xff <? 0xfd) with false; change (0xff =? 0xfd) with false; change (0xff =? 0xfe) with false];
    cbv iota; case_if; try done; rewrite Z.ltb_lt in *; lia.
Qed.

(** * Theorems *)

(** [DecodeBase58] and [EncodeBase58] are inverse: decoding the encoding
    of a non-empty byte string gives it back (leading zero bytes included, and
    whatever the length), and a non-empty string over the alphabet that decodes
    to some bytes is the encoding of those bytes, so no two strings stand for
    the same bytes. *)
Theorem base58_bijection :
  (forall data, bytes_wf data -> data <> [] -> DecodeBase58 (EncodeBase58 data) = Ok data) /\
  (forall s, Forall (fun c => c ∈ BASE58_ALPHABET) s -> s <> [] ->
     exists data, DecodeBase58 s = Ok data /\ bytes_wf data /\ EncodeBase58 data = s).
Proof.
  split; [exact base58_decode_encode|exact base58_encode_decode].
Qed.

Lemma base58_bijection_witness :
  DecodeBase58 (EncodeBase58 [0; 0; 1; 200; 7]) = Ok [0; 0; 1; 200; 7] /\
  exists data, DecodeBase58 (String.list_ascii_of_string "11zZ2") = Ok data /\ bytes_wf data /\
    EncodeBase58 data = String.list_ascii_of_string "11zZ2".
Proof.
  split; [apply (proj1 base58_bijection)|apply (proj2 base58_bijection)].
  - repeat (apply Forall_cons_2; [u_range|]). apply Forall_nil_2.
  - discriminate.
  - apply (bool_decide_unpack _). vm_compute. exact I.
  - discriminate.
Defined.

(** An address carries its version byte and key hash without loss:
    [DecodeAddress] of [Hash160ToAddress h v] is [(v, h)], and an address over
    the Base58 alphabet that decodes to [(v, h)] is the one [Hash160ToAddress]
    writes for them, so every destination has exactly one address. *)
Theorem address_bijection {ossl : OpenSSL} {laws : OpenSSLLaws ossl} :
  (forall h v, bytes_wf h -> length h = 20%nat -> is_u8 v -> DecodeAddress (Hash160ToAddress h v) = Some (v, h)) /\
  (forall a v h, Forall (fun c => c ∈ BASE58_ALPHABET) a -> DecodeAddress a = Some (v, h) -> Hash160ToAddress h v = a).
Proof.
  split; [apply DecodeAddress_of|].
  intros a v h Ha H. unfold DecodeAddress in H. destruct (DecodeBase58Check a) as [p|] eqn:E; [|done].
  apply base58check_unique in E as [Hw E]; [|done].
  destruct (Z.eqb_spec (Z.of_nat (length p)) 21) as [Hl|]; [|done]. injection H as <- <-.
  destruct p as [|x p]; [done|]. cbn [length nth skipn] in *. unfold Hash160ToAddress.
  rewrite drop_0, take_take, (take_ge p) by lia. done.
Qed.

Lemma address_bijection_witness :
  DecodeAddress (ossl := toy_ossl) (Hash160ToAddress (ossl := toy_ossl) (repeat 7 20) 28) = Some (28, repeat 7 20) /\
  Hash160ToAddress (ossl := toy_ossl) (repeat 7 20) 28 =
    String.list_ascii_of_string "CH73ifEGFt2YcUFD5zBp2z7fawePXJsBJX".
Proof.
  split; [apply (proj1 (address_bijection (laws := toy_ossl_laws)))|apply (proj2 (address_bijection (laws := toy_ossl_laws)))].
  - repeat (apply Forall_cons_2; [u_range|]). apply Forall_nil_2.
  - reflexivity.
  - u_range.
  - apply (bool_decide_unpack _). vm_compute. exact I.
  - vm_compute. reflexivity.
Defined.

(** A private key exported in WIF is imported unchanged, with the version
    byte of its network. *)
Theorem wif_roundtrip {ossl : OpenSSL} {laws : OpenSSLLaws ossl} priv v :
  bytes_wf priv -> length priv = 32%nat -> is_u8 v -> WIFToPrivKey (PrivKeyToWIF priv v) = Some (v, priv).
Proof.
  intros Hw Hl Hv. unfold WIFToPrivKey, PrivKeyToWIF. rewrite take_ge by lia.
  rewrite base58check_roundtrip.
  - cbn [length nth skipn]. rewrite drop_0, length_app, Hl. change (negb (Z.of_nat (S (32 + length [1])) =? 34)) with false. cbv iota.
    rewrite take_app_length' by lia. done.
  - apply Forall_cons_2; [done|]. apply Forall_app. split; [done|]. apply Forall_cons_2; [u_range|constructor].
Qed.

Lemma wif_roundtrip_witness :
  WIFToPrivKey (ossl := toy_ossl) (PrivKeyToWIF (ossl := toy_ossl) (repeat 9 32) 156) = Some (156, repeat 9 32).
Proof.
  apply (wif_roundtrip (laws := toy_ossl_laws)); [|reflexivity|u_range].
  repeat (apply Forall_cons_2; [u_range|]). apply Forall_nil_2.
Defined.

(** The buffer varint codec of [crypto/encoding.cpp]: [ReadVarInt] recovers
    every 64-bit value from what [WriteVarInt] wrote, whatever follows it, and
    returns its size, which [VarIntSize] predicts; the bytes are those of the
    serializer's [WriteVarInt]. *)
Theorem varint_buffer_roundtrip v rest :
  is_u64 v ->
  ReadVarIntBuf (WriteVarIntBuf v ++ rest) = Some (v, VarIntSize v) /\
  Z.of_nat (length (WriteVarIntBuf v)) = VarIntSize v /\ WriteVarIntBuf v = WriteVarInt v.
Proof.
  intros Hv. unfold WriteVarIntBuf, VarIntSize, WriteVarInt.
  destruct (Z.ltb_spec v 0xfd).
  { rewrite u8_id by u_range. unfold ReadVarIntBuf. cbn [app length nth]. destruct (Z.ltb_spec (Z.of_nat (S (length rest))) 1); [lia|].
    destruct (Z.ltb_spec v 0xfd); [done|lia]. }
  destruct (Z.leb_spec v 0xffff).
  { rewrite u16_id by u_range. split; [|done]. apply (read_varint_tail 0xfd 2); [apply length_le_bytes|by apply le_bytes_read_u16; u_range|tauto]. }
  destruct (Z.leb_spec v 0xffffffff).
  { rewrite u32_id by u_range. split; [|done]. apply (read_varint_tail 0xfe 4); [apply length_le_bytes|by apply le_bytes_read_u32; u_range|tauto]. }
  split; [|done]. apply (read_varint_tail 0xff 8); [apply length_le_bytes|by apply le_bytes_read_u64; u_range|tauto].
Qed.

Lemma varint_buffer_roundtrip_witness :
  ReadVarIntBuf (WriteVarIntBuf 70000 ++ [1; 2]) = Some (70000, 5).
Proof. apply (proj1 (varint_buffer_roundtrip 70000 [1; 2] ltac:(u_range))). Defined.

(** [base58Index] takes a NUL character for digit 58: [strchr] finds the
    terminator of the alphabet. *)
Example base58_accepts_nul : DecodeBase58 [Ascii.zero] = Ok [58].
Proof. reflexivity. Qed.
