(* ===== verification/Keys.v ===== *)
(** [crypto/keys.cpp] (the private-key half), [wallet/keypair.cpp] and
    [HMAC_SHA256] of [crypto/hash.cpp].

    The curve arithmetic and HMAC are OpenSSL's: they are the operations of
    [EcKeys], and [EcKeysLaws] states the documented behaviour the theorems
    use.  BIGNUMs are [Z]; [BN_bin2bn] and [BN_bn2binpad] are big-endian
    reading and writing.  The nonce derivation, the signature equation, low-S
    normalisation and the DER encoding are the repository's own code. *)
From Stdlib Require Import Ascii.
From S2P Require Import Prelude UInt256 Crypto Encoding.
Import Encoding.

(** * External primitives *)

Class EcKeys (ossl : OpenSSL) := {
  (** [HMAC(EVP_sha256(), key, msg)] *)
  HMAC : bytes -> bytes -> bytes;
  (** [EC_GROUP_get0_order] of secp256k1 *)
  group_order : Z;
  (** [EC_POINT_mul(group, r, n, q, m, ctx)]: [n*G + m*q], or [n*G] without [q] *)
  EC_POINT_mul : Z -> option (ec_point * Z) -> ec_point;
  (** the x coordinate [EC_POINT_get_affine_coordinates] returns; [None] at infinity *)
  affine_x : ec_point -> option Z;
  (** [EC_POINT_point2oct] in the compressed and the uncompressed form *)
  point2oct : bool -> ec_point -> bytes;
  (** [BN_mod_inverse(r, a, n, ctx)] *)
  BN_mod_inverse : Z -> Z -> Z;
  (** [ECDSA_SIG_get0] *)
  ECDSA_SIG_get : ecdsa_sig -> Z * Z
}.

(** [BN_bin2bn] and [BN_bn2binpad]. *)
Definition BN_bin2bn (b : bytes) : Z := be_val b.
Definition BN_bn2binpad (v : Z) (n : nat) : bytes := rev (le_bytes n v).

(** The DER encoding of a non-negative INTEGER body (the shortest big-endian
    two's complement form) and of the SEQUENCE of two of them. *)
Definition der_width (v : Z) : nat := Z.to_nat ((Z.log2 v + 1) / 8 + 1).
Definition der_int (v : Z) : bytes := BN_bn2binpad v (der_width v).
Definition der_sig (r s : Z) : bytes :=
  let body x := 0x02 :: Z.of_nat (length (der_int x)) :: der_int x in
  0x30 :: Z.of_nat (length (body r ++ body s)) :: body r ++ body s.

Class EcKeysLaws {ossl : OpenSSL} (ec : EcKeys ossl) : Prop := {
  HMAC_length k m : length (HMAC k m) = 32%nat;
  HMAC_bytes k m : bytes_wf (HMAC k m);
  order_range : 1 < group_order < 2 ^ 256;
  mod_inverse a : 0 < a < group_order -> (a * BN_mod_inverse a group_order) mod group_order = 1;
  (** multiples of the generator form a cyclic group of the given order *)
  mul_linear a b m : EC_POINT_mul a (Some (EC_POINT_mul b None, m)) = EC_POINT_mul (a + b * m) None;
  mul_cyclic a : EC_POINT_mul (a mod group_order) None = EC_POINT_mul a None;
  (** a point and its opposite share their x coordinate; only infinity has none *)
  affine_opp a : affine_x (EC_POINT_mul (- a) None) = affine_x (EC_POINT_mul a None);
  affine_finite a : a mod group_order <> 0 -> exists x, affine_x (EC_POINT_mul a None) = Some x /\ 0 <= x;
  oct_length a : a mod group_order <> 0 -> length (point2oct true (EC_POINT_mul a None)) = 33%nat;
  oct_wf a : bytes_wf (point2oct true (EC_POINT_mul a None));
  oct2point_point2oct a c : a mod group_order <> 0 ->
    EC_POINT_oct2point (point2oct c (EC_POINT_mul a None)) = Some (EC_POINT_mul a None);
  (** [d2i_ECDSA_SIG] reads one DER value and leaves what follows it *)
  d2i_der r s rest : 0 < r < 2 ^ 256 -> 0 < s < 2 ^ 256 ->
    exists sg, d2i_ECDSA_SIG (der_sig r s ++ rest) = Some sg /\ ECDSA_SIG_get sg = (r, s);
  (** the ECDSA verification equation for a 32-byte digest *)
  do_verify h sg q : length h = 32%nat ->
    ECDSA_do_verify h sg q = true <->
    let '(r, s) := ECDSA_SIG_get sg in
    let w := BN_mod_inverse s group_order in
    0 < r < group_order /\ 0 < s < group_order /\
    exists x, affine_x (EC_POINT_mul ((BN_bin2bn h * w) mod group_order)
                          (Some (q, (r * w) mod group_order))) = Some x /\ x mod group_order = r
}.

(** * Definitions *)

Definition SIGNATURE_DER_MAX_SIZE : Z := 72.

Section Keys.
Context {ossl : OpenSSL} {ec : EcKeys ossl}.

Definition HMAC_SHA256 (key msg : bytes) : bytes := HMAC key msg.

(** [CKey]: the scalar of [impl->priv] and the two flags; the public key of
    [impl->ec] is always the one of the scalar. *)
Record CKey := { ck_priv : Z; ck_compressed : bool; ck_valid : bool }.
#[export] Instance CKey_eq_dec : EqDecision CKey.
Proof. solve_decision. Defined.
Definition new_CKey : CKey := {| ck_priv := 0; ck_compressed := true; ck_valid := false |}.
(** The copy constructor and [operator=]. *)
Definition copy_CKey (k : CKey) : CKey :=
  {| ck_priv := if ck_valid k then ck_priv k else 0; ck_compressed := ck_compressed k; ck_valid := ck_valid k |}.
Definition SetCompressed (k : CKey) (c : bool) : CKey :=
  {| ck_priv := ck_priv k; ck_compressed := c; ck_valid := ck_valid k |}.

(** Returns false and leaves the key as it was for a scalar out of range. *)
Definition SetPrivKey (k : CKey) (p : bytes) : bool * CKey :=
  if negb (length p =? 32)%nat then (false, k)
  else
    let bn := BN_bin2bn p in
    if (bn =? 0) || (bn >=? group_order) then (false, k)
    else (true, {| ck_priv := bn; ck_compressed := ck_compressed k; ck_valid := true |}).

(** [rand i] is what the [i]-th call of [RAND_bytes] returns. *)
Fixpoint generate_loop (attempts : nat) (rand : nat -> option bytes) (i : nat) : res CKey :=
  match attempts with
  | O => Err "failed to generate valid private key"
  | S n =>
      match rand i with
      | None => Err "RAND_bytes failed"
      | Some buf =>
          let '(ok, k) := SetPrivKey new_CKey buf in
          if ok : bool then Ok k else generate_loop n rand (S i)
      end
  end.
Definition GenerateKey (rand : nat -> option bytes) : res CKey := generate_loop 128 rand 0.

Definition GetPrivKey (k : CKey) : bytes :=
  if negb (ck_valid k) then repeat 0 32 else BN_bn2binpad (ck_priv k) 32.
Definition public_point (k : CKey) : ec_point := EC_POINT_mul (ck_priv k) None.
Definition GetPubKeyCompressed (k : CKey) : option bytes :=
  if negb (ck_valid k) then None
  else let out := point2oct true (public_point k) in
       if (length out =? 33)%nat then Some out else None.
Definition GetPubKeyUncompressed (k : CKey) : option bytes :=
  if negb (ck_valid k) then None
  else let out := point2oct false (public_point k) in
       if (length out =? 65)%nat then Some out else None.

Definition CompressPubKey (pubkey65 : bytes) : option bytes :=
  if negb (length pubkey65 =? 65)%nat then None
  else match EC_POINT_oct2point pubkey65 with
       | Some p => if (length (point2oct true p) =? 33)%nat then Some (point2oct true p) else None
       | None => None
       end.
Definition DecompressPubKey (pubkey33 : bytes) : option bytes :=
  if negb (length pubkey33 =? 33)%nat then None
  else match EC_POINT_oct2point pubkey33 with
       | Some p => if (length (point2oct false p) =? 65)%nat then Some (point2oct false p) else None
       | None => None
       end.

(** ** Deterministic nonce *)

(** The loop of [RFC6979_GenerateK]; [None] when the fuel runs out. *)
Fixpoint nonce_k_loop (fuel : nat) (order : Z) (K V : bytes) : option Z :=
  match fuel with
  | O => None
  | S n =>
      let V := HMAC_SHA256 K V in
      let kbn := BN_bin2bn V in
      if negb (kbn =? 0) && (kbn <? order) then Some kbn
      else
        let K := HMAC_SHA256 K (0x00 :: V) in
        let V := HMAC_SHA256 K V in
        nonce_k_loop n order K V
  end.
Definition RFC6979_GenerateK (fuel : nat) (priv32 hash32 : bytes) (order : Z) : option Z :=
  let V := repeat 0x01 32 in
  let K := repeat 0x00 32 in
  let K := HMAC_SHA256 K (0x00 :: priv32 ++ hash32) in
  let V := HMAC_SHA256 K V in
  let K := HMAC_SHA256 K (0x01 :: priv32 ++ hash32) in
  let V := HMAC_SHA256 K V in
  nonce_k_loop fuel order K V.

(** ** Signing *)

(** [while (start < len - 1 && b[start] == 0 && (b[start + 1] & 0x80) == 0) ++start]
    and the rest of the array from [start]. *)
Fixpoint der_trim (b : bytes) : bytes :=
  match b with
  | x :: ((y :: _) as r) => if (x =? 0) && (Z.land y 0x80 =? 0) then der_trim r else b
  | _ => b
  end.
Definition high_bit (b : bytes) : bool := negb (Z.land (nth 0 b 0) 0x80 =? 0).
(** One INTEGER: the tag, the length and the bytes, with the leading zero the
    code adds when the first byte has its high bit set. *)
Definition der_integer (b : bytes) : bytes :=
  0x02 :: (if high_bit b then [u8 (Z.of_nat (length b) + 1); 0x00] else [u8 (Z.of_nat (length b))]) ++ b.
(** [None]: the encoding would be longer than the buffer. *)
Definition encode_der (r s : Z) : option bytes :=
  let rb := der_trim (BN_bn2binpad r 33) in
  let sb := der_trim (BN_bn2binpad s 33) in
  let total := 2 + 2 + Z.of_nat (length rb) + 2 + Z.of_nat (length sb)
               + (if high_bit rb then 1 else 0) + (if high_bit sb then 1 else 0) in
  if total >? SIGNATURE_DER_MAX_SIZE then None
  else Some (0x30 :: u8 (total - 2) :: der_integer rb ++ der_integer sb).

(** What one round of the [do] loop of [Sign] ends with. *)
Inductive sign_step :=
| SignOk (sig : bytes)
| SignBreak
| SignContinue.

(** One round for the nonce [k]. *)
Definition sign_round (d : Z) (hash32 : bytes) (order k : Z) : sign_step :=
  match affine_x (EC_POINT_mul k None) with
  | None => SignBreak
  | Some Rx =>
      let r := Rx mod order in
      if r =? 0 then SignContinue
      else
        let z := BN_bin2bn hash32 mod order in
        let invk := BN_mod_inverse k order in
        let s := (r * d) mod order in
        let s := (s + z) mod order in
        let s := (s * invk) mod order in
        if s =? 0 then SignContinue
        else
          let halfOrder := Z.shiftr order 1 in
          let s := if s >? halfOrder then order - s else s in
          match encode_der r s with
          | None => SignBreak
          | Some sig => SignOk sig
          end
  end.

(** [continue] in the [do ... while (!ok)] loop goes round again with the same
    inputs; [None] when the fuel for the rounds or for the nonce runs out. *)
Fixpoint sign_loop (rounds nfuel : nat) (k : CKey) (hash32 : bytes) : option (option bytes) :=
  match rounds with
  | O => None
  | S n =>
      match RFC6979_GenerateK nfuel (GetPrivKey k) hash32 group_order with
      | None => None
      | Some nonce =>
          match sign_round (ck_priv k) hash32 group_order nonce with
          | SignOk sig => Some (Some sig)
          | SignBreak => Some None
          | SignContinue => sign_loop n nfuel k hash32
          end
      end
  end.
(** [Some None]: the call returns false. *)
Definition Sign (fuel : nat) (k : CKey) (hash32 : bytes) : option (option bytes) :=
  if negb (ck_valid k) || negb (length hash32 =? 32)%nat then Some None
  else sign_loop fuel fuel k hash32.

(** ** Key pairs *)

Record CKeyPair := {
  kp_key : CKey; kp_pubkey : bytes; kp_pubkeyLen : Z; kp_address : list ascii; kp_hash160 : bytes }.
Definition new_keypair : CKeyPair := {|
  kp_key := new_CKey; kp_pubkey := repeat 0 33; kp_pubkeyLen := 0; kp_address := []; kp_hash160 := repeat 0 20 |}.
(** The tail [Generate] and [FromPrivKey] share. *)
Definition keypair_of (k : CKey) (versionByte : Z) : CKeyPair :=
  let k := SetCompressed k true in
  let pubkey := default (repeat 0 33) (GetPubKeyCompressed k) in
  let hash160 := HASH160 pubkey in
  {| kp_key := k; kp_pubkey := pubkey; kp_pubkeyLen := 33;
     kp_address := Hash160ToAddress hash160 versionByte; kp_hash160 := hash160 |}.
Definition GenerateKeyPair (rand : nat -> option bytes) (versionByte : Z) : res CKeyPair :=
  k ← GenerateKey rand; Ok (keypair_of k versionByte).
Definition FromPrivKey (priv : bytes) (versionByte : Z) : CKeyPair :=
  let '(ok, k) := SetPrivKey new_CKey priv in
  if ok : bool then keypair_of k versionByte else new_keypair.
Definition kp_IsValid (kp : CKeyPair) : bool := ck_valid (kp_key kp).
Definition GetWIF (kp : CKeyPair) (versionByte : Z) : list ascii := PrivKeyToWIF (GetPrivKey (kp_key kp)) versionByte.

End Keys.

(** * Lemmas *)

(** ** Big-endian numbers *)

Lemma val_le_read l : bytes_wf l -> val 256 l = le_read l.
Proof. induction 1 as [|b l Hb Hl IH]; [done|]. rewrite le_read_cons by done. cbn [val]. rewrite IH. lia. Qed.

Lemma be_val_le_read b : bytes_wf b -> be_val b = le_read (rev b).
Proof. intros. by apply val_le_read, Forall_rev. Qed.

Lemma length_bn2binpad v n : length (BN_bn2binpad v n) = n.
Proof. unfold BN_bn2binpad. by rewrite length_rev, length_le_bytes. Qed.

Lemma bn2binpad_wf v n : bytes_wf (BN_bn2binpad v n).
Proof. apply Forall_rev, le_bytes_wf. Qed.

Lemma bin2bn_bn2binpad v n : 0 <= v < 256 ^ Z.of_nat n -> BN_bin2bn (BN_bn2binpad v n) = v.
Proof.
  intros Hv. unfold BN_bin2bn, BN_bn2binpad. rewrite be_val_le_read by apply bn2binpad_wf. rewrite rev_involutive, le_read_bytes.
  rewrite Z.pow_mul_r by lia. by apply Z.mod_small.
Qed.

Lemma bn2binpad_bin2bn b : bytes_wf b -> BN_bn2binpad (BN_bin2bn b) (length b) = b.
Proof.
  intros Hb. unfold BN_bin2bn, BN_bn2binpad. rewrite be_val_le_read by done.
  rewrite <- (length_rev b), le_bytes_read by by apply Forall_rev. apply rev_involutive.
Qed.

(** ** DER integers *)

Lemma land_high_bit y : is_u8 y -> (Z.land y 0x80 =? 0) = (y <? 128).
Proof.
  intros Hy.
  assert (H : forallb (fun n => Bool.eqb (Z.land (Z.of_nat n) 0x80 =? 0) (Z.of_nat n <? 128)) (seq 0 256) = true)
    by (vm_compute; reflexivity).
  rewrite forallb_forall in H. specialize (H (Z.to_nat y)). rewrite Z2Nat.id in H by u_range.
  apply Bool.eqb_prop, H, in_seq. u_range.
Qed.

Lemma pow256 n : 0 <= n -> 256 ^ n = 2 ^ (8 * n).
Proof. intros. by rewrite Z.pow_mul_r by lia. Qed.

(** A number of [8 * k + j] bits, [0 <= j <= 7], takes [k + 1] bytes. *)
Lemma der_width_eq v k : 0 < v -> 0 <= k -> 2 ^ (8 * k - 1) <= v -> v < 2 ^ (8 * k + 7) ->
  der_width v = Z.to_nat (k + 1).
Proof.
  intros Hv Hk Hlo Hhi. unfold der_width. f_equal.
  assert (8 * k - 1 <= Z.log2 v) by (apply Z.log2_le_pow2 in Hlo; lia).
  assert (Z.log2 v < 8 * k + 7) by (apply Z.log2_lt_pow2 in Hhi; lia).
  u_divmod; lia.
Qed.

(** The trimming loop of [Sign] leaves the shortest encoding. *)
Lemma der_trim_int l : bytes_wf l -> 0 < be_val l -> head l <> None -> nth 0 l 0 < 128 ->
  der_trim l = der_int (be_val l).
Proof.
  induction l as [|x r IH]; intros Hw Hv Hh Hx; [done|]. clear Hh.
  assert (Hfull : der_width (be_val (x :: r)) = length (x :: r) -> x :: r = der_int (be_val (x :: r))).
  { intros E. unfold der_int. rewrite E. symmetry. by apply bn2binpad_bin2bn. }
  apply Forall_cons in Hw as Hw'. destruct Hw' as [Hx8 Hr]. cbn [nth] in Hx.
  pose proof (be_val_bound r Hr) as Hrb. rewrite be_val_cons in Hv. pose proof Hx8 as Hx8'. unfold is_u8 in Hx8'.
  assert (Hpow : 0 < 256 ^ Z.of_nat (length r)) by (apply Z.pow_pos_nonneg; lia).
  assert (H2 : 2 ^ (8 * Z.of_nat (length r)) = 256 ^ Z.of_nat (length r)) by (symmetry; apply pow256; lia).
  assert (H7 : 2 ^ (8 * Z.of_nat (length r) + 7) = 128 * 256 ^ Z.of_nat (length r))
    by (rewrite Z.pow_add_r by lia; lia).
  assert (Hwide : 2 ^ (8 * Z.of_nat (length r) - 1) <= x * 256 ^ Z.of_nat (length r) + be_val r ->
                  x :: r = der_int (be_val (x :: r))).
  { intros Hlo. apply Hfull. rewrite be_val_cons.
    rewrite (der_width_eq _ (Z.of_nat (length r))) by (rewrite ?H7; nia). cbn [length]. lia. }
  destruct r as [|y r]; [apply Hwide; cbn in *; lia|].
  cbn [der_trim]. fold (der_trim (y :: r)). apply Forall_cons in Hr as Hr'. destruct Hr' as [Hy8 Hr'].
  rewrite land_high_bit by done.
  destruct (Z.eqb_spec x 0) as [->|Hx0]; cbn [andb].
  - destruct (Z.ltb_spec y 128).
    + rewrite be_val_cons, Z.mul_0_l, Z.add_0_l. by apply IH.
    + apply Hwide. pose proof (be_val_bound r Hr'). rewrite be_val_cons in Hv |- *. cbn [length] in *.
      rewrite Nat2Z.inj_succ in *. replace (8 * Z.succ (Z.of_nat (length r)) - 1) with (8 * Z.of_nat (length r) + 7) by lia.
      rewrite Z.pow_add_r, <- pow256 by lia. nia.
  - apply Hwide. assert (2 ^ (8 * Z.of_nat (length (y :: r)) - 1) <= 2 ^ (8 * Z.of_nat (length (y :: r))))
      by (apply Z.pow_le_mono_r; lia). nia.
Qed.

Lemma der_trim_pad v : 0 < v < 2 ^ 256 -> der_trim (BN_bn2binpad v 33) = der_int v.
Proof.
  intros Hv. assert (Hp : 0 <= v < 256 ^ Z.of_nat 33).
  { split; [lia|]. change (256 ^ Z.of_nat 33) with (256 * 2 ^ 256). lia. }
  pose proof (bin2bn_bn2binpad v 33 Hp) as Ev. unfold BN_bin2bn in Ev.
  rewrite der_trim_int; [by rewrite Ev|apply bn2binpad_wf|lia| |].
  - intros Hn. pose proof (length_bn2binpad v 33) as Hl. by destruct (BN_bn2binpad v 33).
  - pose proof (length_bn2binpad v 33) as Hl. pose proof (bn2binpad_wf v 33) as Hw.
    destruct (BN_bn2binpad v 33) as [|x r]; [done|]. cbn [nth]. apply Forall_cons in Hw as [Hx Hr].
    rewrite be_val_cons in Ev. pose proof (be_val_bound r Hr). cbn [length] in Hl. injection Hl as Hl. rewrite Hl in *.
    change (256 ^ Z.of_nat 32) with (2 ^ 256) in *. unfold is_u8 in Hx. nia.
Qed.

Lemma der_int_head v : 0 < v < 2 ^ 256 -> nth 0 (der_int v) 0 < 128 /\ (1 <= length (der_int v) <= 33)%nat.
Proof.
  intros Hv. unfold der_int. rewrite length_bn2binpad.
  assert (Hlog : 0 <= Z.log2 v < 256).
  { split; [apply Z.log2_nonneg|]. apply Z.log2_lt_pow2; lia. }
  assert (Hk : 1 <= Z.of_nat (der_width v) <= 33) by (unfold der_width; rewrite Z2Nat.id; u_divmod).
  split; [|lia]. assert (Hb : v < 2 ^ (8 * Z.of_nat (der_width v) - 1)).
  { apply Z.log2_lt_pow2; [lia|]. unfold der_width. rewrite Z2Nat.id by u_divmod. u_divmod. }
  pose proof (length_bn2binpad v (der_width v)) as Hl. pose proof (bn2binpad_wf v (der_width v)) as Hw.
  assert (Hp : 0 <= v < 256 ^ Z.of_nat (der_width v)).
  { split; [lia|]. rewrite pow256 by lia. eapply Z.lt_le_trans; [exact Hb|]. apply Z.pow_le_mono_r; lia. }
  pose proof (bin2bn_bn2binpad v _ Hp) as Ev. unfold BN_bin2bn in Ev.
  destruct (BN_bn2binpad v (der_width v)) as [|x r]; [cbn in *; lia|]. cbn [nth].
  apply Forall_cons in Hw as [Hx Hr]. rewrite be_val_cons in Ev. pose proof (be_val_bound r Hr) as Hrb.
  cbn [length] in Hl. rewrite <- Hl in Hb. rewrite pow256 in Ev, Hrb by lia.
  replace (8 * Z.of_nat (S (length r)) - 1) with (8 * Z.of_nat (length r) + 7) in Hb by lia.
  rewrite Z.pow_add_r in Hb by lia. change (2 ^ 7) with 128 in Hb. nia.
Qed.

(** A number of at most 255 bits takes at most 32 bytes. *)
Lemma der_int_low v : 0 < v < 2 ^ 255 -> (length (der_int v) <= 32)%nat.
Proof.
  intros Hv. unfold der_int. rewrite length_bn2binpad. assert (0 <= Z.log2 v < 255).
  { split; [apply Z.log2_nonneg|]. apply Z.log2_lt_pow2; lia. }
  unfold der_width. assert ((Z.log2 v + 1) / 8 + 1 <= 32) by u_divmod. lia.
Qed.

Lemma der_integer_int v : 0 < v < 2 ^ 256 ->
  high_bit (der_int v) = false /\ der_integer (der_int v) = 0x02 :: Z.of_nat (length (der_int v)) :: der_int v.
Proof.
  intros Hv. destruct (der_int_head v Hv) as [Hh Hl]. assert (Hb : high_bit (der_int v) = false).
  { unfold high_bit. rewrite land_high_bit; [apply Z.ltb_lt in Hh as ->; done|].
    pose proof (bn2binpad_wf v (der_width v)) as Hw. fold (der_int v) in Hw.
    destruct (der_int v); [cbn in *; lia|]. by apply Forall_cons in Hw as [? _]. }
  split; [done|]. unfold der_integer. rewrite Hb. rewrite u8_id by u_range. done.
Qed.

(** The encoder of [Sign] is DER and fits the buffer. *)
Lemma encode_der_spec r s : 0 < r < 2 ^ 256 -> 0 < s < 2 ^ 255 ->
  encode_der r s = Some (der_sig r s) /\ (8 <= length (der_sig r s) <= 71)%nat.
Proof.
  intros Hr Hs. assert (Hs' : 0 < s < 2 ^ 256) by lia.
  destruct (der_integer_int r Hr) as [Hhr Er], (der_integer_int s Hs') as [Hhs Es].
  destruct (der_int_head r Hr) as [_ Lr], (der_int_head s Hs') as [_ Ls]. pose proof (der_int_low s Hs) as Ls'.
  unfold encode_der. rewrite !der_trim_pad by done. rewrite Hhr, Hhs, Er, Es. cbn zeta.
  destruct (Z.gtb_spec (2 + 2 + Z.of_nat (length (der_int r)) + 2 + Z.of_nat (length (der_int s)) + 0 + 0) SIGNATURE_DER_MAX_SIZE) as [H|H];
    [unfold SIGNATURE_DER_MAX_SIZE in H; lia|].
  split; [|unfold der_sig; cbn [length]; rewrite length_app; cbn [length]; lia].
  f_equal. unfold der_sig. f_equal. f_equal. rewrite u8_id by u_range. rewrite length_app. cbn [length]. lia.
Qed.

(** ** The signature equation *)

(** With [s0 = (r * d + z) / k] and [w] the inverse of [s0] or of its opposite,
    the verifier's scalar is [k] or its opposite. *)
Lemma ecdsa_scalar n k ik d z r s w : 1 < n -> (k * ik) mod n = 1 -> (s * w) mod n = 1 ->
  let s0 := (((r * d) mod n + z mod n) mod n * ik) mod n in
  let u := (z * w) mod n + d * ((r * w) mod n) in
  (s = s0 -> u mod n = k mod n) /\ (s = n - s0 -> u mod n = (- k) mod n).
Proof.
  intros Hn Hk Hw s0 u. rewrite Z.mod_eq in Hk, Hw by lia.
  set (q1 := k * ik / n) in Hk. set (q2 := s * w / n) in Hw. set (m := r * d + z).
  assert (Es : exists q, s0 = m * ik - n * q).
  { unfold s0, m. rewrite (Z.mod_eq (r * d)), (Z.mod_eq z) by lia.
    set (a := r * d / n). set (b := z / n). rewrite (Z.mod_eq (r * d - n * a + _)) by lia.
    set (c := _ / n). rewrite Z.mod_eq by lia. set (e := _ / n).
    exists ((a + b + c) * ik + e). ring. }
  assert (Eu : exists q, u = m * w - n * q).
  { unfold u, m. rewrite !Z.mod_eq by lia. exists (z * w / n + d * (r * w / n)). ring. }
  destruct Es as [q3 Es], Eu as [q4 Eu].
  pose proof (f_equal (Z.mul k) Hw). pose proof (f_equal (Z.mul (w * m)) Hk). pose proof (f_equal (Z.mul (w * k)) Es).
  split; intros E.
  - replace u with (k + (k * q2 + w * k * q3 - w * q1 * m - q4) * n); [by rewrite Z.mod_add by lia|]. rewrite <- E in *. lia.
  - replace u with (- k + (w * k - k * q2 + w * k * q3 - w * q1 * m - q4) * n); [by rewrite Z.mod_add by lia|]. replace s0 with (n - s) in * by lia. lia.
Qed.

Section KeyFacts.
Context {ossl : OpenSSL} {ec : EcKeys ossl} {laws : EcKeysLaws ec}.

(** A key that [SetPrivKey] accepted. *)
Definition key_ok (k : CKey) : Prop := ck_valid k = true /\ 0 < ck_priv k < group_order.

Lemma SetPrivKey_true k p k' : bytes_wf p -> SetPrivKey k p = (true, k') ->
  length p = 32%nat /\ ck_priv k' = BN_bin2bn p /\ key_ok k'.
Proof.
  intros Hw. unfold SetPrivKey. destruct (Nat.eqb_spec (length p) 32) as [Hl|]; cbn [negb]; [|done].
  pose proof (be_val_bound p Hw). fold (BN_bin2bn p) in *.
  destruct (Z.eqb_spec (BN_bin2bn p) 0); cbn [orb]; [done|].
  destruct (Z.geb_spec (BN_bin2bn p) group_order); [done|]. intros [= <-]. split; [done|].
  split; [done|]. split; [done|]. cbn [ck_priv]. lia.
Qed.

Lemma SetPrivKey_range k p : length p = 32%nat -> 0 < BN_bin2bn p < group_order ->
  SetPrivKey k p = (true, {| ck_priv := BN_bin2bn p; ck_compressed := ck_compressed k; ck_valid := true |}).
Proof.
  intros Hl Hr. unfold SetPrivKey. rewrite Hl. cbn [Nat.eqb negb].
  rewrite (proj2 (Z.eqb_neq _ _)) by lia. destruct (Z.geb_spec (BN_bin2bn p) group_order); [lia|]. done.
Qed.

Lemma GetPrivKey_wf k : length (GetPrivKey k) = 32%nat /\ bytes_wf (GetPrivKey k).
Proof.
  unfold GetPrivKey. destruct (ck_valid k); cbn [negb].
  - split; [apply length_bn2binpad|apply bn2binpad_wf].
  - split; [done|]. by repeat constructor.
Qed.

Lemma bin2bn_GetPrivKey k : key_ok k -> BN_bin2bn (GetPrivKey k) = ck_priv k.
Proof.
  intros [Hv Hr]. unfold GetPrivKey. rewrite Hv. cbn [negb]. apply bin2bn_bn2binpad.
  pose proof order_range. change (256 ^ Z.of_nat 32) with (2 ^ 256). lia.
Qed.

(** A key survives being exported and read back. *)
Lemma SetPrivKey_GetPrivKey k0 k : key_ok k ->
  SetPrivKey k0 (GetPrivKey k) = (true, {| ck_priv := ck_priv k; ck_compressed := ck_compressed k0; ck_valid := true |}).
Proof.
  intros Hk. rewrite SetPrivKey_range; [by rewrite bin2bn_GetPrivKey|apply GetPrivKey_wf|].
  rewrite bin2bn_GetPrivKey by done. apply Hk.
Qed.

Lemma key_ok_nonzero k : key_ok k -> ck_priv k mod group_order <> 0.
Proof. intros [_ Hr]. rewrite Z.mod_small; lia. Qed.

Lemma GetPubKeyCompressed_ok k : key_ok k ->
  GetPubKeyCompressed k = Some (point2oct true (public_point k)) /\
  length (point2oct true (public_point k)) = 33%nat.
Proof.
  intros Hk. pose proof (oct_length _ (key_ok_nonzero k Hk)) as Hl. fold (public_point k) in Hl.
  unfold GetPubKeyCompressed. destruct Hk as [-> _]. cbn [negb]. by rewrite Hl.
Qed.

(** ** Nonce *)

Lemma nonce_k_range f : forall K V k, nonce_k_loop f group_order K V = Some k -> 0 < k < group_order.
Proof.
  induction f as [|f IH]; intros K V k; cbn [nonce_k_loop]; [done|]. unfold HMAC_SHA256.
  destruct (Z.eqb_spec (BN_bin2bn (HMAC K V)) 0); cbn [negb andb]; [apply IH|].
  destruct (Z.ltb_spec (BN_bin2bn (HMAC K V)) group_order); [|apply IH]. intros [= <-].
  pose proof (be_val_bound (HMAC K V) (HMAC_bytes _ _)). unfold BN_bin2bn in *. lia.
Qed.

Lemma nonce_k_mono f : forall g K V k, (f <= g)%nat -> nonce_k_loop f group_order K V = Some k -> nonce_k_loop g group_order K V = Some k.
Proof.
  induction f as [|f IH]; intros g K V k Hg; [done|]. destruct g as [|g]; [lia|]. cbn [nonce_k_loop].
  case_if; [done|]. apply IH. lia.
Qed.

(** ** One signing round *)

(** The signature [(r, s)] the code computes for the nonce [k]. *)
Definition sig_r (k : Z) : Z := from_option (fun x => x mod group_order) 0 (affine_x (EC_POINT_mul k None)).
Definition sig_s0 (d : Z) (h : bytes) (k : Z) : Z :=
  (((sig_r k * d) mod group_order + BN_bin2bn h mod group_order) mod group_order * BN_mod_inverse k group_order) mod group_order.
Definition low_s (s : Z) : Z := if s >? group_order / 2 then group_order - s else s.

Lemma sig_s0_range d h k : 0 <= sig_s0 d h k < group_order.
Proof. pose proof order_range. apply Z.mod_pos_bound. lia. Qed.

Lemma low_s_range s : 0 < s < group_order -> 0 < low_s s <= group_order / 2.
Proof.
  intros Hs. unfold low_s. pose proof order_range. destruct (Z.gtb_spec s (group_order / 2)); [|lia].
  split; [lia|]. Z.to_euclidean_division_equations; lia.
Qed.

Lemma sign_round_spec d h k : 0 < k < group_order ->
  sign_round d h group_order k =
    if (sig_r k =? 0) || (sig_s0 d h k =? 0) then SignContinue
    else SignOk (der_sig (sig_r k) (low_s (sig_s0 d h k))).
Proof.
  intros Hk. pose proof order_range as Hn.
  destruct (affine_finite k) as (x & Hx & Hx0); [rewrite Z.mod_small; lia|].
  assert (Er : sig_r k = x mod group_order) by (unfold sig_r; by rewrite Hx).
  unfold sign_round. rewrite Hx. cbv zeta. rewrite <- Er.
  assert (Hrb : 0 <= x mod group_order < group_order) by (apply Z.mod_pos_bound; lia). rewrite <- Er in Hrb.
  destruct (Z.eqb_spec (sig_r k) 0); cbn [orb]; [done|].
  fold (sig_s0 d h k). pose proof (sig_s0_range d h k).
  destruct (Z.eqb_spec (sig_s0 d h k) 0); [done|].
  rewrite Z.shiftr_div_pow2 by lia. change (2 ^ 1) with 2. fold (low_s (sig_s0 d h k)).
  pose proof (low_s_range (sig_s0 d h k) ltac:(lia)) as Hls.
  assert (group_order / 2 < 2 ^ 255) by (apply Z.div_lt_upper_bound; lia).
  destruct (encode_der_spec (sig_r k) (low_s (sig_s0 d h k))) as [-> _]; [lia|lia|done].
Qed.

(** The signature of a round verifies under the public key of [d]. *)
Lemma round_verifies d h k : 0 < d < group_order -> 0 < k < group_order -> length h = 32%nat -> sig_r k <> 0 -> sig_s0 d h k <> 0 ->
  let s := low_s (sig_s0 d h k) in let w := BN_mod_inverse s group_order in
  exists x, affine_x (EC_POINT_mul ((BN_bin2bn h * w) mod group_order) (Some (EC_POINT_mul d None, (sig_r k * w) mod group_order))) = Some x /\
  x mod group_order = sig_r k.
Proof.
  intros Hd Hk Hh Hr Hs s w. pose proof order_range as Hn. pose proof (sig_s0_range d h k) as Hs0.
  pose proof (low_s_range (sig_s0 d h k) ltac:(lia)) as Hls. fold s in Hls.
  assert (group_order / 2 < group_order) by (apply Z.div_lt; lia).
  assert (Hw : (s * w) mod group_order = 1) by (apply mod_inverse; lia).
  assert (Hik : (k * BN_mod_inverse k group_order) mod group_order = 1) by (apply mod_inverse; lia).
  assert (H1 : 1 < group_order) by lia.
  destruct (ecdsa_scalar group_order k _ d (BN_bin2bn h) (sig_r k) s w H1 Hik Hw) as [Hpos Hneg].
  fold (sig_s0 d h k) in Hpos, Hneg. rewrite mul_linear, <- mul_cyclic.
  destruct (affine_finite k) as (x & Hx & _); [rewrite Z.mod_small; lia|]. exists x.
  split; [|unfold sig_r; by rewrite Hx].
  assert (s = sig_s0 d h k \/ s = group_order - sig_s0 d h k) as [E|E]
    by (unfold s, low_s; destruct (Z.gtb_spec (sig_s0 d h k) (group_order / 2)); lia).
  - rewrite (Hpos E), mul_cyclic. done.
  - rewrite (Hneg E), mul_cyclic, affine_opp. done.
Qed.

(** ** The signing loop *)

Lemma sign_loop_result rounds nf k h nonce :
  RFC6979_GenerateK nf (GetPrivKey k) h group_order = Some nonce -> 0 < nonce < group_order ->
  sign_loop (S rounds) nf k h =
    if (sig_r nonce =? 0) || (sig_s0 (ck_priv k) h nonce =? 0) then None
    else Some (Some (der_sig (sig_r nonce) (low_s (sig_s0 (ck_priv k) h nonce)))).
Proof.
  intros HK Hn. induction rounds as [|rounds IH]; [cbn [sign_loop]; rewrite HK, sign_round_spec by done; by case_if|].
  remember (S rounds) as m. cbn [sign_loop]. rewrite HK, sign_round_spec by done.
  destruct (_ || _); done.
Qed.

Lemma generate_k_range nf p h k : RFC6979_GenerateK nf p h group_order = Some k -> 0 < k < group_order.
Proof. apply nonce_k_range. Qed.

Lemma generate_k_mono f g p h k : (f <= g)%nat -> RFC6979_GenerateK f p h group_order = Some k ->
  RFC6979_GenerateK g p h group_order = Some k.
Proof. unfold RFC6979_GenerateK. apply nonce_k_mono. Qed.

(** What a call of [Sign] returns on a valid key. *)
Lemma Sign_result fuel k h : key_ok k -> length h = 32%nat -> (0 < fuel)%nat ->
  Sign fuel k h =
    match RFC6979_GenerateK fuel (GetPrivKey k) h group_order with
    | None => None
    | Some nonce =>
        if (sig_r nonce =? 0) || (sig_s0 (ck_priv k) h nonce =? 0) then None
        else Some (Some (der_sig (sig_r nonce) (low_s (sig_s0 (ck_priv k) h nonce))))
    end.
Proof.
  intros [Hv Hr] Hh Hf. unfold Sign. rewrite Hv, Hh. cbn [negb orb Nat.eqb].
  destruct (RFC6979_GenerateK fuel (GetPrivKey k) h group_order) as [nonce|] eqn:HK.
  - destruct fuel as [|fuel]; [lia|]. apply sign_loop_result; [done|]. by eapply generate_k_range.
  - destruct fuel; [done|]. cbn [sign_loop]. by rewrite HK.
Qed.

(** Every signature of a valid key is a strict DER encoding with a low [s] and
    is accepted for the digest and the key's compressed public key, whatever
    bytes follow it. *)
Definition good_signature (k : CKey) (h sig : bytes) : Prop :=
  (exists r s, sig = der_sig r s /\ 0 < r < group_order /\ 0 < s <= group_order / 2) /\
  (8 <= length sig <= 71)%nat /\
  forall rest, VerifySignature h (sig ++ rest) (point2oct true (public_point k)) = true.

Lemma round_good k h nonce : key_ok k -> length h = 32%nat -> 0 < nonce < group_order ->
  sig_r nonce <> 0 -> sig_s0 (ck_priv k) h nonce <> 0 ->
  good_signature k h (der_sig (sig_r nonce) (low_s (sig_s0 (ck_priv k) h nonce))).
Proof.
  intros Hk Hh Hn Hr Hs. pose proof order_range as Ho. pose proof (sig_s0_range (ck_priv k) h nonce).
  assert (Hls : 0 < low_s (sig_s0 (ck_priv k) h nonce) <= group_order / 2) by (apply low_s_range; lia).
  assert (Hrr : 0 < sig_r nonce < group_order).
  { unfold sig_r in *. destruct (affine_x _); cbn [from_option] in *; [|done].
    pose proof (Z.mod_pos_bound z group_order). lia. }
  assert (group_order / 2 < 2 ^ 255) by (apply Z.div_lt_upper_bound; lia).
  assert (group_order / 2 < group_order) by (apply Z.div_lt; lia).
  assert (Hlen : (8 <= length (der_sig (sig_r nonce) (low_s (sig_s0 (ck_priv k) h nonce))) <= 71)%nat).
  { apply encode_der_spec; lia. }
  split; [|split; [done|]]; [eexists _, _; done|]. intros rest. unfold VerifySignature.
  destruct (GetPubKeyCompressed_ok k Hk) as [_ Hp]. rewrite Hh, Hp, length_app.
  change (negb (Z.of_nat 32 =? 32)) with false. change (Z.of_nat 33 =? 0) with false.
  rewrite (proj2 (Z.eqb_neq _ _)) by lia. cbn [orb]. unfold public_point.
  rewrite oct2point_point2oct by by apply key_ok_nonzero.
  destruct (d2i_der (sig_r nonce) (low_s (sig_s0 (ck_priv k) h nonce)) rest) as (sg & -> & Hsg); [lia|lia|].
  apply do_verify; [done|]. rewrite Hsg. split; [done|]. split; [lia|].
  apply round_verifies; try done. apply Hk.
Qed.

Lemma Sign_good fuel k h sig : key_ok k -> length h = 32%nat -> Sign fuel k h = Some (Some sig) ->
  good_signature k h sig.
Proof.
  intros Hk Hh HS. destruct fuel as [|fuel]; [unfold Sign in HS; destruct Hk as [Hv _]; by rewrite Hv, Hh in HS|].
  rewrite Sign_result in HS by (done || lia).
  destruct (RFC6979_GenerateK (S fuel) (GetPrivKey k) h group_order) as [nonce|] eqn:HK; [|done].
  apply generate_k_range in HK.
  destruct (Z.eqb_spec (sig_r nonce) 0); [done|]. destruct (Z.eqb_spec (sig_s0 (ck_priv k) h nonce) 0); [done|].
  cbn [orb] in HS. injection HS as <-. by apply round_good.
Qed.

(** ** Key pairs *)

Lemma key_ok_SetCompressed k c : key_ok k -> key_ok (SetCompressed k c).
Proof. done. Qed.

Lemma FromPrivKey_valid p v : bytes_wf p -> kp_IsValid (FromPrivKey p v) = true ->
  length p = 32%nat /\ key_ok (kp_key (FromPrivKey p v)) /\ GetPrivKey (kp_key (FromPrivKey p v)) = p.
Proof.
  intros Hw. unfold FromPrivKey. destruct (SetPrivKey new_CKey p) as [[] k] eqn:Ek; [|done]. intros _.
  apply SetPrivKey_true in Ek as (Hl & Hp & Hk); [|done]. cbn [keypair_of kp_key]. split; [done|]. split; [done|].
  unfold GetPrivKey. cbn [SetCompressed ck_valid ck_priv]. destruct Hk as [-> _]. cbn [negb].
  rewrite Hp, <- Hl. by apply bn2binpad_bin2bn.
Qed.

(** A key pair is determined by the private key and the network. *)
Lemma FromPrivKey_GetPrivKey k v : key_ok k -> ck_compressed k = true ->
  FromPrivKey (GetPrivKey k) v = keypair_of k v.
Proof.
  intros Hk Hc. unfold FromPrivKey. rewrite SetPrivKey_GetPrivKey by done.
  replace {| ck_priv := _; ck_compressed := _; ck_valid := _ |} with k; [reflexivity|].
  destruct Hk as [Hv _], k; cbn [ck_valid ck_compressed] in *. by rewrite Hv, Hc.
Qed.

(** [CKey::Generate] gives up only after 128 draws out of range. *)
Lemma generate_loop_ok m : forall rand i k, (forall j b, rand j = Some b -> bytes_wf b) ->
  generate_loop m rand i = Ok k -> key_ok k /\ ck_compressed k = true.
Proof.
  induction m as [|m IH]; intros rand i k Hr; cbn [generate_loop]; [done|].
  destruct (rand i) as [b|] eqn:Eb; [|done].
  destruct (SetPrivKey new_CKey b) as [[] k'] eqn:Ek; [|by apply IH]. intros [= <-].
  pose proof Ek as Ek'. apply SetPrivKey_true in Ek' as (_ & _ & ?); [|by eapply Hr]. split; [done|].
  unfold SetPrivKey in Ek. repeat case_if; by simplify_eq.
Qed.

End KeyFacts.

(** ** A small instance

    The group of integers modulo 101, [x] being the smaller of a number and its
    opposite, and a DER reader; for evaluation. *)

Definition mini_order : Z := 101.
Definition mini_inv (a m : Z) : Z := (a ^ 99) mod m.
Definition mini_x (a : Z) : option Z :=
  let a := a mod mini_order in if a =? 0 then None else Some (Z.min a (mini_order - a)).
Definition mini_mul (a : Z) (q : option (Z * Z)) : Z :=
  (a + match q with Some (p, m) => p * m | None => 0 end) mod mini_order.
Definition mini_oct (c : bool) (a : Z) : bytes := (if c then 2 else 4) :: a :: repeat 0 (if c then 31 else 63).
(** One INTEGER and what follows it. *)
Definition mini_der_int (b : bytes) : option (Z * bytes) :=
  match b with
  | 0x02 :: l :: r => Some (be_val (take (Z.to_nat l) r), drop (Z.to_nat l) r)
  | _ => None
  end.
Definition mini_d2i (b : bytes) : option (Z * Z) :=
  match b with
  | 0x30 :: _ :: b =>
      match mini_der_int b with
      | Some (r, b) => match mini_der_int b with Some (s, _) => Some (r, s) | None => None end
      | None => None
      end
  | _ => None
  end.
Definition mini_verify (h : bytes) (sg : Z * Z) (q : Z) : bool :=
  let '(r, s) := sg in
  let w := mini_inv s mini_order in
  (0 <? r) && (r <? mini_order) && (0 <? s) && (s <? mini_order) &&
  match mini_x (mini_mul ((BN_bin2bn h * w) mod mini_order) (Some (q, (r * w) mod mini_order))) with
  | Some x => x mod mini_order =? r
  | None => false
  end.
Definition mini_ossl : OpenSSL := {|
  EVP_sha256 := toy_digest; ec_point := Z; ecdsa_sig := Z * Z;
  EC_POINT_oct2point := fun p => match p with _ :: a :: _ => Some a | _ => None end;
  d2i_ECDSA_SIG := mini_d2i; ECDSA_do_verify := mini_verify |}.
Definition mini_hmac (k m : bytes) : bytes :=
  repeat 0 31 ++ [u8 ((7 + 3 * foldl Z.add 0 k + 5 * foldl Z.add 0 m) mod 128)].
#[local] Instance mini_ec : EcKeys mini_ossl := {|
  HMAC := mini_hmac; group_order := mini_order;
  EC_POINT_mul := mini_mul : Z -> option (@ec_point mini_ossl * Z) -> @ec_point mini_ossl;
  affine_x := mini_x : @ec_point mini_ossl -> option Z;
  point2oct := mini_oct : bool -> @ec_point mini_ossl -> bytes;
  BN_mod_inverse := mini_inv; ECDSA_SIG_get := (fun s => s) : @ecdsa_sig mini_ossl -> Z * Z |}.

#[export] Instance mini_ossl_laws : OpenSSLLaws mini_ossl.
Proof. split; [exact (@EVP_sha256_length toy_ossl _)|exact (@EVP_sha256_bytes toy_ossl _)]. Qed.

Lemma mini_inv_ok a : 0 < a < mini_order -> (a * mini_inv a mini_order) mod mini_order = 1.
Proof.
  intros Ha. assert (H : forallb (fun i => (Z.of_nat i * mini_inv (Z.of_nat i) mini_order) mod mini_order =? 1) (seq 1 100) = true)
    by (vm_compute; reflexivity).
  rewrite forallb_forall in H. specialize (H (Z.to_nat a)). rewrite Z2Nat.id in H by lia.
  apply Z.eqb_eq, H, in_seq. unfold mini_order in Ha. lia.
Qed.

Lemma mini_der_int_ok v rest : 0 < v < 2 ^ 256 ->
  mini_der_int (0x02 :: Z.of_nat (length (der_int v)) :: der_int v ++ rest) = Some (v, rest).
Proof.
  intros Hv. unfold mini_der_int. rewrite Nat2Z.id, take_app_length, drop_app_length.
  f_equal. f_equal. apply bin2bn_bn2binpad. rewrite pow256 by lia. split; [lia|].
  eapply Z.lt_le_trans; [apply Z.log2_spec; lia|]. apply Z.pow_le_mono_r; [lia|].
  unfold der_width. pose proof (Z.log2_nonneg v). rewrite Z2Nat.id by u_divmod. u_divmod.
Qed.

#[export] Instance mini_laws : EcKeysLaws mini_ec.
Proof.
  split; cbn [HMAC group_order EC_POINT_mul affine_x point2oct BN_mod_inverse ECDSA_SIG_get mini_ec].
  - done.
  - intros. apply Forall_app. split; [by repeat constructor|]. apply Forall_cons_2; [apply u8_range|constructor].
  - done.
  - apply mini_inv_ok.
  - intros a b m. unfold mini_mul. rewrite !Z.add_0_r, Z.add_mod, Z.mul_mod_idemp_l, <- Z.add_mod; done.
  - intros a. unfold mini_mul. by rewrite !Z.add_0_r, Z.mod_mod.
  - intros a. unfold mini_x, mini_mul. rewrite !Z.add_0_r, !Z.mod_mod by done.
    destruct (decide (a mod mini_order = 0)) as [E|E].
    + by rewrite (Z.mod_opp_l_z a), E by done.
    + rewrite (Z.mod_opp_l_nz a) by done. unfold mini_order in *. pose proof (Z.mod_pos_bound a 101).
      rewrite !(proj2 (Z.eqb_neq _ _)) by lia. f_equal. lia.
  - intros a Ha. unfold mini_x, mini_mul. rewrite Z.add_0_r, Z.mod_mod by done. rewrite (proj2 (Z.eqb_neq _ _)) by done.
    eexists. split; [done|]. pose proof (Z.mod_pos_bound a mini_order). unfold mini_order in *. lia.
  - done.
  - intros a. unfold mini_oct, mini_mul. repeat constructor; try (by vm_compute);
      pose proof (Z.mod_pos_bound (a + 0) mini_order); unfold mini_order in *; lia.
  - intros a c _. done.
  - intros r s rest Hr Hs. exists (r, s). split; [|done]. cbn [d2i_ECDSA_SIG mini_ossl].
    unfold der_sig, mini_d2i. cbn [app]. rewrite <- (app_assoc _ _ rest). cbn [app]. rewrite mini_der_int_ok by done.
    by rewrite mini_der_int_ok.
  - intros h [r s] q Hh. cbn [ECDSA_do_verify mini_ossl]. unfold mini_verify.
    rewrite !andb_true_iff, !Z.ltb_lt. destruct (mini_x _) as [x|].
    + rewrite Z.eqb_eq. split; [intros ((((?&?)&?)&?)&?); split_and!; try done; by exists x|].
      intros (?&?&?&[= <-]&?). tauto.
    + split; [by intros [_ ?]|]. by intros (_&_&?&?&_).
Qed.

(** * Properties *)

(** C21: signing: on a valid key and a 32-byte digest, once the nonce derivation
    has produced a nonce, [Sign] returns a strict DER signature of at most 71
    bytes with [s] in the lower half of the group order, and
    [VerifySignature] accepts it for that digest and the key's compressed
    public key, also with the hash-type byte behind it; only if [r] or [s]
    comes out zero does the call never return. *)
Theorem sign_verifies {ossl : OpenSSL} {ec : EcKeys ossl} {laws : EcKeysLaws ec}
    (k : CKey) (h : bytes) (f fuel : nat) (nonce : Z) :
  key_ok k -> length h = 32%nat ->
  RFC6979_GenerateK f (GetPrivKey k) h group_order = Some nonce -> (f <= fuel)%nat ->
  (sig_r nonce <> 0 -> sig_s0 (ck_priv k) h nonce <> 0 ->
     exists sig, Sign fuel k h = Some (Some sig) /\ good_signature k h sig) /\
  (sig_r nonce = 0 \/ sig_s0 (ck_priv k) h nonce = 0 -> forall fuel', Sign fuel' k h = None).
Proof.
  intros Hk Hh HK Hf. pose proof (generate_k_range _ _ _ _ HK) as Hn.
  assert (Hpos : (0 < f)%nat) by (destruct f; [done|lia]). split.
  - intros Hr Hs. eexists. split; [|by apply round_good].
    rewrite Sign_result, (generate_k_mono _ _ _ _ _ Hf HK) by (done || lia).
    by rewrite !(proj2 (Z.eqb_neq _ _)).
  - intros Hz fuel'. destruct fuel' as [|m]; [unfold Sign; destruct Hk as [-> _]; by rewrite Hh|].
    rewrite Sign_result by (done || lia).
    destruct (RFC6979_GenerateK (S m) (GetPrivKey k) h group_order) as [k'|] eqn:HK'; [|done].
    assert (k' = nonce) as ->.
    { apply (generate_k_mono _ (S m + f)) in HK; [|lia]. apply (generate_k_mono _ (S m + f)) in HK'; [|lia].
      congruence. }
    destruct Hz as [-> | ->]; [done|]. by rewrite orb_true_r.
Qed.

#[local] Existing Instance mini_ossl.
Definition mini_key : CKey := {| ck_priv := 42; ck_compressed := true; ck_valid := true |}.
Definition mini_digest : bytes := repeat 9 32.

Lemma sign_verifies_witness :
  exists sig, Sign 5 mini_key mini_digest = Some (Some sig) /\ good_signature mini_key mini_digest sig.
Proof.
  apply (sign_verifies mini_key mini_digest 5 5 78).
  - split; [reflexivity|]. vm_compute. split; reflexivity.
  - reflexivity.
  - vm_compute. reflexivity.
  - vm_compute. lia.
  - vm_compute. discriminate.
  - vm_compute. discriminate.
Defined.
