(* ===== verification/Value.v ===== *)
(** [transaction/transaction.cpp]: amounts as decimal strings.  A
    [std::string] is the list of its characters and an exception is an error
    result. *)
From Stdlib Require Import Ascii.
From S2P Require Import Prelude Config Compact Consensus.
Import Rules.

Module Value.

Definition chr (z : Z) : ascii := ascii_of_nat (Z.to_nat z).
Definition digit_char (d : Z) : ascii := chr (48 + d).
Definition DOT : ascii := chr 46.
Definition MINUS : ascii := chr 45.
Definition PLUS : ascii := chr 43.

(** The decimal digits [snprintf] writes for ["%llu"], most significant first;
    a 64-bit integer has at most 20. *)
Fixpoint dec_digits (fuel : nat) (n : Z) : list Z :=
  match fuel with
  | O => []
  | S k => if n / 10 =? 0 then [n mod 10] else dec_digits k (n / 10) ++ [n mod 10]
  end.
Definition llu (n : Z) : list Z := dec_digits 20 n.
(** ["%08llu"] *)
Definition llu8 (n : Z) : list Z := repeat 0 (8 - length (llu n)) ++ llu n.

(** [while (!s.empty() && s.back() == '0') s.pop_back();] on the reversed
    string. *)
Fixpoint pop_zeros (s : list ascii) : list ascii :=
  match s with
  | c :: r => if bool_decide (c = digit_char 0) then pop_zeros r else s
  | [] => []
  end.
Definition pop_dot (s : list ascii) : list ascii :=
  match s with
  | c :: r => if bool_decide (c = DOT) then r else s
  | [] => []
  end.

Definition FormatValue (baseUnits : Z) : list ascii :=
  let neg := baseUnits <? 0 in
  let abs := if neg then u64 (u64 (- (baseUnits + 1)) + 1) else u64 baseUnits in
  let whole := abs / 100000000 in
  let frac := abs mod 100000000 in
  let s := if frac =? 0 then map digit_char (llu whole)
           else map digit_char (llu whole) ++ [DOT] ++ map digit_char (llu8 frac) in
  let s := if bool_decide (DOT ∈ s) then rev (pop_dot (pop_zeros (rev s))) else s in
  if neg then MINUS :: s else s.

Record parse_state := { p_whole : Z; p_frac : Z; p_fracDigits : Z; p_inFrac : bool }.

(** One round of the [for] loop of [ParseValue]. *)
Definition parse_char (st : parse_state) (c : ascii) : res parse_state :=
  if bool_decide (c = DOT) then
    _ ← fail_if (p_inFrac st) "invalid amount";
    Ok {| p_whole := p_whole st; p_frac := p_frac st; p_fracDigits := p_fracDigits st; p_inFrac := true |}
  else
    _ ← fail_if ((ascii_Z c <? 48) || (ascii_Z c >? 57)) "invalid amount";
    if negb (p_inFrac st) then
      let whole := u64 (u64 (p_whole st * 10) + u64 (ascii_Z c - 48)) in
      _ ← fail_if (whole >? 21000000 * 100000000 + 1) "amount too large";
      Ok {| p_whole := whole; p_frac := p_frac st; p_fracDigits := p_fracDigits st; p_inFrac := false |}
    else
      _ ← fail_if (p_fracDigits st >=? 8) "too many decimals";
      Ok {| p_whole := p_whole st; p_frac := u64 (u64 (p_frac st * 10) + u64 (ascii_Z c - 48));
            p_fracDigits := p_fracDigits st + 1; p_inFrac := true |}.

(** [while (fracDigits < 8) { frac *= 10; ++fracDigits; }] *)
Fixpoint scale_frac (rounds : nat) (frac : Z) : Z :=
  match rounds with O => frac | S k => scale_frac k (u64 (frac * 10)) end.

Definition parse_amount (neg : bool) (s : list ascii) : res Z :=
  _ ← fail_if (length s =? 0)%nat "invalid amount";
  st ← res_fold parse_char {| p_whole := 0; p_frac := 0; p_fracDigits := 0; p_inFrac := false |} s;
  let frac := scale_frac (Z.to_nat (8 - p_fracDigits st)) (p_frac st) in
  let total := u64 (u64 (p_whole st * 100000000) + frac) in
  _ ← fail_if (total >? 21000000 * 100000000) "amount exceeds max supply";
  let result := i64 total in
  Ok (if neg then - result else result).
Definition ParseValue (s : list ascii) : res Z :=
  match s with
  | [] => Err "empty amount"
  | c :: r =>
      if bool_decide (c = MINUS) then parse_amount true r
      else if bool_decide (c = PLUS) then parse_amount false r
      else parse_amount false s
  end.

End Value.
Import Value.

(** * Lemmas *)

Definition is_dec (d : Z) : Prop := 0 <= d < 10.
(** The number of a digit list, most significant digit first. *)
Definition dval_from (a : Z) (ds : list Z) : Z := foldl (fun a d => 10 * a + d) a ds.
Definition dval (ds : list Z) : Z := dval_from 0 ds.

Lemma dval_from_app a l1 l2 : dval_from a (l1 ++ l2) = dval_from (dval_from a l1) l2.
Proof. apply foldl_app. Qed.

Lemma dval_from_val ds : forall a, dval_from a ds = a * 10 ^ Z.of_nat (length ds) + dval ds.
Proof.
  unfold dval. induction ds as [|d ds IH]; intros a; [cbn; lia|].
  cbn [dval_from foldl length]. fold (dval_from (10 * a + d) ds). fold (dval_from (10 * 0 + d) ds).
  rewrite (IH (10 * a + d)), (IH (10 * 0 + d)), Nat2Z.inj_succ, Z.pow_succ_r by lia. lia.
Qed.

Lemma dval_bound ds : Forall is_dec ds -> 0 <= dval ds < 10 ^ Z.of_nat (length ds).
Proof.
  induction 1 as [|d ds Hd _ IH]; [done|]. unfold dval. cbn [dval_from foldl length].
  fold (dval_from (10 * 0 + d) ds). rewrite dval_from_val, Nat2Z.inj_succ, Z.pow_succ_r by lia.
  unfold is_dec in Hd. nia.
Qed.

Lemma dval_zeros n : dval (repeat 0 n) = 0.
Proof. unfold dval. induction n as [|n IH]; [done|]. exact IH. Qed.

Lemma dec_digits_spec k : forall n, 0 <= n < 10 ^ Z.of_nat k -> (0 < k)%nat ->
  Forall is_dec (dec_digits k n) /\ dval (dec_digits k n) = n /\ dec_digits k n <> [].
Proof.
  induction k as [|k IH]; intros n Hn Hk; [lia|]. cbn [dec_digits].
  rewrite Nat2Z.inj_succ, Z.pow_succ_r in Hn by lia.
  pose proof (Z.mod_pos_bound n 10 ltac:(lia)) as Hm. pose proof (Z.div_mod n 10 ltac:(lia)) as Ed.
  destruct (Z.eqb_spec (n / 10) 0) as [Hz|Hnz].
  - split_and!; [by apply Forall_cons_2; [|constructor]| |done]. unfold dval. cbn. lia.
  - assert (0 <= n / 10 < 10 ^ Z.of_nat k) as Hq by (split; [apply Z.div_pos; lia|apply Z.div_lt_upper_bound; lia]).
    destruct k as [|k]; [change (10 ^ Z.of_nat 0) with 1 in Hq; lia|].
    destruct (IH (n / 10) Hq ltac:(lia)) as (H1 & H2 & _). split_and!.
    + apply Forall_app. split; [done|]. by apply Forall_cons_2; [|constructor].
    + unfold dval in *. rewrite dval_from_app, H2. cbn. lia.
    + by destruct (dec_digits (S k) (n / 10)).
Qed.

Lemma llu_spec n : is_u64 n -> Forall is_dec (llu n) /\ dval (llu n) = n /\ llu n <> [].
Proof. intros [H0 H1]. apply dec_digits_spec; [|lia]. split; [done|]. eapply Z.lt_le_trans; [exact H1|]. apply Z.leb_le. vm_compute. reflexivity. Qed.

(** The number of digits written is the least one that is enough. *)
Lemma dec_digits_length k : forall m n, 0 <= n < 10 ^ Z.of_nat m -> (0 < m)%nat -> (length (dec_digits k n) <= m)%nat.
Proof.
  induction k as [|k IH]; intros m n Hn Hm; cbn [dec_digits]; [cbn; lia|].
  destruct (Z.eqb_spec (n / 10) 0) as [|Hnz]; [exact Hm|]. rewrite length_app. cbn [length].
  destruct m as [|[|m]]; [lia| |].
  - change (10 ^ Z.of_nat 1) with 10 in Hn. rewrite Z.div_small in Hnz by lia. lia.
  - specialize (IH (S m) (n / 10)). rewrite (Nat2Z.inj_succ (S m)), Z.pow_succ_r in Hn by lia.
    assert (0 <= n / 10 < 10 ^ Z.of_nat (S m)) by (split; [apply Z.div_pos; lia|apply Z.div_lt_upper_bound; lia]).
    apply Nat.le_trans with (S m + 1)%nat; [apply Nat.add_le_mono_r, IH; [done|lia]|lia].
Qed.

Lemma llu8_spec n : 0 <= n < 100000000 -> Forall is_dec (llu8 n) /\ dval (llu8 n) = n /\ length (llu8 n) = 8%nat.
Proof.
  intros Hn. destruct (llu_spec n ltac:(u_range)) as (H1 & H2 & _). unfold llu8. split_and!.
  - apply Forall_app. split; [|done]. apply Forall_forall. intros x Hx%list_elem_of_In%repeat_spec. by subst.
  - unfold dval in *. rewrite dval_from_app, (dval_zeros (8 - _)). exact H2.
  - rewrite length_app, repeat_length. pose proof (dec_digits_length 20 8 n ltac:(exact Hn) ltac:(lia)).
    unfold llu. lia.
Qed.

Lemma ascii_Z_chr z : is_u8 z -> ascii_Z (chr z) = z.
Proof. intros Hz. unfold ascii_Z, chr. rewrite nat_ascii_embedding by u_range. u_range. Qed.

Lemma ascii_Z_digit d : is_dec d -> ascii_Z (digit_char d) = 48 + d.
Proof. intros Hd. apply ascii_Z_chr. unfold is_dec in Hd. u_range. Qed.

Lemma digit_char_neq d z : is_dec d -> is_u8 z -> z < 48 -> digit_char d <> chr z.
Proof.
  intros Hd Hz Hlt E. apply (f_equal ascii_Z) in E. rewrite ascii_Z_digit, ascii_Z_chr in E by done.
  unfold is_dec in Hd. lia.
Qed.

Lemma digit_char_special d : is_dec d -> digit_char d <> DOT /\ digit_char d <> MINUS /\ digit_char d <> PLUS.
Proof. intros Hd. split_and!; apply digit_char_neq; (done || u_range). Qed.

Lemma digit_char_inj d e : is_dec d -> is_dec e -> digit_char d = digit_char e -> d = e.
Proof. intros Hd He E. apply (f_equal ascii_Z) in E. rewrite !ascii_Z_digit in E by done. lia. Qed.

(** ** Parsing digits *)

Lemma parse_char_digit st d : is_dec d ->
  parse_char st (digit_char d) =
    if negb (p_inFrac st) then
      let whole := u64 (u64 (p_whole st * 10) + d) in
      _ ← fail_if (whole >? 21000000 * 100000000 + 1) "amount too large";
      Ok {| p_whole := whole; p_frac := p_frac st; p_fracDigits := p_fracDigits st; p_inFrac := false |}
    else
      _ ← fail_if (p_fracDigits st >=? 8) "too many decimals";
      Ok {| p_whole := p_whole st; p_frac := u64 (u64 (p_frac st * 10) + d);
            p_fracDigits := p_fracDigits st + 1; p_inFrac := true |}.
Proof.
  intros Hd. unfold parse_char. rewrite bool_decide_false by exact (proj1 (digit_char_special d Hd)).
  rewrite ascii_Z_digit by done. unfold is_dec in Hd.
  destruct (Z.ltb_spec (48 + d) 48); [lia|]. rewrite (Z.gtb_ltb (48 + d)). destruct (Z.ltb_spec 57 (48 + d)); [lia|].
  cbn [orb fail_if mbind res_bind]. replace (48 + d - 48) with d by lia. rewrite (u64_id d) by u_range.
  reflexivity.
Qed.

Lemma parse_whole_digits ds : forall w, Forall is_dec ds -> 0 <= w ->
  dval_from w ds <= 2100000000000001 ->
  res_fold parse_char {| p_whole := w; p_frac := 0; p_fracDigits := 0; p_inFrac := false |} (map digit_char ds) =
  Ok {| p_whole := dval_from w ds; p_frac := 0; p_fracDigits := 0; p_inFrac := false |}.
Proof.
  induction ds as [|d ds IH]; intros w Hds Hw Hb; [done|]. apply Forall_cons in Hds as [Hd Hds].
  cbn [map res_fold]. rewrite parse_char_digit by done. unfold is_dec in Hd.
  change (dval_from w (d :: ds)) with (dval_from (10 * w + d) ds) in *.
  assert (10 * w + d <= dval_from (10 * w + d) ds) as Hm.
  { rewrite dval_from_val. pose proof (dval_bound ds Hds). nia. }
  cbn [p_inFrac negb p_whole p_frac p_fracDigits].
  rewrite (u64_id (w * 10)), u64_id by u_range.
  rewrite Z.gtb_ltb. destruct (Z.ltb_spec (21000000 * 100000000 + 1) (w * 10 + d)); [lia|].
  cbn [fail_if mbind res_bind]. replace (w * 10 + d) with (10 * w + d) by lia.
  apply IH; [done|lia|done].
Qed.

Lemma parse_frac_digits ds : forall w f k, Forall is_dec ds -> 0 <= k -> 0 <= f < 10 ^ k ->
  k + Z.of_nat (length ds) <= 8 ->
  res_fold parse_char {| p_whole := w; p_frac := f; p_fracDigits := k; p_inFrac := true |} (map digit_char ds) =
  Ok {| p_whole := w; p_frac := dval_from f ds; p_fracDigits := k + Z.of_nat (length ds); p_inFrac := true |}.
Proof.
  induction ds as [|d ds IH]; intros w f k Hds Hk Hf Hb; [cbn; by rewrite Z.add_0_r|].
  apply Forall_cons in Hds as [Hd Hds]. cbn [length] in *. rewrite Nat2Z.inj_succ in *.
  cbn [map res_fold]. rewrite parse_char_digit by done. unfold is_dec in Hd.
  change (dval_from f (d :: ds)) with (dval_from (10 * f + d) ds).
  cbn [p_inFrac negb p_whole p_frac p_fracDigits].
  rewrite Z.geb_leb. destruct (Z.leb_spec 8 k); [lia|].
  assert (10 ^ k <= 10 ^ 7) by (apply Z.pow_le_mono_r; lia). change (10 ^ 7) with 10000000 in *.
  rewrite (u64_id (f * 10)), u64_id by u_range.
  cbn [fail_if mbind res_bind]. replace (f * 10 + d) with (10 * f + d) by lia.
  rewrite IH; [do 2 f_equal; lia|done|lia| |lia].
  rewrite Z.pow_add_r by lia. change (10 ^ 1) with 10. lia.
Qed.

Lemma scale_frac_spec n : forall f, 0 <= f -> f * 10 ^ Z.of_nat n < 2 ^ 64 -> scale_frac n f = f * 10 ^ Z.of_nat n.
Proof.
  induction n as [|n IH]; intros f Hf Hb; cbn [scale_frac]; [cbn; lia|].
  rewrite Nat2Z.inj_succ, Z.pow_succ_r in * by lia.
  assert (1 <= 10 ^ Z.of_nat n) by (apply (Z.pow_le_mono_r 10 0); lia).
  rewrite u64_id by (split; [lia|nia]). rewrite IH; nia.
Qed.

(** The result of [ParseValue] once the digits are read. *)
Lemma parse_amount_done neg s w f k : s <> [] ->
  res_fold parse_char {| p_whole := 0; p_frac := 0; p_fracDigits := 0; p_inFrac := false |} s =
    Ok {| p_whole := w; p_frac := f; p_fracDigits := k; p_inFrac := bool_decide (0 < k) |} ->
  0 <= w -> 0 <= f -> 0 <= k <= 8 -> w * 100000000 + f * 10 ^ (8 - k) <= MAX_MONEY ->
  parse_amount neg s = Ok (if neg then - (w * 100000000 + f * 10 ^ (8 - k)) else w * 100000000 + f * 10 ^ (8 - k)).
Proof.
  change MAX_MONEY with 2100000000000000. intros Hne E Hw Hf Hk Hb. unfold parse_amount.
  destruct s as [|c s]; [done|]. cbn [length Nat.eqb fail_if mbind res_bind]. rewrite E.
  cbn [mbind res_bind p_whole p_frac p_fracDigits].
  assert (0 <= f * 10 ^ (8 - k)) by (apply Z.mul_nonneg_nonneg; [done|apply Z.pow_nonneg; lia]).
  rewrite scale_frac_spec by (rewrite ?Z2Nat.id; u_range). rewrite Z2Nat.id by lia.
  rewrite (u64_id (w * 100000000)), u64_id by u_range. rewrite Z.gtb_ltb.
  destruct (Z.ltb_spec (21000000 * 100000000) (w * 100000000 + f * 10 ^ (8 - k))); [lia|].
  cbn [fail_if mbind res_bind]. rewrite i64_id by u_range. done.
Qed.

(** ** Formatting *)

(** Removing the trailing zeros of a fraction keeps its value. *)
Lemma pop_zeros_digits ds : Forall is_dec ds -> dval ds <> 0 ->
  exists es n, ds = es ++ repeat 0 n /\ es <> [] /\
    forall t, pop_zeros (rev (map digit_char ds) ++ t) = rev (map digit_char es) ++ t.
Proof.
  induction ds as [|d ds IH] using rev_ind; intros Hds Hv; [done|].
  apply Forall_app in Hds as [Hds Hd]. apply Forall_cons in Hd as [Hd _].
  destruct (decide (d = 0)) as [->|Hne].
  - destruct IH as (es & n & -> & He & Hp); [done| |].
    { unfold dval in *. rewrite dval_from_app in Hv. cbn in Hv. intros E. rewrite E in Hv. done. }
    exists es, (S n). split_and!; [|done|].
    + by rewrite <- app_assoc, <- repeat_cons.
    + intros t. rewrite map_app, rev_app_distr. cbn [map rev app pop_zeros].
      rewrite bool_decide_true by done. apply Hp.
  - exists (ds ++ [d]), O. split_and!; [by rewrite app_nil_r|by destruct ds|].
    intros t. rewrite map_app, rev_app_distr. cbn [map rev app pop_zeros].
    rewrite bool_decide_false; [done|]. intros E. by apply Hne, digit_char_inj.
Qed.

Lemma digits_no_dot ds : Forall is_dec ds -> DOT ∉ map digit_char ds.
Proof.
  intros H Hin. apply list_elem_of_In, in_map_iff in Hin as (d & Hd & Hi%list_elem_of_In).
  rewrite Forall_forall in H. specialize (H d Hi). by apply digit_char_special in H as [? _].
Qed.

(** What [FormatValue] writes after the sign, and how it is read back. *)
Lemma format_digits whole frac : 0 <= whole -> 0 <= frac < 100000000 -> whole * 100000000 + frac <= MAX_MONEY ->
  let s0 := if frac =? 0 then map digit_char (llu whole)
            else map digit_char (llu whole) ++ [DOT] ++ map digit_char (llu8 frac) in
  let s := if bool_decide (DOT ∈ s0) then rev (pop_dot (pop_zeros (rev s0))) else s0 in
  (exists d r, is_dec d /\ s = digit_char d :: r) /\
  forall neg, parse_amount neg s = Ok (if neg then - (whole * 100000000 + frac) else whole * 100000000 + frac).
Proof.
  change MAX_MONEY with 2100000000000000. intros Hw Hf Hb s0 s.
  destruct (llu_spec whole ltac:(u_range)) as (HW & EW & NW).
  assert (exists d r, is_dec d /\ map digit_char (llu whole) = digit_char d :: r) as (d & r & Hd & Er).
  { destruct (llu whole) as [|d r]; [done|]. apply Forall_cons in HW as [Hd _]. by exists d, (map digit_char r). }
  pose proof (parse_whole_digits (llu whole) 0 HW ltac:(lia)) as PW. fold (dval (llu whole)) in PW. rewrite EW in PW.
  specialize (PW ltac:(lia)). subst s s0. destruct (Z.eqb_spec frac 0) as [->|Hnz].
  - rewrite bool_decide_false by (by apply digits_no_dot). split; [by exists d, r|]. intros neg.
    rewrite (parse_amount_done neg _ whole 0 0); [by rewrite Z.mul_0_l|by rewrite Er|exact PW|lia..|].
    change MAX_MONEY with 2100000000000000. lia.
  - rewrite bool_decide_true by (apply elem_of_app; right; by left).
    destruct (llu8_spec frac Hf) as (HF & EF & LF).
    destruct (pop_zeros_digits (llu8 frac)) as (es & n & Ees & Hne & Hp); [done|congruence|].
    rewrite !rev_app_distr. cbn [rev app]. rewrite <- app_assoc, Hp.
    rewrite Ees in HF, EF, LF. apply Forall_app in HF as [HF _].
    rewrite length_app, repeat_length in LF.
    assert (dval es * 10 ^ Z.of_nat n = frac) as EV.
    { unfold dval in EF. rewrite dval_from_app, dval_from_val, repeat_length, dval_zeros in EF.
      fold (dval es) in EF. lia. }
    assert (1 <= length es)%nat by (destruct es; [done|cbn; lia]).
    assert (rev (pop_dot (rev (map digit_char es) ++ [DOT] ++ rev (map digit_char (llu whole)))) =
            map digit_char (llu whole) ++ [DOT] ++ map digit_char es) as ->.
    { destruct es as [|e es _] using rev_ind; [done|]. apply Forall_app in HF as [_ HF].
      apply Forall_cons in HF as [He _]. rewrite map_app, rev_app_distr. cbn [map rev app pop_dot].
      rewrite bool_decide_false by exact (proj1 (digit_char_special e He)). cbn [rev].
      rewrite rev_app_distr. cbn [rev]. by rewrite !rev_involutive, <- !app_assoc. }
    split; [rewrite Er; by eexists d, _|]. intros neg.
    rewrite (parse_amount_done neg _ whole (dval es) (Z.of_nat (length es))).
    + replace (8 - Z.of_nat (length es)) with (Z.of_nat n) by lia. by rewrite EV.
    + by rewrite Er.
    + rewrite res_fold_app, PW. cbn [mbind res_bind app res_fold].
      unfold parse_char at 2. rewrite bool_decide_true by done. cbn [p_inFrac fail_if mbind res_bind p_whole p_frac p_fracDigits].
      rewrite parse_frac_digits by (done || lia). rewrite bool_decide_true by lia. done.
    + lia.
    + by apply dval_bound.
    + lia.
    + replace (8 - Z.of_nat (length es)) with (Z.of_nat n) by lia. rewrite EV. done.
Qed.

(** * Theorems *)

(** An amount survives being printed and parsed: for every amount up to
    the maximum supply, of either sign, [ParseValue (FormatValue v)] is [v]. *)
Theorem value_roundtrip v : Z.abs v <= MAX_MONEY -> ParseValue (FormatValue v) = Ok v.
Proof.
  intros Hv. unfold FormatValue.
  assert ((if v <? 0 then u64 (u64 (- (v + 1)) + 1) else u64 v) = Z.abs v) as ->.
  { change MAX_MONEY with 2100000000000000 in Hv.
    destruct (Z.ltb_spec v 0); [rewrite (u64_id (- (v + 1))), u64_id by u_range|rewrite u64_id by u_range]; lia. }
  set (a := Z.abs v) in *. pose proof (Z.div_mod a 100000000 ltac:(lia)) as Ea.
  pose proof (Z.mod_pos_bound a 100000000 ltac:(lia)).
  destruct (format_digits (a / 100000000) (a mod 100000000)) as [(d & r & Hd & Es) Hp];
    [apply Z.div_pos; lia|done|lia|].
  cbv zeta. destruct (Z.ltb_spec v 0).
  - cbn [ParseValue]. rewrite bool_decide_true by done. rewrite Hp. f_equal. lia.
  - rewrite Es in *. cbn [ParseValue]. destruct (digit_char_special d Hd) as (_ & H1 & H2).
    rewrite !bool_decide_false by done. rewrite Hp. f_equal. lia.
Qed.

Lemma value_roundtrip_witness : ParseValue (FormatValue (-123456789012)) = Ok (-123456789012).
Proof. apply value_roundtrip. vm_compute. discriminate. Defined.

(** [ParseValue] never returns an amount beyond the maximum supply, but it
    is not exact: the product of the whole part and 100000000 wraps modulo
    2^64 before the range check, so an amount of 184467440738 coins is read
    as 90448384 base units instead of being refused. *)
Theorem parse_value_bounded_but_wraps :
  (forall s v, ParseValue s = Ok v -> Z.abs v <= MAX_MONEY) /\
  ParseValue (String.list_ascii_of_string "184467440738") = Ok 90448384.
Proof.
  split; [|vm_compute; reflexivity]. intros s v H.
  assert (forall neg t, parse_amount neg t = Ok v -> Z.abs v <= MAX_MONEY) as Hp.
  { intros neg t Ht. unfold parse_amount in Ht. res_inv Ht.
    rewrite Z.gtb_ltb in Hr1. apply Z.ltb_ge in Hr1. injection Ht as <-.
    change MAX_MONEY with 2100000000000000. rewrite i64_id; [destruct neg|]; pose proof (u64_range (u64 (p_whole a0 * 100000000)
      + scale_frac (Z.to_nat (8 - p_fracDigits a0)) (p_frac a0))); u_range. }
  unfold ParseValue in H. destruct s as [|c r]; [done|]. repeat case_if; by eapply Hp.
Qed.

Lemma parse_value_bounded_witness : Z.abs 150000000 <= MAX_MONEY.
Proof.
  refine (proj1 parse_value_bounded_but_wraps (String.list_ascii_of_string "1.5") _ _). vm_compute. reflexivity.
Defined.
