(* ===== verification/KeyStore.v ===== *)
(** [wallet/keystore.cpp]: the encrypted key store (wallet.dat).

    PBKDF2 and AES-256-GCM are OpenSSL's: they are the operations of [Cipher],
    and [CipherLaws] states that decryption inverts encryption.  Random bytes
    and the clock are arguments of the operations that draw them.  A read past
    the end of a stored [iv] or [tag] vector is undefined behaviour; an
    exception is an error result and keeps the state the call had reached. *)
From Stdlib Require Import Ascii.
From stdpp Require Import sorting.
From S2P Require Import Prelude UInt256 Compact Crypto Transaction Encoding Value Keys.
Import Encoding Value.

(** * External primitives *)

Class Cipher := {
  (** [PKCS5_PBKDF2_HMAC(password, salt, 210000, EVP_sha256(), 32)]; [None]
      when it does not return 1 *)
  PBKDF2 : bytes -> bytes -> option bytes;
  (** [EVP_aes_256_gcm] with a 12-byte iv: the ciphertext and the 16-byte tag *)
  gcm_encrypt : bytes -> bytes -> bytes -> option (bytes * bytes);
  (** key, iv, tag, ciphertext; [None] when the final step does not return 1 *)
  gcm_decrypt : bytes -> bytes -> bytes -> bytes -> option bytes
}.

Class CipherLaws (C : Cipher) : Prop := {
  PBKDF2_ok pw salt : exists k, PBKDF2 pw salt = Some k /\ length k = 32%nat;
  gcm_encrypt_ok key iv p : length key = 32%nat -> length iv = 12%nat ->
    exists c t, gcm_encrypt key iv p = Some (c, t) /\ length c = length p /\ length t = 16%nat /\
    gcm_decrypt key iv t c = Some p
}.

(** * Definitions *)

Definition KEYSTORE_MAGIC : bytes := [67; 68; 88; 87].
Definition KEYSTORE_VERSION : Z := 1.

Record EncryptedKeyEntry := {
  ke_address : list ascii; ke_ciphertext : bytes; ke_iv : bytes; ke_tag : bytes; ke_created : Z }.
Record CKeystore := {
  ks_locked : bool; ks_salt : bytes; ks_kek : bytes; ks_keys : gmap (list ascii) EncryptedKeyEntry }.
Definition new_keystore : CKeystore := {| ks_locked := true; ks_salt := []; ks_kek := []; ks_keys := ∅ |}.

Definition with_keys (ks : CKeystore) (m : gmap (list ascii) EncryptedKeyEntry) : CKeystore :=
  {| ks_locked := ks_locked ks; ks_salt := ks_salt ks; ks_kek := ks_kek ks; ks_keys := m |}.
Definition with_salt (ks : CKeystore) (salt : bytes) : CKeystore :=
  {| ks_locked := ks_locked ks; ks_salt := salt; ks_kek := ks_kek ks; ks_keys := ks_keys ks |}.
Definition with_kek (ks : CKeystore) (kek : bytes) : CKeystore :=
  {| ks_locked := ks_locked ks; ks_salt := ks_salt ks; ks_kek := kek; ks_keys := ks_keys ks |}.
Definition with_locked (ks : CKeystore) (b : bool) : CKeystore :=
  {| ks_locked := b; ks_salt := ks_salt ks; ks_kek := ks_kek ks; ks_keys := ks_keys ks |}.

(** [std::string] ordering: lexicographic on unsigned characters. *)
Fixpoint addr_leb (a b : list ascii) : bool :=
  match a, b with
  | [], _ => true
  | _ :: _, [] => false
  | x :: a, y :: b =>
      (ascii_Z x <? ascii_Z y) || ((ascii_Z x =? ascii_Z y) && addr_leb a b)
  end.
Definition addr_le {A} (a b : list ascii * A) : Prop := addr_leb a.1 b.1 = true.
#[export] Instance addr_le_dec {A} (a b : list ascii * A) : Decision (addr_le a b).
Proof. unfold addr_le. apply _. Defined.
(** The entries in the order of a [std::map] traversal. *)
Definition sorted_keys {A} (m : gmap (list ascii) A) : list (list ascii * A) := merge_sort addr_le (map_to_list m).

(** A computation on the store: undefined behaviour, or a value or exception
    with the state reached. *)
Definition KsM (A : Type) : Type := CKeystore -> outcome (res A * CKeystore).
#[export] Instance KsM_ret : MRet KsM := fun A a ks => Done (Ok a, ks).
#[export] Instance KsM_bind : MBind KsM := fun A B f m ks =>
  match m ks with
  | Done (Ok a, ks') => f a ks'
  | Done (Err e, ks') => Done (Err e, ks')
  | Undef => Undef
  end.
Definition kget : KsM CKeystore := fun ks => Done (Ok ks, ks).
Definition kput (f : CKeystore -> CKeystore) : KsM unit := fun ks => Done (Ok tt, f ks).
Definition kthrow {A} (e : string) : KsM A := fun ks => Done (Err e, ks).
(** [try { ... } catch (...) { ... }] around a computation that only reads *)
Definition ktry {A} (m : KsM A) : KsM (res A) := fun ks =>
  match m ks with Done (r, ks') => Done (Ok r, ks') | Undef => Undef end.
Definition kundef {A} : KsM A := fun _ => Undef.

Section KeyStore.
Context {ossl : OpenSSL} {ec : EcKeys ossl} {cph : Cipher}.

Definition DeriveKey (password salt : bytes) : option bytes := PBKDF2 password salt.

Definition AesEncrypt (key plain iv : bytes) : KsM (bytes * bytes) :=
  match gcm_encrypt key iv plain with
  | Some ct => mret ct
  | None => kthrow "AES-256-GCM encrypt failed"
  end.
(** [iv] and [tag] are read through pointers to vectors of any length. *)
Definition AesDecrypt (key cipher iv tag : bytes) : KsM bytes :=
  if (length iv <? 12)%nat || (length tag <? 16)%nat then kundef
  else match gcm_decrypt key (take 12 iv) (take 16 tag) cipher with
       | Some plain => mret plain
       | None => kthrow "AES-256-GCM decrypt failed (wrong password?)"
       end.

Definition make_entry (address : list ascii) (ct : bytes * bytes) (iv : bytes) (now : Z) : EncryptedKeyEntry :=
  {| ke_address := address; ke_ciphertext := ct.1; ke_iv := iv; ke_tag := ct.2; ke_created := now |}.

(** [iv] is drawn at random. *)
Definition AddKey (kp : CKeyPair) (iv : bytes) (now : Z) : KsM bool :=
  ks ← kget;
  if ks_locked ks then mret false
  else
    ct ← AesEncrypt (ks_kek ks) (GetPrivKey (kp_key kp)) iv;
    _ ← kput (fun ks => with_keys ks (<[kp_address kp := make_entry (kp_address kp) ct iv now]> (ks_keys ks)));
    mret true.

(** [None]: returns false. *)
Definition GetKey (address : list ascii) : KsM (option CKey) :=
  ks ← kget;
  if ks_locked ks then mret None
  else match ks_keys ks !! address with
       | None => mret None
       | Some e =>
           plain ← AesDecrypt (ks_kek ks) (ke_ciphertext e) (ke_iv e) (ke_tag e);
           if negb (length plain =? 32)%nat then mret None
           else let '(ok, k) := SetPrivKey new_CKey plain in
                mret (if ok : bool then Some k else None)
       end.

Definition HasAddress (ks : CKeystore) (address : list ascii) : bool := bool_decide (is_Some (ks_keys ks !! address)).
Definition GetAddresses (ks : CKeystore) : list (list ascii) := map fst (sorted_keys (ks_keys ks)).
Definition Lock (ks : CKeystore) : CKeystore := with_locked (with_kek ks []) true.

(** [salt] is what [RAND_bytes] returns for a store that has none. *)
Definition Unlock (password salt : bytes) : KsM bool :=
  _ ← kput (fun ks => if (length (ks_salt ks) =? 0)%nat then with_salt ks salt else ks);
  ks ← kget;
  match DeriveKey password (ks_salt ks) with
  | None => mret false
  | Some k =>
      ok ← match sorted_keys (ks_keys ks) with
           | [] => mret true
           | (_, e) :: _ =>
               r ← ktry (AesDecrypt k (ke_ciphertext e) (ke_iv e) (ke_tag e));
               mret (match r with Ok plain => (length plain =? 32)%nat | Err _ => false end)
           end;
      if negb ok then mret false
      else _ ← kput (fun ks => with_locked (with_kek ks k) false); mret true
  end.

(** [for (a : addrs) { if (!GetKey(a, k)) ...; keysCopy.push_back(k); }];
    [None] when a key is missing. *)
Fixpoint copy_keys (addrs : list (list ascii)) : KsM (option (list CKey)) :=
  match addrs with
  | [] => mret (Some [])
  | a :: r =>
      k ← GetKey a;
      match k with
      | None => mret None
      | Some k => rest ← copy_keys r; mret (match rest with Some l => Some (copy_CKey k :: l) | None => None end)
      end
  end.
(** The re-encryption loop; [ivs i] is the iv drawn in round [i]. *)
Fixpoint reencrypt (l : list (list ascii * CKey)) (ivs : nat -> bytes) (i : nat) (now : Z) : KsM unit :=
  match l with
  | [] => mret tt
  | (a, k) :: r =>
      ks ← kget;
      ct ← AesEncrypt (ks_kek ks) (GetPrivKey k) (ivs i);
      _ ← kput (fun ks => with_keys ks (<[a := make_entry a ct (ivs i) now]> (ks_keys ks)));
      reencrypt r ivs (S i) now
  end.
(** [ChangePassword] once the store is open; [newSalt] is drawn at random. *)
Definition rekey (newPassword newSalt : bytes) (ivs : nat -> bytes) (now : Z) : KsM bool :=
  ks ← kget;
  let addrs := GetAddresses ks in
  keysCopy ← copy_keys addrs;
  match keysCopy with
  | None => _ ← kput Lock; mret false
  | Some keysCopy =>
      match DeriveKey newPassword newSalt with
      | None => _ ← kput Lock; mret false
      | Some newKek =>
          _ ← kput (fun ks => with_keys (with_salt (with_kek ks newKek) newSalt) ∅);
          _ ← reencrypt (zip addrs keysCopy) ivs 0 now;
          mret true
      end
  end.
(** [salt0] is drawn by [Unlock] if it needs a salt. *)
Definition ChangePassword (oldPassword newPassword salt0 newSalt : bytes) (ivs : nat -> bytes) (now : Z) : KsM bool :=
  ks ← kget;
  ok ← (if ks_locked ks then Unlock oldPassword salt0 else mret true);
  if negb ok then mret false else rekey newPassword newSalt ivs now.

End KeyStore.

(** ** The file format *)

Definition string_chars (s : bytes) : list ascii := map chr s.
Definition chars_bytes (s : list ascii) : bytes := map ascii_Z s.

Definition SerializeEntry (e : EncryptedKeyEntry) : bytes :=
  WriteVarStr (chars_bytes (ke_address e)) ++ WriteVarStr (ke_ciphertext e) ++ WriteVarStr (ke_iv e)
  ++ WriteVarStr (ke_tag e) ++ WriteU64 (ke_created e).
Definition SerializeKeystore (ks : CKeystore) : bytes :=
  KEYSTORE_MAGIC ++ WriteU8 KEYSTORE_VERSION ++ WriteVarStr (ks_salt ks)
  ++ WriteVarInt (Z.of_nat (size (ks_keys ks)))
  ++ flat_map (fun kv => SerializeEntry kv.2) (sorted_keys (ks_keys ks)).

Definition ReadEntry : Rd EncryptedKeyEntry :=
  addrBytes ← ReadVarStr; cipher ← ReadVarStr; iv ← ReadVarStr; tag ← ReadVarStr; created ← ReadU64;
  mret {| ke_address := string_chars addrBytes; ke_ciphertext := cipher; ke_iv := iv; ke_tag := tag; ke_created := created |}.
(** [if (!read) throw e] *)
Definition or_throw {A} (r : option A) (e : string) : res A := match r with Some a => Ok a | None => Err e end.
Definition DeserializeKeystore (data : bytes) : res CKeystore :=
  '(magic, d) ← or_throw (ReadBytes 4 {| d_p := data; d_pos := 0 |}) "invalid keystore magic";
  _ ← fail_if (negb (bool_decide (magic = KEYSTORE_MAGIC))) "invalid keystore magic";
  '(ver, d) ← or_throw (ReadU8 d) "unsupported keystore version";
  _ ← fail_if (negb (ver =? KEYSTORE_VERSION)) "unsupported keystore version";
  '(salt, d) ← or_throw (ReadVarStr d) "corrupt keystore";
  '(n, d) ← or_throw (ReadVarInt d) "corrupt keystore";
  _ ← fail_if (n >? 1000000) "corrupt keystore";
  '(es, d) ← or_throw (read_n ReadEntry (Z.to_nat n) d) "corrupt keystore entry";
  Ok {| ks_locked := true; ks_salt := salt; ks_kek := [];
        ks_keys := foldl (fun m e => <[ke_address e := e]> m) ∅ es |}.

(** * The abstract vault

    What the store promises: a map from addresses to private scalars under a
    password.  A store without keys takes the password of the next unlock. *)

Record Vault := { v_locked : bool; v_password : bytes; v_keys : gmap (list ascii) Z }.
Definition new_vault : Vault := {| v_locked := true; v_password := []; v_keys := ∅ |}.
Definition v_set (v : Vault) (locked : bool) (pw : bytes) : Vault :=
  {| v_locked := locked; v_password := pw; v_keys := v_keys v |}.

Inductive kop :=
| OpAdd (kp : CKeyPair) (iv : bytes) (now : Z)
| OpGet (a : list ascii)
| OpLock
| OpUnlock (pw salt : bytes)
| OpChange (old new salt0 newSalt : bytes) (ivs : nat -> bytes) (now : Z).
Inductive kresult :=
| RBool (b : bool)
| RKey (k : option CKey).

(** The key of a stored scalar. *)
Definition scalar_key (d : Z) : CKey := {| ck_priv := d; ck_compressed := true; ck_valid := true |}.

(** [None]: a wrong password, on which the vault makes no promise. *)
Definition vault_unlock (pw : bytes) (v : Vault) : option Vault :=
  if bool_decide (v_keys v = ∅) || bool_decide (pw = v_password v) then Some (v_set v false pw) else None.
Definition vault_op (o : kop) (v : Vault) : option (kresult * Vault) :=
  match o with
  | OpAdd kp _ _ =>
      if v_locked v then Some (RBool false, v)
      else Some (RBool true, {| v_locked := false; v_password := v_password v;
                                v_keys := <[kp_address kp := ck_priv (kp_key kp)]> (v_keys v) |})
  | OpGet a => Some (RKey (if v_locked v then None else scalar_key <$> v_keys v !! a), v)
  | OpLock => Some (RBool true, v_set v true (v_password v))
  | OpUnlock pw _ => v' ← vault_unlock pw v; Some (RBool true, v')
  | OpChange old new _ _ _ _ =>
      v' ← (if v_locked v then vault_unlock old v else Some v); Some (RBool true, v_set v' false new)
  end.
Fixpoint vault_run (ops : list kop) (v : Vault) : option (list kresult * Vault) :=
  match ops with
  | [] => Some ([], v)
  | o :: r => '(x, v) ← vault_op o v; '(xs, v) ← vault_run r v; Some (x :: xs, v)
  end.

Section Refinement.
Context {ossl : OpenSSL} {ec : EcKeys ossl} {ecl : EcKeysLaws ec} {cph : Cipher} {cl : CipherLaws cph}.

Definition store_op (o : kop) : KsM kresult :=
  match o with
  | OpAdd kp iv now => b ← AddKey kp iv now; mret (RBool b)
  | OpGet a => k ← GetKey a; mret (RKey k)
  | OpLock => _ ← kput Lock; mret (RBool true)
  | OpUnlock pw salt => b ← Unlock pw salt; mret (RBool b)
  | OpChange old new s0 ns ivs now => b ← ChangePassword old new s0 ns ivs now; mret (RBool b)
  end.
Fixpoint store_run (ops : list kop) : KsM (list kresult) :=
  match ops with
  | [] => mret []
  | o :: r => x ← store_op o; xs ← store_run r; mret (x :: xs)
  end.

(** The inputs: valid keys, 16-byte salts and 12-byte ivs. *)
Definition kop_wf (o : kop) : Prop :=
  match o with
  | OpAdd kp iv _ => key_ok (kp_key kp) /\ length iv = 12%nat
  | OpGet _ | OpLock => True
  | OpUnlock _ salt => length salt = 16%nat
  | OpChange _ _ s0 ns ivs _ => length s0 = 16%nat /\ length ns = 16%nat /\ forall i, length (ivs i) = 12%nat
  end.

(** * Lemmas *)

(** The entry decrypts to the scalar under the password. *)
Definition entry_ok (pw salt : bytes) (a : list ascii) (d : Z) (e : EncryptedKeyEntry) : Prop :=
  ke_address e = a /\ 0 < d < group_order /\ length (ke_iv e) = 12%nat /\ length (ke_tag e) = 16%nat /\
  exists k, PBKDF2 pw salt = Some k /\ gcm_decrypt k (ke_iv e) (ke_tag e) (ke_ciphertext e) = Some (BN_bn2binpad d 32).

Record holds (pw : bytes) (ks : CKeystore) (m : gmap (list ascii) Z) : Prop := {
  h_kek : ks_locked ks = false -> PBKDF2 pw (ks_salt ks) = Some (ks_kek ks);
  h_salt : ks_salt ks = [] -> ks_keys ks = ∅ /\ ks_locked ks = true;
  h_keys : forall a, option_Forall2 (entry_ok pw (ks_salt ks) a) (m !! a) (ks_keys ks !! a)
}.

Lemma new_keystore_holds pw : holds pw new_keystore ∅.
Proof. split; [done|done|]. intros a. rewrite !lookup_empty. constructor. Qed.

Lemma holds_empty pw ks m : holds pw ks m -> (m = ∅ <-> ks_keys ks = ∅).
Proof.
  intros [_ _ Hk]. split; intros E; apply map_eq; intros a; specialize (Hk a); rewrite E, lookup_empty in Hk;
    inversion Hk; by rewrite lookup_empty.
Qed.

(** The password does not matter while there are no keys. *)
Lemma holds_repassword pw pw' ks : holds pw ks ∅ -> ks_locked ks = true -> holds pw' ks ∅.
Proof.
  intros H Hl. destruct H as [_ Hs Hk]. split; [by rewrite Hl|done|]. intros a. specialize (Hk a).
  rewrite lookup_empty in *. inversion Hk. constructor.
Qed.

Lemma kek_length pw ks m : holds pw ks m -> ks_locked ks = false -> length (ks_kek ks) = 32%nat.
Proof. intros H Hl. destruct (PBKDF2_ok pw (ks_salt ks)) as (k & Hk & Hlen). rewrite (h_kek _ _ _ H Hl) in Hk. by simplify_eq. Qed.

Lemma sorted_keys_perm {A} (m : gmap (list ascii) A) : sorted_keys m ≡ₚ map_to_list m.
Proof. apply merge_sort_Permutation. Qed.

Lemma elem_of_GetAddresses ks a : a ∈ GetAddresses ks <-> is_Some (ks_keys ks !! a).
Proof.
  unfold GetAddresses. rewrite sorted_keys_perm. rewrite list_elem_of_fmap. split.
  - intros ([a' e] & -> & H). apply elem_of_map_to_list in H. by exists e.
  - intros [e He]. exists (a, e). split; [done|]. by apply elem_of_map_to_list.
Qed.

(** ** One entry *)

(** Encrypting a valid key under the current key adds it to the map. *)
Lemma store_key pw ks m a k iv now : holds pw ks m -> ks_locked ks = false -> key_ok k -> length iv = 12%nat ->
  exists ct, AesEncrypt (ks_kek ks) (GetPrivKey k) iv ks = Done (Ok ct, ks) /\
  holds pw (with_keys ks (<[a := make_entry a ct iv now]> (ks_keys ks))) (<[a := ck_priv k]> m).
Proof.
  intros H Hl Hk Hiv.
  destruct (gcm_encrypt_ok (ks_kek ks) iv (GetPrivKey k) (kek_length _ _ _ H Hl) Hiv) as (c & t & He & _ & Ht & Hd).
  exists (c, t). unfold AesEncrypt. rewrite He. split; [done|]. destruct H as [Hkek Hs Hkeys].
  split; cbn [with_keys ks_locked ks_salt ks_kek ks_keys].
  - done.
  - intros E. apply Hs in E as [_ E]. congruence.
  - intros a'. destruct (decide (a = a')) as [<-|Hne]; [|by rewrite !lookup_insert_ne].
    rewrite !lookup_insert_eq. constructor. split; [done|]. destruct Hk as [Hv Hr]. split; [done|].
    split; [done|]. split; [done|]. exists (ks_kek ks). split; [by apply Hkek|]. cbn.
    rewrite Hd. unfold GetPrivKey. by rewrite Hv.
Qed.

Lemma entry_decrypt pw ks a d e k ks' : entry_ok pw (ks_salt ks) a d e -> PBKDF2 pw (ks_salt ks) = Some k ->
  AesDecrypt k (ke_ciphertext e) (ke_iv e) (ke_tag e) ks' = Done (Ok (BN_bn2binpad d 32), ks').
Proof.
  intros (_ & _ & Hi & Ht & k' & Hk' & Hd) Hk. unfold AesDecrypt. rewrite Hi, Ht. cbn.
  rewrite !take_ge by lia. rewrite Hk in Hk'. injection Hk' as <-. by rewrite Hd.
Qed.

Lemma scalar_read d : 0 < d < group_order -> SetPrivKey new_CKey (BN_bn2binpad d 32) = (true, scalar_key d).
Proof.
  intros Hd. pose proof order_range. assert (E : BN_bin2bn (BN_bn2binpad d 32) = d).
  { apply bin2bn_bn2binpad. change (256 ^ Z.of_nat 32) with (2 ^ 256). lia. }
  rewrite SetPrivKey_range; [by rewrite E|apply length_bn2binpad|by rewrite E].
Qed.

Lemma GetKey_holds pw ks m a : holds pw ks m ->
  GetKey a ks = Done (Ok (if ks_locked ks then None else scalar_key <$> m !! a), ks).
Proof.
  intros H. unfold GetKey, mbind, KsM_bind, kget. destruct (ks_locked ks) eqn:Hl; [done|].
  pose proof (h_keys _ _ _ H a) as Ha. destruct (ks_keys ks !! a) as [e|] eqn:Ee; inversion Ha as [d ? He|]; subst; [|done].
  rewrite (entry_decrypt pw ks a d e) by (done || by apply H).
  rewrite length_bn2binpad. cbn [Nat.eqb negb]. destruct He as (_ & Hd & _). by rewrite scalar_read.
Qed.

Lemma AddKey_holds pw ks m kp iv now : holds pw ks m -> key_ok (kp_key kp) -> length iv = 12%nat ->
  exists ks', AddKey kp iv now ks = Done (Ok (negb (ks_locked ks)), ks') /\ ks_locked ks' = ks_locked ks /\
  ks_salt ks' = ks_salt ks /\
  holds pw ks' (if ks_locked ks then m else <[kp_address kp := ck_priv (kp_key kp)]> m).
Proof.
  intros H Hk Hiv. unfold AddKey, mbind, KsM_bind, kget. destruct (ks_locked ks) eqn:Hl; [by exists ks|].
  destruct (store_key pw ks m (kp_address kp) _ iv now H Hl Hk Hiv) as (ct & -> & Hh).
  eexists. split; [reflexivity|]. done.
Qed.

Lemma Lock_holds pw ks m : holds pw ks m -> holds pw (Lock ks) m.
Proof.
  intros [_ Hs Hk]. split; cbn; [done| |done]. intros E. by destruct (Hs E).
Qed.

(** With the right password (any, if there are no keys) the store opens. *)
Lemma Unlock_holds pw pw' ks m salt : holds pw ks m -> m = ∅ \/ pw' = pw -> length salt = 16%nat ->
  exists ks', Unlock pw' salt ks = Done (Ok true, ks') /\ ks_locked ks' = false /\ holds pw' ks' m.
Proof.
  intros H Hpw Hsalt. unfold Unlock, mbind, KsM_bind, kget, kput.
  set (ks1 := if (length (ks_salt ks) =? 0)%nat then with_salt ks salt else ks).
  assert (H1 : ks_salt ks1 <> [] /\ ks_keys ks1 = ks_keys ks /\
               forall a, option_Forall2 (entry_ok pw' (ks_salt ks1) a) (m !! a) (ks_keys ks1 !! a)).
  { unfold ks1. pose proof (holds_empty _ _ _ H) as He. destruct H as [_ Hs Hk].
    destruct (Nat.eqb_spec (length (ks_salt ks)) 0) as [E|E].
    - apply length_zero_iff_nil, Hs in E as [E _]. split; [by destruct salt|]. split; [done|].
      intros a. cbn [with_salt ks_keys]. apply He in E as Em. rewrite E, Em, !lookup_empty. constructor.
    - split; [by destruct (ks_salt ks)|]. split; [done|]. intros a. destruct Hpw as [->| ->]; [|done].
      rewrite (proj1 He eq_refl), !lookup_empty. constructor. }
  destruct H1 as (Hne & _ & Hk1). destruct (PBKDF2_ok pw' (ks_salt ks1)) as (k & Hk & _).
  unfold DeriveKey. rewrite Hk.
  assert (Hopen : holds pw' (with_locked (with_kek ks1 k) false) m) by (split; [done|done|exact Hk1]).
  exists (with_locked (with_kek ks1 k) false).
  destruct (sorted_keys (ks_keys ks1)) as [|[a e] l] eqn:Es; [done|].
  assert (Ha : ks_keys ks1 !! a = Some e).
  { apply elem_of_map_to_list. rewrite <- sorted_keys_perm, Es. left. }
  specialize (Hk1 a). rewrite Ha in Hk1. inversion Hk1 as [d ? He Ed|]; subst. unfold ktry.
  rewrite (entry_decrypt pw' ks1 a d e) by done. rewrite length_bn2binpad. done.
Qed.

(** ** Changing the password *)

Lemma copy_keys_holds pw ks m addrs : holds pw ks m -> ks_locked ks = false -> Forall (fun a => is_Some (m !! a)) addrs ->
  copy_keys addrs ks = Done (Ok (Some (map (fun a => scalar_key (default 0 (m !! a))) addrs)), ks).
Proof.
  intros H Hl. induction 1 as [|a addrs [d Hd] _ IH]; [done|]. cbn [copy_keys map]. unfold mbind, KsM_bind in *.
  rewrite (GetKey_holds pw ks m) by done. rewrite Hl, Hd. cbn. by rewrite IH.
Qed.

Definition add_all (m : gmap (list ascii) Z) (l : list (list ascii * CKey)) : gmap (list ascii) Z :=
  foldl (fun m ak => <[ak.1 := ck_priv ak.2]> m) m l.

Lemma reencrypt_holds pw l : forall ks m ivs i now, holds pw ks m -> ks_locked ks = false ->
  Forall (fun ak => key_ok ak.2) l -> (forall i, length (ivs i) = 12%nat) ->
  exists ks', reencrypt l ivs i now ks = Done (Ok tt, ks') /\ ks_locked ks' = false /\ holds pw ks' (add_all m l).
Proof.
  induction l as [|[a k] l IH]; intros ks m ivs i now H Hl Hk Hiv; [by exists ks|].
  apply Forall_cons in Hk as [Hk Hr]. cbn [reencrypt]. unfold mbind, KsM_bind, kget, kput.
  destruct (store_key pw ks m a k (ivs i) now H Hl Hk (Hiv i)) as (ct & -> & Hh). by apply IH.
Qed.

Lemma add_all_lookup (m : gmap (list ascii) Z) l : forall m0 a, Forall (fun ak => m !! ak.1 = Some (ck_priv ak.2)) l ->
  add_all m0 l !! a = if bool_decide (a ∈ map fst l) then m !! a else m0 !! a.
Proof.
  induction l as [|[b k] l IH]; intros m0 a Hl; [done|]. apply Forall_cons in Hl as [Hb Hl]. cbn [add_all foldl map fst].
  fold (add_all (<[b := ck_priv k]> m0) l). rewrite IH by done.
  destruct (decide (a = b)) as [->|Hne].
  - rewrite lookup_insert_eq, (bool_decide_true (b ∈ b :: _)) by left. cbn in Hb. rewrite Hb. by case_bool_decide.
  - rewrite lookup_insert_ne by done. by rewrite (bool_decide_ext (a ∈ b :: map fst l) (a ∈ map fst l))
      by (rewrite elem_of_cons; tauto).
Qed.

(** Storing again every key of the map, in any order, gives the map. *)
Lemma add_all_again (m : gmap (list ascii) Z) addrs : (forall a, a ∈ addrs <-> is_Some (m !! a)) ->
  add_all ∅ (zip addrs (map (fun a => scalar_key (default 0 (m !! a))) addrs)) = m.
Proof.
  intros Ha. set (l := zip _ _).
  assert (Hl : forall a k, (a, k) ∈ l -> m !! a = Some (ck_priv k) ).
  { unfold l. intros a k Hin. rewrite zip_with_fmap_r, zip_with_diag in Hin. apply list_elem_of_fmap in Hin as (b & E & Hb).
    apply Ha in Hb as [d Hd]. injection E as -> ->. by rewrite Hd. }
  assert (Hf : map fst l = addrs).
  { unfold l. change (map fst ?x) with (fst <$> x). rewrite fst_zip; [done|]. by rewrite length_map. }
  apply map_eq. intros a. rewrite (add_all_lookup m).
  - rewrite Hf, lookup_empty. case_bool_decide as Hin; [done|]. destruct (m !! a) eqn:E; [|done].
    exfalso. apply Hin, Ha. by rewrite E.
  - apply Forall_forall. intros [a' k] Hin. by apply Hl.
Qed.

Lemma rekey_holds pw new ns ivs now ks m : holds pw ks m -> ks_locked ks = false ->
  length ns = 16%nat -> (forall i, length (ivs i) = 12%nat) ->
  exists ks', rekey new ns ivs now ks = Done (Ok true, ks') /\ ks_locked ks' = false /\ holds new ks' m.
Proof.
  intros H Hl Hns Hiv. unfold rekey, mbind, KsM_bind, kget, kput.
  assert (Hdom : forall a, a ∈ GetAddresses ks <-> is_Some (m !! a)).
  { intros a. rewrite elem_of_GetAddresses. pose proof (h_keys _ _ _ H a) as Ha. inversion Ha; by rewrite !is_Some_alt. }
  rewrite (copy_keys_holds pw ks m) by (done || by apply Forall_forall; intros a Ha; apply Hdom).
  destruct (PBKDF2_ok new ns) as (k & Hk & _). unfold DeriveKey. rewrite Hk.
  set (ks0 := with_keys _ _). assert (H0 : holds new ks0 ∅).
  { split; cbn; [done| |]; [by destruct ns|]. intros a. rewrite !lookup_empty. constructor. }
  destruct (reencrypt_holds new (zip (GetAddresses ks) (map (fun a => scalar_key (default 0 (m !! a))) (GetAddresses ks)))
              ks0 ∅ ivs 0 now H0 Hl) as (ks' & -> & Hl' & Hh'); [|done|].
  - apply Forall_forall. intros [a k'] Hin. rewrite zip_with_fmap_r, zip_with_diag in Hin.
    apply list_elem_of_fmap in Hin as (b & E & Hb). injection E as -> ->. split; [done|]. cbn.
    pose proof (h_keys _ _ _ H b) as Hb'. apply elem_of_GetAddresses in Hb as [e He]. rewrite He in Hb'.
    inversion Hb' as [d ? Hd|]. cbn. apply Hd.
  - exists ks'. split; [done|]. split; [done|]. by rewrite add_all_again in Hh'.
Qed.

Definition simulates (ks : CKeystore) (v : Vault) : Prop :=
  ks_locked ks = v_locked v /\ holds (v_password v) ks (v_keys v).

Lemma vault_unlock_Some pw v v' : vault_unlock pw v = Some v' ->
  (v_keys v = ∅ \/ pw = v_password v) /\ v' = v_set v false pw.
Proof.
  unfold vault_unlock. case_bool_decide; cbn [orb]; [by intros [= <-]; auto|].
  case_bool_decide; [by intros [= <-]; auto|done].
Qed.

Lemma store_op_simulates o ks v r v' : simulates ks v -> kop_wf o -> vault_op o v = Some (r, v') ->
  exists ks', store_op o ks = Done (Ok r, ks') /\ simulates ks' v'.
Proof.
  intros [Hl H] Hw Hs. destruct o as [kp iv now|a| |pw salt|old new s0 ns ivs now]; cbn [kop_wf vault_op] in Hw, Hs;
    unfold store_op; unfold mbind at 1, KsM_bind.
  - destruct Hw as [Hk Hiv]. destruct (AddKey_holds _ _ _ kp iv now H Hk Hiv) as (ks' & -> & El & _ & Hh). exists ks'.
    rewrite Hl in *. destruct (v_locked v) eqn:Ev; simplify_eq; (split; [done|]); split; cbn; congruence || done.
  - rewrite (GetKey_holds _ _ _ a H), Hl. simplify_eq. by exists ks.
  - simplify_eq. exists (Lock ks). split; [done|]. split; [done|]. by apply Lock_holds.
  - apply bind_Some in Hs as (v1 & E & Hs). simplify_eq. apply vault_unlock_Some in E as [Hp ->].
    destruct (Unlock_holds _ pw ks _ salt H Hp Hw) as (ks' & -> & El & Hh). by exists ks'.
  - destruct Hw as (Hs0 & Hns & Hiv). apply bind_Some in Hs as (v1 & E & Hs). simplify_eq.
    unfold ChangePassword, mbind, KsM_bind, kget. rewrite Hl.
    assert (Hopen : exists pw ks1, (if v_locked v then Unlock old s0 else mret true) ks = Done (Ok true, ks1) /\
              ks_locked ks1 = false /\ holds pw ks1 (v_keys v1)).
    { destruct (v_locked v) eqn:Ev.
      - apply vault_unlock_Some in E as [Hp ->].
        destruct (Unlock_holds _ old ks _ s0 H Hp Hs0) as (ks1 & -> & ?). by exists old, ks1.
      - simplify_eq. exists (v_password v1), ks. done. }
    destruct Hopen as (pw & ks1 & -> & El & Hh). cbn [negb].
    destruct (rekey_holds pw new ns ivs now ks1 _ Hh El Hns Hiv) as (ks' & -> & El' & Hh'). by exists ks'.
Qed.

Lemma store_run_simulates ops : forall ks v rs v', simulates ks v -> Forall kop_wf ops -> vault_run ops v = Some (rs, v') ->
  exists ks', store_run ops ks = Done (Ok rs, ks') /\ simulates ks' v'.
Proof.
  induction ops as [|o ops IH]; intros ks v rs v' Hsim Hw Hv; cbn [vault_run store_run] in *.
  - simplify_eq. by exists ks.
  - apply Forall_cons in Hw as [Ho Hops]. apply bind_Some in Hv as ([x v1] & Hx & Hv).
    apply bind_Some in Hv as ([xs v2] & Hxs & Hv). simplify_eq.
    destruct (store_op_simulates o ks v x v1 Hsim Ho Hx) as (ks1 & E1 & S1).
    destruct (IH ks1 v1 xs v' S1 Hops Hxs) as (ks2 & E2 & S2). exists ks2. split; [|done].
    unfold mbind, KsM_bind. by rewrite E1, E2.
Qed.

End Refinement.

(** ** The file *)

Lemma chr_ascii_Z c : chr (ascii_Z c) = c.
Proof. unfold chr, ascii_Z. rewrite Nat2Z.id. apply ascii_nat_embedding. Qed.

Lemma string_chars_bytes a : string_chars (chars_bytes a) = a.
Proof. unfold string_chars, chars_bytes. rewrite map_map. induction a as [|c a IH]; [done|]. cbn. by rewrite chr_ascii_Z, IH. Qed.

Definition short (b : bytes) : Prop := Z.of_nat (length b) < 2 ^ 64.
Definition entry_wf (e : EncryptedKeyEntry) : Prop :=
  Z.of_nat (length (ke_address e)) < 2 ^ 64 /\ short (ke_ciphertext e) /\ short (ke_iv e) /\ short (ke_tag e) /\ is_u64 (ke_created e).
(** A store that fits the format: each entry is filed under its address. *)
Definition keystore_wf (ks : CKeystore) : Prop :=
  short (ks_salt ks) /\ (size (ks_keys ks) <= Z.to_nat 1000000)%nat /\
  map_Forall (fun a e => ke_address e = a /\ entry_wf e) (ks_keys ks).

Lemma reads_entry e : entry_wf e -> reads ReadEntry (SerializeEntry e) e.
Proof.
  intros (Ha & Hc & Hi & Ht & Hn). unfold ReadEntry, SerializeEntry.
  eapply reads_bind; [apply reads_varstr; unfold chars_bytes; by rewrite length_map|].
  eapply reads_bind; [by apply reads_varstr|]. eapply reads_bind; [by apply reads_varstr|].
  eapply reads_bind; [by apply reads_varstr|]. eapply reads_bind_ret; [by apply reads_u64|].
  rewrite string_chars_bytes. by destruct e.
Qed.

Lemma reload_entries (m : gmap (list ascii) EncryptedKeyEntry) : map_Forall (fun a e => ke_address e = a) m ->
  foldl (fun m e => <[ke_address e := e]> m) ∅ (map snd (sorted_keys m)) = m.
Proof.
  intros Hm.
  assert (G : forall l (m0 : gmap (list ascii) EncryptedKeyEntry), Forall (fun kv => ke_address kv.2 = kv.1) l -> NoDup (map fst l) ->
            foldl (fun m e => <[ke_address e := e]> m) m0 (map snd l) = (list_to_map l : gmap (list ascii) EncryptedKeyEntry) ∪ m0).
  { induction l as [|[a e] l IH]; intros m0 Hl Hn; cbn [map foldl list_to_map snd fst foldr].
    - by rewrite (left_id_L ∅ (∪)).
    - apply Forall_cons in Hl as [Ha Hl]. cbn in Ha. apply NoDup_cons in Hn as [Hin Hn].
      rewrite IH, Ha by done. rewrite <- insert_union_l. symmetry. apply insert_union_r.
      by apply not_elem_of_list_to_map_1. }
  rewrite G.
  - rewrite (right_id_L ∅ (∪)). etransitivity; [|apply (list_to_map_to_list m)]. apply list_to_map_proper.
    + rewrite sorted_keys_perm. apply NoDup_fst_map_to_list.
    + apply sorted_keys_perm.
  - apply Forall_forall. intros [a e] Hin. rewrite sorted_keys_perm in Hin. apply elem_of_map_to_list in Hin. by apply Hm in Hin.
  - change (NoDup ((sorted_keys m).*1)). rewrite sorted_keys_perm. apply NoDup_fst_map_to_list.
Qed.

(** The reader stands at [pos] in [p] and [rest] is left. *)
Definition standing (p : bytes) (pos : nat) (rest : bytes) : Prop := (pos <= length p)%nat /\ drop pos p = rest.

Lemma standing_read {A} (m : Rd A) bs a p pos rest : reads m bs a -> standing p pos (bs ++ rest) ->
  m {| d_p := p; d_pos := pos |} = Some (a, {| d_p := p; d_pos := pos + length bs |}) /\
  standing p (pos + length bs) rest.
Proof.
  intros Hm [Hp Hd]. split; [by apply (Hm p pos rest)|]. split; [by eapply drop_room|by eapply drop_consume].
Qed.

(** Executes the next read of the goal with the [reads] fact given. *)
Ltac read_step H lem :=
  let E := fresh in let H' := fresh in
  destruct (standing_read _ _ _ _ _ _ lem H) as [E H']; clear H; rename H' into H;
  rewrite E; clear E; cbn [or_throw mbind res_bind].

Lemma keystore_reload ks : keystore_wf ks ->
  DeserializeKeystore (SerializeKeystore ks) =
  Ok {| ks_locked := true; ks_salt := ks_salt ks; ks_kek := []; ks_keys := ks_keys ks |}.
Proof.
  intros (Hsalt & Hsz & Hk).
  assert (Hlen : Z.of_nat (size (ks_keys ks)) <= 1000000) by lia.
  set (es := map snd (sorted_keys (ks_keys ks))).
  assert (Hes : length es = size (ks_keys ks)).
  { unfold es. rewrite length_map. rewrite sorted_keys_perm. apply length_map_to_list. }
  assert (Hser : flat_map (fun kv => SerializeEntry kv.2) (sorted_keys (ks_keys ks)) = flat_map SerializeEntry es).
  { unfold es. by rewrite !flat_map_concat_map, map_map. }
  assert (Hwf : Forall entry_wf es).
  { apply Forall_map, Forall_forall. intros [a e] Hin. rewrite sorted_keys_perm in Hin.
    apply elem_of_map_to_list in Hin. by apply Hk in Hin as [_ ?]. }
  assert (Hread : reads (read_n ReadEntry (length es)) (flat_map SerializeEntry es) es).
  { apply reads_list. rewrite Forall_forall in Hwf. intros e He. by apply reads_entry, Hwf. }
  unfold SerializeKeystore. rewrite Hser. set (data := KEYSTORE_MAGIC ++ _).
  assert (HS : standing data 0 (data ++ [])) by (split; [lia|by rewrite app_nil_r]).
  unfold data in HS at 2. rewrite <- !app_assoc in HS. unfold DeserializeKeystore.
  read_step HS (reads_bytes 4 KEYSTORE_MAGIC eq_refl). rewrite bool_decide_true by done. cbn [negb fail_if mbind res_bind].
  read_step HS (reads_u8 KEYSTORE_VERSION). change (negb (KEYSTORE_VERSION =? KEYSTORE_VERSION)) with false.
  cbn [fail_if mbind res_bind]. read_step HS (reads_varstr (ks_salt ks) Hsalt).
  assert (H64 : is_u64 (Z.of_nat (size (ks_keys ks)))) by (unfold is_u64; lia). read_step HS (reads_varint _ H64).
  destruct (Z.gtb_spec (Z.of_nat (size (ks_keys ks))) 1000000); [lia|]. cbn [fail_if mbind res_bind].
  rewrite Hes in Hread. rewrite Nat2Z.id. read_step HS Hread.
  unfold es. rewrite reload_entries; [done|]. intros a e He. by apply Hk in He as [? _].
Qed.

(** ** A concrete cipher, for evaluation: the tag is half of the key *)

Definition toy_cipher : Cipher := {|
  PBKDF2 := fun pw salt => Some (take 32 (pw ++ salt ++ repeat 0 32));
  gcm_encrypt := fun key iv p => Some (p, take 16 key);
  gcm_decrypt := fun key iv tag c => if bool_decide (tag = take 16 key) then Some c else None |}.

#[export] Instance toy_cipher_laws : CipherLaws toy_cipher.
Proof.
  split.
  - intros pw salt. eexists. split; [reflexivity|]. rewrite length_take, !length_app, repeat_length. lia.
  - intros key iv p Hk _. exists p, (take 16 key). cbn. rewrite bool_decide_true by done. split_and!; try done.
    rewrite length_take. lia.
Qed.

(** * Properties *)

(** C22: the key store implements the abstract vault: from a new store, any
    sequence of additions, look-ups, locks, unlocks with the current password
    and password changes runs without undefined behaviour or exception, returns
    exactly the vault's results, and leaves every key decryptable with the
    current password. *)
Theorem keystore_refines_vault {ossl : OpenSSL} {ec : EcKeys ossl} {ecl : EcKeysLaws ec} {cph : Cipher}
    {cl : CipherLaws cph} (ops : list kop) rs v :
  Forall kop_wf ops -> vault_run ops new_vault = Some (rs, v) ->
  exists ks, store_run ops new_keystore = Done (Ok rs, ks) /\ ks_locked ks = v_locked v /\
    forall a, option_Forall2 (entry_ok (v_password v) (ks_salt ks) a) (v_keys v !! a) (ks_keys ks !! a).
Proof.
  intros Hw Hv. destruct (store_run_simulates ops new_keystore new_vault rs v) as (ks & E & Hl & Hh); try done.
  - split; [done|]. apply new_keystore_holds.
  - exists ks. split; [done|]. split; [done|]. apply Hh.
Qed.

(** The wallet file: a store written by [Serialize] is read back by
    [Deserialize] locked, with the same salt and entries; the password that
    opened it opens it again, and every key is then returned unchanged. *)
Theorem keystore_file_roundtrip {ossl : OpenSSL} {ec : EcKeys ossl} {ecl : EcKeysLaws ec} {cph : Cipher}
    {cl : CipherLaws cph} (pw salt : bytes) (ks : CKeystore) (m : gmap (list ascii) Z) :
  keystore_wf ks -> holds pw ks m -> length salt = 16%nat ->
  exists ks1 ks2, DeserializeKeystore (SerializeKeystore ks) = Ok ks1 /\ ks_locked ks1 = true /\
    ks_salt ks1 = ks_salt ks /\ ks_keys ks1 = ks_keys ks /\
    Unlock pw salt ks1 = Done (Ok true, ks2) /\
    forall a, GetKey a ks2 = Done (Ok (scalar_key <$> m !! a), ks2).
Proof.
  intros Hw Hh Hs. set (ks1 := {| ks_locked := true; ks_salt := ks_salt ks; ks_kek := []; ks_keys := ks_keys ks |}).
  assert (Hh1 : holds pw ks1 m).
  { destruct Hh as [_ H1 H2]. split; [done| |done]. intros E. by destruct (H1 E). }
  destruct (Unlock_holds pw pw ks1 m salt Hh1 (or_intror eq_refl) Hs) as (ks2 & E & Hl & H2).
  exists ks1, ks2. split; [by apply keystore_reload|]. do 3 (split; [done|]). split; [exact E|].
  intros a. by rewrite (GetKey_holds pw ks2 m), Hl.
Qed.

#[local] Existing Instance mini_ossl.
#[local] Existing Instance mini_ec.
#[local] Existing Instance toy_cipher.

Definition wit_kp (d : Z) : CKeyPair := keypair_of (scalar_key d) 0x1E.
Definition wit_iv : bytes := repeat 1 12.
Definition wit_salt : bytes := repeat 7 16.
Definition wit_ops : list kop := [
  OpUnlock [1] wit_salt; OpAdd (wit_kp 42) wit_iv 5; OpAdd (wit_kp 77) wit_iv 6; OpLock; OpGet (kp_address (wit_kp 42));
  OpChange [1] [2] wit_salt wit_salt (fun _ => wit_iv) 9; OpLock; OpUnlock [2] wit_salt; OpGet (kp_address (wit_kp 77))].

Lemma wit_ops_wf : Forall kop_wf wit_ops.
Proof. repeat (apply Forall_cons_2; [vm_compute; intuition (try reflexivity; try lia)|]). apply Forall_nil_2. Qed.

(** The vault after the operations, evaluated once. *)
Lemma wit_run_vault : exists rs v, vault_run wit_ops new_vault = Some (rs, v) /\ v_locked v = false /\
  last rs = Some (RKey (Some (scalar_key 77))).
Proof.
  assert (match vault_run wit_ops new_vault with
          | Some (rs, v) => v_locked v = false /\ last rs = Some (RKey (Some (scalar_key 77))) | None => False end) as H
    by (vm_compute; split; reflexivity).
  destruct (vault_run wit_ops new_vault) as [[rs v]|]; [|destruct H]. exists rs, v. split; [reflexivity|exact H].
Qed.

Lemma keystore_refines_vault_witness :
  exists rs v, vault_run wit_ops new_vault = Some (rs, v) /\
    (exists ks, store_run wit_ops new_keystore = Done (Ok rs, ks) /\ ks_locked ks = false) /\
    last rs = Some (RKey (Some (scalar_key 77))).
Proof.
  destruct wit_run_vault as (rs & v & Hr & Hu & Hlast). exists rs, v. split; [exact Hr|]. split; [|exact Hlast].
  destruct (keystore_refines_vault wit_ops rs v wit_ops_wf Hr) as (ks & E & Hl & _).
  exists ks. split; [exact E|rewrite Hl; exact Hu].
Defined.

Definition wit_store : CKeystore :=
  match store_run [OpUnlock [1] wit_salt; OpAdd (wit_kp 42) wit_iv 5] new_keystore with Done (_, ks) => ks | Undef => new_keystore end.
Definition wit_entry : EncryptedKeyEntry :=
  make_entry (kp_address (wit_kp 42)) (GetPrivKey (scalar_key 42), 1 :: repeat 7 15) wit_iv 5.

Lemma wit_store_holds : holds [1] wit_store {[kp_address (wit_kp 42) := 42]}.
Proof.
  edestruct (store_run_simulates [OpUnlock [1] wit_salt; OpAdd (wit_kp 42) wit_iv 5] new_keystore new_vault)
    as (ks & E & _ & Hh); [split; [done|apply new_keystore_holds]| |reflexivity|].
  - repeat (apply Forall_cons_2; [vm_compute; intuition (try reflexivity; try lia)|]). apply Forall_nil_2.
  - unfold wit_store. rewrite E. exact Hh.
Qed.

Lemma wit_store_wf : keystore_wf wit_store.
Proof.
  assert (E : ks_keys wit_store = {[kp_address (wit_kp 42) := wit_entry]}) by (vm_compute; reflexivity).
  unfold keystore_wf. rewrite E. split; [vm_compute; reflexivity|]. split; [rewrite map_size_singleton; lia|].
  apply map_Forall_singleton. split; [reflexivity|]. vm_compute. intuition (try reflexivity; try discriminate).
Qed.

Lemma keystore_file_roundtrip_witness :
  exists ks1 ks2, DeserializeKeystore (SerializeKeystore wit_store) = Ok ks1 /\
    Unlock [1] wit_salt ks1 = Done (Ok true, ks2) /\
    GetKey (kp_address (wit_kp 42)) ks2 = Done (Ok (Some (scalar_key 42)), ks2).
Proof.
  destruct (keystore_file_roundtrip [1] wit_salt wit_store _ wit_store_wf wit_store_holds eq_refl)
    as (ks1 & ks2 & E & _ & _ & _ & EU & EG).
  exists ks1, ks2. split; [exact E|]. split; [exact EU|]. rewrite EG, lookup_singleton_eq. reflexivity.
Defined.

(** A damaged wallet file is accepted with an iv of any length, and the unlock
    that follows reads past its end. *)
Lemma damaged_iv_undefined :
  let e := {| ke_address := kp_address (wit_kp 42); ke_ciphertext := repeat 0 32; ke_iv := [1; 2; 3]; ke_tag := repeat 0 16; ke_created := 5 |} in
  let file := SerializeKeystore {| ks_locked := true; ks_salt := wit_salt; ks_kek := []; ks_keys := {[ke_address e := e]} |} in
  exists ks, DeserializeKeystore file = Ok ks /\ Unlock [1] wit_salt ks = Undef.
Proof. eexists. split; vm_compute; reflexivity. Qed.

(** The old password is not asked for while the store is unlocked. *)
Lemma change_password_unlocked_ignores_old :
  exists ks, ChangePassword [9; 9; 9] [2] wit_salt wit_salt (fun _ => wit_iv) 9 wit_store = Done (Ok true, ks).
Proof. eexists. vm_compute. reflexivity. Qed.
