(* ===== verification/Script.v ===== *)
(** [script/]: the P2PKH script interpreter.  The stack is a list whose head
    is [stack.back()].  [EvalScript] walks the script with a position; the
    model keeps the bytes from that position on. *)
From S2P Require Import Prelude UInt256 Crypto.

Module Script.

(** * Opcodes ([script/opcodes.h]) *)

Definition OP_0 : Z := 0x00.
Definition OP_PUSHDATA1 : Z := 0x4c.
Definition OP_PUSHDATA2 : Z := 0x4d.
Definition OP_PUSHDATA4 : Z := 0x4e.
Definition OP_1NEGATE : Z := 0x4f.
Definition OP_1 : Z := 0x51.
Definition OP_16 : Z := 0x60.
Definition OP_DUP : Z := 0x76.
Definition OP_EQUAL : Z := 0x87.
Definition OP_EQUALVERIFY : Z := 0x88.
Definition OP_VERIFY : Z := 0x69.
Definition OP_CHECKSIG : Z := 0xac.
Definition OP_CHECKSIGVERIFY : Z := 0xad.
Definition OP_HASH160 : Z := 0xa9.
Definition OP_RETURN : Z := 0x6a.

Definition MAX_SCRIPT_SIZE : Z := 10000.
Definition MAX_SCRIPT_ELEMENT_SIZE : Z := 520.

(** * Script templates *)

Definition BuildP2PKHScript (hash160 : bytes) : bytes :=
  [OP_DUP; OP_HASH160; 0x14] ++ take 20 hash160 ++ [OP_EQUALVERIFY; OP_CHECKSIG].

Definition IsP2PKHScript (script : bytes) : bool :=
  if negb (Z.of_nat (length script) =? 25) then false
  else (nth 0 script 0 =? OP_DUP) && (nth 1 script 0 =? OP_HASH160) &&
       (nth 2 script 0 =? 0x14) && (nth 23 script 0 =? OP_EQUALVERIFY) &&
       (nth 24 script 0 =? OP_CHECKSIG).

Definition ExtractP2PKHHash (script : bytes) : option bytes :=
  if negb (IsP2PKHScript script) then None else Some (take 20 (drop 3 script)).

(** * Data pushes *)

(** [if (len < h + n) return false; data.assign(p + h, p + h + n);
    consumed = h + n; return true] *)
Definition push_at (p : bytes) (h : nat) (n : Z) : option (nat * bytes) :=
  if Z.of_nat (length p) <? Z.of_nat h + n then None
  else Some ((h + Z.to_nat n)%nat, take (Z.to_nat n) (drop h p)).

(** The bytes consumed and the data pushed; [None] is [return false]. *)
Definition ParsePush (p : bytes) : option (nat * bytes) :=
  if Z.of_nat (length p) <? 1 then None
  else
    let op := nth 0 p 0 in
    if (1 <=? op) && (op <=? 75) then push_at p 1 op
    else if op =? OP_PUSHDATA1 then
      if Z.of_nat (length p) <? 2 then None else push_at p 2 (nth 1 p 0)
    else if op =? OP_PUSHDATA2 then
      if Z.of_nat (length p) <? 3 then None
      else push_at p 3 (Z.lor (nth 1 p 0) (Z.shiftl (nth 2 p 0) 8))
    else if op =? OP_PUSHDATA4 then
      if Z.of_nat (length p) <? 5 then None
      else push_at p 5 (le_read (take 4 (drop 1 p)))
    else None.

(** The loop of [GetScriptSigPubKey]; [fuel] bounds the iterations, each of
    which consumes at least one byte. *)
Fixpoint last_push (fuel : nat) (p last : bytes) : bytes :=
  match fuel with
  | O => last
  | S k =>
      if Z.of_nat (length p) =? 0 then last
      else match ParsePush p with
           | Some (consumed, data) => last_push k (drop consumed p) data
           | None => last
           end
  end.
Definition GetScriptSigPubKey (scriptSig : bytes) : bytes :=
  last_push (length scriptSig) scriptSig [].

(** * Evaluation *)

Section Eval.
Context {ossl : OpenSSL}.

Abbreviation stack := (list bytes).

Definition bool_item (b : bool) : bytes := if b then [1] else [].
(** [v.empty() || (v.size() == 1 && v[0] == 0)] *)
Definition is_false (v : bytes) : bool :=
  (Z.of_nat (length v) =? 0) || ((Z.of_nat (length v) =? 1) && (nth 0 v 0 =? 0)).

(** The [switch (op)] of [EvalScript]. *)
Definition exec_op (op : Z) (hash32 : option bytes) (st : stack) : res stack :=
  if op =? OP_DUP then
    match st with [] => Err "OP_DUP: empty stack" | v :: r => Ok (v :: v :: r) end
  else if (op =? OP_EQUAL) || (op =? OP_EQUALVERIFY) then
    match st with
    | a :: b :: r =>
        let eq := bool_decide (a = b) in
        if op =? OP_EQUALVERIFY
        then if negb eq then Err "OP_EQUALVERIFY failed" else Ok r
        else Ok (bool_item eq :: r)
    | _ => Err "OP_EQUAL: stack underflow"
    end
  else if op =? OP_VERIFY then
    match st with
    | [] => Err "OP_VERIFY: empty stack"
    | v :: r => if is_false v then Err "OP_VERIFY failed" else Ok r
    end
  else if op =? OP_HASH160 then
    match st with
    | [] => Err "OP_HASH160: empty stack"
    | v :: r => Ok (HASH160 v :: r)
    end
  else if (op =? OP_CHECKSIG) || (op =? OP_CHECKSIGVERIFY) then
    match st with
    | pubkey :: sig :: r =>
        match hash32 with
        | None => Err "no hash for CHECKSIG"
        | Some h =>
            let ok := VerifySignature h sig pubkey in
            if op =? OP_CHECKSIGVERIFY
            then if negb ok then Err "OP_CHECKSIGVERIFY failed" else Ok r
            else Ok (bool_item ok :: r)
        end
    | _ => Err "OP_CHECKSIG: stack underflow"
    end
  else if op =? OP_RETURN then Err "OP_RETURN"
  else if op =? OP_0 then Ok ([] :: st)
  else if (OP_1 <=? op) && (op <=? OP_16) then Ok ([u8 (op - OP_1 + 1)] :: st)
  else if op =? OP_1NEGATE then Ok ([0x81] :: st)
  else Err "unsupported opcode".

(** One iteration of the loop on the non-empty rest [p] of the script: the
    rest of the script after it and the new stack. *)
Definition eval_step (p : bytes) (hash32 : option bytes) (st : stack) : res (bytes * stack) :=
  match ParsePush p with
  | Some (consumed, pushed) =>
      if Z.of_nat (length pushed) >? MAX_SCRIPT_ELEMENT_SIZE then Err "push too large"
      else Ok (drop consumed p, pushed :: st)
  | None => st' ← exec_op (nth 0 p 0) hash32 st; Ok (drop 1 p, st')
  end.

(** The loop of [EvalScript]; [budget] is [201 - opCount], so running out of
    it is the [opCount > 201] error of the code. *)
Fixpoint eval_loop (budget : nat) (p : bytes) (hash32 : option bytes) (st : stack) : res stack :=
  match p with
  | [] => Ok st
  | _ :: _ =>
      match budget with
      | O => Err "too many operations"
      | S k => '(p', st') ← eval_step p hash32 st; eval_loop k p' hash32 st'
      end
  end.

Definition EvalScript (script : bytes) (hash32 : option bytes) (st : stack) : res stack :=
  if Z.of_nat (length script) >? MAX_SCRIPT_SIZE then Err "script too large"
  else eval_loop 201 script hash32 st.

Definition VerifyScript (scriptSig scriptPubKey : bytes) (hash32 : option bytes) : res unit :=
  st ← EvalScript scriptSig hash32 [];
  st ← EvalScript scriptPubKey hash32 st;
  match st with
  | [] => Err "empty stack after script"
  | top :: _ => if is_false top then Err "false stack top" else Ok tt
  end.

End Eval.

(** * Lemmas *)

Lemma push_at_Some p h n c d : 0 <= n ->
  push_at p h n = Some (c, d) -> (h <= c <= length p)%nat /\ Z.of_nat (length d) = n.
Proof.
  unfold push_at. intros Hn. case_match eqn:E; [done|]. intros [= <- <-].
  apply Z.ltb_ge in E. rewrite length_take, length_drop. split; lia.
Qed.

Lemma nth_byte p i : bytes_wf p -> is_u8 (nth i p 0).
Proof.
  intros Hp. destruct (nth_in_or_default i p 0) as [Hin| ->]; [|by vm_compute].
  eapply Forall_forall; [exact Hp|]. by apply list_elem_of_In.
Qed.

(** A push consumes at least its opcode and stays inside the script. *)
Lemma ParsePush_consumed p c d : bytes_wf p ->
  ParsePush p = Some (c, d) -> (1 <= c <= length p)%nat.
Proof.
  intros Hp H. unfold ParsePush in H.
  assert (0 <= le_read (take 4 (drop 1 p))) as Hr.
  { apply le_read_bound. by apply Forall_take, Forall_drop. }
  pose proof (nth_byte p 0 Hp). pose proof (nth_byte p 1 Hp). pose proof (nth_byte p 2 Hp).
  assert (0 <= Z.lor (nth 1 p 0) (Z.shiftl (nth 2 p 0) 8)).
  { apply Z.lor_nonneg. split; [u_range|]. apply Z.shiftl_nonneg. u_range. }
  repeat case_if; try done; apply push_at_Some in H as [? _]; u_range || lia.
Qed.

(** A direct push of [1] to [75] bytes. *)
Lemma ParsePush_direct d rest : (1 <= length d <= 75)%nat ->
  ParsePush (Z.of_nat (length d) :: d ++ rest) = Some (S (length d), d).
Proof.
  intros Hd. unfold ParsePush. cbn [length nth].
  destruct (Z.ltb_spec (Z.of_nat (S (length (d ++ rest)))) 1); [lia|].
  destruct (Z.leb_spec 1 (Z.of_nat (length d))); [|lia].
  destruct (Z.leb_spec (Z.of_nat (length d)) 75); [|lia]. cbn [andb].
  unfold push_at. cbn [length drop]. rewrite length_app, Nat2Z.id.
  match goal with |- context [?a <? ?b] => destruct (Z.ltb_spec a b) end; [lia|].
  by rewrite drop_0, take_app_length.
Qed.

(** The two pushes of a standard input script. *)
Definition sig_script (sig pubkey : bytes) : bytes :=
  Z.of_nat (length sig) :: sig ++ Z.of_nat (length pubkey) :: pubkey.

Lemma BuildP2PKH_length h : length h = 20%nat -> length (BuildP2PKHScript h) = 25%nat.
Proof. intros. unfold BuildP2PKHScript. by rewrite !length_app, length_take, H. Qed.

Lemma nth_app_end {A} (l : list A) i r d : length l = i -> nth i (l ++ r) d = nth 0 r d.
Proof. intros <-. rewrite app_nth2 by lia. by rewrite Nat.sub_diag. Qed.

Lemma BuildP2PKH_is h : length h = 20%nat -> IsP2PKHScript (BuildP2PKHScript h) = true.
Proof.
  intros Hh. unfold IsP2PKHScript. rewrite BuildP2PKH_length by done.
  do 21 (destruct h as [|? h]; [try done|]); done.
Qed.

Lemma list_split_25 {A} (d : A) (s : list A) : length s = 25%nat ->
  s = [nth 0 s d; nth 1 s d; nth 2 s d] ++ take 20 (drop 3 s) ++ [nth 23 s d; nth 24 s d].
Proof. intros Hs. do 26 (destruct s as [|? s]; [try done|]); done. Qed.

(** The template test accepts exactly the scripts the builder produces. *)
Lemma IsP2PKH_iff s :
  IsP2PKHScript s = true <->
  length s = 25%nat /\ s = BuildP2PKHScript (take 20 (drop 3 s)).
Proof.
  split.
  - intros H. unfold IsP2PKHScript in H.
    destruct (Z.eqb_spec (Z.of_nat (length s)) 25) as [Hl|]; [|done].
    assert (length s = 25%nat) as Hs by lia. split; [done|]. cbn [negb] in H.
    rewrite !andb_true_iff, !Z.eqb_eq in H. destruct H as [[[[E0 E1] E2] E3] E4].
    rewrite (list_split_25 0 s Hs) at 1. rewrite E0, E1, E2, E3, E4.
    unfold BuildP2PKHScript. by rewrite take_take.
  - intros [Hl Hs]. rewrite Hs. apply BuildP2PKH_is.
    rewrite length_take, length_drop, Hl. done.
Qed.

Section EvalFacts.
Context {ossl : OpenSSL}.
Abbreviation stack := (list bytes).

Lemma eval_loop_nil k h st : eval_loop k [] h st = Ok st.
Proof. by destruct k. Qed.

Lemma eval_loop_push k d rest h st : (1 <= length d <= 75)%nat ->
  eval_loop (S k) (Z.of_nat (length d) :: d ++ rest) h st = eval_loop k rest h (d :: st).
Proof.
  intros Hd. cbn [eval_loop]. unfold eval_step. rewrite ParsePush_direct by done.
  rewrite Z.gtb_ltb. destruct (Z.ltb_spec MAX_SCRIPT_ELEMENT_SIZE (Z.of_nat (length d)));
    [unfold MAX_SCRIPT_ELEMENT_SIZE in *; lia|].
  cbn [mbind res_bind drop]. by rewrite drop_app_length.
Qed.

Lemma eval_loop_op k op rest h st :
  ((75 <? op) && negb (op =? OP_PUSHDATA1) && negb (op =? OP_PUSHDATA2) && negb (op =? OP_PUSHDATA4)) = true ->
  eval_loop (S k) (op :: rest) h st = (st' ← exec_op op h st; eval_loop k rest h st').
Proof.
  rewrite !andb_true_iff, !negb_true_iff, Z.ltb_lt. intros [[[H1 H2] H3] H4].
  cbn [eval_loop]. unfold eval_step, ParsePush. cbn [nth length].
  destruct (Z.ltb_spec (Z.of_nat (S (length rest))) 1); [lia|].
  destruct (Z.leb_spec 1 op); [|lia]. destruct (Z.leb_spec op 75); [lia|]. cbn [andb].
  rewrite H2, H3, H4. destruct (exec_op op h st); reflexivity.
Qed.

(** What the P2PKH output script does to a stack. *)
Lemma eval_p2pkh k h hash st : length h = 20%nat ->
  eval_loop (5 + k) (BuildP2PKHScript h) (Some hash) st =
  match st with
  | [] => Err "OP_DUP: empty stack"
  | pubkey :: st' =>
      if negb (bool_decide (h = HASH160 pubkey)) then Err "OP_EQUALVERIFY failed"
      else match st' with
           | [] => Err "OP_CHECKSIG: stack underflow"
           | sig :: r => Ok (bool_item (VerifySignature hash sig pubkey) :: r)
           end
  end.
Proof.
  intros Hh. unfold BuildP2PKHScript. rewrite take_ge by lia. cbn [Nat.add app].
  rewrite eval_loop_op by done. destruct st as [|pk st]; [reflexivity|].
  change (exec_op OP_DUP (Some hash) (pk :: st)) with (Ok (pk :: pk :: st)).
  cbn [mbind res_bind]. rewrite eval_loop_op by done.
  change (exec_op OP_HASH160 (Some hash) (pk :: pk :: st)) with (Ok (HASH160 pk :: pk :: st)).
  cbn [mbind res_bind]. change 0x14 with (Z.of_nat 20). rewrite <- Hh, eval_loop_push by lia.
  rewrite eval_loop_op by done.
  change (exec_op OP_EQUALVERIFY (Some hash) (h :: HASH160 pk :: pk :: st))
    with (if negb (bool_decide (h = HASH160 pk)) then Err "OP_EQUALVERIFY failed" else Ok (pk :: st)).
  destruct (bool_decide (h = HASH160 pk)); cbn [negb mbind res_bind]; [|reflexivity].
  rewrite eval_loop_op by done. destruct st as [|sig st]; [reflexivity|].
  change (exec_op OP_CHECKSIG (Some hash) (pk :: sig :: st))
    with (Ok (bool_item (VerifySignature hash sig pk) :: st)).
  cbn [mbind res_bind]. apply eval_loop_nil.
Qed.

Lemma EvalScript_p2pkh h hash st : length h = 20%nat ->
  EvalScript (BuildP2PKHScript h) (Some hash) st =
  eval_loop (5 + 196) (BuildP2PKHScript h) (Some hash) st.
Proof. intros Hh. unfold EvalScript. by rewrite BuildP2PKH_length. Qed.

Lemma is_false_bool_item b : is_false (bool_item b) = negb b.
Proof. by destruct b. Qed.

Lemma VerifyScript_p2pkh sigScript h hash : length h = 20%nat ->
  VerifyScript sigScript (BuildP2PKHScript h) (Some hash) = Ok tt <->
  exists sig pubkey r, EvalScript sigScript (Some hash) [] = Ok (pubkey :: sig :: r) /\
    h = HASH160 pubkey /\ VerifySignature hash sig pubkey = true.
Proof.
  intros Hh. unfold VerifyScript.
  destruct (EvalScript sigScript (Some hash) []) as [st|e] eqn:E; cbn [mbind res_bind];
    [|split; [done|intros (?&?&?&?&?); done]].
  rewrite EvalScript_p2pkh, eval_p2pkh by done. destruct st as [|pk [|sig r]].
  - split; [done|]. by intros (?&?&?&[=]&_).
  - split; [by case_bool_decide|]. by intros (?&?&?&[=]&_).
  - case_bool_decide as Heq; cbn [negb].
    + cbn [res_bind mbind]. rewrite is_false_bool_item. split.
      * intros Hv. exists sig, pk, r. split_and!; try done.
        destruct (VerifySignature hash sig pk); [reflexivity|discriminate Hv].
      * intros (sig' & pk' & r' & [= <- <- <-] & _ & ->). reflexivity.
    + cbn [res_bind mbind]. split; [discriminate|].
      intros (sig' & pk' & r' & [= <- <- <-] & Hq & _). by destruct Heq.
Qed.

Lemma EvalScript_sig_script sig pubkey h :
  (1 <= length sig <= 75)%nat -> (1 <= length pubkey <= 75)%nat ->
  EvalScript (sig_script sig pubkey) h [] = Ok [pubkey; sig].
Proof.
  intros Hs Hp. unfold EvalScript, sig_script.
  assert ((Z.of_nat (length (Z.of_nat (length sig) :: sig ++ Z.of_nat (length pubkey) :: pubkey))
    >? MAX_SCRIPT_SIZE) = false) as ->.
  { cbn [length]. rewrite length_app. cbn [length]. rewrite Z.gtb_ltb. apply Z.ltb_ge.
    unfold MAX_SCRIPT_SIZE. lia. }
  rewrite eval_loop_push by done.
  rewrite <- (app_nil_r pubkey) at 2. rewrite eval_loop_push by done. apply eval_loop_nil.
Qed.

(** Every iteration of the loop consumes at least one byte of the script. *)
Lemma eval_step_shorter p hash st p' st' : bytes_wf p -> p <> [] ->
  eval_step p hash st = Ok (p', st') -> (length p' < length p)%nat /\ bytes_wf p'.
Proof.
  intros Hw Hp H. unfold eval_step in H. destruct (ParsePush p) as [[c d]|] eqn:E.
  - case_if; [done|]. injection H as <- <-. apply ParsePush_consumed in E; [|done].
    rewrite length_drop. split; [lia|]. by apply Forall_drop.
  - apply bind_Ok in H as (x & _ & [= <- <-]). destruct p; [done|].
    rewrite length_drop. split; [cbn [length]; lia|]. by apply Forall_drop.
Qed.

(** A script of at most 201 bytes never hits the operation limit: more budget
    gives the same result. *)
Lemma eval_loop_budget k1 k2 p hash st : bytes_wf p ->
  (length p <= k1)%nat -> (length p <= k2)%nat ->
  eval_loop k1 p hash st = eval_loop k2 p hash st.
Proof.
  revert k2 p st. induction k1 as [|k1 IH]; intros k2 p st Hw H1 H2.
  { destruct p; [|simpl in H1; lia]. by rewrite !eval_loop_nil. }
  destruct p as [|b p]; [by rewrite !eval_loop_nil|].
  destruct k2 as [|k2]; [simpl in H2; lia|]. cbn [eval_loop].
  destruct (eval_step (b :: p) hash st) as [[p' st']|e] eqn:E; cbn [mbind res_bind]; [|done].
  apply eval_step_shorter in E as [Hl Hw']; [|done|done]. cbn in Hl, H1, H2. apply IH; [done|lia|lia].
Qed.

(** ** Resource bounds *)

Definition small_items (st : stack) : Prop :=
  Forall (fun v => Z.of_nat (length v) <= MAX_SCRIPT_ELEMENT_SIZE) st.

Lemma small_bool_item b : Z.of_nat (length (bool_item b)) <= MAX_SCRIPT_ELEMENT_SIZE.
Proof. by destruct b. Qed.

Lemma small_HASH160 v : Z.of_nat (length (HASH160 v)) <= MAX_SCRIPT_ELEMENT_SIZE.
Proof. by rewrite length_HASH160. Qed.

Lemma exec_op_bounds op hash st st' : exec_op op hash st = Ok st' -> small_items st ->
  (length st' <= S (length st))%nat /\ small_items st'.
Proof.
  unfold exec_op, small_items. intros H Hst.
  repeat first [case_if | case_match]; try discriminate H; injection H as <-;
    repeat match goal with H : Forall _ (_ :: _) |- _ => apply Forall_cons in H as [? ?] end;
    cbn [length]; (split; [lia|]);
    repeat apply Forall_cons_2; try assumption;
    first [apply small_bool_item | apply small_HASH160 | vm_compute; congruence].
Qed.

Lemma eval_loop_bounds k p hash st st' : eval_loop k p hash st = Ok st' -> small_items st ->
  (length st' <= k + length st)%nat /\ small_items st'.
Proof.
  revert p st. induction k as [|k IH]; intros p st H Hst.
  { destruct p; [|done]. injection H as <-. split; [lia|done]. }
  destruct p as [|b p]; [injection H as <-; split; [lia|done]|]. cbn [eval_loop] in H.
  apply bind_Ok in H as ([p' s1] & H1 & H2).
  assert ((length s1 <= S (length st))%nat /\ small_items s1) as [Hl Hs].
  { unfold eval_step in H1. destruct (ParsePush (b :: p)) as [[c d]|].
    - rewrite Z.gtb_ltb in H1.
      destruct (Z.ltb_spec MAX_SCRIPT_ELEMENT_SIZE (Z.of_nat (length d))); [done|].
      injection H1 as _ <-. cbn [length]. split; [lia|]. by apply Forall_cons_2.
    - apply bind_Ok in H1 as (s2 & He & [= _ <-]). by eapply exec_op_bounds. }
  apply IH in H2 as [? ?]; [|done]. split; [lia|done].
Qed.

End EvalFacts.

Lemma last_push_direct k d rest l : (1 <= length d <= 75)%nat ->
  last_push (S k) (Z.of_nat (length d) :: d ++ rest) l = last_push k rest d.
Proof.
  intros Hd. cbn [last_push]. rewrite ParsePush_direct by done. cbn [length].
  destruct (Z.eqb_spec (Z.of_nat (S (length (d ++ rest)))) 0); [lia|].
  cbn [drop]. by rewrite drop_app_length.
Qed.

Lemma last_push_sig_script k sig pubkey :
  (1 <= length sig <= 75)%nat -> (1 <= length pubkey <= 75)%nat -> (2 <= k)%nat ->
  last_push k (sig_script sig pubkey) [] = pubkey.
Proof.
  intros Hs Hp Hk. destruct k as [|[|k]]; [lia|lia|]. unfold sig_script.
  rewrite last_push_direct by done. rewrite <- (app_nil_r pubkey) at 2.
  rewrite last_push_direct by done. by destruct k.
Qed.

(** * Properties *)

(** C20: an output locked with [BuildP2PKHScript h] can be spent by an input
    script exactly when that script leaves on top of the stack a public key
    whose [HASH160] is [h] and, below it, a signature of the digest that
    verifies under that key. *)
Theorem p2pkh_spend_authorised `{OpenSSL} (scriptSig h hash32 : bytes) :
  length h = 20%nat ->
  VerifyScript scriptSig (BuildP2PKHScript h) (Some hash32) = Ok tt <->
  exists sig pubkey rest,
    EvalScript scriptSig (Some hash32) [] = Ok (pubkey :: sig :: rest) /\
    h = HASH160 pubkey /\ VerifySignature hash32 sig pubkey = true.
Proof. apply VerifyScript_p2pkh. Qed.

(** The wallet's input script [<sig> <pubkey>] spends a P2PKH output
    exactly when the key hashes to the output's hash and the signature
    verifies, and [GetScriptSigPubKey] recovers the key from it. *)
Theorem p2pkh_standard_spend `{OpenSSL} (sig pubkey h hash32 : bytes) :
  length h = 20%nat -> (1 <= length sig <= 75)%nat -> (1 <= length pubkey <= 75)%nat ->
  (VerifyScript (sig_script sig pubkey) (BuildP2PKHScript h) (Some hash32) = Ok tt <->
   h = HASH160 pubkey /\ VerifySignature hash32 sig pubkey = true) /\
  GetScriptSigPubKey (sig_script sig pubkey) = pubkey.
Proof.
  intros Hh Hs Hp. split.
  - rewrite VerifyScript_p2pkh by done. rewrite EvalScript_sig_script by done. split.
    + by intros (? & ? & ? & [= <- <- <-] & ?).
    + intros. by exists sig, pubkey, [].
  - apply last_push_sig_script; try done. unfold sig_script. cbn [length].
    rewrite length_app. cbn [length]. lia.
Qed.

(** The P2PKH template test accepts exactly the 25-byte scripts that
    [BuildP2PKHScript] makes from their middle 20 bytes, and
    [ExtractP2PKHHash] inverts the builder. *)
Theorem p2pkh_template_exact (script h : bytes) :
  (IsP2PKHScript script = true <->
   length script = 25%nat /\ script = BuildP2PKHScript (take 20 (drop 3 script))) /\
  (length h = 20%nat -> ExtractP2PKHHash (BuildP2PKHScript h) = Some h).
Proof.
  split; [apply IsP2PKH_iff|]. intros Hh. unfold ExtractP2PKHHash.
  rewrite BuildP2PKH_is by done. unfold BuildP2PKHScript. rewrite (take_ge h) by lia. cbn [negb].
  f_equal. change (take 20 (h ++ [OP_EQUALVERIFY; OP_CHECKSIG]) = h).
  by apply take_app_length'.
Qed.

(** Whatever two scripts an input and an output carry, evaluating them
    runs at most 201 operations each and never leaves more than 402 stack
    items or an item longer than 520 bytes; a script of at most 201 bytes is
    never cut short by the operation limit. *)
Theorem script_resource_bounds `{OpenSSL} (s1 s2 : bytes) (hash : option bytes) st1 st2 :
  EvalScript s1 hash [] = Ok st1 -> EvalScript s2 hash st1 = Ok st2 ->
  ((length st1 <= 201)%nat /\ small_items st1) /\
  ((length st2 <= 402)%nat /\ small_items st2) /\
  forall budget p st, bytes_wf p -> (length p <= 201)%nat -> (length p <= budget)%nat ->
    eval_loop 201 p hash st = eval_loop budget p hash st.
Proof.
  unfold EvalScript. do 2 (case_if; [done|]). intros H1 H2.
  apply eval_loop_bounds in H1 as [L1 S1]; [|apply Forall_nil_2]. cbn [length] in L1.
  apply eval_loop_bounds in H2 as [L2 S2]; [|done].
  split_and!; try done; try lia. intros. by apply eval_loop_budget.
Qed.

Definition sample_key : bytes := 2 :: repeat 7 32.
Definition sample_digest : bytes := repeat 9 32.

Lemma p2pkh_spend_authorised_witness :
  exists sig pubkey rest,
    EvalScript (ossl := toy_ossl) (sig_script (sample_digest ++ sample_key) sample_key)
      (Some sample_digest) [] = Ok (pubkey :: sig :: rest) /\
    HASH160 (O := toy_ossl) sample_key = HASH160 (O := toy_ossl) pubkey /\
    VerifySignature (O := toy_ossl) sample_digest sig pubkey = true.
Proof.
  apply (p2pkh_spend_authorised (H := toy_ossl)
    (sig_script (sample_digest ++ sample_key) sample_key)
    (HASH160 (O := toy_ossl) sample_key) sample_digest).
  - vm_compute. reflexivity.
  - vm_compute. reflexivity.
Defined.

Lemma p2pkh_standard_spend_witness :
  VerifyScript (ossl := toy_ossl) (sig_script (sample_digest ++ sample_key) sample_key)
    (BuildP2PKHScript (HASH160 (O := toy_ossl) sample_key)) (Some sample_digest) = Ok tt.
Proof.
  apply (p2pkh_standard_spend (H := toy_ossl) (sample_digest ++ sample_key) sample_key
    (HASH160 (O := toy_ossl) sample_key) sample_digest).
  - vm_compute. reflexivity.
  - vm_compute. lia.
  - vm_compute. lia.
  - split; vm_compute; reflexivity.
Defined.

Lemma script_resource_bounds_witness :
  (2 <= 402)%nat /\ small_items [[1]; []].
Proof.
  apply (script_resource_bounds (H := toy_ossl) [OP_0] [OP_1] None [[]] [[1]; []]);
    vm_compute; reflexivity.
Defined.

Lemma p2pkh_template_exact_witness :
  ExtractP2PKHHash (BuildP2PKHScript (repeat 5 20)) = Some (repeat 5 20).
Proof. apply (p2pkh_template_exact []). reflexivity. Defined.

End Script.
