(* ===== verification/Utxo.v ===== *)
(** [utxo/]: the UTXO set and coin selection.  The [std::map] of
    [CCoinsView] is a [gmap]; loops over it run over its elements as a list
    (the theorems do not depend on the order the list has). *)
From stdpp Require Import sorting.
From S2P Require Import Prelude Config UInt256 Consensus Crypto Transaction Script.
Import Script Rules.
Open Scope cdx_scope.

Record CUTXO := {
  coin_value : Z; coin_scriptPubKey : bytes; coin_height : Z; coin_isCoinbase : bool }.
#[export] Instance CUTXO_eq_dec : EqDecision CUTXO.
Proof. solve_decision. Defined.

(** [CUTXO::IsSpendable] *)
Definition IsSpendable (c : CUTXO) (currentHeight : Z) : bool :=
  if coin_isCoinbase c && (currentHeight -i coin_height c <? COINBASE_MATURITY) then false else true.

Abbreviation CCoinsView := (gmap COutPoint CUTXO).

Definition GetCoin (view : CCoinsView) (out : COutPoint) : option CUTXO := view !! out.
Definition HaveCoin (view : CCoinsView) (out : COutPoint) : bool := bool_decide (is_Some (view !! out)).
Definition AddCoin (view : CCoinsView) (out : COutPoint) (coin : CUTXO) : CCoinsView :=
  <[out := coin]> view.
(** The flag is [erase(out) > 0]. *)
Definition SpendCoin (view : CCoinsView) (out : COutPoint) : bool * CCoinsView :=
  (HaveCoin view out, delete out view).

Definition coin_values (view : CCoinsView) : list Z :=
  map (fun kv => coin_value kv.2) (map_to_list view).
Definition TotalValue (view : CCoinsView) : Z := i64_sum (coin_values view).

(** [GetAddressBalance]: (confirmed, unconfirmed, immature) and their sum. *)
Record balance := { bal_confirmed : Z; bal_unconfirmed : Z; bal_immature : Z }.
Definition balance_step (hash160 : bytes) (currentHeight : Z) (b : balance) (c : CUTXO) : balance :=
  match ExtractP2PKHHash (coin_scriptPubKey c) with
  | None => b
  | Some h =>
      if negb (bool_decide (h = hash160)) then b
      else if coin_isCoinbase c && (currentHeight -i coin_height c <? COINBASE_MATURITY)
      then {| bal_confirmed := bal_confirmed b; bal_unconfirmed := bal_unconfirmed b;
              bal_immature := bal_immature b +i coin_value c |}
      else if coin_height c >? currentHeight
      then {| bal_confirmed := bal_confirmed b; bal_unconfirmed := bal_unconfirmed b +i coin_value c;
              bal_immature := bal_immature b |}
      else {| bal_confirmed := bal_confirmed b +i coin_value c; bal_unconfirmed := bal_unconfirmed b;
              bal_immature := bal_immature b |}
  end.
Definition GetAddressBalance (view : CCoinsView) (hash160 : bytes) (currentHeight : Z) : Z * balance :=
  let b := foldl (balance_step hash160 currentHeight)
             {| bal_confirmed := 0; bal_unconfirmed := 0; bal_immature := 0 |}
             (map snd (map_to_list view)) in
  (bal_confirmed b +i bal_unconfirmed b +i bal_immature b, b).

(** * Coin selection *)

Record CoinSelectionResult := {
  sel_inputs : list COutPoint; sel_totalValue : Z; sel_sufficient : bool }.

(** The loop over the sorted coins. *)
Fixpoint select_loop (amountNeeded : Z) (coins : list (COutPoint * CUTXO))
    (r : CoinSelectionResult) : CoinSelectionResult :=
  match coins with
  | [] => r
  | c :: rest =>
      let r' := {| sel_inputs := sel_inputs r ++ [c.1];
                   sel_totalValue := sel_totalValue r +i coin_value c.2;
                   sel_sufficient := sel_sufficient r |} in
      if sel_totalValue r' >=? amountNeeded
      then {| sel_inputs := sel_inputs r'; sel_totalValue := sel_totalValue r'; sel_sufficient := true |}
      else select_loop amountNeeded rest r'
  end.

(** [std::sort] by value leaves the order of equal values open, so it is a
    parameter; the theorems take any function that returns a sorted
    permutation. *)
Definition SelectCoinsGreedy (sort : list (COutPoint * CUTXO) -> list (COutPoint * CUTXO))
    (view : CCoinsView) (amountNeeded : Z) : CoinSelectionResult :=
  select_loop amountNeeded (sort (map_to_list view))
    {| sel_inputs := []; sel_totalValue := 0; sel_sufficient := false |}.

(** * Lemmas *)

(** The exact value held by a set of coins. *)
Definition supply (view : CCoinsView) : Z := sumZ (coin_values view).
(** Every coin has a value between 0 and [MAX_MONEY]. *)
Definition coin_ok (c : CUTXO) : Prop := 0 <= coin_value c <= MAX_MONEY.
Definition view_ok (view : CCoinsView) : Prop := map_Forall (fun _ c => coin_ok c) view.

#[export] Instance sumZ_proper : Proper ((≡ₚ) ==> eq) sumZ.
Proof. intros l1 l2 H. induction H; simpl; lia. Qed.

Lemma supply_empty : supply ∅ = 0.
Proof. done. Qed.

Lemma supply_insert_fresh view o c : view !! o = None ->
  supply (<[o := c]> view) = coin_value c + supply view.
Proof. intros H. unfold supply, coin_values. by rewrite map_to_list_insert. Qed.

Lemma supply_delete view o c : view !! o = Some c ->
  supply (delete o view) = supply view - coin_value c.
Proof.
  intros H. rewrite <- (insert_delete_id view o c) at 2 by done.
  rewrite supply_insert_fresh by apply lookup_delete_eq. lia.
Qed.

(** Overwriting a coin loses its old value. *)
Lemma supply_insert view o c :
  supply (<[o := c]> view) = coin_value c + supply view - from_option coin_value 0 (view !! o).
Proof.
  destruct (view !! o) as [c'|] eqn:E; simpl.
  - rewrite <- insert_delete_eq, supply_insert_fresh by apply lookup_delete_eq.
    rewrite (supply_delete _ _ c') by done. lia.
  - rewrite supply_insert_fresh by done. lia.
Qed.

Lemma supply_insert_le view o c : view_ok view ->
  supply (<[o := c]> view) <= coin_value c + supply view.
Proof.
  intros Hv. rewrite supply_insert. destruct (view !! o) as [c'|] eqn:E; simpl; [|lia].
  specialize (Hv _ _ E). unfold coin_ok in Hv. simpl in Hv. lia.
Qed.

Lemma coin_values_nonneg view : view_ok view -> Forall (fun v => 0 <= v) (coin_values view).
Proof.
  intros Hv. unfold coin_values. apply Forall_map, Forall_forall. intros [o c] Hin.
  apply elem_of_map_to_list in Hin. apply Hv in Hin. unfold coin_ok in Hin. simpl in *. lia.
Qed.

Lemma supply_nonneg view : view_ok view -> 0 <= supply view.
Proof. intros Hv. by apply sumZ_nonneg, coin_values_nonneg. Qed.

Lemma view_ok_insert view o c : view_ok view -> coin_ok c -> view_ok (<[o := c]> view).
Proof. intros. by apply map_Forall_insert_2. Qed.
Lemma view_ok_delete view o : view_ok view -> view_ok (delete o view).
Proof. intros. by apply map_Forall_delete. Qed.
Lemma view_ok_empty : view_ok ∅.
Proof. apply map_Forall_empty. Qed.

#[export] Hint Resolve view_ok_insert view_ok_delete view_ok_empty supply_nonneg : cdx.

Lemma TotalValue_supply view : is_i64 (supply view) -> TotalValue view = supply view.
Proof. intros H. unfold TotalValue. rewrite i64_sum_eq. by apply i64_id. Qed.

(** ** Balances *)

Inductive coin_class := CImmature | CUnconfirmed | CConfirmed.
#[export] Instance coin_class_eq_dec : EqDecision coin_class.
Proof. solve_decision. Defined.

(** Which balance of address [hash160] a coin counts for. *)
Definition classify (hash160 : bytes) (h : Z) (c : CUTXO) : option coin_class :=
  if bool_decide (ExtractP2PKHHash (coin_scriptPubKey c) = Some hash160) then
    Some (if negb (IsSpendable c h) then CImmature
          else if h <? coin_height c then CUnconfirmed else CConfirmed)
  else None.
Definition class_sum (hash160 : bytes) (h : Z) (k : coin_class) (l : list CUTXO) : Z :=
  sumZ (map (fun c => if bool_decide (classify hash160 h c = Some k) then coin_value c else 0) l).
Definition bal_get (b : balance) (k : coin_class) : Z :=
  match k with CImmature => bal_immature b | CUnconfirmed => bal_unconfirmed b | CConfirmed => bal_confirmed b end.

Lemma balance_step_class hash160 h b c k :
  bal_get (balance_step hash160 h b c) k =
  if bool_decide (classify hash160 h c = Some k) then bal_get b k +i coin_value c else bal_get b k.
Proof.
  unfold balance_step, classify, IsSpendable.
  destruct (ExtractP2PKHHash (coin_scriptPubKey c)) as [h'|]; [|done].
  destruct (decide (h' = hash160)) as [->|Hne].
  - rewrite (bool_decide_true (hash160 = hash160)) by done.
    rewrite (bool_decide_true (Some hash160 = Some hash160)) by done. cbn [negb]. rewrite Z.gtb_ltb.
    destruct (coin_isCoinbase c && _); [|destruct (h <? coin_height c)]; by destruct k.
  - rewrite bool_decide_false by done. rewrite (bool_decide_false (Some h' = _)) by congruence.
    cbn [negb]. by destruct k.
Qed.

Lemma balance_fold hash160 h k l b : is_i64 (bal_get b k) ->
  bal_get (foldl (balance_step hash160 h) b l) k = i64 (bal_get b k + class_sum hash160 h k l).
Proof.
  revert b. unfold class_sum. induction l as [|c l IH]; intros b Hb; simpl.
  - by rewrite Z.add_0_r, i64_id.
  - assert (is_i64 (bal_get (balance_step hash160 h b c) k)).
    { rewrite balance_step_class. case_bool_decide; [apply i64_range|done]. }
    rewrite IH, balance_step_class by done. case_bool_decide.
    + unfold i64_add. rewrite i64_add_assoc_i64. f_equal. lia.
    + f_equal.
Qed.

Lemma class_sums_le hash160 h l : Forall coin_ok l ->
  (forall k, 0 <= class_sum hash160 h k l) /\
  class_sum hash160 h CConfirmed l + class_sum hash160 h CUnconfirmed l +
  class_sum hash160 h CImmature l <= sumZ (map coin_value l).
Proof.
  unfold class_sum, coin_ok. induction 1 as [|c l Hc _ [IH1 IH2]]; simpl; [done|]. split.
  - intros k. specialize (IH1 k). case_bool_decide; lia.
  - destruct (classify hash160 h c) as [[]|]; repeat case_bool_decide; try congruence; lia.
Qed.

Lemma map_values view : map coin_value (map snd (map_to_list view)) = coin_values view.
Proof. unfold coin_values. by rewrite map_map. Qed.

Lemma view_ok_coins view : view_ok view -> Forall coin_ok (map snd (map_to_list view)).
Proof.
  intros Hv. apply Forall_map, Forall_forall. intros [o c] Hin.
  apply elem_of_map_to_list in Hin. by apply Hv in Hin.
Qed.

(** ** Selection *)

Definition by_value (a b : COutPoint * CUTXO) : Prop := coin_value a.2 <= coin_value b.2.
#[export] Instance by_value_dec a b : Decision (by_value a b).
Proof. unfold by_value. apply _. Defined.
#[export] Instance by_value_trans : Transitive by_value.
Proof. unfold by_value. intros a b c ? ?. lia. Qed.
#[export] Instance by_value_total : Total by_value.
Proof. unfold by_value. intros a b. lia. Qed.
Definition pair_values (l : list (COutPoint * CUTXO)) : Z := sumZ (map (fun kv => coin_value kv.2) l).

(** The value of a list of coins of the set is the value of their outpoints. *)
Lemma pair_values_lookup (view : CCoinsView) l :
  (forall kv, kv ∈ l -> view !! kv.1 = Some kv.2) ->
  sumZ (map (fun o => from_option coin_value 0 (view !! o)) (map fst l)) = pair_values l.
Proof.
  unfold pair_values. intros Hl. rewrite map_map. f_equal. apply map_ext_in.
  intros kv Hk%list_elem_of_In. by rewrite (Hl kv Hk).
Qed.

Lemma pair_values_cons c l : pair_values (c :: l) = coin_value c.2 + pair_values l.
Proof. done. Qed.

Lemma pair_values_nonneg l : Forall (fun kv => coin_ok kv.2) l -> 0 <= pair_values l.
Proof.
  intros Hl. apply sumZ_nonneg, Forall_map. eapply Forall_impl; [exact Hl|].
  unfold coin_ok. simpl. lia.
Qed.

(** What the loop does to a list of coins: it takes the shortest prefix that
    reaches the amount, or everything. *)
Lemma select_loop_spec need l r :
  Forall (fun kv => coin_ok kv.2) l -> 0 <= sel_totalValue r ->
  sel_totalValue r + pair_values l <= MAX_MONEY -> sel_sufficient r = false ->
  exists l1 l2, l = l1 ++ l2 /\
    let r' := select_loop need l r in
    sel_inputs r' = sel_inputs r ++ map fst l1 /\
    sel_totalValue r' = sel_totalValue r + pair_values l1 /\
    (sel_sufficient r' = true <-> l1 <> [] /\ need <= sel_totalValue r') /\
    (sel_sufficient r' = false -> l2 = []) /\
    forall l0 x, l1 = l0 ++ [x] -> sel_totalValue r + pair_values l0 < need \/ l0 = [].
Proof.
  revert r. induction l as [|c l IH]; intros r Hl H0 Hs Hsuf.
  { exists [], []. simpl. rewrite app_nil_r, Z.add_0_r. split_and!; try done.
    - rewrite Hsuf. split; [done|]. by intros [? _].
    - intros l0 x E. by destruct l0. }
  apply Forall_cons in Hl as [Hc Hl]. rewrite pair_values_cons in Hs.
  pose proof (pair_values_nonneg l Hl) as Hn.
  unfold coin_ok in Hc. cbn [select_loop]. cbn zeta. cbn [sel_totalValue sel_inputs sel_sufficient].
  assert (sel_totalValue r +i coin_value c.2 = sel_totalValue r + coin_value c.2) as E.
  { apply i64_id. assert (MAX_MONEY < 2 ^ 63) by done. u_range. }
  rewrite E, Z.geb_leb. destruct (Z.leb_spec need (sel_totalValue r + coin_value c.2)) as [Hle|Hgt].
  - exists [c], l. split; [done|]. cbn zeta. cbn [sel_totalValue sel_inputs sel_sufficient].
    rewrite pair_values_cons, Z.add_0_r. split_and!; try done.
    intros l0 x Ex. destruct l0 as [|? [|]]; [by right|done|done].
  - destruct (IH {| sel_inputs := sel_inputs r ++ [c.1];
      sel_totalValue := sel_totalValue r + coin_value c.2; sel_sufficient := sel_sufficient r |})
      as (l1 & l2 & -> & Hi & Ht & Hsf & Hl2 & Hmin); cbn [sel_totalValue sel_sufficient]; try done; try lia.
    exists (c :: l1), l2. cbn [sel_inputs sel_totalValue sel_sufficient] in *. split_and!; try done.
    + rewrite Hi, <- app_assoc. done.
    + rewrite Ht, pair_values_cons. lia.
    + rewrite Hsf. split; [intros [? ?]; split; [done|lia]|]. intros [_ Hge]. split; [|done].
      intros ->. rewrite Ht in Hge. change (pair_values []) with 0 in Hge. lia.
    + intros l0 x Ex. destruct l0 as [|y l0]; [by right|]. left. injection Ex as <- ->.
      rewrite pair_values_cons. destruct (Hmin l0 x eq_refl) as [Hm| ->]; [lia|].
      change (pair_values []) with 0. lia.
Qed.

(** * Properties *)

(** For every address, the three balances are the exact sums of the
    values of the coins locked to it, split into immature coinbases, coins
    above the given height and spendable coins, and the returned total is
    their exact sum (no 64-bit wrap), as long as the set holds no more than
    [MAX_MONEY]. *)
Theorem address_balance_exact (view : CCoinsView) (hash160 : bytes) (h : Z) :
  view_ok view -> supply view <= MAX_MONEY ->
  let coins := map snd (map_to_list view) in
  let '(total, b) := GetAddressBalance view hash160 h in
  (forall k, bal_get b k = class_sum hash160 h k coins) /\
  total = bal_confirmed b + bal_unconfirmed b + bal_immature b /\ 0 <= total <= supply view.
Proof.
  intros Hv Hs coins. unfold GetAddressBalance. fold coins.
  set (b := foldl _ _ coins).
  assert (MAX_MONEY < 2 ^ 63) as HM by done.
  destruct (class_sums_le hash160 h coins (view_ok_coins _ Hv)) as [Hpos Hle].
  unfold coins in Hle at 4. rewrite map_values in Hle. fold (supply view) in Hle.
  pose proof (Hpos CConfirmed). pose proof (Hpos CUnconfirmed). pose proof (Hpos CImmature).
  assert (forall k, bal_get b k = class_sum hash160 h k coins) as Hb.
  { intros k. unfold b. rewrite balance_fold by (by destruct k).
    replace (bal_get _ k) with 0 by (by destruct k). apply i64_id.
    destruct k; u_range. }
  pose proof (Hb CConfirmed). pose proof (Hb CUnconfirmed). pose proof (Hb CImmature).
  cbn [bal_get] in *. split; [done|]. unfold i64_add.
  rewrite (i64_id (bal_confirmed b + bal_unconfirmed b)) by u_range.
  rewrite i64_id by u_range. lia.
Qed.

(** Greedy selection is correct for any sorting function: it picks
    distinct coins of the set, reports exactly their total value, says
    [sufficient] exactly when the whole set can pay a positive amount, stops
    as soon as it can (without the last coin picked the amount is not
    reached), and picks the smallest coins. *)
Theorem select_coins_correct sort (view : CCoinsView) (need : Z) :
  (forall l, sort l ≡ₚ l) -> (forall l, StronglySorted by_value (sort l)) -> view_ok view -> supply view <= MAX_MONEY -> 0 < need ->
  let r := SelectCoinsGreedy sort view need in
  NoDup (sel_inputs r) /\ (forall o, o ∈ sel_inputs r -> is_Some (view !! o)) /\
  sel_totalValue r = sumZ (map (fun o => from_option coin_value 0 (view !! o)) (sel_inputs r)) /\
  (sel_sufficient r = true <-> need <= supply view) /\
  (sel_sufficient r = true -> need <= sel_totalValue r) /\
  (forall ins o, sel_inputs r = ins ++ [o] ->
     sumZ (map (fun o => from_option coin_value 0 (view !! o)) ins) < need) /\
  (forall o c o' c', o ∈ sel_inputs r -> view !! o = Some c ->
     o' ∉ sel_inputs r -> view !! o' = Some c' -> coin_value c <= coin_value c').
Proof.
  intros Hsort Hsorted Hv Hs Hneed r.
  set (coins := sort (map_to_list view)).
  assert (coins ≡ₚ map_to_list view) as Hp by apply Hsort.
  assert (pair_values coins = supply view) as Hsum by (unfold pair_values; by rewrite Hp).
  assert (Forall (fun kv => coin_ok kv.2) coins) as Hok.
  { rewrite Hp. apply Forall_forall. intros [o c] Hin. apply elem_of_map_to_list in Hin. by apply Hv in Hin. }
  assert (NoDup (map fst coins)) as Hnd.
  { rewrite Hp. apply NoDup_fst_map_to_list. }
  assert (forall kv, kv ∈ coins -> view !! kv.1 = Some kv.2) as Hin.
  { intros [o c] Hi. rewrite Hp in Hi. by apply elem_of_map_to_list. }
  destruct (select_loop_spec need coins {| sel_inputs := []; sel_totalValue := 0; sel_sufficient := false |})
    as (l1 & l2 & El & Hi & Ht & Hsf & Hl2 & Hmin); [done|cbn; lia|cbn; lia|done|].
  change (select_loop need coins _) with r in Hi, Ht, Hsf, Hl2. cbn [sel_inputs sel_totalValue app] in *.
  rewrite Z.add_0_l in Ht.
  assert (forall kv, kv ∈ l1 -> view !! kv.1 = Some kv.2) as Hin1.
  { intros kv Hk. apply Hin. rewrite El. apply elem_of_app. by left. }
  assert (pair_values l1 + pair_values l2 = supply view) as Hsplit.
  { rewrite <- Hsum, El. unfold pair_values. by rewrite map_app, sumZ_app. }
  rewrite El in Hok. apply Forall_app in Hok as [_ Hok].
  pose proof (pair_values_nonneg l2 Hok) as Hl2pos.
  rewrite Ht in Hsf. rewrite Hi, Ht. split_and!.
  - rewrite El, map_app in Hnd. by apply NoDup_app in Hnd as [? _].
  - intros o Ho. apply list_elem_of_fmap in Ho as (kv & -> & Hk). rewrite (Hin1 kv Hk). eauto.
  - symmetry. by apply pair_values_lookup.
  - rewrite Hsf. split; [lia|]. intros Hge. destruct (sel_sufficient r) eqn:E; [by apply Hsf|].
    rewrite Hl2 in Hsplit by done. cbn in Hsplit. split; [|lia]. intros ->. cbn in Hsplit. lia.
  - intros Hsuf. by apply Hsf in Hsuf as [_ ?].
  - intros ins o Eo. apply map_eq_app in Eo as (l0 & lx & -> & <- & Ex).
    destruct lx as [|x [|]]; try done. destruct (Hmin l0 x eq_refl) as [Hm| ->]; [|cbn; lia].
    rewrite pair_values_lookup; [lia|]. intros kv Hk. apply Hin1. apply elem_of_app. by left.
  - assert (forall o c, view !! o = Some c -> (o, c) ∈ coins) as Hmem.
    { intros o c Ho. rewrite Hp. by apply elem_of_map_to_list. }
    intros o c o' c' Ho Ec Ho' Ec'. apply Hmem in Ec, Ec'. rewrite El in Ec, Ec'.
    apply elem_of_app in Ec as [Ec|Ec], Ec' as [Ec'|Ec'].
    + destruct Ho'. apply list_elem_of_fmap. by exists (o', c').
    + pose proof (Hsorted (map_to_list view)) as Hst. fold coins in Hst. rewrite El in Hst.
      by apply (StronglySorted_app_1_elem_of _ _ _ (o, c) (o', c') Hst).
    + destruct Ho'. apply list_elem_of_fmap. by exists (o', c').
    + exfalso. rewrite El, map_app in Hnd. apply NoDup_app in Hnd as (_ & Hd & _).
      apply (Hd o Ho). apply list_elem_of_fmap. by exists (o, c).
Qed.

Definition sample_coin (v h : Z) (cb : bool) : CUTXO := {|
  coin_value := v; coin_scriptPubKey := BuildP2PKHScript (repeat 5 20); coin_height := h;
  coin_isCoinbase := cb |}.
Definition sample_view : CCoinsView := {[
  {| op_hash := U256 1 0 0 0; op_n := 0 |} := sample_coin 50 3 true;
  {| op_hash := U256 2 0 0 0; op_n := 1 |} := sample_coin 70 9 false ]}.

Ltac view_ok_compute :=
  eapply bool_decide_eq_true_1; vm_compute; reflexivity.

#[export] Instance coin_ok_dec c : Decision (coin_ok c).
Proof. unfold coin_ok. apply _. Defined.
#[export] Instance view_ok_dec view : Decision (view_ok view).
Proof. unfold view_ok. apply _. Defined.

Lemma address_balance_exact_witness :
  GetAddressBalance sample_view (repeat 5 20) 10 =
    (120, {| bal_confirmed := 70; bal_unconfirmed := 0; bal_immature := 50 |}) /\
  (let '(total, b) := GetAddressBalance sample_view (repeat 5 20) 10 in
   (forall k, bal_get b k = class_sum (repeat 5 20) 10 k (map snd (map_to_list sample_view))) /\
   total = bal_confirmed b + bal_unconfirmed b + bal_immature b /\ 0 <= total <= supply sample_view).
Proof.
  split; [vm_compute; reflexivity|].
  apply (address_balance_exact sample_view (repeat 5 20) 10).
  - view_ok_compute.
  - vm_compute. congruence.
Defined.

Lemma select_coins_correct_witness :
  sel_sufficient (SelectCoinsGreedy (merge_sort by_value) sample_view 100) = true <-> 100 <= supply sample_view.
Proof.
  unshelve epose proof (select_coins_correct (merge_sort by_value) sample_view 100 _ _ _ _ _)
    as (_ & _ & _ & H & _).
  - apply merge_sort_Permutation.
  - apply (StronglySorted_merge_sort by_value).
  - view_ok_compute.
  - vm_compute. congruence.
  - lia.
  - exact H.
Defined.
