(* ===== verification/Block.v ===== *)
(** [blockchain/block], [blockchain/merkle] and [blockchain/genesis]: the
    Merkle root of a block and the genesis block. *)
From S2P Require Import Prelude Config UInt256 Compact Consensus Crypto Transaction.
Import uint256 Difficulty.

(** * Definitions *)

Section Block.
Context {ossl : OpenSSL}.

(** One iteration of the inner loop: the two 32-byte hashes, hashed. *)
Definition hash_pair (a b : uint256) : uint256 := SHA256d (getBytesLE a ++ getBytesLE b).

(** The [for (i = 0; i < level.size(); i += 2)] loop. *)
Fixpoint merkle_next (level : list uint256) : list uint256 :=
  match level with
  | [] => []
  | [a] => [hash_pair a a]
  | a :: b :: r => hash_pair a b :: merkle_next r
  end.

(** The [while (level.size() > 1)] loop; [None] when the fuel is used up. *)
Fixpoint merkle_loop (fuel : nat) (level : list uint256) : option uint256 :=
  match level with
  | [] => None
  | [r] => Some r
  | _ =>
      match fuel with
      | O => None
      | S k => merkle_loop k (merkle_next level)
      end
  end.

(** [ComputeMerkleRoot] on hashes; as many iterations as hashes are enough
    (theorem [merkle_root_binding]). *)
Definition ComputeMerkleRoot_hashes (hashes : list uint256) : option uint256 :=
  match hashes with
  | [] => Some zero
  | _ => merkle_loop (length hashes) hashes
  end.
Definition ComputeMerkleRoot (txs : list CTransaction) : option uint256 :=
  ComputeMerkleRoot_hashes (map GetTxID txs).

Definition CheckMerkleRoot (b : CBlock) : bool :=
  match ComputeMerkleRoot (blk_vtx b) with
  | Some r => eqb r (hdr_merkleRoot (blk_header b))
  | None => false
  end.

(** ** Genesis *)

Definition GetGenesisMessage : string :=
  "CDX Genesis - Codex Coin, 21,000,000 CDX, SHA-256d PoW, UTXO, P2P".
Definition CDX_GENESIS_TIMESTAMP : Z := 1717200000.
Definition string_bytes (s : string) : bytes := map ascii_Z (String.list_ascii_of_string s).

Definition genesis_coinbase (rewardBase : Z) (message : string) : CTransaction := {|
  tx_version := 1;
  tx_vin := [{| in_prevout := {| op_hash := zero; op_n := 0xffffffff |};
                in_scriptSig := u8 (Z.of_nat (String.length message)) :: string_bytes message;
                in_sequence := 0xffffffff |}];
  tx_vout := [{| out_value := rewardBase; out_scriptPubKey := [0x51] |}];
  tx_lockTime := 0 |}.

Definition CreateGenesisBlock (bits rewardBase timestamp : Z) (message : string) (nonce : Z) : CBlock :=
  let coinbase := genesis_coinbase rewardBase message in
  {| blk_header := {|
       hdr_version := 1; hdr_prevBlockHash := zero;
       hdr_merkleRoot := default zero (ComputeMerkleRoot [coinbase]);
       hdr_timestamp := timestamp; hdr_bits := bits; hdr_nonce := nonce |};
     blk_vtx := [coinbase] |}.

Definition GetGenesisBlock (p : ChainParams) : CBlock :=
  CreateGenesisBlock (minDifficultyBits p) INITIAL_BLOCK_REWARD CDX_GENESIS_TIMESTAMP
    GetGenesisMessage (genesisNonce p).

(** The exception is an error result. *)
Definition GetGenesisHash (p : ChainParams) : res uint256 :=
  if bool_decide (genesisHashHex p = "")
  then Err (String.append "genesis hash not configured for network " (name p))
  else Ok (fromHexReversed (genesisHashHex p)).

End Block.

(** * Lemmas *)

Section MerkleFacts.
Context {ossl : OpenSSL} {laws : OpenSSLLaws ossl}.

(** The strings that are hashed for a tree, level by level from the leaves. *)
Definition pair_input (a b : uint256) : bytes := getBytesLE a ++ getBytesLE b.
Fixpoint pair_inputs (l : list uint256) : list bytes :=
  match l with
  | a :: b :: r => pair_input a b :: pair_inputs r
  | [a] => [pair_input a a]
  | [] => []
  end.
Fixpoint tree_inputs (fuel : nat) (level : list uint256) : list bytes :=
  match fuel, level with
  | S k, _ :: _ :: _ => pair_inputs level ++ tree_inputs k (merkle_next level)
  | _, _ => []
  end.
Definition merkle_inputs (txs : list CTransaction) : list bytes := tree_inputs (length txs) (map GetTxID txs).
(** Two lists of strings have, at the same place, two different strings with the
    same digest. *)
Definition collide (xs ys : list bytes) : Prop :=
  exists i x y, xs !! i = Some x /\ ys !! i = Some y /\ x <> y /\ SHA256d x = SHA256d y.
Lemma collide_here x y xs ys : x <> y -> SHA256d x = SHA256d y -> collide (x :: xs) (y :: ys).
Proof. intros. by exists 0%nat, x, y. Qed.
Lemma collide_later x y xs ys : collide xs ys -> collide (x :: xs) (y :: ys).
Proof. intros (i & a & b & H). by exists (S i), a, b. Qed.
Lemma collide_app_l xs ys xs' ys' : collide xs ys -> collide (xs ++ xs') (ys ++ ys').
Proof. intros (i & a & b & Hx & Hy & H). exists i, a, b. by rewrite (lookup_app_l_Some _ _ _ _ Hx), (lookup_app_l_Some _ _ _ _ Hy). Qed.
Lemma collide_app_r xs ys xs' ys' : length xs = length ys -> collide xs' ys' -> collide (xs ++ xs') (ys ++ ys').
Proof. intros Hl (i & a & b & H). exists (length xs + i)%nat, a, b. rewrite !lookup_app_r by lia. by replace (length xs + i - length xs)%nat with i by lia; replace (length xs + i - length ys)%nat with i by lia. Qed.

Lemma list_ind2 {A} (P : list A -> Prop) :
  P [] -> (forall a, P [a]) -> (forall a b l, P l -> P (a :: b :: l)) -> forall l, P l.
Proof.
  intros H0 H1 H2 l. enough (P l /\ forall a, P (a :: l)) by tauto.
  induction l as [|b l [IH1 IH2]]; [by split|]. split; [apply IH2|]. intros a. by apply H2.
Qed.

Lemma length_merkle_next l : length (merkle_next l) = Nat.div2 (S (length l)).
Proof. induction l as [|a|a b l IH] using list_ind2; simpl; [done..|]. by rewrite IH. Qed.

Lemma merkle_next_shorter l : (2 <= length l)%nat -> (1 <= length (merkle_next l) < length l)%nat.
Proof.
  intros H. rewrite length_merkle_next.
  pose proof (Nat.div2_odd (S (length l))). destruct (Nat.odd (S (length l))); simpl Nat.b2n in *; lia.
Qed.

Lemma merkle_loop_S k a b l :
  merkle_loop (S k) (a :: b :: l) = merkle_loop k (merkle_next (a :: b :: l)).
Proof. reflexivity. Qed.

Lemma merkle_loop_total k l : l <> [] -> (length l <= k)%nat -> is_Some (merkle_loop k l).
Proof.
  revert l. induction k as [|k IH]; intros l Hl Hk.
  { destruct l; simpl in *; [done|lia]. }
  destruct l as [|a [|b l]]; [done|by eexists|].
  pose proof (merkle_next_shorter (a :: b :: l) ltac:(simpl; lia)) as Hn.
  rewrite merkle_loop_S.
  apply IH; [|simpl in *; lia]. intros E. rewrite E in Hn. simpl in Hn. lia.
Qed.

(** More fuel does not change the root. *)
Lemma merkle_loop_fuel k1 k2 l r : merkle_loop k1 l = Some r -> (k1 <= k2)%nat -> merkle_loop k2 l = Some r.
Proof.
  revert k2 l. induction k1 as [|k1 IH]; intros k2 l H Hk.
  { destruct l as [|a [|b l]]; [done| |done]. by destruct k2. }
  destruct k2 as [|k2]; [lia|]. destruct l as [|a [|b l]]; [done|done|].
  apply (IH k2 (merkle_next (a :: b :: l)) H). lia.
Qed.

Lemma hash_pair_inj a b a' b' : wf a -> wf b -> wf a' -> wf b' ->
  hash_pair a b = hash_pair a' b' -> (a = a' /\ b = b') \/
    pair_input a b <> pair_input a' b' /\ SHA256d (pair_input a b) = SHA256d (pair_input a' b').
Proof.
  intros Ha Hb Ha' Hb' E.
  destruct (decide (getBytesLE a ++ getBytesLE b = getBytesLE a' ++ getBytesLE b')) as [Eb|Hne].
  - left. apply app_inj_1 in Eb as [E1 E2]; [|by rewrite !length_getBytesLE].
    rewrite <- (setBytesLE_getBytesLE a), <- (setBytesLE_getBytesLE b) by done.
    by rewrite E1, E2, !setBytesLE_getBytesLE.
  - by right.
Qed.

Lemma merkle_next_wf l : Forall wf (merkle_next l).
Proof.
  induction l as [|a|a b l IH] using list_ind2; simpl;
    repeat first [apply Forall_nil_2 | apply Forall_cons_2 | apply SHA256d_wf | done].
Qed.

Lemma cons_inv {A} (a b : A) l1 l2 : a :: l1 = b :: l2 -> a = b /\ l1 = l2.
Proof. by intros [= -> ->]. Qed.

Lemma merkle_next_inj l1 l2 : length l1 = length l2 -> Forall wf l1 -> Forall wf l2 ->
  merkle_next l1 = merkle_next l2 -> l1 = l2 \/ collide (pair_inputs l1) (pair_inputs l2).
Proof.
  revert l2. induction l1 as [|a|a b l1 IH] using list_ind2; intros l2 Hl H1 H2 E.
  - destruct l2; [by left|done].
  - destruct l2 as [|a' [|]]; try done. apply cons_inv in E as [E _].
    apply Forall_cons in H1 as [? _], H2 as [? _].
    apply hash_pair_inj in E as [[-> _]|[? ?]]; [by left|right; by apply collide_here|done..].
  - destruct l2 as [|a' [|b' l2]]; try done. apply cons_inv in E as [E1 E2].
    apply Forall_cons in H1 as [? H1], H2 as [? H2]. apply Forall_cons in H1 as [? H1], H2 as [? H2]. cbn [pair_inputs].
    apply hash_pair_inj in E1 as [[-> ->]|[? ?]]; [|right; by apply collide_here|done..].
    apply IH in E2 as [->|?]; [by left|right; by apply collide_later|simpl in Hl; lia|done..].
Qed.
Lemma length_pair_inputs l : length (pair_inputs l) = length (merkle_next l).
Proof. induction l as [|a|a b l IH] using list_ind2; simpl; [done..|]. by rewrite IH. Qed.

Lemma merkle_loop_inj k l1 l2 r : length l1 = length l2 -> Forall wf l1 -> Forall wf l2 ->
  merkle_loop k l1 = Some r -> merkle_loop k l2 = Some r -> l1 = l2 \/ collide (tree_inputs k l1) (tree_inputs k l2).
Proof.
  revert l1 l2. induction k as [|k IH]; intros l1 l2 Hl H1 H2 E1 E2;
    destruct l1 as [|a [|b l1]], l2 as [|a' [|b' l2]]; try done;
    try (left; cbn in E1, E2; congruence).
  set (m1 := a :: b :: l1) in *. set (m2 := a' :: b' :: l2) in *. change (tree_inputs (S k) m1) with (pair_inputs m1 ++ tree_inputs k (merkle_next m1)).
  change (tree_inputs (S k) m2) with (pair_inputs m2 ++ tree_inputs k (merkle_next m2)).
  destruct (IH (merkle_next m1) (merkle_next m2)) as [E|?];
    [by rewrite !length_merkle_next, Hl|apply merkle_next_wf..|exact E1|exact E2| |].
  - apply merkle_next_inj in E as [?|?]; [by left|right; by apply collide_app_l|done..].
  - right. apply collide_app_r; [|done]. by rewrite !length_pair_inputs, !length_merkle_next, Hl.
Qed.

Lemma GetTxID_wf tx : wf (GetTxID tx).
Proof. apply SHA256d_wf. Qed.

Lemma merkle_next_dup l x : Nat.Even (length l) ->
  merkle_next (l ++ [x]) = merkle_next (l ++ [x; x]).
Proof.
  induction l as [|a|a b l IH] using list_ind2; intros He.
  - done.
  - by destruct He as [[|[|n]] ?].
  - cbn [app merkle_next]. f_equal. apply IH. destruct He as [[|n] He]; [done|].
    exists n. simpl in He. lia.
Qed.

End MerkleFacts.

(** * Properties *)

(** C39: [ComputeMerkleRoot] always returns a root, and the root binds the
    transactions: two lists of the same number of transactions with the same
    root have the same ids in the same order, or the trees of these two lists
    have, at the same node, different strings with the same SHA-256d digest. *)
Theorem merkle_root_binding `{OpenSSLLaws} (txs1 txs2 : list CTransaction) :
  is_Some (ComputeMerkleRoot txs1) /\
  (length txs1 = length txs2 -> ComputeMerkleRoot txs1 = ComputeMerkleRoot txs2 ->
   map GetTxID txs1 = map GetTxID txs2 \/ collide (merkle_inputs txs1) (merkle_inputs txs2)).
Proof.
  unfold ComputeMerkleRoot, ComputeMerkleRoot_hashes, merkle_inputs.
  assert (forall l, Forall wf (map GetTxID l)) as Hw.
  { intros l. apply Forall_map, Forall_true. intros. apply GetTxID_wf. }
  pose proof (Hw txs1) as H1. pose proof (Hw txs2) as H2.
  assert (length (map GetTxID txs1) = length txs1) as L1 by apply length_map.
  assert (length (map GetTxID txs2) = length txs2) as L2 by apply length_map.
  destruct (map GetTxID txs1) as [|a l1] eqn:E1.
  { split; [by eexists|]. intros Hl _. destruct txs1, txs2; try done. by left. }
  pose proof (merkle_loop_total (length (a :: l1)) (a :: l1) ltac:(done) ltac:(lia)) as Ht.
  split; [done|]. intros Hl E. destruct (map GetTxID txs2) as [|b l2] eqn:E2; [simpl in *; lia|].
  destruct Ht as [r Hr]. rewrite Hr in E. symmetry in E.
  replace (length (b :: l2)) with (length (a :: l1)) in E by congruence.
  rewrite <- L1, <- L2. replace (length (b :: l2)) with (length (a :: l1)) by congruence.
  eapply merkle_loop_inj; [congruence|done|done|exact Hr|exact E].
Qed.

(** The duplicated last element is invisible in the root: a list with an
    odd number of at least three transactions has the same root as the list
    in which the last transaction is repeated. *)
Theorem merkle_root_duplicate_last `{OpenSSLLaws} (txs : list CTransaction) (tx : CTransaction) :
  txs <> [] -> Nat.Even (length txs) ->
  ComputeMerkleRoot (txs ++ [tx; tx]) = ComputeMerkleRoot (txs ++ [tx]).
Proof.
  intros Hne He. unfold ComputeMerkleRoot, ComputeMerkleRoot_hashes. rewrite !map_app.
  cbn [map]. set (x := GetTxID tx). rewrite <- (length_map GetTxID) in He.
  destruct (map GetTxID txs) as [|a [|b l]] eqn:El; [by destruct txs|by destruct He as [[|[|]] ?]|].
  cbn [app]. destruct (merkle_loop_total (length (a :: b :: l ++ [x])) (a :: b :: l ++ [x])) as [r Hr];
    [done|lia|]. rewrite Hr.
  assert (length (a :: b :: l ++ [x; x]) = S (length (a :: b :: l ++ [x]))) as ->.
  { simpl. rewrite !length_app. simpl. lia. }
  cbn [length] in Hr. rewrite merkle_loop_S in Hr |- *.
  pose proof (merkle_next_dup (a :: b :: l) x He) as Ed. cbn [app] in Ed. rewrite <- Ed.
  eapply merkle_loop_fuel; [exact Hr|cbn [length]; lia].
Qed.

(** The genesis blocks configured for mainnet and regtest are valid: the
    block that [GetGenesisBlock] builds hashes (with the SHA-256 of the genesis
    miner) to the configured genesis hash, and it meets its own proof of
    work. *)
Theorem genesis_blocks_match :
  GetGenesisHash MAINNET = Ok (BlockHash (H := eval_ossl) (GetGenesisBlock (ossl := eval_ossl) MAINNET)) /\
  CheckProofOfWork (BlockHash (H := eval_ossl) (GetGenesisBlock (ossl := eval_ossl) MAINNET))
    (minDifficultyBits MAINNET) = true /\
  GetGenesisHash REGTEST = Ok (BlockHash (H := eval_ossl) (GetGenesisBlock (ossl := eval_ossl) REGTEST)) /\
  CheckProofOfWork (BlockHash (H := eval_ossl) (GetGenesisBlock (ossl := eval_ossl) REGTEST))
    (minDifficultyBits REGTEST) = true.
Proof. split_and!; vm_compute; reflexivity. Qed.

Lemma merkle_root_binding_witness :
  map (GetTxID (H := toy_ossl)) [sample_tx; sample_tx] = map (GetTxID (H := toy_ossl)) [sample_tx; sample_tx]
  \/ collide (ossl := toy_ossl) (merkle_inputs (ossl := toy_ossl) [sample_tx; sample_tx]) (merkle_inputs (ossl := toy_ossl) [sample_tx; sample_tx]).
Proof.
  apply (merkle_root_binding (O0 := toy_ossl) [sample_tx; sample_tx] [sample_tx; sample_tx]); reflexivity.
Defined.

Lemma merkle_root_duplicate_last_witness :
  ComputeMerkleRoot (ossl := toy_ossl) [sample_tx; sample_tx; sample_tx; sample_tx] =
  ComputeMerkleRoot (ossl := toy_ossl) [sample_tx; sample_tx; sample_tx].
Proof.
  apply (merkle_root_duplicate_last (O0 := toy_ossl) [sample_tx; sample_tx] sample_tx); [done|].
  by exists 1%nat.
Defined.
