(* ===== verification/GenesisMiner.v ===== *)
(** [tools/mine_genesis.cpp]: the genesis header builder, the target
    comparison and the multi-threaded nonce search of the genesis miner (its
    SHA-256 is in [Sha256]).  The search is a step relation: every atomic
    operation of a worker thread on the shared counters is one step. *)
From Stdlib Require Import Ascii.
From S2P Require Import Prelude Config UInt256 Compact Consensus Sha256 Crypto Transaction Block Encoding.
Import uint256 Rewards Rules Difficulty Sha256 Encoding.

Module GenesisMiner.

(** * Targets *)

(** [hw] of round [i] of [hash_le_target]. *)
Definition hash_word (hash : bytes) (i : nat) : Z :=
  let b := (31 - 4 * i)%nat in
  Z.lor (Z.lor (Z.lor (Z.shiftl (nth b hash 0) 24) (Z.shiftl (nth (b - 1) hash 0) 16))
               (Z.shiftl (nth (b - 2) hash 0) 8)) (nth (b - 3) hash 0).
(** The loop over the remaining pairs of words. *)
Fixpoint words_le (l : list (Z * Z)) : bool :=
  match l with
  | [] => true
  | (hw, t) :: r => if hw <? t then true else if hw >? t then false else words_le r
  end.
Definition hash_le_target (hash : bytes) (target : list Z) : bool :=
  words_le (zip (map (hash_word hash) (seq 0 8)) target).

(** Bytes [32 - exp ..] of the local array; an exponent above 32 writes
    before its start. *)
Definition target_from_bits (bits : Z) : outcome (list Z) :=
  let exp := Z.shiftr bits 24 in
  let mant := Z.land bits 0x007fffff in
  if exp <=? 3 then Done (Z.shiftr mant (8 * (3 - exp)) :: repeat 0 7)
  else if 32 <? exp then Undef
  else
    let k := Z.to_nat (32 - exp) in
    let t := <[(k + 2)%nat := u8 mant]> (<[(k + 1)%nat := u8 (Z.shiftr mant 8)]>
             (<[k := u8 (Z.shiftr mant 16)]> (repeat 0 32))) in
    Done (map (be32 t) (seq 0 8)).

Definition hex_chars : list ascii := String.list_ascii_of_string "0123456789abcdef".
Definition hex32 (b : bytes) : list ascii :=
  flat_map (fun x => [nth (Z.to_nat (Z.shiftr x 4)) hex_chars Ascii.zero;
                      nth (Z.to_nat (Z.land x 0xf)) hex_chars Ascii.zero]) (take 32 b).
Definition hex32_display (b : bytes) : list ascii :=
  hex32 (map (fun i => nth (31 - i) b 0) (seq 0 32)).

(** * Header *)

Record GenesisParams := { g_ts : Z; g_bits : Z; g_reward : Z; g_message : string }.

(** The hand-written serialization of the coinbase. *)
Definition genesis_tx_bytes (g : GenesisParams) : bytes :=
  let scriptSig := u8 (Z.of_nat (String.length (g_message g))) :: string_bytes (g_message g) in
  le_bytes 4 1 ++ [1] ++ repeat 0 32 ++ le_bytes 4 0xffffffff ++
  [u8 (Z.of_nat (length scriptSig))] ++ scriptSig ++ le_bytes 4 0xffffffff ++
  [1] ++ le_bytes 8 (u64 (g_reward g)) ++ [1] ++ [0x51] ++ le_bytes 4 0.
Definition build_genesis_header (g : GenesisParams) : bytes :=
  let merkle := sha256d_full (genesis_tx_bytes g) in
  [1; 0; 0; 0] ++ repeat 0 32 ++ merkle ++ le_bytes 4 (g_ts g) ++ le_bytes 4 (g_bits g) ++ repeat 0 4.

(** * Nonce search *)

(** The atomics shared by the threads. *)
Record shared := { sh_counter : Z; sh_found : bool; sh_foundNonce : Z }.

(** Where a worker is in its loop: before [fetch_add]; with the value [n] it
    fetched; about to hash [n]; about to store [foundNonce]; about to set
    [found]; returned. *)
Inductive wpc := WFetch | WCheck (n : Z) | WHash (n : Z) | WStore (n : Z) | WSignal | WExit.
Record worker := { wk_pc : wpc; wk_local : MiningState }.
Record pool := { pl_shared : shared; pl_workers : list worker; pl_reporting : bool }.

Definition goto (w : worker) (pc : wpc) : worker := {| wk_pc := pc; wk_local := wk_local w |}.
(** One atomic action of a worker.  Every 2^20 hashes a worker also writes the
    save point file, which this search does not read again. *)
Definition worker_next (target : list Z) (sh : shared) (w : worker) : shared * worker :=
  match wk_pc w with
  | WFetch => ({| sh_counter := u64 (sh_counter sh + 1); sh_found := sh_found sh; sh_foundNonce := sh_foundNonce sh |},
               goto w (WCheck (sh_counter sh)))
  | WCheck n => (sh, if n >? 0xFFFFFFFF then goto w WExit
                     else if sh_found sh then goto w WExit else goto w (WHash n))
  | WHash n => let '(local, out) := mine_hash (wk_local w) (u32 n) in
               (sh, {| wk_pc := if hash_le_target out target then WStore n else WFetch; wk_local := local |})
  | WStore n => ({| sh_counter := sh_counter sh; sh_found := sh_found sh; sh_foundNonce := u32 n |}, goto w WSignal)
  | WSignal => ({| sh_counter := sh_counter sh; sh_found := true; sh_foundNonce := sh_foundNonce sh |}, goto w WExit)
  | WExit => (sh, w)
  end.

(** [std::atomic counter{start}, ...; MiningState local = ms;] *)
Definition pool_init (hdr : bytes) (start : Z) (threads : nat) : pool := {|
  pl_shared := {| sh_counter := start; sh_found := false; sh_foundNonce := 0 |};
  pl_workers := repeat {| wk_pc := WFetch; wk_local := prepare hdr |} threads;
  pl_reporting := true |}.

(** A step of some worker, or [main] leaving [while (!found.load(...))]. *)
Inductive pool_step (target : list Z) : pool -> pool -> Prop :=
| step_worker s i w sh' w' :
    pl_workers s !! i = Some w -> wk_pc w <> WExit -> worker_next target (pl_shared s) w = (sh', w') ->
    pool_step target s {| pl_shared := sh'; pl_workers := <[i := w']> (pl_workers s); pl_reporting := pl_reporting s |}
| step_main s :
    pl_reporting s = true -> sh_found (pl_shared s) = true ->
    pool_step target s {| pl_shared := pl_shared s; pl_workers := pl_workers s; pl_reporting := false |}.

Inductive pool_reach (hdr : bytes) (target : list Z) (start : Z) (threads : nat) : pool -> Prop :=
| reach_init : pool_reach hdr target start threads (pool_init hdr start threads)
| reach_step s s' : pool_reach hdr target start threads s -> pool_step target s s' ->
    pool_reach hdr target start threads s'.

(** The nonce search from a header: [None] is the undefined target. *)
Definition nonce_hash (hdr : bytes) (nonce : Z) : bytes := sha256d_full (take 76 hdr ++ le_bytes 4 nonce).

End GenesisMiner.
Import GenesisMiner.

(** * Lemmas *)

(** ** Targets *)

(** A list of big-endian 32-bit words as a number. *)
Definition words_val (l : list Z) : Z := foldl (fun a w => 2 ^ 32 * a + w) 0 l.

Lemma foldl_words_val l : forall a, foldl (fun a w => 2 ^ 32 * a + w) a l = a * 2 ^ (32 * Z.of_nat (length l)) + words_val l.
Proof.
  unfold words_val. induction l as [|w l IH]; intros a; [cbn; lia|]. cbn [foldl length].
  rewrite (IH (2 ^ 32 * a + w)), (IH (2 ^ 32 * 0 + w)).
  replace (32 * Z.of_nat (S (length l))) with (32 + 32 * Z.of_nat (length l)) by lia.
  rewrite Z.pow_add_r by lia. lia.
Qed.

Lemma words_val_cons w l : words_val (w :: l) = w * 2 ^ (32 * Z.of_nat (length l)) + words_val l.
Proof. unfold words_val at 1. cbn [foldl]. rewrite foldl_words_val. lia. Qed.

Lemma words_val_bound l : Forall is_u32 l -> 0 <= words_val l < 2 ^ (32 * Z.of_nat (length l)).
Proof.
  induction 1 as [|w l Hw _ IH]; [done|]. rewrite words_val_cons. cbn [length].
  replace (32 * Z.of_nat (S (length l))) with (32 + 32 * Z.of_nat (length l)) by lia.
  rewrite Z.pow_add_r by lia. unfold is_u32 in Hw. nia.
Qed.

(** The word-by-word comparison is the comparison of the numbers. *)
Lemma words_le_spec l1 : forall l2, Forall is_u32 l1 -> Forall is_u32 l2 -> length l1 = length l2 ->
  words_le (zip l1 l2) = (words_val l1 <=? words_val l2).
Proof.
  induction l1 as [|a l1 IH]; intros [|b l2] H1 H2 Hl; [done..|].
  apply Forall_cons in H1 as [Ha H1], H2 as [Hb H2]. injection Hl as Hl.
  cbn [zip zip_with words_le]. rewrite !words_val_cons, Hl, Z.gtb_ltb.
  pose proof (words_val_bound l1 H1) as B1. pose proof (words_val_bound l2 H2) as B2. rewrite Hl in B1.
  set (p := 2 ^ (32 * Z.of_nat (length l2))) in *.
  destruct (Z.ltb_spec a b); [symmetry; apply Z.leb_le; nia|].
  destruct (Z.ltb_spec b a); [symmetry; apply Z.leb_gt; nia|].
  assert (a = b) as -> by lia. rewrite IH by done.
  destruct (Z.leb_spec (words_val l1) (words_val l2)); symmetry; [apply Z.leb_le|apply Z.leb_gt]; lia.
Qed.

Lemma be_word_val a b c d : is_u8 a -> is_u8 b -> is_u8 c -> is_u8 d ->
  Z.lor (Z.lor (Z.lor (Z.shiftl a 24) (Z.shiftl b 16)) (Z.shiftl c 8)) d = be_val [a; b; c; d].
Proof.
  intros Ha Hb Hc Hd. transitivity (le_read [d; c; b; a]).
  - unfold le_read. cbn [le_read_from]. rewrite Z.shiftl_0_r, Z.lor_0_r.
    rewrite (Z.lor_comm _ d). f_equal. rewrite (Z.lor_comm _ (Z.shiftl c 8)). f_equal. apply Z.lor_comm.
  - rewrite !le_read_cons by done. unfold be_val. cbn. lia.
Qed.

Lemma le_read_val l : bytes_wf l -> le_read l = val 256 l.
Proof. induction 1 as [|b l Hb _ IH]; [done|]. rewrite le_read_cons, IH by done. done. Qed.

Lemma le_read_app l1 l2 : bytes_wf l1 -> bytes_wf l2 ->
  le_read (l1 ++ l2) = le_read l1 + 256 ^ Z.of_nat (length l1) * le_read l2.
Proof. intros H1 H2. rewrite !le_read_val, val_app by (done || by apply Forall_app). done. Qed.

(** The number a digest denotes for the node. *)
Lemma to_Z_setBytesLE p : bytes_wf p -> length p = 32%nat -> to_Z (setBytesLE p) = be_val (rev p).
Proof.
  intros Hp Hl. unfold be_val. rewrite rev_involutive, <- le_read_val by done.
  rewrite <- (getBytesLE_setBytesLE p Hp Hl) at 2. pose proof (setBytesLE_wf p Hp) as (W0 & W1 & W2 & W3).
  unfold getBytesLE, to_Z.
  rewrite !le_read_app by (repeat apply Forall_app_2; apply le_bytes_wf).
  rewrite !length_le_bytes, !le_bytes_read_u64 by done. change (256 ^ Z.of_nat 8) with (2 ^ 64). lia.
Qed.

(** Eight big-endian words of a 32-byte array denote its number. *)
Lemma be_words_val t : bytes_wf t -> length t = 32%nat ->
  Forall is_u32 (map (be32 t) (seq 0 8)) /\ words_val (map (be32 t) (seq 0 8)) = be_val t.
Proof.
  intros Ht Hl.
  do 32 (destruct t as [|? t]; [done|]; apply Forall_cons in Ht as [? Ht]). destruct t; [|done].
  cbn [seq map]. unfold be32. cbn [Nat.mul Nat.add nth]. rewrite !be_word_val by done.
  split.
  - repeat (apply Forall_cons_2; [unfold is_u32, be_val; cbn [rev app val]; u_range|]). apply Forall_nil_2.
  - unfold words_val, be_val. cbn [foldl rev app val]. lia.
Qed.

Lemma hash_word_rev p i : length p = 32%nat -> (i < 8)%nat -> hash_word p i = be32 (rev p) i.
Proof.
  intros Hl Hi. do 32 (destruct p as [|? p]; [done|]). destruct p; [|done].
  do 8 (destruct i as [|i]; [reflexivity|]). lia.
Qed.

Lemma hash_le_target_spec p target : bytes_wf p -> length p = 32%nat -> Forall is_u32 target -> length target = 8%nat ->
  hash_le_target p target = (to_Z (setBytesLE p) <=? words_val target).
Proof.
  intros Hp Hl Ht Ht8. unfold hash_le_target.
  assert (map (hash_word p) (seq 0 8) = map (be32 (rev p)) (seq 0 8)) as ->.
  { apply map_ext_in. intros i Hi%in_seq. apply hash_word_rev; [done|lia]. }
  destruct (be_words_val (rev p)) as [Hw Ev]; [by apply Forall_rev|by rewrite length_rev|].
  rewrite words_le_spec by (done || by rewrite length_map, length_seq). by rewrite Ev, to_Z_setBytesLE.
Qed.

Lemma be_val_app l1 l2 : be_val (l1 ++ l2) = be_val l1 * 256 ^ Z.of_nat (length l2) + be_val l2.
Proof. unfold be_val. rewrite rev_app_distr, val_app, length_rev. lia. Qed.

Lemma be_val_zeros n : be_val (repeat 0 n) = 0.
Proof. unfold be_val. by rewrite rev_repeat_zero, val_repeat_zero. Qed.

Lemma insert_middle (k : nat) (x y z : Z) n : (k + 3 <= n)%nat ->
  <[(k + 2)%nat := z]> (<[(k + 1)%nat := y]> (<[k := x]> (repeat 0 n))) = repeat 0 k ++ [x; y; z] ++ repeat 0 (n - k - 3).
Proof.
  revert n. induction k as [|k IH]; intros n Hn.
  - destruct n as [|[|[|n]]]; [lia..|]. cbn. by rewrite Nat.sub_0_r.
  - destruct n as [|n]; [lia|]. exact (f_equal (cons 0) (IH n ltac:(lia))).
Qed.

Lemma zeros_wf n : bytes_wf (repeat 0 n).
Proof. apply Forall_forall. intros x Hx%list_elem_of_In%repeat_spec. subst. u_range. Qed.

(** For an exponent from 4 to 32 the miner's target is the node's. *)
Lemma target_from_bits_spec bits : is_u32 bits -> 4 <= bits / 2 ^ 24 <= 32 ->
  exists target, target_from_bits bits = Done target /\ Forall is_u32 target /\ length target = 8%nat /\
    words_val target = to_Z (TargetFromBits bits).
Proof.
  intros Hb He. unfold target_from_bits. rewrite Z.shiftr_div_pow2 by lia.
  destruct (Z.leb_spec (bits / 2 ^ 24) 3); [lia|]. destruct (Z.ltb_spec 32 (bits / 2 ^ 24)); [lia|].
  change 0x007fffff with (Z.ones 23). rewrite Z.land_ones by lia. rewrite !Z.shiftr_div_pow2 by lia.
  unfold TargetFromBits. destruct (setCompact_spec bits Hb) as [_ ->]. unfold compact_value.
  set (exp := bits / 2 ^ 24) in *. set (mant := bits mod 2 ^ 23).
  assert (0 <= mant < 2 ^ 23) as Hm by (apply Z.mod_pos_bound; lia).
  rewrite insert_middle by lia.
  set (t := repeat 0 _ ++ _).
  assert (bytes_wf t) as Ht.
  { unfold t. apply Forall_app. split; [apply zeros_wf|]. apply Forall_app. split; [|apply zeros_wf].
    repeat (apply Forall_cons_2; [apply u8_range|]). apply Forall_nil_2. }
  assert (length t = 32%nat) as Hl by (unfold t; rewrite !length_app, !repeat_length; cbn; lia).
  destruct (be_words_val t Ht Hl) as [Hw Ev].
  eexists. split; [reflexivity|]. split; [done|]. split; [by rewrite length_map, length_seq|]. rewrite Ev.
  unfold t. rewrite !be_val_app, !be_val_zeros, repeat_length.
  destruct (Z.leb_spec exp 3); [lia|].
  replace (Z.of_nat (32 - Z.to_nat (32 - exp) - 3)) with (exp - 3) by lia.
  replace (2 ^ (8 * (exp - 3))) with (256 ^ (exp - 3)) by (rewrite Z.pow_mul_r by lia; done).
  assert (256 ^ (exp - 3) <= 256 ^ 29) by (apply Z.pow_le_mono_r; lia).
  assert (0 < 256 ^ (exp - 3)) by (apply Z.pow_pos_nonneg; lia).
  rewrite Z.mod_small by (change (256 ^ 29) with (2 ^ 232) in *; change (2 ^ 256) with (2 ^ 24 * 2 ^ 232); nia).
  assert (be_val [u8 (mant / 2 ^ 16); u8 (mant / 2 ^ 8); u8 mant] = mant) as ->; [|lia].
  unfold be_val. cbn [rev app val]. clear -Hm. u_divmod.
Qed.

(** The miner's acceptance test is the node's proof-of-work check. *)
Lemma miner_pow_agrees bits target hash : is_u32 bits -> 4 <= bits / 2 ^ 24 <= 32 -> bits mod 2 ^ 23 <> 0 ->
  target_from_bits bits = Done target -> bytes_wf hash -> length hash = 32%nat ->
  hash_le_target hash target = CheckProofOfWork (setBytesLE hash) bits.
Proof.
  intros Hb He Hm Ht Hw Hl. destruct (target_from_bits_spec bits Hb He) as (t & Et & Ht1 & Ht2 & Ev).
  rewrite Et in Ht. injection Ht as ->. rewrite hash_le_target_spec, Ev by done.
  unfold CheckProofOfWork. rewrite isZero_spec, leb_spec by (by apply TargetFromBits_wf || by apply setBytesLE_wf).
  destruct (Z.eqb_spec (to_Z (TargetFromBits bits)) 0) as [Hz|]; [|done]. exfalso. apply Hm.
  unfold TargetFromBits in Hz. destruct (setCompact_spec bits Hb) as [_ E]. rewrite E in Hz. unfold compact_value in Hz.
  destruct (Z.leb_spec (bits / 2 ^ 24) 3); [lia|].
  set (m := bits mod 2 ^ 23) in *. assert (0 <= m < 2 ^ 23) by (apply Z.mod_pos_bound; lia).
  assert (0 < 2 ^ (8 * (bits / 2 ^ 24 - 3)) <= 2 ^ 232)
    by (split; [apply Z.pow_pos_nonneg|apply Z.pow_le_mono_r]; lia).
  rewrite Z.mod_small in Hz by (change (2 ^ 256) with (2 ^ 24 * 2 ^ 232); nia). nia.
Qed.

(** ** Header *)

Lemma length_string_bytes s : length (string_bytes s) = String.length s.
Proof. unfold string_bytes. rewrite length_map. induction s; cbn; congruence. Qed.

(** The hand-written coinbase is the node's serialization of it. *)
Lemma genesis_tx_bytes_eq g : (String.length (g_message g) < 252)%nat ->
  genesis_tx_bytes g = SerializeTransaction (genesis_coinbase (g_reward g) (g_message g)).
Proof.
  intros Hl. unfold genesis_tx_bytes, SerializeTransaction, genesis_coinbase.
  cbn [tx_version tx_vin tx_vout tx_lockTime flat_map length app].
  unfold SerializeTxIn, SerializeTxOut, WriteVarStr.
  cbn [in_prevout in_scriptSig in_sequence op_hash op_n out_value out_scriptPubKey length].
  unfold WriteVarInt. rewrite length_string_bytes.
  destruct (Z.ltb_spec (Z.of_nat (S (String.length (g_message g)))) 0xfd); [|lia].
  unfold WriteU8. change (Z.of_nat 1 <? 0xfd) with true. cbv iota.
  rewrite <- !app_assoc. reflexivity.
Qed.

Lemma merkle_single {ossl : OpenSSL} tx : ComputeMerkleRoot [tx] = Some (GetTxID tx).
Proof. reflexivity. Qed.

(** The header with a nonce in its last bytes is the node's serialization of
    the genesis header with that nonce. *)
Lemma build_genesis_header_eq g nonce : (String.length (g_message g) < 252)%nat ->
  take 76 (build_genesis_header g) ++ le_bytes 4 nonce =
  SerializeBlockHeader (blk_header (CreateGenesisBlock (ossl := eval_ossl) (g_bits g) (g_reward g) (g_ts g) (g_message g) nonce)).
Proof.
  intros Hl. unfold CreateGenesisBlock, SerializeBlockHeader.
  cbn [blk_header hdr_version hdr_prevBlockHash hdr_merkleRoot hdr_timestamp hdr_bits hdr_nonce].
  rewrite merkle_single. cbn [default from_option id]. unfold build_genesis_header, GetTxID, WriteUint256, WriteU32.
  rewrite (getBytesLE_SHA256d (O := eval_ossl)), <- genesis_tx_bytes_eq by done.
  unfold SHA256d_bytes, sha256d_full. change (@EVP_sha256 eval_ossl) with sha256_full.
  set (m := sha256_full (sha256_full _)). assert (length m = 32%nat) as Hm by apply length_sha256_full.
  rewrite !(app_assoc _ _ (repeat 0 4)), take_app_length'.
  - rewrite <- !app_assoc. reflexivity.
  - rewrite !length_app, Hm, !length_le_bytes, repeat_length. done.
Qed.

Lemma length_build_genesis_header g : length (build_genesis_header g) = 80%nat.
Proof.
  unfold build_genesis_header, sha256d_full. rewrite !length_app, length_sha256_full, !length_le_bytes, !repeat_length.
  done.
Qed.

(** ** The invariant of the search *)

Section Search.
Context (hdr : bytes) (target : list Z) (start : Z) (threads : nat).
Hypothesis hdr80 : length hdr = 80%nat.
Hypothesis start_ok : 0 <= start <= 2 ^ 32.
Hypothesis threads_ok : Z.of_nat threads < 2 ^ 32.

(** Nonce [n] solves the header. *)
Definition hit (n : Z) : bool := hash_le_target (nonce_hash hdr n) target.
#[local] Opaque hit sha256d_full hash_le_target mine_hash.

(** A worker that takes no further nonce. *)
Definition over (w : worker) : bool :=
  match wk_pc w with WExit => true | WCheck n => 2 ^ 32 <=? n | _ => false end.
Definition overs (l : list worker) : Z := sumZ (map (fun w => if over w then 1 else 0) l).
(** The nonce a worker is responsible for. *)
Definition holds (w : worker) (n : Z) : Prop :=
  match wk_pc w with WCheck m | WHash m | WStore m => m = n | _ => False end.

(** What is known of a worker, given the shared state. *)
Definition worker_inv (sh : shared) (w : worker) : Prop :=
  midstate_ok hdr (wk_local w) /\
  match wk_pc w with
  | WFetch => True
  | WCheck n => 0 <= n /\ (2 ^ 32 <= n -> 2 ^ 32 < sh_counter sh)
  | WHash n => 0 <= n < 2 ^ 32
  | WStore n => 0 <= n < 2 ^ 32 /\ hit n = true
  | WSignal => 0 <= sh_foundNonce sh < 2 ^ 32 /\ hit (sh_foundNonce sh) = true
  | WExit => sh_found sh = true \/ 2 ^ 32 < sh_counter sh
  end.

Record pool_inv (s : pool) : Prop := {
  inv_len : length (pl_workers s) = threads;
  inv_workers : Forall (worker_inv (pl_shared s)) (pl_workers s);
  inv_counter : start <= sh_counter (pl_shared s) <= 2 ^ 32 + overs (pl_workers s);
  inv_found : sh_found (pl_shared s) = true ->
    0 <= sh_foundNonce (pl_shared s) < 2 ^ 32 /\ hit (sh_foundNonce (pl_shared s)) = true;
  inv_tried : forall n, start <= n < sh_counter (pl_shared s) -> n < 2 ^ 32 -> hit n = true ->
    sh_found (pl_shared s) = true \/ exists w, w ∈ pl_workers s /\ (holds w n \/ wk_pc w = WSignal);
  inv_main : pl_reporting s = false -> sh_found (pl_shared s) = true
}.

Lemma overs_insert l i w w' : l !! i = Some w ->
  overs (<[i := w']> l) = overs l - (if over w then 1 else 0) + (if over w' then 1 else 0).
Proof.
  unfold overs. revert i. induction l as [|x l IH]; intros [|i] H; [done..| |].
  - injection H as ->. cbn. destruct (over w), (over w'); lia.
  - change (<[S i := w']> (x :: l)) with (x :: <[i := w']> l). cbn [map]. rewrite !sumZ_cons, (IH i H). lia.
Qed.

Lemma overs_bound l : 0 <= overs l <= Z.of_nat (length l).
Proof. unfold overs. induction l as [|x l IH]; cbn [map length]; [done|]. rewrite sumZ_cons. destruct (over x); lia. Qed.

Lemma pool_inv_init : pool_inv (pool_init hdr start threads).
Proof.
  split; cbn [pool_init pl_workers pl_shared pl_reporting sh_counter sh_found].
  - apply repeat_length.
  - apply Forall_forall. intros w Hw%list_elem_of_In%repeat_spec. subst. split; [by apply prepare_ok|done].
  - pose proof (overs_bound (repeat {| wk_pc := WFetch; wk_local := prepare hdr |} threads)). lia.
  - done.
  - intros n Hn. lia.
  - done.
Qed.

(** How the shared state may change while a worker makes a step. *)
Definition shared_le (sh sh' : shared) : Prop :=
  sh_counter sh <= sh_counter sh' /\ (sh_found sh = true -> sh_found sh' = true) /\
  (sh_foundNonce sh' = sh_foundNonce sh \/ 0 <= sh_foundNonce sh' < 2 ^ 32 /\ hit (sh_foundNonce sh') = true).

Lemma worker_inv_mono sh sh' w : shared_le sh sh' -> worker_inv sh w -> worker_inv sh' w.
Proof.
  intros (Hc & Hf & Hn) [Hm H]. split; [exact Hm|]. destruct (wk_pc w); [exact H| |exact H|exact H| |].
  - destruct H as [H0 H1]. split; [exact H0|]. intros H2. specialize (H1 H2). lia.
  - destruct Hn as [->|Hn]; [exact H|exact Hn].
  - destruct H; [by left; apply Hf|right; lia].
Qed.

(** The new nonce set of a step: the worker keeps responsibility for its nonce
    or is done with it. *)
Lemma worker_next_spec sh w sh' w' c : worker_inv sh w -> wk_pc w <> WExit ->
  0 <= sh_counter sh <= 2 ^ 32 + c -> 0 <= c < 2 ^ 32 -> worker_next target sh w = (sh', w') ->
  (sh_found sh = true -> 0 <= sh_foundNonce sh < 2 ^ 32 /\ hit (sh_foundNonce sh) = true) ->
  shared_le sh sh' /\ worker_inv sh' w' /\
  sh_counter sh' <= 2 ^ 32 + c - (if over w then 1 else 0) + (if over w' then 1 else 0) /\
  (sh_found sh' = true -> 0 <= sh_foundNonce sh' < 2 ^ 32 /\ hit (sh_foundNonce sh') = true) /\
  (forall n, sh_counter sh <= n < sh_counter sh' -> holds w' n) /\
  (forall n, n < 2 ^ 32 -> hit n = true -> holds w n \/ wk_pc w = WSignal ->
     sh_found sh' = true \/ holds w' n \/ wk_pc w' = WSignal).
Proof.
  intros [Hm Hi] Hne Hc Hcb Hn Hf. unfold worker_next in Hn. unfold shared_le, worker_inv, over, holds in *.
  destruct (wk_pc w) as [|n|n|n| |] eqn:Epc; [..|done].
  - injection Hn as <- <-. cbn. rewrite u64_id by u_range. split_and!; try done; try lia.
    + destruct (Z.leb_spec (2 ^ 32) (sh_counter sh)); lia.
    + intros n _ _ [[]|?]; done.
  - rewrite Z.gtb_ltb in Hn. destruct (Z.ltb_spec 0xFFFFFFFF n), (sh_found sh) eqn:Ef; injection Hn as <- <-; cbn;
      rewrite ?Ef; split_and!; try done; try lia; try (by left); try (by right; apply Hi; lia);
      try (destruct (Z.leb_spec (2 ^ 32) n); lia); try (intros ? ?; lia); try (by intros; left);
      intros m Hm1 Hm2 [->|?]; try done; try lia.
  - destruct (mine_hash_spec hdr (wk_local w) (u32 n) hdr80 Hm) as [Eh Em].
    destruct (mine_hash (wk_local w) (u32 n)) as [local out]. cbn [fst snd] in *. injection Hn as <- <-.
    cbn. assert (hash_le_target out target = hit n) as ->.
    { rewrite Eh, u32_id by u_range. reflexivity. }
    destruct (hit n) eqn:Eq; split_and!; try done; try lia; try (by left); try (intros ? ?; lia).
    + intros m _ _ [->|?]; [by right; left|done].
    + intros m _ Hh [->|?]; [congruence|done].
  - injection Hn as <- <-. cbn. destruct Hi as [Hr Hh]. rewrite u32_id by u_range.
    split_and!; [lia|intros E; exact E|right; exact (conj Hr Hh)|exact Hm|lia|lia|exact Hh|lia| |intros ? ?; lia|
      intros; right; right; reflexivity].
    intros _. exact (conj Hr Hh).
  - injection Hn as <- <-. cbn. split_and!; [lia|intros _; reflexivity|left; reflexivity|exact Hm|left; reflexivity|lia|
      intros _; exact Hi|intros ? ?; lia|intros; left; reflexivity].
Qed.

Lemma pool_step_inv s s' : pool_inv s -> pool_step target s s' -> pool_inv s'.
Proof.
  intros [Hlen Hw Hc Hf Ht Hm] Hs. destruct Hs as [s i w sh' w' Hi Hne Hn|s Hrep Hfound].
  - pose proof (proj1 (Forall_lookup _ _) Hw i w Hi) as Hwi.
    pose proof (overs_bound (pl_workers s)) as Hob.
    destruct (worker_next_spec (pl_shared s) w sh' w' (overs (pl_workers s)) Hwi Hne ltac:(lia) ltac:(lia) Hn Hf)
      as (Hle & Hw' & Hc' & Hf' & Hnew & Hkeep).
    split; cbn [pl_workers pl_shared pl_reporting].
    + by rewrite length_insert.
    + apply Forall_insert; [|done]. eapply Forall_impl; [exact Hw|]. intros x. by apply worker_inv_mono.
    + rewrite (overs_insert _ _ w) by done. destruct Hle as [Hle _]. lia.
    + exact Hf'.
    + intros n Hn1 Hn2 Hn3. assert (i < length (pl_workers s))%nat as Hil by (by eapply lookup_lt_Some).
      assert (w' ∈ <[i := w']> (pl_workers s)) as Hin by (apply list_elem_of_lookup; exists i; by apply list_lookup_insert_eq).
      destruct (Z.lt_ge_cases n (sh_counter (pl_shared s))) as [Hlt|Hge].
      * destruct (Ht n ltac:(lia) Hn2 Hn3) as [Hfd|(x & Hx & Hxn)]; [left; by apply Hle|].
        apply list_elem_of_lookup in Hx as [j Hj]. destruct (decide (i = j)) as [<-|Hij].
        { assert (x = w) as -> by congruence. destruct (Hkeep n Hn2 Hn3 Hxn) as [?|?]; [by left|right; by exists w']. }
        right. exists x. split; [|done]. apply list_elem_of_lookup. exists j. by rewrite list_lookup_insert_ne.
      * right. exists w'. split; [done|]. left. apply Hnew. lia.
    + intros Hr. by apply Hle, Hm.
  - by split.
Qed.

Lemma pool_reach_inv s : pool_reach hdr target start threads s -> pool_inv s.
Proof. induction 1; [apply pool_inv_init|by eapply pool_step_inv]. Qed.

End Search.

(** ** The printed hash *)

Lemma hex_char_digit d : 0 <= d < 16 -> nth (Z.to_nat d) hex_chars Ascii.zero = hex_digit d.
Proof.
  intros Hd. assert (forall n, (n < 16)%nat -> nth n hex_chars Ascii.zero = hex_digit (Z.of_nat n)) as H.
  { intros n Hn. do 16 (destruct n as [|n]; [reflexivity|]). lia. }
  rewrite H by lia. by rewrite Z2Nat.id by lia.
Qed.

Lemma hex32_display_getHex p : bytes_wf p -> length p = 32%nat ->
  String.string_of_list_ascii (hex32_display p) = getHex (setBytesLE p).
Proof.
  intros Hp Hl. unfold getHex. f_equal. rewrite getBytesLE_setBytesLE by done.
  unfold hex32_display. assert (map (fun i => nth (31 - i) p 0) (seq 0 32) = rev p) as ->.
  { do 32 (destruct p as [|? p]; [done|]). by destruct p. }
  unfold hex32. rewrite take_ge by (rewrite length_rev; lia). apply Forall_rev in Hp.
  induction Hp as [|x l Hx _ IH]; [done|]. cbn [flat_map app]. rewrite IH.
  assert (0 <= Z.shiftr x 4 < 16) as Hs by (rewrite Z.shiftr_div_pow2 by lia; u_divmod).
  rewrite !hex_char_digit by (done || apply land_f_range). do 3 f_equal.
  change 0xf with (Z.ones 4). rewrite Z.land_ones by lia. symmetry. apply Z.mod_small. lia.
Qed.

(** * Theorems *)

(** The genesis miner is sound, for every interleaving of its threads: once
    [found] is set, the genesis block the node builds with [foundNonce] (same
    message, reward, time and bits) passes the node's proof-of-work check, and
    the hash the tool prints is the text that the node's configuration turns
    back into the hash of that block.  Compact targets with an exponent from 4
    to 32 and a message below 252 bytes are covered. *)
Theorem genesis_miner_sound g target start threads s :
  (String.length (g_message g) < 252)%nat -> is_u32 (g_bits g) -> 4 <= g_bits g / 2 ^ 24 <= 32 ->
  g_bits g mod 2 ^ 23 <> 0 -> target_from_bits (g_bits g) = Done target ->
  0 <= start <= 2 ^ 32 -> Z.of_nat threads < 2 ^ 32 ->
  pool_reach (build_genesis_header g) target start threads s -> sh_found (pl_shared s) = true ->
  let nonce := sh_foundNonce (pl_shared s) in
  let hash := BlockHash (H := eval_ossl)
    (CreateGenesisBlock (ossl := eval_ossl) (g_bits g) (g_reward g) (g_ts g) (g_message g) nonce) in
  is_u32 nonce /\ CheckProofOfWork hash (g_bits g) = true /\
  fromHexReversed (String.string_of_list_ascii (hex32_display (nonce_hash (build_genesis_header g) nonce))) = hash.
Proof.
  intros Hmsg Hb He Hm Ht Hs Hth Hr Hf nonce hash.
  pose proof (length_build_genesis_header g) as H80.
  destruct (inv_found _ _ _ _ _ (pool_reach_inv _ _ _ _ H80 Hs Hth s Hr) Hf) as [Hn Hh].
  assert (setBytesLE (nonce_hash (build_genesis_header g) nonce) = hash) as Eh.
  { unfold nonce_hash, hash, BlockHash, HeaderHash. rewrite build_genesis_header_eq by done.
    unfold SHA256d, SHA256d_bytes, sha256d_full. change (@EVP_sha256 eval_ossl) with sha256_full. reflexivity. }
  assert (bytes_wf (nonce_hash (build_genesis_header g) nonce)) as Hw by apply sha256_full_wf.
  assert (length (nonce_hash (build_genesis_header g) nonce) = 32%nat) as Hl by apply length_sha256_full.
  split; [u_range|]. split.
  - rewrite <- Eh, <- (miner_pow_agrees (g_bits g) target); [exact Hh|exact Hb|exact He|exact Hm|exact Ht|exact Hw|exact Hl].
  - rewrite hex32_display_getHex; [|exact Hw|exact Hl].
    rewrite fromHexReversed_getHex; [exact Eh|apply setBytesLE_wf; exact Hw].
Qed.

(** The genesis miner misses nothing: when every worker has returned and
    [found] is not set, no nonce from the start value up to 2^32 solves the
    header.  In that state no thread can make a step and [main] is still in
    its progress loop, which only [found] ends: the message about an exhausted
    nonce space after the loop is unreachable, the tool hangs. *)
Theorem genesis_miner_exhaustion hdr target start threads s :
  length hdr = 80%nat -> 0 <= start <= 2 ^ 32 -> (0 < threads)%nat -> Z.of_nat threads < 2 ^ 32 ->
  pool_reach hdr target start threads s ->
  Forall (fun w => wk_pc w = WExit) (pl_workers s) -> sh_found (pl_shared s) = false ->
  (forall n, start <= n < 2 ^ 32 -> hash_le_target (nonce_hash hdr n) target = false) /\
  pl_reporting s = true /\ (forall s', ~ pool_step target s s').
Proof.
  intros Hl Hs Hpos Hth Hr Hex Hf. pose proof (pool_reach_inv _ _ _ _ Hl Hs Hth s Hr) as [Ilen Iw Ic If It Im].
  assert (2 ^ 32 < sh_counter (pl_shared s)) as Hc.
  { destruct (pl_workers s) as [|w l] eqn:E; [cbn in Ilen; lia|].
    apply Forall_cons in Hex as [Hw _], Iw as [[_ Hi] _]. rewrite Hw in Hi. destruct Hi as [Hi|Hi]; [congruence|done]. }
  split_and!.
  - intros n Hn. apply not_true_is_false. intros Hh.
    destruct (It n ltac:(lia) ltac:(lia) Hh) as [?|(w & Hw & Hwn)]; [congruence|].
    rewrite Forall_forall in Hex. specialize (Hex w Hw). unfold holds in Hwn. rewrite Hex in Hwn.
    by destruct Hwn.
  - destruct (pl_reporting s); [done|]. specialize (Im eq_refl). congruence.
  - intros s' Hst. destruct Hst as [s i w sh' w' Hi Hne _|s _ Hfd]; [|congruence].
    apply Hne. exact (proj1 (Forall_lookup _ _) Hex i w Hi).
Qed.

(** ** Runs with one worker *)

(** [k] steps of worker 0. *)
Fixpoint run_worker (target : list Z) (k : nat) (s : pool) : pool :=
  match k with
  | O => s
  | S k =>
      match pl_workers s with
      | w :: _ =>
          match wk_pc w with
          | WExit => s
          | _ => let '(sh', w') := worker_next target (pl_shared s) w in
                 run_worker target k
                   {| pl_shared := sh'; pl_workers := <[0%nat := w']> (pl_workers s); pl_reporting := pl_reporting s |}
          end
      | [] => s
      end
  end.

Lemma run_worker_reach hdr target start threads k : forall s,
  pool_reach hdr target start threads s -> pool_reach hdr target start threads (run_worker target k s).
Proof.
  induction k as [|k IH]; intros s Hs; [exact Hs|]. cbn [run_worker].
  destruct (pl_workers s) as [|w l] eqn:El; [exact Hs|].
  assert (pl_workers s !! 0%nat = Some w) as Hl by (rewrite El; reflexivity). rewrite <- El.
  destruct (worker_next target (pl_shared s) w) as [sh' w'] eqn:En.
  destruct (wk_pc w) eqn:Ep; try exact Hs; apply IH; eapply reach_step; try exact Hs;
    (eapply step_worker; [exact Hl|rewrite Ep; discriminate|exact En]).
Qed.

Definition wit_params : GenesisParams :=
  {| g_ts := CDX_GENESIS_TIMESTAMP; g_bits := 0x207fffff; g_reward := INITIAL_BLOCK_REWARD; g_message := GetGenesisMessage |}.
Definition wit_target : list Z := 0x7fffff00 :: repeat 0 7.
Definition wit_search : pool := run_worker wit_target 5 (pool_init (build_genesis_header wit_params) 0 1).

Lemma wit_search_reach : pool_reach (build_genesis_header wit_params) wit_target 0 1 wit_search.
Proof. apply run_worker_reach, reach_init. Qed.

Lemma wit_search_found : sh_found (pl_shared wit_search) = true.
Proof. vm_compute. reflexivity. Qed.

Lemma genesis_miner_sound_witness :
  is_u32 (sh_foundNonce (pl_shared wit_search)) /\
  CheckProofOfWork (BlockHash (H := eval_ossl)
    (CreateGenesisBlock (ossl := eval_ossl) (g_bits wit_params) (g_reward wit_params) (g_ts wit_params)
      (g_message wit_params) (sh_foundNonce (pl_shared wit_search)))) (g_bits wit_params) = true.
Proof.
  refine (let H := genesis_miner_sound wit_params wit_target 0 1 wit_search _ _ _ _ _ _ _ wit_search_reach wit_search_found
          in conj (proj1 H) (proj1 (proj2 H))).
  - apply Nat.ltb_lt. vm_compute. reflexivity.
  - unfold wit_params. cbn [g_bits]. u_range.
  - vm_compute. split; discriminate.
  - vm_compute. discriminate.
  - vm_compute. reflexivity.
  - lia.
  - lia.
Defined.

Definition wit_exhausted : pool := run_worker (repeat 0 8) 5 (pool_init (repeat 0 80) (2 ^ 32 - 1) 1).

Lemma wit_exhausted_state :
  Forall (fun w => wk_pc w = WExit) (pl_workers wit_exhausted) /\ sh_found (pl_shared wit_exhausted) = false.
Proof.
  assert (map wk_pc (pl_workers wit_exhausted) = [WExit] /\ sh_found (pl_shared wit_exhausted) = false) as [E F]
    by (vm_compute; split; reflexivity).
  split; [|exact F]. revert E. generalize (pl_workers wit_exhausted). intros l E.
  destruct l as [|w [|]]; [discriminate| |discriminate]. injection E as E. apply Forall_cons_2; [exact E|apply Forall_nil_2].
Qed.

Lemma genesis_miner_exhaustion_witness :
  hash_le_target (nonce_hash (repeat 0 80) (2 ^ 32 - 1)) (repeat 0 8) = false /\ pl_reporting wit_exhausted = true.
Proof.
  destruct wit_exhausted_state as [H1 H2].
  destruct (genesis_miner_exhaustion (repeat 0 80) (repeat 0 8) (2 ^ 32 - 1) 1 wit_exhausted eq_refl
    ltac:(lia) ltac:(lia) ltac:(lia) (run_worker_reach _ _ _ _ _ _ (reach_init _ _ _ _)) H1 H2) as (A & B & _).
  split; [apply A; lia|exact B].
Defined.
