(* ===== verification/Validation.v ===== *)
(** [consensus/validation.cpp]: transaction, header and block validation
    against a UTXO view.  A function that returns [bool] with an [error]
    string and output parameters is a [res] of its outputs. *)
From S2P Require Import Prelude Config UInt256 Compact Consensus Crypto Transaction Script Utxo Block.
Import uint256 Rewards Rules Difficulty Script.
Open Scope cdx_scope.

(** * Definitions *)

(** The nested loop over pairs [i < j] of inputs. *)
Fixpoint duplicate_inputs (vin : list CTxIn) : bool :=
  match vin with
  | [] => false
  | i :: r => existsb (fun j => outpoint_eqb (in_prevout i) (in_prevout j)) r || duplicate_inputs r
  end.

(** The loop body over the outputs, with [totalOut] as state. *)
Definition check_output (totalOut : Z) (out : CTxOut) : res Z :=
  _ ← fail_if (out_value out <? 0) "negative output";
  _ ← fail_if (out_value out >? MAX_MONEY) "output exceeds max money";
  let totalOut := totalOut +i out_value out in
  _ ← fail_if (totalOut >? MAX_MONEY) "total output exceeds max money";
  Ok totalOut.

Definition CheckTransaction (tx : CTransaction) : res unit :=
  _ ← fail_if (Z.of_nat (length (tx_vin tx)) =? 0) "no inputs";
  _ ← fail_if (Z.of_nat (length (tx_vout tx)) =? 0) "no outputs";
  _ ← fail_if (Z.of_nat (length (tx_vin tx)) >? MAX_TX_COUNT_PER_BLOCK) "too many inputs";
  _ ← fail_if (Z.of_nat (length (tx_vout tx)) >? MAX_TX_COUNT_PER_BLOCK) "too many outputs";
  _ ← fail_if (duplicate_inputs (tx_vin tx)) "duplicate inputs";
  _ ← res_fold check_output 0 (tx_vout tx);
  if IsCoinBase tx then
    let n := Z.of_nat (length (from_option in_scriptSig [] (head (tx_vin tx)))) in
    fail_if ((n <? 2) || (n >? 100)) "coinbase scriptSig size invalid"
  else
    fail_if (existsb (fun i => isZero (op_hash (in_prevout i))) (tx_vin tx))
      "null prevout in non-coinbase".

Section Validation.
Context {ossl : OpenSSL}.

Definition clear_script (i : CTxIn) : CTxIn :=
  {| in_prevout := in_prevout i; in_scriptSig := []; in_sequence := in_sequence i |}.
Definition set_script (s : bytes) (i : CTxIn) : CTxIn :=
  {| in_prevout := in_prevout i; in_scriptSig := s; in_sequence := in_sequence i |}.

Definition SignatureHash (tx : CTransaction) (inputIndex : nat) (scriptPubKey : bytes) : uint256 :=
  let txCopy := {| tx_version := tx_version tx;
                   tx_vin := alter (set_script scriptPubKey) inputIndex (map clear_script (tx_vin tx));
                   tx_vout := tx_vout tx; tx_lockTime := tx_lockTime tx |} in
  let ser := SerializeTransaction txCopy in
  setBytesLE (SHA256 (SHA256TwoParts ser [0x01; 0x00; 0x00; 0x00])).

(** The loop body over the inputs, with [inSum] as state. *)
Definition check_input (tx : CTransaction) (view : CCoinsView) (height : Z)
    (inSum : Z) (ni : nat * CTxIn) : res Z :=
  let '(n, i) := ni in
  match GetCoin view (in_prevout i) with
  | None => Err "input not found in UTXO set"
  | Some coin =>
      _ ← fail_if (negb (IsSpendable coin height)) "coinbase input not mature";
      let hash32 := getBytesLE (SignatureHash tx n (coin_scriptPubKey coin)) in
      match VerifyScript (in_scriptSig i) (coin_scriptPubKey coin) (Some hash32) with
      | Err verr => Err (String.append "signature verification failed: " verr)
      | Ok _ =>
          let inSum := inSum +i coin_value coin in
          _ ← fail_if (inSum >? MAX_MONEY) "input sum overflow";
          Ok inSum
      end
  end.

Definition indexed {A} (l : list A) : list (nat * A) := imap pair l.

(** Returns the fee. *)
Definition CheckTxInputs (tx : CTransaction) (view : CCoinsView) (height : Z) : res Z :=
  _ ← fail_if (IsCoinBase tx) "coinbase has no inputs to check";
  inSum ← res_fold (check_input tx view height) 0 (indexed (tx_vin tx));
  let outSum := i64_sum (map out_value (tx_vout tx)) in
  _ ← fail_if (inSum <? outSum) "inputs < outputs";
  Ok (inSum -i outSum).

(** [None] is the path on which [fee] is left as it was. *)
Definition ValidateTransaction (tx : CTransaction) (view : CCoinsView) (height : Z)
    (checkCoinbase : bool) : res (option Z) :=
  _ ← CheckTransaction tx;
  if checkCoinbase && IsCoinBase tx then Ok None
  else if IsCoinBase tx then Err "coinbase not allowed in mempool"
  else fee ← CheckTxInputs tx view height; Ok (Some fee).

Definition CheckBlockHeader (hdr : CBlockHeader) (prev : option CBlockHeader) (p : ChainParams) : res unit :=
  let hash := HeaderHash hdr in
  _ ← fail_if (negb (CheckProofOfWork hash (hdr_bits hdr))) "proof of work failed";
  _ ← fail_if (match prev with Some ph => negb (eqb (hdr_prevBlockHash hdr) (HeaderHash ph)) | None => false end)
        "previous block hash mismatch";
  match prev with
  | None =>
      if negb (bool_decide (genesisHashHex p = ""))
      then fail_if (negb (eqb hash (fromHexReversed (genesisHashHex p)))) "genesis hash mismatch"
      else Ok tt
  | Some ph => fail_if (hdr_timestamp hdr <=? hdr_timestamp ph) "timestamp not greater than prev"
  end.

(** [for (in : tx.vin) if (!viewOut.SpendCoin(in.prevout)) ...] *)
Definition spend_input (view : CCoinsView) (i : CTxIn) : res CCoinsView :=
  let '(found, view') := SpendCoin view (in_prevout i) in
  _ ← fail_if (negb found) "double spend"; Ok view'.

Definition add_output (txid : uint256) (height : Z) (view : CCoinsView) (jo : nat * CTxOut) : CCoinsView :=
  let '(j, o) := jo in
  AddCoin view {| op_hash := txid; op_n := u32 (Z.of_nat j) |}
    {| coin_value := out_value o; coin_scriptPubKey := out_scriptPubKey o;
       coin_height := height; coin_isCoinbase := false |}.

(** Pass 1 of [CheckBlock] on one transaction; the state is [viewOut], [fees]. *)
Definition connect_tx (height : Z) (st : CCoinsView * Z) (tx : CTransaction) : res (CCoinsView * Z) :=
  let '(viewOut, fees) := st in
  _ ← CheckTransaction tx;
  fee ← CheckTxInputs tx viewOut height;
  let fees := fees +i fee in
  viewOut ← res_fold spend_input viewOut (tx_vin tx);
  Ok (foldl (add_output (GetTxID tx) height) viewOut (indexed (tx_vout tx)), fees).

(** Pass 2: the coinbase. *)
Definition connect_coinbase (height : Z) (viewOut : CCoinsView) (fees : Z) (tx : CTransaction) : res CCoinsView :=
  _ ← CheckTransaction tx;
  let subsidy := GetBlockSubsidy height in
  let cbValue := i64_sum (map out_value (tx_vout tx)) in
  _ ← fail_if (negb (IsCoinbaseValueValid cbValue subsidy fees)) "coinbase value exceeds subsidy + fees";
  Ok (AddCoin viewOut {| op_hash := GetTxID tx; op_n := 0 |}
        {| coin_value := cbValue;
           coin_scriptPubKey := from_option out_scriptPubKey [] (head (tx_vout tx));
           coin_height := height; coin_isCoinbase := true |}).

(** Returns [viewOut] and [fees]. *)
Definition CheckBlock (blk : CBlock) (height : Z) (view : CCoinsView) (p : ChainParams) : res (CCoinsView * Z) :=
  match blk_vtx blk with
  | [] => Err "first tx is not coinbase"
  | cb :: txs =>
      _ ← fail_if (negb (IsCoinBase cb)) "first tx is not coinbase";
      _ ← fail_if (existsb IsCoinBase txs) "multiple coinbases";
      _ ← fail_if (Z.of_nat (length (blk_vtx blk)) >? MAX_TX_COUNT_PER_BLOCK) "too many transactions";
      _ ← fail_if (negb (CheckMerkleRoot blk)) "merkle root mismatch";
      '(viewOut, fees) ← res_fold (connect_tx height) (view, 0) txs;
      viewOut ← connect_coinbase height viewOut fees cb;
      Ok (viewOut, fees)
  end.

End Validation.

(** * Specifications *)

Definition money_ok (v : Z) : Prop := 0 <= v <= MAX_MONEY.
Definition out_sum (tx : CTransaction) : Z := sumZ (map out_value (tx_vout tx)).

(** What [CheckTransaction] accepts, on exact integers. *)
Definition tx_valid (tx : CTransaction) : Prop :=
  tx_vin tx <> [] /\ tx_vout tx <> [] /\
  Z.of_nat (length (tx_vin tx)) <= MAX_TX_COUNT_PER_BLOCK /\
  Z.of_nat (length (tx_vout tx)) <= MAX_TX_COUNT_PER_BLOCK /\
  NoDup (map in_prevout (tx_vin tx)) /\
  Forall (fun o => money_ok (out_value o)) (tx_vout tx) /\ out_sum tx <= MAX_MONEY /\
  if IsCoinBase tx
  then 2 <= Z.of_nat (length (from_option in_scriptSig [] (head (tx_vin tx)))) <= 100
  else Forall (fun i => isZero (op_hash (in_prevout i)) = false) (tx_vin tx).

Section Specs.
Context {ossl : OpenSSL}.

(** Input [n] of [tx] may be spent at [height]: its coin exists, is mature and
    its script accepts the signature over the transaction. *)
Definition input_authorised (tx : CTransaction) (view : CCoinsView) (height : Z) (ni : nat * CTxIn) : Prop :=
  exists coin, view !! in_prevout ni.2 = Some coin /\ IsSpendable coin height = true /\
    VerifyScript (in_scriptSig ni.2) (coin_scriptPubKey coin)
      (Some (getBytesLE (SignatureHash tx ni.1 (coin_scriptPubKey coin)))) = Ok tt.
Definition in_value (view : CCoinsView) (i : CTxIn) : Z :=
  from_option coin_value 0 (view !! in_prevout i).
Definition in_sum (view : CCoinsView) (tx : CTransaction) : Z := sumZ (map (in_value view) (tx_vin tx)).

End Specs.

(** * Lemmas *)

Lemma MAX_MONEY_i64 : 0 < MAX_MONEY /\ 2 * MAX_MONEY < 2 ^ 63.
Proof. done. Qed.

Lemma outpoint_eqb_spec a b : outpoint_eqb a b = bool_decide (a = b).
Proof.
  unfold outpoint_eqb. rewrite eqb_spec. destruct a as [h n], b as [h' n']; cbn.
  destruct (Z.eqb_spec n n') as [->|]; case_bool_decide; subst; case_bool_decide; congruence || done.
Qed.

Lemma duplicate_inputs_spec vin : duplicate_inputs vin = false <-> NoDup (map in_prevout vin).
Proof.
  induction vin as [|i vin IH]; cbn [duplicate_inputs map].
  - split; [intros _; apply NoDup_nil_2|done].
  - rewrite orb_false_iff, NoDup_cons, IH.
    enough (existsb (fun j => outpoint_eqb (in_prevout i) (in_prevout j)) vin = false <->
            in_prevout i ∉ map in_prevout vin) by tauto.
    rewrite <- not_true_iff_false, existsb_exists, list_elem_of_In, in_map_iff.
    setoid_rewrite outpoint_eqb_spec. setoid_rewrite bool_decide_eq_true.
    split; intros H (x & ? & ?); apply H; eauto.
Qed.

Lemma sumZ_money l : Forall money_ok l -> 0 <= sumZ l.
Proof. intros H. apply sumZ_nonneg. eapply Forall_impl; [exact H|]. unfold money_ok. lia. Qed.

Lemma check_output_spec acc o t : money_ok acc ->
  check_output acc o = Ok t <->
  money_ok (out_value o) /\ acc + out_value o <= MAX_MONEY /\ t = acc + out_value o.
Proof.
  unfold check_output, money_ok, fail_if. intros Ha. pose proof MAX_MONEY_i64.
  rewrite !Z.gtb_ltb.
  destruct (Z.ltb_spec (out_value o) 0); cbn [mbind res_bind]; [split; [done|lia]|].
  destruct (Z.ltb_spec MAX_MONEY (out_value o)); cbn [mbind res_bind]; [split; [done|lia]|].
  unfold i64_add. rewrite i64_id by u_range.
  destruct (Z.ltb_spec MAX_MONEY (acc + out_value o)); cbn [mbind res_bind]; [split; [done|lia]|].
  split; [intros [= <-]; lia|]. by intros (_ & _ & ->).
Qed.

Lemma check_outputs_spec acc l t : money_ok acc ->
  res_fold check_output acc l = Ok t <->
  Forall (fun o => money_ok (out_value o)) l /\ acc + sumZ (map out_value l) <= MAX_MONEY /\
  t = acc + sumZ (map out_value l).
Proof.
  revert acc. induction l as [|o l IH]; intros acc Ha; cbn [res_fold map].
  - change (sumZ []) with 0. rewrite Z.add_0_r. unfold money_ok in *. split.
    + intros [= <-]. split_and!; [apply Forall_nil_2|lia|done].
    + by intros (_ & _ & ->).
  - rewrite bind_Ok, Forall_cons, sumZ_cons. split.
    + intros (s & H1 & H2). apply check_output_spec in H1 as (Ho & Hle & ->); [|done].
      apply IH in H2 as (Hl & H2 & ->); [|unfold money_ok in *; lia]. split_and!; done || lia.
    + intros ([Ho Hl] & Hle & ->). exists (acc + out_value o).
      assert (0 <= sumZ (map out_value l)) by (apply sumZ_money, Forall_map, Hl).
      unfold money_ok in *.
      split; [apply check_output_spec; unfold money_ok; lia|]. apply IH; [unfold money_ok; lia|].
      split_and!; done || lia.
Qed.

Lemma length_zero_eqb {A} (l : list A) : (Z.of_nat (length l) =? 0) = false <-> l <> [].
Proof. destruct l; simpl; split; try done. Qed.

Lemma gtb_false a b : (a >? b) = false <-> a <= b.
Proof. rewrite Z.gtb_ltb. apply Z.ltb_ge. Qed.

Lemma existsb_false {A} (f : A -> bool) l : existsb f l = false <-> Forall (fun x => f x = false) l.
Proof.
  induction l as [|x l IH]; cbn [existsb]; [split; [intros _; apply Forall_nil_2|done]|].
  by rewrite orb_false_iff, Forall_cons, IH.
Qed.

Lemma fail_if_bind {B} c e (f : unit -> res B) b :
  fail_if c e ≫= f = Ok b <-> c = false /\ f tt = Ok b.
Proof. destruct c; cbn; split; try done. by intros [? _]. by intros [_ ?]. Qed.

Lemma CheckTransaction_spec tx : CheckTransaction tx = Ok tt <-> tx_valid tx.
Proof.
  unfold CheckTransaction, tx_valid. rewrite !fail_if_bind.
  rewrite !length_zero_eqb, !gtb_false, duplicate_inputs_spec, bind_Ok.
  assert (money_ok 0) as H0 by (unfold money_ok; pose proof MAX_MONEY_i64; lia).
  setoid_rewrite (check_outputs_spec 0 (tx_vout tx) _ H0). rewrite !Z.add_0_l. fold (out_sum tx).
  destruct (IsCoinBase tx); setoid_rewrite fail_if_Ok;
    [setoid_rewrite orb_false_iff; setoid_rewrite Z.ltb_ge; setoid_rewrite gtb_false|
     setoid_rewrite existsb_false]; (split;
    [by intros (? & ? & ? & ? & ? & ? & (? & ? & _) & ?)
    |intros (? & ? & ? & ? & ? & ? & ? & ?); split_and!; try done; by exists (out_sum tx)]).
Qed.

Section ConnectFacts.
Context {ossl : OpenSSL}.

Lemma in_value_range view i : view_ok view -> money_ok (in_value view i).
Proof.
  intros Hv. unfold in_value, money_ok. pose proof MAX_MONEY_i64.
  destruct (view !! in_prevout i) as [c|] eqn:E; cbn; [|lia]. by apply Hv in E.
Qed.

Lemma check_input_spec tx view h acc ni t : view_ok view -> money_ok acc ->
  check_input tx view h acc ni = Ok t <->
  input_authorised tx view h ni /\ acc + in_value view ni.2 <= MAX_MONEY /\ t = acc + in_value view ni.2.
Proof.
  intros Hv Ha. destruct ni as [n i]. unfold check_input, input_authorised, GetCoin. cbn [fst snd].
  pose proof (in_value_range view i Hv) as Hr. unfold in_value in *. pose proof MAX_MONEY_i64.
  destruct (view !! in_prevout i) as [c|] eqn:E; cbn [from_option] in *.
  2: { split; [done|]. by intros ((? & ? & _) & _). }
  rewrite fail_if_bind, negb_false_iff.
  destruct (VerifyScript _ _ _) as [[]|e] eqn:Ev.
  - unfold i64_add, money_ok in *. rewrite i64_id by u_range.
    rewrite fail_if_bind, gtb_false. split.
    + intros (Hs & Hle & [= <-]). split; [by exists c|done].
    + intros ((c' & [= <-] & Hs & _) & Hle & ->). done.
  - split; [by intros [_ ?]|]. intros ((c' & [= <-] & _ & Hs) & _). congruence.
Qed.

Lemma check_inputs_spec tx view h acc l t : view_ok view -> money_ok acc ->
  res_fold (check_input tx view h) acc l = Ok t <->
  Forall (input_authorised tx view h) l /\
  acc + sumZ (map (fun ni => in_value view ni.2) l) <= MAX_MONEY /\
  t = acc + sumZ (map (fun ni => in_value view ni.2) l).
Proof.
  intros Hv. revert acc. induction l as [|ni l IH]; intros acc Ha; cbn [res_fold map].
  - change (sumZ []) with 0. rewrite Z.add_0_r. unfold money_ok in *. split.
    + intros [= <-]. split_and!; [apply Forall_nil_2|lia|done].
    + by intros (_ & _ & ->).
  - rewrite bind_Ok, Forall_cons.
    rewrite sumZ_cons.
    pose proof (in_value_range view ni.2 Hv). split.
    + intros (s & H1 & H2). apply check_input_spec in H1 as (Ho & Hle & ->); [|done|done].
      apply IH in H2 as (Hl & H2 & ->); [|unfold money_ok in *; lia]. split_and!; done || lia.
    + intros ([Ho Hl] & Hle & ->). exists (acc + in_value view ni.2).
      assert (0 <= sumZ (map (fun ni => in_value view ni.2) l)).
      { apply sumZ_money, Forall_map, Forall_true. intros. by apply in_value_range. }
      unfold money_ok in *.
      split; [apply check_input_spec; [done|unfold money_ok; lia|split_and!; done || lia]|]. apply IH; [unfold money_ok; lia|].
      split_and!; done || lia.
Qed.

Lemma map_snd_indexed {A B} (f : A -> B) l : map (fun ni => f ni.2) (indexed l) = map f l.
Proof.
  unfold indexed. change (map ?g (imap pair l)) with (g <$> imap pair l). rewrite fmap_imap.
  rewrite (imap_ext _ (const f)) by done. apply imap_const.
Qed.

(** What [CheckTxInputs] accepts, and the fee it computes. *)
Lemma CheckTxInputs_spec tx view h fee : view_ok view -> tx_valid tx ->
  CheckTxInputs tx view h = Ok fee <->
  IsCoinBase tx = false /\ Forall (input_authorised tx view h) (indexed (tx_vin tx)) /\
  in_sum view tx <= MAX_MONEY /\ out_sum tx <= in_sum view tx /\ fee = in_sum view tx - out_sum tx.
Proof.
  intros Hv (_ & _ & _ & _ & _ & Ho & Hs & _). unfold CheckTxInputs. pose proof MAX_MONEY_i64.
  assert (money_ok 0) as H0 by (unfold money_ok; lia).
  assert (0 <= out_sum tx) as Hp by (apply sumZ_money, Forall_map, Ho).
  rewrite fail_if_bind, bind_Ok, i64_sum_eq. fold (out_sum tx).
  rewrite (i64_id (out_sum tx)) by u_range.
  setoid_rewrite (check_inputs_spec tx view h 0 _ _ Hv H0). rewrite !map_snd_indexed, !Z.add_0_l.
  fold (in_sum view tx). setoid_rewrite fail_if_bind. setoid_rewrite Z.ltb_ge. split.
  - intros (Hc & t & (Ha & Hm & ->) & Hle & [= <-]). split_and!; try done.
    apply i64_id. u_range.
  - intros (Hc & Ha & Hm & Hle & ->). split; [done|]. exists (in_sum view tx). split_and!; try done.
    f_equal. apply i64_id. u_range.
Qed.

(** Spending distinct existing inputs always succeeds. *)
Definition spend_all (view : CCoinsView) (vin : list CTxIn) : CCoinsView :=
  foldl (fun v i => delete (in_prevout i) v) view vin.

Lemma spend_inputs_ok view vin :
  NoDup (map in_prevout vin) -> Forall (fun i => is_Some (view !! in_prevout i)) vin ->
  res_fold spend_input view vin = Ok (spend_all view vin).
Proof.
  revert view. induction vin as [|i vin IH]; intros view Hn Hs; [done|].
  cbn [map] in Hn. apply NoDup_cons in Hn as [Hi Hn]. apply Forall_cons in Hs as [Hsi Hs].
  cbn [res_fold]. unfold spend_input, SpendCoin, HaveCoin. rewrite bool_decide_true by done.
  cbn [negb fail_if mbind res_bind]. apply IH; [done|].
  apply Forall_forall. intros j Hj.
  rewrite lookup_delete_ne; [by eapply Forall_forall in Hs|]. intros E. apply Hi. rewrite E.
  apply list_elem_of_fmap. by exists j.
Qed.

Lemma lookup_spend_all view vin o :
  spend_all view vin !! o = if bool_decide (o ∈ map in_prevout vin) then None else view !! o.
Proof.
  revert view. induction vin as [|i vin IH]; intros view; cbn [spend_all foldl map]; [done|].
  fold (spend_all (delete (in_prevout i) view) vin). rewrite IH.
  destruct (decide (o = in_prevout i)) as [->|Hne].
  - rewrite lookup_delete_eq. rewrite (bool_decide_true (_ ∈ _ :: _)) by left.
    by case_bool_decide.
  - rewrite lookup_delete_ne by done.
    by rewrite (bool_decide_ext (o ∈ in_prevout i :: map in_prevout vin) (o ∈ map in_prevout vin))
      by (rewrite elem_of_cons; tauto).
Qed.

Lemma spend_all_ok view vin : view_ok view -> view_ok (spend_all view vin).
Proof. revert view. induction vin; intros view Hv; [done|]. apply IHvin. by apply view_ok_delete. Qed.

Lemma spend_all_supply view vin :
  NoDup (map in_prevout vin) -> Forall (fun i => is_Some (view !! in_prevout i)) vin ->
  supply (spend_all view vin) = supply view - sumZ (map (in_value view) vin).
Proof.
  revert view. induction vin as [|i vin IH]; intros view Hn Hs.
  { change (supply view = supply view - 0). lia. }
  cbn [map] in Hn. apply NoDup_cons in Hn as [Hi Hn]. apply Forall_cons in Hs as [[c Hc] Hs].
  assert (forall j, j ∈ vin -> delete (in_prevout i) view !! in_prevout j = view !! in_prevout j) as Hd.
  { intros j Hj. apply lookup_delete_ne. intros E. apply Hi. rewrite E. apply list_elem_of_fmap. by exists j. }
  change (spend_all view (i :: vin)) with (spend_all (delete (in_prevout i) view) vin). rewrite IH; [|done|].
  - rewrite (supply_delete _ _ c) by done.
    cbn [map]. rewrite sumZ_cons.
    rewrite (map_ext_in (in_value (delete (in_prevout i) view)) (in_value view)).
    + unfold in_value at 2. rewrite Hc. cbn. lia.
    + intros j Hj%list_elem_of_In. unfold in_value. by rewrite Hd.
  - apply Forall_forall. intros j Hj. rewrite Hd by done. by eapply Forall_forall in Hs.
Qed.

Definition output_coin (height : Z) (o : CTxOut) : CUTXO :=
  {| coin_value := out_value o; coin_scriptPubKey := out_scriptPubKey o;
     coin_height := height; coin_isCoinbase := false |}.

Lemma add_outputs_ok txid h view l : view_ok view -> Forall (fun jo => money_ok (out_value jo.2)) l ->
  let view' := foldl (add_output txid h) view l in
  view_ok view' /\ supply view' <= supply view + sumZ (map (fun jo => out_value jo.2) l).
Proof.
  revert view. induction l as [|[j o] l IH]; intros view Hv Hl; cbn zeta.
  { split; [done|]. change (supply view <= supply view + 0). lia. }
  apply Forall_cons in Hl as [Ho Hl]. cbn [foldl add_output]. unfold AddCoin. cbn [snd] in Ho.
  match goal with |- context [foldl _ (<[?k:=?c]> view) l] => set (v1 := <[k:=c]> view) end.
  assert (view_ok v1) as H1 by (by apply view_ok_insert).
  assert (supply v1 <= out_value o + supply view) as H2 by (by apply supply_insert_le).
  destruct (IH v1 H1 Hl) as [H3 H4]. split; [done|].
  cbn [map snd]. rewrite sumZ_cons. lia.
Qed.

(** Adding the outputs of [txid] touches no other transaction's outpoints. *)
Lemma lookup_add_outputs_ne txid h view l o : op_hash o <> txid ->
  foldl (add_output txid h) view l !! o = view !! o.
Proof.
  intros Hne. revert view. induction l as [|[j u] l IH]; intros view; [done|].
  cbn [foldl add_output]. rewrite IH. unfold AddCoin. apply lookup_insert_ne. intros <-. done.
Qed.

Lemma authorised_exists tx view h :
  Forall (input_authorised tx view h) (indexed (tx_vin tx)) ->
  Forall (fun i => is_Some (view !! in_prevout i)) (tx_vin tx).
Proof.
  intros H. apply Forall_lookup_2. intros n i Hn.
  assert (indexed (tx_vin tx) !! n = Some (n, i)) as Hl.
  { unfold indexed. by rewrite list_lookup_imap, Hn. }
  destruct (Forall_lookup_1 _ _ _ _ H Hl) as (c & Hc & _). by exists c.
Qed.

(** The effect of a transaction on the view. *)
Definition tx_effect (height : Z) (view : CCoinsView) (tx : CTransaction) : CCoinsView :=
  foldl (add_output (GetTxID tx) height) (spend_all view (tx_vin tx)) (indexed (tx_vout tx)).

Lemma connect_tx_spec h view fees tx r : view_ok view ->
  connect_tx h (view, fees) tx = Ok r <->
  tx_valid tx /\ IsCoinBase tx = false /\
  Forall (input_authorised tx view h) (indexed (tx_vin tx)) /\
  in_sum view tx <= MAX_MONEY /\ out_sum tx <= in_sum view tx /\
  r = (tx_effect h view tx, i64_add fees (in_sum view tx - out_sum tx)).
Proof.
  intros Hv. unfold connect_tx. rewrite bind_Ok. split.
  - intros (u & H1 & H). destruct u. apply CheckTransaction_spec in H1 as Ht.
    apply bind_Ok in H as (fee & Hf & H). apply CheckTxInputs_spec in Hf as (Hc & Ha & Hm & Hle & ->); [|done..].
    rewrite spend_inputs_ok in H; [|by destruct Ht as (_&_&_&_&?&_)|by eapply authorised_exists].
    cbn [mbind res_bind] in H. injection H as <-. done.
  - intros (Ht & Hc & Ha & Hm & Hle & ->). exists tt. split; [by apply CheckTransaction_spec|].
    rewrite bind_Ok. exists (in_sum view tx - out_sum tx). split; [by apply CheckTxInputs_spec|].
    rewrite spend_inputs_ok; [done|by destruct Ht as (_&_&_&_&?&_)|by eapply authorised_exists].
Qed.

Lemma tx_effect_supply h view tx : view_ok view -> tx_valid tx ->
  Forall (input_authorised tx view h) (indexed (tx_vin tx)) ->
  view_ok (tx_effect h view tx) /\
  supply (tx_effect h view tx) <= supply view - in_sum view tx + out_sum tx.
Proof.
  intros Hv (_ & _ & _ & _ & Hnd & Ho & _) Ha.
  destruct (add_outputs_ok (GetTxID tx) h (spend_all view (tx_vin tx)) (indexed (tx_vout tx))) as [H1 H2].
  - by apply spend_all_ok.
  - apply (Forall_map (fun jo : nat * CTxOut => out_value jo.2) money_ok).
    rewrite map_snd_indexed. by apply Forall_map.
  - split; [exact H1|]. unfold tx_effect. rewrite map_snd_indexed, spend_all_supply in H2;
      [|done|by eapply authorised_exists]. exact H2.
Qed.

End ConnectFacts.

Section BlockFacts.
Context {ossl : OpenSSL}.

Lemma connect_txs_inv h view txs r : view_ok view -> supply view <= MAX_MONEY ->
  res_fold (connect_tx h) (view, 0) txs = Ok r ->
  view_ok r.1 /\ 0 <= r.2 /\ supply r.1 + r.2 <= supply view.
Proof.
  intros Hv Hs. apply (res_fold_inv (fun r => view_ok r.1 /\ 0 <= r.2 /\ supply r.1 + r.2 <= supply view)).
  { cbn. split_and!; done || lia. }
  intros [v f] tx r' _ (H1 & H2 & H3) H. cbn [fst snd] in *. pose proof MAX_MONEY_i64.
  apply connect_tx_spec in H as (Ht & _ & Ha & Hm & Hle & ->); [|done]. cbn [fst snd].
  destruct (tx_effect_supply h v tx H1 Ht Ha) as [H4 H5].
  pose proof (supply_nonneg _ H1). pose proof (supply_nonneg _ H4).
  assert (0 <= out_sum tx) by (destruct Ht as (_&_&_&_&_&Ho&_); apply sumZ_money, Forall_map, Ho).
  unfold i64_add. rewrite i64_id by u_range. split_and!; done || lia.
Qed.

Definition coinbase_coin (h : Z) (cb : CTransaction) : CUTXO :=
  {| coin_value := out_sum cb; coin_scriptPubKey := from_option out_scriptPubKey [] (head (tx_vout cb));
     coin_height := h; coin_isCoinbase := true |}.

Lemma connect_coinbase_spec h view fees cb v' :
  0 <= h -> 0 <= fees <= MAX_MONEY ->
  connect_coinbase h view fees cb = Ok v' <->
  tx_valid cb /\ out_sum cb <= GetBlockSubsidy h + fees /\
  v' = <[{| op_hash := GetTxID cb; op_n := 0 |} := coinbase_coin h cb]> view.
Proof.
  intros Hh Hf. unfold connect_coinbase. pose proof MAX_MONEY_i64. pose proof (subsidy_range h) as Hsub.
  assert (tx_valid cb -> i64 (out_sum cb) = out_sum cb) as Hi.
  { intros (_&_&_&_&_&Ho&Hm&_). apply i64_id.
    assert (0 <= out_sum cb) by (apply sumZ_money, Forall_map, Ho). u_range. }
  destruct (CheckTransaction cb) as [[]|e] eqn:Ec; cbn [mbind res_bind].
  2: { split; [done|]. intros [Ht _]. apply CheckTransaction_spec in Ht. congruence. }
  apply CheckTransaction_spec in Ec. cbv zeta. rewrite fail_if_bind, i64_sum_eq. fold (out_sum cb).
  unfold IsCoinbaseValueValid, i64_add. rewrite negb_false_iff, Z.leb_le, Hi by done.
  rewrite (i64_id (GetBlockSubsidy h + fees)) by (unfold is_i64, INITIAL_BLOCK_REWARD, COIN in *; lia).
  split.
  - by intros (H1 & [= <-]).
  - by intros (_ & H2 & ->).
Qed.

(** What an accepted block is made of. *)
Lemma CheckBlock_inv blk h view p r : CheckBlock blk h view p = Ok r ->
  exists cb txs v1, blk_vtx blk = cb :: txs /\ IsCoinBase cb = true /\
    Forall (fun t => IsCoinBase t = false) txs /\
    Z.of_nat (length (blk_vtx blk)) <= MAX_TX_COUNT_PER_BLOCK /\
    CheckMerkleRoot blk = true /\
    res_fold (connect_tx h) (view, 0) txs = Ok (v1, r.2) /\
    connect_coinbase h v1 r.2 cb = Ok r.1.
Proof.
  unfold CheckBlock. destruct (blk_vtx blk) as [|cb txs] eqn:E; [done|].
  rewrite !fail_if_bind, !negb_false_iff, existsb_false, gtb_false.
  intros (H1 & H2 & H3 & H4 & H). apply bind_Ok in H as ([v1 f] & H5 & H).
  apply bind_Ok in H as (v2 & H6 & [= <-]). by exists cb, txs, v1.
Qed.

Lemma CheckBlock_supply blk h view p v' fees : 0 <= h -> view_ok view -> supply view <= MAX_MONEY ->
  CheckBlock blk h view p = Ok (v', fees) ->
  view_ok v' /\ 0 <= fees <= supply view /\ supply v' <= supply view + GetBlockSubsidy h.
Proof.
  intros Hh Hv Hs H. apply CheckBlock_inv in H as (cb & txs & v1 & _ & _ & _ & _ & _ & H1 & H2).
  cbn [fst snd] in *. apply connect_txs_inv in H1 as (Hv1 & Hf & Hs1); [|done..]. cbn [fst snd] in *.
  pose proof (supply_nonneg _ Hv1).
  apply connect_coinbase_spec in H2 as (Ht & Hle & ->); [|done|lia].
  assert (coin_ok (coinbase_coin h cb)) as Hc.
  { destruct Ht as (_&_&_&_&_&Ho&Hm&_). unfold coin_ok. cbn.
    split; [apply sumZ_money, Forall_map, Ho|exact Hm]. }
  split_and!; try lia; [by apply view_ok_insert|].
  pose proof (supply_insert_le v1 {| op_hash := GetTxID cb; op_n := 0 |} (coinbase_coin h cb) Hv1) as Hi.
  cbn [coin_value coinbase_coin] in Hi. lia.
Qed.

(** The fees of a list of transactions on exact integers: what each is worth
    more in inputs, in the view it is connected to, than in outputs. *)
Fixpoint exact_fees (h : Z) (view : CCoinsView) (txs : list CTransaction) : Z :=
  match txs with
  | [] => 0
  | tx :: r => in_sum view tx - out_sum tx + exact_fees h (tx_effect h view tx) r
  end.
Lemma connect_txs_fees h txs : forall view f r, view_ok view -> 0 <= f -> supply view + f <= MAX_MONEY ->
  res_fold (connect_tx h) (view, f) txs = Ok r -> r.2 = f + exact_fees h view txs.
Proof.
  induction txs as [|tx txs IH]; intros view f r Hv Hf Hs H; cbn [res_fold exact_fees] in *.
  { injection H as <-. cbn. lia. }
  apply bind_Ok in H as (st & H1 & H2). apply connect_tx_spec in H1 as (Ht & _ & Ha & Hm & Hle & ->); [|done].
  destruct (tx_effect_supply h view tx Hv Ht Ha) as [Hv1 Hs1]. pose proof MAX_MONEY_i64. pose proof (supply_nonneg _ Hv1). pose proof (supply_nonneg _ Hv).
  assert (0 <= out_sum tx) by (destruct Ht as (_&_&_&_&_&Ho&_); apply sumZ_money, Forall_map, Ho).
  unfold i64_add in H2. rewrite i64_id in H2 by u_range. apply IH in H2; [lia|done|lia|lia].
Qed.

(** An outpoint that is not in the view can only come back as an output of a
    transaction with its hash. *)
Lemma spent_stays_spent h txs : forall st r o,
  view_ok st.1 -> st.1 !! o = None ->
  Forall (fun t => GetTxID t <> op_hash o) txs ->
  res_fold (connect_tx h) st txs = Ok r -> view_ok r.1 /\ r.1 !! o = None.
Proof.
  induction txs as [|tx txs IH]; intros [v f] r o Hv Ho Ht H; cbn [res_fold] in H.
  { by injection H as <-. }
  apply Forall_cons in Ht as [Hne Ht]. apply bind_Ok in H as (s & H1 & H2).
  apply connect_tx_spec in H1 as (Hval & _ & Ha & _ & _ & ->); [|done].
  apply (IH _ _ o) in H2; [done| | |done]; cbn [fst].
  - by apply tx_effect_supply.
  - unfold tx_effect. rewrite lookup_add_outputs_ne by congruence. rewrite lookup_spend_all.
    by case_bool_decide.
Qed.

Lemma connect_txs_view_ok h txs : forall st r, view_ok st.1 ->
  res_fold (connect_tx h) st txs = Ok r -> view_ok r.1.
Proof.
  intros st r Hv. apply (res_fold_inv (fun r => view_ok r.1)); [done|].
  intros [v f] tx r' _ H1 H. apply connect_tx_spec in H as (Ht & _ & Ha & _ & _ & ->); [|done].
  by apply tx_effect_supply.
Qed.

Lemma no_double_spend_txs h view l1 ti l2 tj l3 r o :
  view_ok view -> res_fold (connect_tx h) (view, 0) (l1 ++ ti :: l2 ++ tj :: l3) = Ok r ->
  o ∈ map in_prevout (tx_vin ti) -> o ∈ map in_prevout (tx_vin tj) ->
  Exists (fun t => GetTxID t = op_hash o) (ti :: l2).
Proof.
  intros Hv H Hi Hj. rewrite res_fold_app in H. apply bind_Ok in H as ([v1 f1] & H1 & H).
  apply connect_txs_view_ok in H1; [|done]. cbn [fst] in H1.
  cbn [res_fold] in H. apply bind_Ok in H as (s2 & H2 & H).
  rewrite res_fold_app in H. apply bind_Ok in H as ([v3 f3] & H3 & H).
  cbn [res_fold] in H. apply bind_Ok in H as (s4 & H4 & _).
  destruct (decide (Exists (fun t => GetTxID t = op_hash o) (ti :: l2))) as [?|Hn]; [done|exfalso].
  apply not_Exists_Forall in Hn; [|apply _]. apply Forall_cons in Hn as [Hn1 Hn2].
  apply connect_tx_spec in H2 as (Ht & _ & Ha & _ & _ & ->); [|done].
  destruct (spent_stays_spent h l2 (tx_effect h v1 ti, f1 +i (in_sum v1 ti - out_sum ti)) (v3, f3) o)
    as [Hv3 Ho3]; [by apply tx_effect_supply| |done|done|].
  { cbn [fst]. unfold tx_effect. rewrite lookup_add_outputs_ne by congruence.
    rewrite lookup_spend_all. by rewrite bool_decide_true. }
  cbn [fst] in *. apply connect_tx_spec in H4 as (_ & _ & Ha4 & _ & _ & _); [|done].
  apply authorised_exists in Ha4. apply list_elem_of_fmap in Hj as (i & -> & Hin).
  eapply Forall_forall in Ha4; [|exact Hin]. rewrite Ho3 in Ha4. by destruct Ha4.
Qed.

End BlockFacts.

Section SighashFacts.
Context {ossl : OpenSSL} {laws : OpenSSLLaws ossl}.

Definition sighash_tx (tx : CTransaction) (n : nat) (s : bytes) : CTransaction :=
  {| tx_version := tx_version tx; tx_vin := alter (set_script s) n (map clear_script (tx_vin tx));
     tx_vout := tx_vout tx; tx_lockTime := tx_lockTime tx |}.

(** What is hashed: that transaction and the hash type. *)
Definition sighash_preimage (tx : CTransaction) (n : nat) (s : bytes) : bytes :=
  SerializeTransaction (sighash_tx tx n s) ++ [1; 0; 0; 0].
Lemma SignatureHash_bytes tx n s : getBytesLE (SignatureHash tx n s) = SHA256d_bytes (sighash_preimage tx n s).
Proof. apply getBytesLE_setBytesLE; [apply EVP_sha256_bytes|apply EVP_sha256_length]. Qed.

Lemma sighash_tx_wf tx n s : tx_wf tx -> script_wf s -> tx_wf (sighash_tx tx n s).
Proof.
  intros (H1 & H2 & H3 & H4 & H5 & H6) Hs. unfold tx_wf, sighash_tx.
  cbn [tx_version tx_vin tx_vout tx_lockTime]. rewrite length_alter, length_map.
  split_and!; try done. apply Forall_alter.
  - apply Forall_map. eapply Forall_impl; [exact H2|]. intros i (? & ? & _ & ?).
    split_and!; try done. split; [apply Forall_nil_2|done].
  - intros i Hi (? & ? & _ & ?). done.
Qed.

Lemma map_sighash {B} (f : CTxIn -> B) tx n s :
  (forall t i, f (set_script t i) = f i) -> map f (tx_vin (sighash_tx tx n s)) = map f (tx_vin tx).
Proof.
  intros Hf. cbn [sighash_tx tx_vin]. revert n. induction (tx_vin tx) as [|i l IH]; intros n; [done|].
  destruct n as [|n]; cbn [map].
  - change (f (set_script s (clear_script i)) :: map f (map clear_script l) = f i :: map f l).
    rewrite Hf, map_map. change (clear_script i) with (set_script [] i). rewrite Hf. f_equal.
    apply map_ext. intros j. apply (Hf []).
  - change (f (clear_script i) :: map f (alter (set_script s) n (map clear_script l)) = f i :: map f l).
    rewrite IH. f_equal. apply (Hf []).
Qed.

Lemma sighash_script tx n s k i : (tx_vin (sighash_tx tx n s)) !! k = Some i ->
  in_scriptSig i = if bool_decide (k = n) then s else [].
Proof.
  cbn [sighash_tx tx_vin]. case_bool_decide as Hk; intros H.
  - subst k. rewrite list_lookup_alter_eq in H. apply fmap_Some in H as (x & _ & ->). done.
  - rewrite list_lookup_alter_ne in H by done. change (map clear_script ?l) with (clear_script <$> l) in H.
    rewrite list_lookup_fmap in H. apply fmap_Some in H as (x & _ & ->). done.
Qed.

Lemma sighash_index tx1 tx2 n1 n2 s1 s2 : s1 <> [] -> (n1 < length (tx_vin tx1))%nat ->
  tx_vin (sighash_tx tx1 n1 s1) = tx_vin (sighash_tx tx2 n2 s2) -> n1 = n2 /\ s1 = s2.
Proof.
  intros Hs Hn E.
  destruct (lookup_lt_is_Some_2 (tx_vin (sighash_tx tx1 n1 s1)) n1) as [i Hi].
  { cbn [sighash_tx tx_vin]. by rewrite length_alter, length_map. }
  pose proof (sighash_script _ _ _ _ _ Hi) as H1. rewrite E in Hi.
  pose proof (sighash_script _ _ _ _ _ Hi) as H2. rewrite bool_decide_true in H1 by done.
  case_bool_decide; [split; congruence|congruence].
Qed.

End SighashFacts.

(** * Properties *)

(** [CheckTransaction] accepts exactly the transactions that have between
    1 and 10000 inputs and outputs, no repeated input, output values between
    0 and [MAX_MONEY] whose exact sum is at most [MAX_MONEY], and either a
    coinbase script of 2 to 100 bytes or no null input. *)
Theorem check_transaction_exact (tx : CTransaction) : CheckTransaction tx = Ok tt <-> tx_valid tx.
Proof. apply CheckTransaction_spec. Qed.

(** C4: on a valid transaction and a view whose coins are in range,
    [CheckTxInputs] succeeds exactly when the transaction is not a coinbase,
    every input spends an existing, mature coin with an accepted script, the
    inputs are worth at most [MAX_MONEY] and at least the outputs; the fee is
    then the exact difference. *)
Theorem check_inputs_exact `{OpenSSL} (tx : CTransaction) (view : CCoinsView) (height fee : Z) :
  view_ok view -> tx_valid tx ->
  CheckTxInputs tx view height = Ok fee <->
  IsCoinBase tx = false /\ Forall (input_authorised tx view height) (indexed (tx_vin tx)) /\
  in_sum view tx <= MAX_MONEY /\ out_sum tx <= in_sum view tx /\ fee = in_sum view tx - out_sum tx.
Proof. apply CheckTxInputs_spec. Qed.

(** C3: no inflation: connecting a valid block to a view whose coins are in
    range and worth at most [MAX_MONEY] leaves every coin in range and raises
    the total value by at most the block subsidy of its height.  The fees that
    [CheckBlock] returns are exactly what the transactions are worth more in
    inputs than in outputs, and the coinbase outputs are worth, on exact
    integers, at most the subsidy and these fees: no 64-bit sum of the check
    has wrapped. *)
Theorem check_block_no_inflation `{OpenSSL} (blk : CBlock) (height : Z) (view view' : CCoinsView)
    (p : ChainParams) (fees : Z) :
  0 <= height -> view_ok view -> supply view <= MAX_MONEY ->
  CheckBlock blk height view p = Ok (view', fees) ->
  view_ok view' /\ supply view' <= supply view + GetBlockSubsidy height /\
  0 <= fees <= supply view /\
  exists cb txs, blk_vtx blk = cb :: txs /\ fees = exact_fees height view txs /\ out_sum cb <= GetBlockSubsidy height + fees.
Proof.
  intros Hh Hv Hs Hb. destruct (CheckBlock_supply _ _ _ _ _ _ Hh Hv Hs Hb) as (H1 & H2 & H3).
  split_and!; [done|done|apply H2..|]. apply CheckBlock_inv in Hb as (cb & txs & v1 & E & _ & _ & _ & _ & Hf & Hc). cbn [fst snd] in *.
  exists cb, txs. split; [done|]. apply connect_txs_fees in Hf; [|done|lia|lia]. cbn [snd] in Hf. split; [lia|].
  apply connect_coinbase_spec in Hc as (_ & Hle & _); [done|done|lia].
Qed.

(** C5: no double spend inside a block: if two transactions of a valid block
    spend the same outpoint, then an output of the earlier one or of one
    between them has recreated it (which needs a transaction whose id is the
    hash of the outpoint). *)
Theorem check_block_no_double_spend `{OpenSSL} (blk : CBlock) (height : Z) (view : CCoinsView)
    (p : ChainParams) r cb l1 ti l2 tj l3 (o : COutPoint) :
  view_ok view -> CheckBlock blk height view p = Ok r ->
  blk_vtx blk = cb :: l1 ++ ti :: l2 ++ tj :: l3 ->
  o ∈ map in_prevout (tx_vin ti) -> o ∈ map in_prevout (tx_vin tj) ->
  Exists (fun t => GetTxID t = op_hash o) (ti :: l2).
Proof.
  intros Hv Hb E Hi Hj.
  apply CheckBlock_inv in Hb as (cb' & txs & v1 & E' & _ & _ & _ & _ & Hf & _).
  rewrite E in E'. injection E' as <- <-. by eapply no_double_spend_txs.
Qed.

(** Of a coinbase with several outputs only the first one becomes a coin,
    and it is credited with the value of all of them: the other coinbase
    outputs are not in the new view unless they were in the old one. *)
Theorem coinbase_outputs_merged `{OpenSSL} (height : Z) (view view' : CCoinsView) (fees : Z)
    (cb : CTransaction) :
  0 <= height -> 0 <= fees <= MAX_MONEY -> connect_coinbase height view fees cb = Ok view' ->
  view' !! {| op_hash := GetTxID cb; op_n := 0 |} = Some (coinbase_coin height cb) /\
  forall n, n <> 0 -> view' !! {| op_hash := GetTxID cb; op_n := n |} =
                      view !! {| op_hash := GetTxID cb; op_n := n |}.
Proof.
  intros Hh Hf E. apply connect_coinbase_spec in E as (_ & _ & ->); [|done..].
  split; [apply lookup_insert_eq|]. intros n Hn. apply lookup_insert_ne. intros [= E]. congruence.
Qed.

(** A header is accepted on top of a previous one exactly when its hash
    is at most the (non-zero) target of its bits, it names the previous header's
    hash and its time is later; a first header exactly when it meets its
    target and has the configured genesis hash, if one is configured. *)
Theorem check_header_exact `{OpenSSLLaws} (hdr : CBlockHeader) (prev : option CBlockHeader) (p : ChainParams) :
  is_u32 (hdr_bits hdr) ->
  CheckBlockHeader hdr prev p = Ok tt <->
  let t := to_Z (TargetFromBits (hdr_bits hdr)) in
  t <> 0 /\ to_Z (HeaderHash hdr) <= t /\
  match prev with
  | Some ph => hdr_prevBlockHash hdr = HeaderHash ph /\ hdr_timestamp ph < hdr_timestamp hdr
  | None => genesisHashHex p <> "" -> HeaderHash hdr = fromHexReversed (genesisHashHex p)
  end.
Proof.
  intros Hb. unfold CheckBlockHeader. rewrite !fail_if_bind, negb_false_iff.
  rewrite CheckProofOfWork_spec by (done || apply SHA256d_wf). cbv zeta. destruct prev as [ph|].
  - rewrite negb_false_iff, eqb_spec, bool_decide_eq_true, fail_if_Ok, Z.leb_gt. tauto.
  - rewrite eqb_spec. case_bool_decide as Hg; cbn [negb].
    + split; [intros ([? ?] & _ & _)|intros (? & ? & _)]; by split_and!.
    + rewrite fail_if_Ok, negb_false_iff, bool_decide_eq_true.
      split; [intros ([? ?] & _ & ?)|intros (? & ? & Hi)]; split_and!; auto.
Qed.

(** C38: the signature hash is the SHA-256d digest of an encoding of what is
    signed.  Two transactions, each with an input and a script, have the same
    encoding exactly when they have the same version, previous outpoints,
    sequences, outputs and lock time, and sign the same input and script; the
    input scripts do not matter.  So equal signature hashes mean equal
    contents, unless these two encodings are a collision of SHA-256d. *)
Theorem signature_hash_commits `{OpenSSLLaws} (tx1 tx2 : CTransaction) (n1 n2 : nat) (s1 s2 : bytes) :
  tx_wf tx1 -> tx_wf tx2 -> script_wf s1 -> script_wf s2 ->
  s1 <> [] -> (n1 < length (tx_vin tx1))%nat ->
  let same := tx_version tx1 = tx_version tx2 /\
    map clear_script (tx_vin tx1) = map clear_script (tx_vin tx2) /\
    tx_vout tx1 = tx_vout tx2 /\ tx_lockTime tx1 = tx_lockTime tx2 /\ n1 = n2 /\ s1 = s2 in
  let m1 := sighash_preimage tx1 n1 s1 in let m2 := sighash_preimage tx2 n2 s2 in
  getBytesLE (SignatureHash tx1 n1 s1) = SHA256d_bytes m1 /\
  (m1 = m2 <-> same) /\
  (SignatureHash tx1 n1 s1 = SignatureHash tx2 n2 s2 <-> same \/ ~ same /\ SHA256d_bytes m1 = SHA256d_bytes m2).
Proof.
  intros W1 W2 S1 S2 Hs Hn same m1 m2. pose proof (SignatureHash_bytes tx1 n1 s1) as B1. pose proof (SignatureHash_bytes tx2 n2 s2) as B2.
  fold m1 in B1. fold m2 in B2.
  assert (m1 = m2 <-> same) as Hm.
  { split; [|intros (E1 & E2 & E3 & E4 & -> & ->); unfold m1, m2, sighash_preimage, sighash_tx; by rewrite E1, E2, E3, E4].
    intros Es. apply app_inv_tail, serialize_tx_inj in Es; [|by apply sighash_tx_wf..].
    pose proof (f_equal tx_vin Es) as Ev. apply sighash_index in Ev as [-> ->]; [|done..].
    assert (map clear_script (tx_vin tx1) = map clear_script (tx_vin tx2)) as Ec.
    { rewrite <- (map_sighash clear_script tx1 n2 s2), <- (map_sighash clear_script tx2 n2 s2) by done.
      by rewrite Es. }
    injection Es as E1 _ E3 E4. done. }
  split_and!; [done|apply Hm..|].
  assert (SignatureHash tx1 n1 s1 = SignatureHash tx2 n2 s2 <-> SHA256d_bytes m1 = SHA256d_bytes m2) as ->.
  { rewrite <- B1, <- B2. split; [by intros ->|]. intros E%(f_equal setBytesLE).
    by rewrite !setBytesLE_getBytesLE in E by apply SHA256d_wf. }
  rewrite <- Hm. destruct (decide (m1 = m2)) as [->|]; naive_solver.
Qed.

(** ** Concrete instances

    The genesis coinbase (script [OP_TRUE]) spent at height 120 in a block of
    its own, evaluated with the byte-sum digest. *)

Definition ok_or {A} (d : A) (r : res A) : A := match r with Ok a => a | Err _ => d end.
Lemma ok_or_pair {A B} (d : A * B) r f : is_ok r = true -> snd (ok_or d r) = f -> r = Ok (fst (ok_or d r), f).
Proof. intros Hr <-. destruct r as [[]|]; done. Qed.
Lemma ok_or_eq {A} (d : A) r : is_ok r = true -> r = Ok (ok_or d r).
Proof. by destruct r. Qed.
Definition wit_genesis : CBlock := GetGenesisBlock (ossl := toy_ossl) TESTNET.
Definition wit_view : CCoinsView :=
  fst (ok_or (∅, 0) (CheckBlock (ossl := toy_ossl) wit_genesis 0 ∅ TESTNET)).
Definition wit_coinbase (script : bytes) (value : Z) : CTransaction := {|
  tx_version := 1;
  tx_vin := [{| in_prevout := {| op_hash := zero; op_n := 0xffffffff |};
                in_scriptSig := script; in_sequence := 0xffffffff |}];
  tx_vout := [{| out_value := value; out_scriptPubKey := [0x51] |}]; tx_lockTime := 0 |}.
Definition wit_spend (prev : uint256) (values : list Z) : CTransaction := {|
  tx_version := 1;
  tx_vin := [{| in_prevout := {| op_hash := prev; op_n := 0 |}; in_scriptSig := [];
                in_sequence := 0xffffffff |}];
  tx_vout := map (fun v => {| out_value := v; out_scriptPubKey := [0x51] |}) values; tx_lockTime := 0 |}.
Definition wit_tx : CTransaction :=
  wit_spend (GetTxID (H := toy_ossl) (genesis_coinbase INITIAL_BLOCK_REWARD GetGenesisMessage))
    [10 * COIN; 39 * COIN].
Definition wit_block (ossl : OpenSSL) (txs : list CTransaction) : CBlock := {|
  blk_header := {| hdr_version := 1; hdr_prevBlockHash := zero;
                   hdr_merkleRoot := default zero (ComputeMerkleRoot txs);
                   hdr_timestamp := 1717200600; hdr_bits := 0x1d00ffff; hdr_nonce := 0 |};
  blk_vtx := txs |}.

(** A degenerate digest under which every transaction has the same id. *)
Definition flat_ossl : OpenSSL := {|
  EVP_sha256 := fun _ => repeat 1 32; ec_point := unit; ecdsa_sig := unit;
  EC_POINT_oct2point := fun _ => None; d2i_ECDSA_SIG := fun _ => None;
  ECDSA_do_verify := fun _ _ _ => false |}.
Definition flat_id : uint256 := setBytesLE (repeat 1 32).

#[local] Ltac compute_view_ok := eapply bool_decide_eq_true_1; vm_compute; reflexivity.

Lemma wit_tx_valid : tx_valid wit_tx.
Proof. apply CheckTransaction_spec. vm_compute. reflexivity. Qed.

Lemma check_inputs_exact_witness :
  IsCoinBase wit_tx = false /\
  Forall (input_authorised (ossl := toy_ossl) wit_tx wit_view 120) (indexed (tx_vin wit_tx)) /\
  in_sum wit_view wit_tx <= MAX_MONEY /\ out_sum wit_tx <= in_sum wit_view wit_tx /\
  1 * COIN = in_sum wit_view wit_tx - out_sum wit_tx.
Proof.
  refine (proj1 (check_inputs_exact (H := toy_ossl) wit_tx wit_view 120 (1 * COIN) _ _) _).
  - compute_view_ok.
  - exact wit_tx_valid.
  - vm_compute. reflexivity.
Defined.

Definition wit_block_120 : CBlock := wit_block toy_ossl [wit_coinbase [1; 120] (51 * COIN); wit_tx].
Definition wit_view_120 : CCoinsView :=
  fst (ok_or (∅, 0) (CheckBlock (ossl := toy_ossl) wit_block_120 120 wit_view TESTNET)).

Lemma check_block_no_inflation_witness :
  view_ok wit_view_120 /\ supply wit_view_120 <= supply wit_view + GetBlockSubsidy 120 /\
  0 <= 1 * COIN <= supply wit_view /\
  exists cb txs, blk_vtx wit_block_120 = cb :: txs /\ 1 * COIN = exact_fees (ossl := toy_ossl) 120 wit_view txs /\
    out_sum cb <= GetBlockSubsidy 120 + 1 * COIN.
Proof.
  refine (check_block_no_inflation (H := toy_ossl) wit_block_120 120 wit_view wit_view_120
    TESTNET (1 * COIN) _ _ _ _).
  - lia.
  - compute_view_ok.
  - vm_compute. congruence.
  - apply ok_or_pair; vm_compute; reflexivity.
Defined.

Definition flat_view : CCoinsView :=
  {[ {| op_hash := flat_id; op_n := 0 |} := output_coin 3 {| out_value := 6; out_scriptPubKey := [0x51] |} ]}.
Definition flat_block : CBlock :=
  wit_block flat_ossl [wit_coinbase [1; 1] 5; wit_spend flat_id [5]; wit_spend flat_id [4]].
Definition flat_result : CCoinsView * Z :=
  ok_or (∅, 0) (CheckBlock (ossl := flat_ossl) flat_block 9 flat_view REGTEST).

Lemma check_block_no_double_spend_witness :
  Exists (fun t => GetTxID (H := flat_ossl) t = op_hash {| op_hash := flat_id; op_n := 0 |}) [wit_spend flat_id [5]].
Proof.
  refine (check_block_no_double_spend (H := flat_ossl) flat_block 9 flat_view REGTEST flat_result
    (wit_coinbase [1; 1] 5) [] (wit_spend flat_id [5]) [] (wit_spend flat_id [4]) []
    {| op_hash := flat_id; op_n := 0 |} _ _ eq_refl _ _).
  - compute_view_ok.
  - apply ok_or_eq. vm_compute. reflexivity.
  - apply list_elem_of_here.
  - apply list_elem_of_here.
Defined.

Lemma coinbase_outputs_merged_witness :
  let cb := {| tx_version := 1; tx_vin := tx_vin (wit_coinbase [1; 7] 0);
               tx_vout := [{| out_value := 30; out_scriptPubKey := [0x51] |};
                           {| out_value := 12; out_scriptPubKey := [0x52] |}]; tx_lockTime := 0 |} in
  let view' := ok_or ∅ (connect_coinbase (ossl := toy_ossl) 7 ∅ 0 cb) in
  view' !! {| op_hash := GetTxID (H := toy_ossl) cb; op_n := 0 |} = Some (coinbase_coin 7 cb).
Proof.
  intros cb view'.
  refine (proj1 (coinbase_outputs_merged (H := toy_ossl) 7 ∅ view' 0 cb _ _ _)).
  - lia.
  - vm_compute. split; congruence.
  - apply ok_or_eq. vm_compute. reflexivity.
Defined.

Lemma check_header_exact_witness :
  to_Z (HeaderHash (H := toy_ossl) (blk_header wit_genesis))
    <= to_Z (TargetFromBits (hdr_bits (blk_header wit_genesis))).
Proof.
  refine (proj1 (proj2 (proj1 (check_header_exact (O0 := toy_ossl) (blk_header wit_genesis) None TESTNET _) _))).
  - vm_compute. split; congruence.
  - vm_compute. reflexivity.
Defined.

Lemma signature_hash_commits_witness :
  SignatureHash (ossl := toy_ossl) sample_tx 0 [0x51] =
  SignatureHash (ossl := toy_ossl)
    {| tx_version := 1; tx_vin := map (set_script [9; 9]) (tx_vin sample_tx);
       tx_vout := tx_vout sample_tx; tx_lockTime := 0 |} 0 [0x51].
Proof.
  refine (proj2 (proj2 (proj2 (signature_hash_commits (O0 := toy_ossl) sample_tx
    {| tx_version := 1; tx_vin := map (set_script [9; 9]) (tx_vin sample_tx);
       tx_vout := tx_vout sample_tx; tx_lockTime := 0 |} 0 0 [0x51] [0x51] _ _ _ _ _ _))) (or_introl _)).
  - exact sample_tx_wf.
  - wf_compute.
  - wf_compute.
  - wf_compute.
  - discriminate.
  - vm_compute. lia.
  - repeat split.
Defined.
