(* ===== verification/Mempool.v ===== *)
(** [mempool/]: the pool of unconfirmed transactions.  The two [std::map]s are
    [gmap]s.  [RemoveTx] takes its id by reference, and one caller passes a
    reference into [mapPrevOut]; the model keeps the reference, and reading it
    after its entry is erased is undefined behaviour. *)
From stdpp Require Import sorting.
From S2P Require Import Prelude Config UInt256 Consensus Crypto Transaction Script Utxo Block Validation.
Import uint256 Rules Policy.

(** * Data *)

Record CTxMemPoolEntry := {
  e_tx : CTransaction; e_fee : Z; e_time : Z; e_sizeBytes : Z; e_height : Z }.
Record CTxMemPool := {
  mapTx : gmap uint256 CTxMemPoolEntry; mapPrevOut : gmap COutPoint uint256 }.

(** A [const uint256&] argument: a caller's own variable, or the value of an
    entry of [mapPrevOut]. *)
Inductive TxidRef :=
| RVal (id : uint256)
| REntry (o : COutPoint).

(** [operator<] on the keys of [mapTx]. *)
Definition entry_le (a b : uint256 * CTxMemPoolEntry) : Prop := ltb b.1 a.1 = false.
#[export] Instance entry_le_dec : RelDecision entry_le.
Proof. intros a b. unfold entry_le. apply _. Defined.

Section Mempool.
Context {ossl : OpenSSL}.

(** * Operations *)

Definition Exists_ (pool : CTxMemPool) (txid : uint256) : bool := bool_decide (is_Some (mapTx pool !! txid)).
Definition HaveOutpoint (pool : CTxMemPool) (o : COutPoint) : bool := bool_decide (is_Some (mapPrevOut pool !! o)).
Definition Clear : CTxMemPool := {| mapTx := ∅; mapPrevOut := ∅ |}.
Definition Size (pool : CTxMemPool) : nat := size (mapTx pool).

Definition AddUnchecked (pool : CTxMemPool) (tx : CTransaction) (fee height now : Z) : bool * CTxMemPool :=
  let txid := GetTxID tx in
  if Exists_ pool txid then (false, pool)
  else
    let e := {| e_tx := tx; e_fee := fee; e_time := now;
                e_sizeBytes := Z.of_nat (length (SerializeTransaction tx)); e_height := height |} in
    (true, {| mapTx := <[txid := e]> (mapTx pool);
              mapPrevOut := foldl (fun m i => <[in_prevout i := txid]> m) (mapPrevOut pool) (tx_vin tx) |}).

(** Returns the fee. *)
Definition CheckTx (pool : CTxMemPool) (tx : CTransaction) (view : CCoinsView) (height : Z) : res Z :=
  _ ← fail_if (IsCoinBase tx) "coinbase cannot enter mempool";
  _ ← CheckTransaction tx;
  _ ← fail_if (existsb (fun i => HaveOutpoint pool (in_prevout i)) (tx_vin tx)) "double spend (already in mempool)";
  fee ← CheckTxInputs tx view height;
  _ ← fail_if (fee <? 100) "fee below minimum";
  Ok fee.

Definition deref (m : gmap COutPoint uint256) (r : TxidRef) : outcome uint256 :=
  match r with
  | RVal id => Done id
  | REntry o => match m !! o with Some id => Done id | None => Undef end
  end.

(** The loop body of [RemoveTx]. *)
Definition erase_prevout (txid : TxidRef) (m : gmap COutPoint uint256) (i : CTxIn) : outcome (gmap COutPoint uint256) :=
  match m !! in_prevout i with
  | None => Done m
  | Some second =>
      id ← deref m txid;
      if eqb second id then Done (delete (in_prevout i) m) else Done m
  end.
Definition RemoveTx (pool : CTxMemPool) (txid : TxidRef) : outcome CTxMemPool :=
  id ← deref (mapPrevOut pool) txid;
  match mapTx pool !! id with
  | None => Done pool
  | Some e =>
      m ← out_fold (erase_prevout txid) (mapPrevOut pool) (tx_vin (e_tx e));
      Done {| mapTx := delete id (mapTx pool); mapPrevOut := m |}
  end.

(** [RemoveTx(it->second)] passes a reference into the map. *)
Definition remove_conflict (pool : CTxMemPool) (i : CTxIn) : outcome CTxMemPool :=
  match mapPrevOut pool !! in_prevout i with
  | Some _ => RemoveTx pool (REntry (in_prevout i))
  | None => Done pool
  end.
Definition RemoveConflicts (pool : CTxMemPool) (tx : CTransaction) : outcome CTxMemPool :=
  out_fold remove_conflict pool (tx_vin tx).

(** The entries in the order in which a [std::map] is traversed: ascending
    ids. *)
Definition entries (pool : CTxMemPool) : list (uint256 * CTxMemPoolEntry) :=
  merge_sort entry_le (map_to_list (mapTx pool)).
Definition GetTxs (pool : CTxMemPool) : list CTransaction := map (fun kv => e_tx kv.2) (entries pool).
Definition GetTxids (pool : CTxMemPool) : list uint256 := map fst (entries pool).
Definition GetTotalFees (pool : CTxMemPool) : Z := i64_sum (map (fun kv => e_fee kv.2) (entries pool)).

(** The inner loop of [RemoveSpent]. *)
Definition input_spent (view : CCoinsView) (height : Z) (i : CTxIn) : bool :=
  match GetCoin view (in_prevout i) with
  | None => true
  | Some coin => negb (IsSpendable coin height)
  end.
Definition entry_invalid (view : CCoinsView) (height : Z) (e : CTxMemPoolEntry) : bool :=
  existsb (input_spent view height) (tx_vin (e_tx e)).
(** Returns the pool and the ids appended to [removed]. *)
Definition RemoveSpent (pool : CTxMemPool) (view : CCoinsView) (height : Z) : outcome (CTxMemPool * list uint256) :=
  let toRemove := map fst (List.filter (fun kv => entry_invalid view height kv.2) (entries pool)) in
  pool' ← out_fold (fun p id => RemoveTx p (RVal id)) pool toRemove;
  Done (pool', toRemove).

(** [mempool/policy.cpp] *)
Definition IsBelowMinFee (tx : CTransaction) (fee : Z) : bool :=
  fee <? CalculateFee (Z.of_nat (length (SerializeTransaction tx))).

(** The sequence the node runs on a received transaction: [CheckTx], then
    [AddUnchecked]. *)
Definition accept_tx (pool : CTxMemPool) (tx : CTransaction) (view : CCoinsView) (height now : Z) : res CTxMemPool :=
  fee ← CheckTx pool tx view height;
  Ok (snd (AddUnchecked pool tx fee height now)).

End Mempool.

(** * Invariant *)

Definition prevouts (tx : CTransaction) : list COutPoint := map in_prevout (tx_vin tx).

Record pool_inv `{OpenSSL} (pool : CTxMemPool) : Prop := {
  pi_id id e : mapTx pool !! id = Some e -> id = GetTxID (e_tx e) /\ NoDup (prevouts (e_tx e));
  (** [mapPrevOut] is exactly the set of outpoints the pool spends *)
  pi_out o id : mapPrevOut pool !! o = Some id <->
    exists e, mapTx pool !! id = Some e /\ o ∈ prevouts (e_tx e)
}.

(** * Lemmas *)

Section MempoolFacts.
Context {ossl : OpenSSL}.

Lemma elem_of_entries pool id e : (id, e) ∈ entries pool <-> mapTx pool !! id = Some e.
Proof. unfold entries. by rewrite merge_sort_Permutation, elem_of_map_to_list. Qed.

Lemma pool_inv_empty : pool_inv Clear.
Proof.
  split; cbn.
  - intros id e. by rewrite lookup_empty.
  - intros o id. rewrite lookup_empty. split; [done|]. intros (e & He & _). by rewrite lookup_empty in He.
Qed.

(** Two pool entries never spend the same outpoint. *)
Lemma pool_no_conflict pool id1 id2 e1 e2 o : pool_inv pool ->
  mapTx pool !! id1 = Some e1 -> mapTx pool !! id2 = Some e2 ->
  o ∈ prevouts (e_tx e1) -> o ∈ prevouts (e_tx e2) -> id1 = id2.
Proof.
  intros Hp H1 H2 Ho1 Ho2.
  assert (mapPrevOut pool !! o = Some id1) as E1 by (apply (pi_out _ Hp); eauto).
  assert (mapPrevOut pool !! o = Some id2) as E2 by (apply (pi_out _ Hp); eauto). congruence.
Qed.

Lemma lookup_insert_all (id : uint256) vin : forall (m : gmap COutPoint uint256) o,
  foldl (fun m i => <[in_prevout i := id]> m) m vin !! o =
  if bool_decide (o ∈ map in_prevout vin) then Some id else m !! o.
Proof.
  induction vin as [|i vin IH]; intros m o; cbn [foldl map]; [done|]. rewrite IH.
  destruct (decide (o = in_prevout i)) as [->|Hne].
  - rewrite lookup_insert_eq, (bool_decide_true (_ ∈ _ :: _)) by left. by case_bool_decide.
  - rewrite lookup_insert_ne by done.
    by rewrite (bool_decide_ext (o ∈ in_prevout i :: map in_prevout vin) (o ∈ map in_prevout vin))
      by (rewrite elem_of_cons; tauto).
Qed.

Lemma AddUnchecked_inv pool tx fee h now : pool_inv pool ->
  NoDup (prevouts tx) -> Forall (fun o => mapPrevOut pool !! o = None) (prevouts tx) ->
  pool_inv (snd (AddUnchecked pool tx fee h now)).
Proof.
  intros Hp Hnd Hf. unfold AddUnchecked, Exists_. case_bool_decide as Hex; [done|]. cbn [snd].
  apply eq_None_not_Some in Hex. split; cbn [mapTx mapPrevOut].
  - intros id e. rewrite lookup_insert_Some. intros [[<- <-]|[_ He]]; [done|]. by apply (pi_id _ Hp).
  - intros o id. rewrite lookup_insert_all. fold (prevouts tx). case_bool_decide as Ho.
    + split.
      * intros [= <-]. eexists. split; [apply lookup_insert_eq|done].
      * intros (e & He & Hoe). apply lookup_insert_Some in He as [[<- _]|[_ He]]; [done|].
        assert (mapPrevOut pool !! o = Some id) as E by (apply (pi_out _ Hp); eauto).
        eapply Forall_forall in Hf; [|exact Ho]. congruence.
    + rewrite (pi_out _ Hp). split; intros (e & He & Hoe); exists e; (split; [|done]).
      * rewrite lookup_insert_ne; [done|]. congruence.
      * apply lookup_insert_Some in He as [[_ <-]|[_ He]]; [|done]. by destruct Ho.
Qed.

(** What [CheckTx] guarantees. *)
Lemma CheckTx_spec pool tx view h fee : view_ok view ->
  CheckTx pool tx view h = Ok fee <->
  IsCoinBase tx = false /\ tx_valid tx /\ Forall (fun o => mapPrevOut pool !! o = None) (prevouts tx) /\
  Forall (input_authorised tx view h) (indexed (tx_vin tx)) /\
  in_sum view tx <= MAX_MONEY /\ fee = in_sum view tx - out_sum tx /\ 100 <= fee.
Proof.
  intros Hv. unfold CheckTx. rewrite fail_if_bind.
  assert (existsb (fun i => HaveOutpoint pool (in_prevout i)) (tx_vin tx) = false <->
          Forall (fun o => mapPrevOut pool !! o = None) (prevouts tx)) as Ho.
  { rewrite existsb_false. unfold prevouts. rewrite Forall_map. apply Forall_iff. intros i.
    unfold HaveOutpoint. rewrite bool_decide_eq_false. symmetry. apply eq_None_not_Some. }
  destruct (CheckTransaction tx) as [[]|e] eqn:Ec; cbn [mbind res_bind].
  2: { split; [by intros [_ ?]|]. intros (_ & Ht & _). apply CheckTransaction_spec in Ht. congruence. }
  apply CheckTransaction_spec in Ec. rewrite fail_if_bind, Ho, bind_Ok.
  split.
  - intros (Hc & Hout & f & Hf & H). rewrite fail_if_bind, Z.ltb_ge in H. destruct H as [H [= <-]].
    apply CheckTxInputs_spec in Hf as (_ & Ha & Hm & _ & ->); [|done..]. done.
  - intros (Hc & Ht & Hout & Ha & Hm & -> & Hge). split_and!; [done|done|].
    exists (in_sum view tx - out_sum tx). split.
    + apply CheckTxInputs_spec; [done|done|]. split_and!; done || lia.
    + rewrite fail_if_bind. split; [by apply Z.ltb_ge|done].
Qed.

(** ** RemoveTx *)

Lemma out_bind_Done {A B} (m : outcome A) (f : A -> outcome B) b :
  m ≫= f = Done b <-> exists a, m = Done a /\ f a = Done b.
Proof.
  destruct m; cbn; split; intros H; try by eauto.
  - by destruct H as (? & [= <-] & ?).
  - by destruct H as (? & ? & ?).
Qed.

(** Erasing by value never goes wrong and drops exactly the entries of [id]. *)
Lemma erase_val id vin : forall m, exists m',
  out_fold (erase_prevout (RVal id)) m vin = Done m' /\
  forall o, m' !! o = if bool_decide (o ∈ map in_prevout vin /\ m !! o = Some id) then None else m !! o.
Proof.
  induction vin as [|i vin IH]; intros m; cbn [out_fold].
  { exists m. split; [done|]. intros o. rewrite bool_decide_false; [done|]. by intros [?%not_elem_of_nil _]. }
  assert (erase_prevout (RVal id) m i =
    Done (if bool_decide (m !! in_prevout i = Some id) then delete (in_prevout i) m else m)) as ->.
  { unfold erase_prevout. destruct (m !! in_prevout i) as [s|] eqn:E; [|by rewrite bool_decide_false].
    cbn [deref mbind outcome_bind]. rewrite eqb_spec.
    destruct (decide (s = id)) as [->|Hne]; [by rewrite !bool_decide_true|].
    by rewrite !bool_decide_false by congruence. }
  cbn [mbind outcome_bind]. destruct (IH (if bool_decide (m !! in_prevout i = Some id) then delete (in_prevout i) m else m))
    as (m' & -> & Hm'). exists m'. split; [done|]. intros o. rewrite Hm'. cbn [map].
  destruct (decide (o = in_prevout i)) as [->|Hne].
  - destruct (decide (m !! in_prevout i = Some id)) as [E|E].
    + rewrite (bool_decide_true (m !! _ = _)) by done. rewrite lookup_delete_eq.
      rewrite bool_decide_false by (by intros [_ ?]). rewrite bool_decide_true; [done|]. split; [left|done].
    + rewrite (bool_decide_false (m !! _ = _)) by done. rewrite !bool_decide_false by (by intros [_ ?]). done.
  - assert ((if bool_decide (m !! in_prevout i = Some id) then delete (in_prevout i) m else m) !! o = m !! o) as ->.
    { case_bool_decide; [by apply lookup_delete_ne|done]. }
    destruct (decide (o ∈ map in_prevout vin /\ m !! o = Some id)) as [[H1 H2]|H].
    + rewrite !bool_decide_true; [done| |done]. split; [by right|done].
    + rewrite !bool_decide_false; [done| |done]. intros [H1 H2]. apply elem_of_cons in H1 as [?|?]; [done|].
      by apply H.
Qed.

Lemma RemoveTx_val pool id : pool_inv pool -> exists pool',
  RemoveTx pool (RVal id) = Done pool' /\ mapTx pool' = delete id (mapTx pool) /\ pool_inv pool'.
Proof.
  intros Hp. unfold RemoveTx. cbn [deref mbind outcome_bind].
  destruct (mapTx pool !! id) as [e|] eqn:E.
  2: { exists pool. split_and!; [done|by rewrite delete_id|done]. }
  destruct (erase_val id (tx_vin (e_tx e)) (mapPrevOut pool)) as (m' & -> & Hm). cbn [mbind outcome_bind].
  eexists. split_and!; [done|done|]. split; cbn [mapTx mapPrevOut].
  - intros id' e' [_ He']%lookup_delete_Some. by apply (pi_id _ Hp).
  - intros o id'. rewrite Hm. case_bool_decide as Ho.
    + split; [done|]. intros (e' & [Hne He']%lookup_delete_Some & Ho').
      destruct Ho as [_ Ho]. assert (mapPrevOut pool !! o = Some id') by (apply (pi_out _ Hp); eauto). congruence.
    + rewrite (pi_out _ Hp). split; intros (e' & He' & Ho').
      * exists e'. split; [|done]. rewrite lookup_delete_Some. split; [|done]. intros <-.
        apply Ho. rewrite E in He'. injection He' as ->. split; [done|]. apply (pi_out _ Hp); eauto.
      * apply lookup_delete_Some in He' as [_ He']. eauto.
Qed.

(** Before the entry it refers to is erased, a reference behaves as its value. *)
Lemma erase_ref_prefix o id l : forall m, m !! o = Some id -> o ∉ map in_prevout l ->
  exists m', out_fold (erase_prevout (REntry o)) m l = Done m' /\
             out_fold (erase_prevout (RVal id)) m l = Done m' /\ m' !! o = Some id.
Proof.
  induction l as [|i l IH]; intros m Ho Hn; cbn [out_fold]; [by exists m|].
  cbn [map] in Hn. apply not_elem_of_cons in Hn as [Hne Hn].
  assert (exists m1, erase_prevout (REntry o) m i = Done m1 /\ erase_prevout (RVal id) m i = Done m1 /\
    m1 !! o = Some id) as (m1 & -> & -> & Hm1); [|cbn [mbind outcome_bind]; by apply IH].
  unfold erase_prevout. destruct (m !! in_prevout i) as [s|]; [|by exists m].
  cbn [deref]. rewrite Ho. cbn [mbind outcome_bind]. destruct (eqb s id); [|by exists m].
  exists (delete (in_prevout i) m). by rewrite lookup_delete_ne by done.
Qed.

Lemma erase_single o id i m : m !! o = Some id -> in_prevout i = o ->
  erase_prevout (REntry o) m i = Done (delete o m) /\ erase_prevout (RVal id) m i = Done (delete o m).
Proof.
  intros Ho <-. unfold erase_prevout. rewrite Ho. cbn [deref]. rewrite Ho. cbn [mbind outcome_bind].
  by rewrite eqb_spec, bool_decide_true.
Qed.

Lemma out_fold_app {A S} (f : S -> A -> outcome S) l1 l2 : forall s,
  out_fold f s (l1 ++ l2) = (s' ← out_fold f s l1; out_fold f s' l2).
Proof. induction l1 as [|a l1 IH]; intros s; cbn; [done|]. destruct (f s a); cbn; auto. Qed.

(** [RemoveTx(it->second)]: as by value when the outpoint is the last input
    of the transaction to remove, and a read of a freed entry otherwise. *)
Lemma RemoveTx_ref pool o id e l1 i l2 : pool_inv pool ->
  mapPrevOut pool !! o = Some id -> mapTx pool !! id = Some e ->
  tx_vin (e_tx e) = l1 ++ i :: l2 -> in_prevout i = o ->
  RemoveTx pool (REntry o) = match l2 with [] => RemoveTx pool (RVal id) | _ :: _ => Undef end.
Proof.
  intros Hp Ho He Ev Ei. unfold RemoveTx. cbn [deref]. rewrite Ho. cbn [mbind outcome_bind]. rewrite He.
  destruct (pi_id _ Hp _ _ He) as [_ Hnd]. unfold prevouts in Hnd. rewrite Ev, map_app in Hnd. cbn [map] in Hnd.
  rewrite Ei in Hnd. apply NoDup_app in Hnd as (_ & Hd & Hnd). apply NoDup_cons in Hnd as [Hn2 _].
  assert (o ∉ map in_prevout l1) as Hn1 by (intros H1; apply (Hd o H1); left).
  destruct (erase_ref_prefix o id l1 (mapPrevOut pool) Ho Hn1) as (m1 & E1 & E2 & Hm1).
  destruct (erase_single o id i m1 Hm1 Ei) as [S1 S2].
  rewrite Ev, !out_fold_app, E1, E2. cbn [mbind outcome_bind out_fold]. rewrite S1, S2. cbn [mbind outcome_bind].
  destruct l2 as [|j l2]; [done|]. cbn [out_fold].
  assert (is_Some (m1 !! in_prevout j)) as [s Hs].
  { destruct (erase_val id l1 (mapPrevOut pool)) as (m1' & E2' & Hm). rewrite E2 in E2'. injection E2' as <-.
    rewrite Hm. rewrite bool_decide_false.
    - exists id. apply (pi_out _ Hp). exists e. split; [done|]. unfold prevouts. rewrite Ev, map_app.
      apply elem_of_app. right. right. left.
    - intros [H1 _]. apply (Hd _ H1). right. left. }
  assert (erase_prevout (REntry o) (delete o m1) j = Undef) as ->; [|done].
  unfold erase_prevout. rewrite lookup_delete_ne, Hs.
  - cbn [deref]. by rewrite lookup_delete_eq.
  - intros E. apply Hn2. rewrite E. left.
Qed.

(** ** RemoveConflicts, RemoveSpent *)

(** The entries left are the ones that [keep]. *)
Definition kept (pool pool' : CTxMemPool) (keep : CTxMemPoolEntry -> Prop) : Prop :=
  forall id e, mapTx pool' !! id = Some e <-> mapTx pool !! id = Some e /\ keep e.

Lemma remove_conflict_ok pool i pool' : pool_inv pool -> remove_conflict pool i = Done pool' ->
  pool_inv pool' /\ kept pool pool' (fun e => in_prevout i ∉ prevouts (e_tx e)).
Proof.
  intros Hp H. unfold remove_conflict in H. destruct (mapPrevOut pool !! in_prevout i) as [id|] eqn:Eo.
  - pose proof Eo as Eo'. apply (pi_out _ Hp) in Eo' as (e & He & Hin).
    apply list_elem_of_fmap in Hin as (j & Ej & Hj). apply list_elem_of_split in Hj as (l1 & l2 & Ev).
    rewrite (RemoveTx_ref pool _ id e l1 j l2) in H by done. destruct l2; [|done].
    destruct (RemoveTx_val pool id Hp) as (p & Ep & Em & Hp'). rewrite Ep in H. injection H as <-.
    split; [done|]. intros id' e'. rewrite Em, lookup_delete_Some. split.
    + intros [Hne He']. split; [done|]. intros Hin. apply Hne.
      apply (pool_no_conflict pool id id' e e' (in_prevout i)); try done. rewrite Ej.
      apply list_elem_of_fmap. exists j. split; [done|]. rewrite Ev. apply elem_of_app. right. left.
    + intros [He' Hk]. split; [|done]. intros <-. rewrite He in He'. injection He' as <-.
      apply Hk. rewrite Ej. apply list_elem_of_fmap. exists j. split; [done|]. rewrite Ev. apply elem_of_app. right. left.
  - injection H as <-. split; [done|]. intros id e. split; [|by intros [? _]].
    intros He. split; [done|]. intros Hin.
    assert (mapPrevOut pool !! in_prevout i = Some id) by (apply (pi_out _ Hp); eauto). congruence.
Qed.

Lemma RemoveConflicts_ok vin : forall pool pool', pool_inv pool ->
  out_fold remove_conflict pool vin = Done pool' ->
  pool_inv pool' /\ kept pool pool' (fun e => forall o, o ∈ map in_prevout vin -> o ∉ prevouts (e_tx e)).
Proof.
  induction vin as [|i vin IH]; intros pool pool' Hp H; cbn [out_fold] in H.
  { injection H as <-. split; [done|]. intros id e. split; [|by intros [? _]]. intros He. split; [done|].
    intros o Ho. by apply not_elem_of_nil in Ho. }
  apply out_bind_Done in H as (p1 & H1 & H2). apply remove_conflict_ok in H1 as [Hp1 Hk1]; [|done].
  apply IH in H2 as [Hp2 Hk2]; [|done]. split; [done|]. intros id e. rewrite (Hk2 id e), (Hk1 id e). cbn [map].
  setoid_rewrite elem_of_cons. split.
  - intros [[He Hi] Hr]. split; [done|]. intros o [->|Ho]; auto.
  - intros [He Hr]. split_and!; auto.
Qed.

Lemma RemoveSpent_fold ids : forall pool, pool_inv pool -> exists pool',
  out_fold (fun p id => RemoveTx p (RVal id)) pool ids = Done pool' /\ pool_inv pool' /\
  forall id e, mapTx pool' !! id = Some e <-> mapTx pool !! id = Some e /\ id ∉ ids.
Proof.
  induction ids as [|x ids IH]; intros pool Hp; cbn [out_fold].
  { exists pool. split_and!; [done|done|]. intros id e. split; [|by intros [? _]].
    intros He. split; [done|apply not_elem_of_nil]. }
  destruct (RemoveTx_val pool x Hp) as (p1 & E1 & Em & Hp1). rewrite E1. cbn [mbind outcome_bind].
  destruct (IH p1 Hp1) as (p2 & E2 & Hp2 & Hk). exists p2. split_and!; [done|done|].
  intros id e. rewrite Hk, Em, lookup_delete_Some, not_elem_of_cons.
  split; [intros [[? ?] ?]|intros (? & ? & ?)]; split_and!; done || congruence.
Qed.

End MempoolFacts.

(** States of the pool: it starts empty, and changes by accepting a
    transaction against some view, by [RemoveTx] on an id, by
    [RemoveConflicts], by [RemoveSpent] and by [Clear]. *)
Inductive pool_reachable `{OpenSSL} : CTxMemPool -> Prop :=
| pr_clear : pool_reachable Clear
| pr_accept p tx view h now p' : view_ok view ->
    pool_reachable p -> accept_tx p tx view h now = Ok p' -> pool_reachable p'
| pr_remove p id p' : pool_reachable p -> RemoveTx p (RVal id) = Done p' -> pool_reachable p'
| pr_conflicts p tx p' : pool_reachable p -> RemoveConflicts p tx = Done p' -> pool_reachable p'
| pr_spent p view h p' ids : pool_reachable p -> RemoveSpent p view h = Done (p', ids) -> pool_reachable p'.

Section MempoolReach.
Context {ossl : OpenSSL}.

Lemma accept_tx_inv p tx view h now p' : view_ok view -> pool_inv p ->
  accept_tx p tx view h now = Ok p' -> pool_inv p'.
Proof.
  intros Hv Hp H. apply bind_Ok in H as (fee & Hc & [= <-]).
  apply CheckTx_spec in Hc as (_ & Ht & Hf & _); [|done].
  apply AddUnchecked_inv; [done|by destruct Ht as (_&_&_&_&?&_)|done].
Qed.

Lemma RemoveSpent_ok pool view h : pool_inv pool -> exists pool' ids,
  RemoveSpent pool view h = Done (pool', ids) /\ pool_inv pool' /\
  kept pool pool' (fun e => entry_invalid view h e = false) /\
  forall id, id ∈ ids <-> exists e, mapTx pool !! id = Some e /\ entry_invalid view h e = true.
Proof.
  intros Hp. unfold RemoveSpent.
  set (ids := map fst (List.filter _ _)).
  assert (forall id, id ∈ ids <-> exists e, mapTx pool !! id = Some e /\ entry_invalid view h e = true) as Hids.
  { intros id. unfold ids. rewrite list_elem_of_In, in_map_iff. setoid_rewrite filter_In.
    setoid_rewrite <- list_elem_of_In. split.
    - intros ([id' e] & <- & [Hin%elem_of_entries Hi]). by exists e.
    - intros (e & He & Hi). exists (id, e). split_and!; [done| |done]. by apply elem_of_entries. }
  destruct (RemoveSpent_fold ids pool Hp) as (p' & -> & Hp' & Hk). exists p', ids.
  split_and!; [done|done| |done]. intros id e. rewrite Hk, Hids. split; intros [He Hn]; (split; [done|]).
  - apply not_true_iff_false. intros Hi. apply Hn. by exists e.
  - intros (e' & He' & Hi). congruence.
Qed.

Lemma pool_reachable_inv p : pool_reachable p -> pool_inv p.
Proof.
  induction 1 as [|p tx view h now p' Hv _ IH H|p id p' _ IH H|p tx p' _ IH H|p view h p' ids _ IH H].
  - apply pool_inv_empty.
  - by eapply accept_tx_inv.
  - destruct (RemoveTx_val p id IH) as (q & E & _ & Hq). congruence.
  - by apply RemoveConflicts_ok in H as [? _].
  - destruct (RemoveSpent_ok p view h IH) as (q & ids' & E & Hq & _). congruence.
Qed.

(** Every transaction of the pool passed [CheckTx]. *)
Lemma pool_reachable_valid p : pool_reachable p -> forall id e, mapTx p !! id = Some e ->
  tx_valid (e_tx e) /\ IsCoinBase (e_tx e) = false.
Proof.
  induction 1 as [|p tx view h now p' Hv Hr IH H|p id p' Hr IH H|p tx p' Hr IH H|p view h p' ids Hr IH H]; intros k e He.
  - done.
  - apply bind_Ok in H as (fee & Hc & [= <-]). apply CheckTx_spec in Hc as (Hcb & Ht & _); [|done].
    unfold AddUnchecked in He. destruct (Exists_ p _); cbn [snd mapTx] in He; [by eapply IH|].
    apply lookup_insert_Some in He as [[_ <-]|[_ He]]; [done|by eapply IH].
  - destruct (RemoveTx_val p id (pool_reachable_inv p Hr)) as (q & E & Em & _). rewrite E in H.
    injection H as ->. rewrite Em in He. apply lookup_delete_Some in He as [_ He]. by eapply IH.
  - apply RemoveConflicts_ok in H as [_ Hk]; [|by apply pool_reachable_inv]. apply Hk in He as [He _]. by eapply IH.
  - destruct (RemoveSpent_ok p view h (pool_reachable_inv p Hr)) as (q & ids' & E & _ & Hk & _).
    rewrite E in H. injection H as -> ->. apply Hk in He as [He _]. by eapply IH.
Qed.

End MempoolReach.

(** * Properties *)

(** C25: in every state of the pool no two transactions spend the same
    outpoint, every transaction is filed under its id, and [mapPrevOut] holds
    exactly the outpoints the pool spends, each with the id of its spender. *)
Theorem mempool_no_conflicts `{OpenSSL} (pool : CTxMemPool) :
  pool_reachable pool ->
  (forall id1 id2 e1 e2 o, mapTx pool !! id1 = Some e1 -> mapTx pool !! id2 = Some e2 ->
     o ∈ prevouts (e_tx e1) -> o ∈ prevouts (e_tx e2) -> id1 = id2) /\
  (forall id e, mapTx pool !! id = Some e -> id = GetTxID (e_tx e)) /\
  (forall o id, mapPrevOut pool !! o = Some id <->
     exists e, mapTx pool !! id = Some e /\ o ∈ prevouts (e_tx e)).
Proof.
  intros Hr. apply pool_reachable_inv in Hr as Hp. split_and!.
  - intros id1 id2 e1 e2 o. by apply pool_no_conflict.
  - intros id e He. by apply (pi_id _ Hp) in He as [? _].
  - apply (pi_out _ Hp).
Qed.

(** [CheckTx] accepts exactly the valid non-coinbase transactions whose
    inputs are not spent in the pool, are authorised by the view and leave a fee
    of at least 100; the fee it reports is the exact difference. *)
Theorem mempool_check_exact `{OpenSSL} (pool : CTxMemPool) (tx : CTransaction) (view : CCoinsView) (height fee : Z) :
  view_ok view ->
  CheckTx pool tx view height = Ok fee <->
  IsCoinBase tx = false /\ tx_valid tx /\ Forall (fun o => mapPrevOut pool !! o = None) (prevouts tx) /\
  Forall (input_authorised tx view height) (indexed (tx_vin tx)) /\
  in_sum view tx <= MAX_MONEY /\ fee = in_sum view tx - out_sum tx /\ 100 <= fee.
Proof. apply CheckTx_spec. Qed.

(** After a block, [RemoveSpent] always returns, keeps exactly the
    transactions all of whose inputs are still in the view and spendable, and
    reports exactly the ids it removed. *)
Theorem remove_spent_exact `{OpenSSL} (pool : CTxMemPool) (view : CCoinsView) (height : Z) :
  pool_reachable pool -> exists pool' removed,
  RemoveSpent pool view height = Done (pool', removed) /\
  (forall id e, mapTx pool' !! id = Some e <->
     mapTx pool !! id = Some e /\
     forall o, o ∈ prevouts (e_tx e) -> exists c, view !! o = Some c /\ IsSpendable c height = true) /\
  (forall id, id ∈ removed <-> is_Some (mapTx pool !! id) /\ mapTx pool' !! id = None).
Proof.
  intros Hr. apply pool_reachable_inv in Hr as Hp.
  destruct (RemoveSpent_ok pool view height Hp) as (p' & ids & E & _ & Hk & Hids).
  exists p', ids. split_and!; [done| |].
  - intros id e. rewrite (Hk id e). apply and_iff_compat_l. unfold entry_invalid. rewrite existsb_false.
    unfold prevouts, input_spent, GetCoin. rewrite Forall_forall. setoid_rewrite list_elem_of_fmap. split.
    + intros H0 o (i & -> & Hi). specialize (H0 i Hi). cbv beta in H0.
      destruct (view !! in_prevout i) as [c|]; [|done]. exists c. by rewrite negb_false_iff in H0.
    + intros H0 i Hi. cbv beta. destruct (H0 (in_prevout i)) as (c & -> & Hc); [by exists i|].
      by rewrite negb_false_iff.
  - intros id. rewrite Hids. split.
    + intros (e & He & Hi). split; [by exists e|]. apply eq_None_not_Some. intros [e' He'].
      apply Hk in He' as [He' Hf]. congruence.
    + intros [[e He] Hn]. exists e. split; [done|]. apply not_false_iff_true. intros Hf.
      assert (mapTx p' !! id = Some e) by (by apply Hk). congruence.
Qed.

(** [RemoveConflicts] passes [RemoveTx] a reference into the map that
    [RemoveTx] erases from.  When the conflicting pool transaction has an input
    after the conflicting one, the freed entry is read (undefined behaviour);
    when the call returns, exactly the transactions that share an input with
    [tx] are gone. *)
Theorem remove_conflicts_behaviour `{OpenSSL} (pool : CTxMemPool) (tx : CTransaction) :
  pool_reachable pool ->
  (forall i rest id e l1 j k l2, tx_vin tx = i :: rest ->
     mapTx pool !! id = Some e -> tx_vin (e_tx e) = l1 ++ j :: k :: l2 -> in_prevout j = in_prevout i ->
     RemoveConflicts pool tx = Undef) /\
  (forall pool', RemoveConflicts pool tx = Done pool' ->
     forall id e, mapTx pool' !! id = Some e <->
       mapTx pool !! id = Some e /\ forall o, o ∈ prevouts tx -> o ∉ prevouts (e_tx e)).
Proof.
  intros Hr. apply pool_reachable_inv in Hr as Hp. split.
  - intros i rest id e l1 j k l2 Et He Ev Ej. unfold RemoveConflicts. rewrite Et. cbn [out_fold].
    assert (mapPrevOut pool !! in_prevout i = Some id) as Eo.
    { apply (pi_out _ Hp). exists e. split; [done|]. unfold prevouts. rewrite Ev, map_app. cbn [map]. rewrite Ej.
      apply elem_of_app. right. left. }
    unfold remove_conflict. rewrite Eo. by rewrite (RemoveTx_ref pool _ id e l1 j (k :: l2)).
  - intros pool' H'. by apply RemoveConflicts_ok in H' as [_ Hk].
Qed.

(** ** Concrete instances: a two-input transaction in the pool. *)

#[local] Instance wit_mp_ossl : OpenSSL := toy_ossl.

Definition mp_out (k : Z) : COutPoint := {| op_hash := U256 k 0 0 0; op_n := 0 |}.
Definition mp_in (k : Z) : CTxIn := {| in_prevout := mp_out k; in_scriptSig := []; in_sequence := 0xffffffff |}.
Definition mp_coin : CUTXO := output_coin 3 {| out_value := 1000; out_scriptPubKey := [0x51] |}.
Definition mp_view : CCoinsView := {[ mp_out 1 := mp_coin; mp_out 2 := mp_coin ]}.
Definition mp_tx : CTransaction := {|
  tx_version := 1; tx_vin := [mp_in 1; mp_in 2];
  tx_vout := [{| out_value := 1500; out_scriptPubKey := [0x51] |}]; tx_lockTime := 0 |}.
Definition mp_rival : CTransaction := {|
  tx_version := 1; tx_vin := [mp_in 1];
  tx_vout := [{| out_value := 800; out_scriptPubKey := [0x51] |}]; tx_lockTime := 0 |}.
Definition mp_pool : CTxMemPool := snd (AddUnchecked Clear mp_tx 500 10 0).

Lemma mp_view_ok : view_ok mp_view.
Proof. eapply bool_decide_eq_true_1. vm_compute. reflexivity. Qed.

Lemma mp_check : CheckTx Clear mp_tx mp_view 10 = Ok 500.
Proof. vm_compute. reflexivity. Qed.

Lemma mp_reachable : pool_reachable mp_pool.
Proof.
  eapply (pr_accept Clear mp_tx mp_view 10 0); [exact mp_view_ok|apply pr_clear|].
  unfold accept_tx. rewrite mp_check. reflexivity.
Qed.

Lemma mempool_no_conflicts_witness :
  mapPrevOut mp_pool !! mp_out 2 = Some (GetTxID mp_tx) <->
    exists e, mapTx mp_pool !! GetTxID mp_tx = Some e /\ mp_out 2 ∈ prevouts (e_tx e).
Proof. exact (proj2 (proj2 (mempool_no_conflicts mp_pool mp_reachable)) (mp_out 2) (GetTxID mp_tx)). Defined.

Lemma mempool_check_exact_witness : tx_valid mp_tx.
Proof. exact (proj1 (proj2 (proj1 (mempool_check_exact Clear mp_tx mp_view 10 500 mp_view_ok) mp_check))). Defined.

Lemma remove_spent_exact_witness :
  exists pool' removed, RemoveSpent mp_pool ∅ 11 = Done (pool', removed) /\
    forall id, id ∈ removed <-> is_Some (mapTx mp_pool !! id) /\ mapTx pool' !! id = None.
Proof.
  destruct (remove_spent_exact mp_pool ∅ 11 mp_reachable) as (p & ids & E & _ & H).
  exists p, ids. exact (conj E H).
Defined.

Lemma remove_conflicts_behaviour_witness : RemoveConflicts mp_pool mp_rival = Undef.
Proof.
  refine (proj1 (remove_conflicts_behaviour mp_pool mp_rival mp_reachable) (mp_in 1) [] (GetTxID mp_tx)
    {| e_tx := mp_tx; e_fee := 500; e_time := 0; e_sizeBytes := 102; e_height := 10 |}
    [] (mp_in 1) (mp_in 2) [] eq_refl _ eq_refl eq_refl).
  vm_compute. reflexivity.
Defined.
