(* ===== verification/Chain.v ===== *)
(** [blockchain/blockchain] and [blockchain/reorg]: the chain manager over the
    storage interface [storage/interface.h].

    An operation runs on the node's state (the [CChain] and the storage).  It
    ends with a result or an error message, and the state then holds the
    changes made so far; or it has undefined behaviour in C++ (an index
    outside a vector), which is the outcome [Undef]. *)
From stdpp Require Import pretty.
From S2P Require Import Prelude Config UInt256 Compact Consensus Crypto Transaction Script Utxo Block Validation.
Import uint256 Rewards Rules Difficulty.

(** * Storage interface *)

(** Reading may change the storage object (its index is loaded lazily). *)
Class IStorage (St : Type) := {
  WriteBlock : CBlock -> Z -> St -> bool * St;
  ReadBlock : uint256 -> St -> option CBlock * St;
  SaveChainState : CCoinsView -> Z -> uint256 -> list uint256 -> St -> bool * St;
  LoadChainState : St -> option (CCoinsView * Z * uint256 * list uint256)
}.

(** What the chain manager relies on: a block comes back only under its own
    hash. *)
Class StorageLaws `{OpenSSL} (St : Type) `{IStorage St} : Prop := {
  ReadBlock_hash h s b s' : ReadBlock h s = (Some b, s') -> BlockHash b = h
}.

(** * Data *)

Record CBlockIndex := {
  idx_hash : uint256; idx_prevHash : uint256; idx_height : Z; idx_bits : Z;
  idx_timestamp : Z; idx_chainWork : uint256; idx_merkleRoot : uint256; idx_isGenesis : bool }.
Record CChain := {
  ch_view : CCoinsView; ch_index : gmap uint256 CBlockIndex; ch_byHeight : list uint256;
  ch_height : Z; ch_tipHash : uint256; ch_chainWork : uint256 }.
Definition empty_chain : CChain := {|
  ch_view := ∅; ch_index := ∅; ch_byHeight := []; ch_height := -1;
  ch_tipHash := zero; ch_chainWork := zero |}.
(** [CBlockIndex()] *)
Definition default_index : CBlockIndex := {|
  idx_hash := zero; idx_prevHash := zero; idx_height := -1; idx_bits := 0; idx_timestamp := 0;
  idx_chainWork := zero; idx_merkleRoot := zero; idx_isGenesis := false |}.

Record ReorgResult := {
  rr_ok : bool; rr_error : string; rr_forkHeight : Z;
  rr_disconnected : list uint256; rr_connected : list uint256 }.
Definition reorg_fail (e : string) : ReorgResult :=
  {| rr_ok := false; rr_error := e; rr_forkHeight := -1; rr_disconnected := []; rr_connected := [] |}.
Definition reorg_ok (fork : Z) (conn : list uint256) : ReorgResult :=
  {| rr_ok := true; rr_error := ""; rr_forkHeight := fork; rr_disconnected := []; rr_connected := conn |}.

(** * The node monad *)

Section Node.
Context {ossl : OpenSSL} {St : Type} {stor : IStorage St} (params : ChainParams).

Record Node := { nd_chain : CChain; nd_store : St }.

Definition NodeM (A : Type) : Type := Node -> outcome (res A * Node).
#[global] Instance NodeM_ret : MRet NodeM := fun A a n => Done (Ok a, n).
#[global] Instance NodeM_bind : MBind NodeM := fun A B f m n =>
  match m n with
  | Done (Ok a, n') => f a n'
  | Done (Err e, n') => Done (Err e, n')
  | Undef => Undef
  end.
Definition nfail {A} (e : string) : NodeM A := fun n => Done (Err e, n).
Definition nundef {A} : NodeM A := fun _ => Undef.
Definition lift_res {A} (r : res A) : NodeM A := fun n => Done (r, n).
Definition get_chain : NodeM CChain := fun n => Done (Ok (nd_chain n), n).
Definition put_chain (c : CChain) : NodeM unit :=
  fun n => Done (Ok tt, {| nd_chain := c; nd_store := nd_store n |}).
Definition read_block (h : uint256) : NodeM (option CBlock) := fun n =>
  let '(b, s) := ReadBlock h (nd_store n) in
  Done (Ok b, {| nd_chain := nd_chain n; nd_store := s |}).
(** The results of the two writes are not looked at by any caller. *)
Definition write_block (b : CBlock) (h : Z) : NodeM unit := fun n =>
  Done (Ok tt, {| nd_chain := nd_chain n; nd_store := snd (WriteBlock b h (nd_store n)) |}).
Definition save_state (c : CChain) : NodeM unit := fun n =>
  Done (Ok tt, {| nd_chain := nd_chain n;
    nd_store := snd (SaveChainState (ch_view c) (ch_height c) (ch_tipHash c) (ch_byHeight c) (nd_store n)) |}).
Definition load_state : NodeM (option (CCoinsView * Z * uint256 * list uint256)) := fun n =>
  Done (Ok (LoadChainState (nd_store n)), n).
(** Runs [m] and hands its error message to the caller. *)
Definition ntry {A} (m : NodeM A) : NodeM (res A) := fun n =>
  match m n with Done (r, n') => Done (Ok r, n') | Undef => Undef end.
(** [v[i]] on a vector *)
Definition vec_at {A} (v : list A) (i : Z) : NodeM A :=
  match v !! Z.to_nat i with Some a => mret a | None => nundef end.

(** * Queries *)

Definition GetIndex (c : CChain) (h : uint256) : option CBlockIndex := ch_index c !! h.
Definition HaveBlock (c : CChain) (h : uint256) : bool := bool_decide (is_Some (ch_index c !! h)).
Definition GetBlock (h : uint256) : NodeM (option CBlock) := read_block h.
Definition GetBlockHeader (h : uint256) : NodeM (option CBlockHeader) :=
  b ← read_block h; mret (blk_header <$> b).
Definition GetBlockByHeight (height : Z) : NodeM (option CBlock) :=
  c ← get_chain;
  if (height <? 0) || (height >? ch_height c) then mret None
  else h ← vec_at (ch_byHeight c) height; read_block h.
Definition GetBlockHashByHeight (height : Z) : NodeM (option uint256) :=
  c ← get_chain;
  if (height <? 0) || (height >? ch_height c) then mret None
  else h ← vec_at (ch_byHeight c) height; mret (Some h).
(** [CChain::Tip] *)
Definition Tip : NodeM (option CBlockIndex) :=
  c ← get_chain;
  if ch_height c <? 0 then mret None
  else h ← vec_at (ch_byHeight c) (ch_height c); mret (GetIndex c h).

(** The [while (h >= 0)] loop; [None] when the fuel is used up. *)
Fixpoint fork_loop (fuel : nat) (c : CChain) (h : Z) (cur : uint256) (idx : CBlockIndex) : NodeM (option Z) :=
  match fuel with
  | O => mret None
  | S k =>
      if h <? 0 then mret (Some (-1))
      else
        at_h ← vec_at (ch_byHeight c) h;
        if eqb at_h cur then mret (Some h)
        else
          let cur := idx_prevHash idx in
          match GetIndex c cur with
          | None => mret (Some (-1))
          | Some idx => fork_loop k c (idx_height idx) cur idx
          end
  end.
Definition FindForkHeight (hash : uint256) : NodeM (option Z) :=
  c ← get_chain;
  match GetIndex c hash with
  | None => mret (Some (-1))
  | Some idx =>
      let h := if idx_height idx >? ch_height c then ch_height c else idx_height idx in
      fork_loop (S (Z.to_nat (idx_height idx + 1))) c h hash idx
  end.

Definition CheckBlockHeaderOnly (hdr : CBlockHeader) (prev : option CBlockHeader) : res unit :=
  CheckBlockHeader hdr prev params.

(** * Updates *)

(** The index entry the code fills in field by field. *)
Definition make_index (blk : CBlock) (prevHash : uint256) (height : Z) (work : uint256) (gen : bool) : CBlockIndex := {|
  idx_hash := BlockHash blk; idx_prevHash := prevHash; idx_height := height;
  idx_bits := hdr_bits (blk_header blk); idx_timestamp := hdr_timestamp (blk_header blk);
  idx_chainWork := work; idx_merkleRoot := hdr_merkleRoot (blk_header blk); idx_isGenesis := gen |}.

Definition set_index (c : CChain) (idx : CBlockIndex) : CChain := {|
  ch_view := ch_view c; ch_index := <[idx_hash idx := idx]> (ch_index c); ch_byHeight := ch_byHeight c;
  ch_height := ch_height c; ch_tipHash := ch_tipHash c; ch_chainWork := ch_chainWork c |}.

Definition AddIndexEntry (blk : CBlock) (height : Z) (writeDisk : bool) : NodeM unit :=
  c ← get_chain;
  let prev := GetIndex c (hdr_prevBlockHash (blk_header blk)) in
  let work := add (from_option idx_chainWork zero prev) (GetBlockWork (hdr_bits (blk_header blk))) in
  _ ← put_chain (set_index c (make_index blk (hdr_prevBlockHash (blk_header blk)) height work (height =? 0)));
  if writeDisk then write_block blk height else mret tt.

(** The time of the first block of the interval; reads [byHeight]. *)
Definition interval_first_time (c : CChain) (prevIdx : CBlockIndex) (prev : CBlockHeader) : NodeM Z :=
  let intervalStartHeight :=
    Z.quot (idx_height prevIdx + 1) (difficultyInterval params) * difficultyInterval params in
  if intervalStartHeight >? 0 then
    h ← vec_at (ch_byHeight c) intervalStartHeight;
    firstBlk ← read_block h;
    mret (match firstBlk with Some b => hdr_timestamp (blk_header b) | None => hdr_timestamp prev end)
  else mret (hdr_timestamp prev).

Definition AcceptBlock (blk : CBlock) (height : Z) : NodeM unit :=
  c ← get_chain;
  match GetIndex c (hdr_prevBlockHash (blk_header blk)) with
  | None => nfail "unknown prev block"
  | Some prevIdx =>
      prevBlk ← read_block (hdr_prevBlockHash (blk_header blk));
      match prevBlk with
      | None => nfail "cannot read prev block"
      | Some prevBlk =>
          let prev := blk_header prevBlk in
          _ ← lift_res (CheckBlockHeader (blk_header blk) (Some prev) params);
          firstTime ← interval_first_time c prevIdx prev;
          let expectedBits :=
            GetNextWorkRequired (hdr_timestamp prev) (idx_height prevIdx) (hdr_bits prev) firstTime params in
          _ ← lift_res (fail_if (negb (hdr_bits (blk_header blk) =? expectedBits)) "incorrect difficulty bits");
          '(newView, fees) ← lift_res (CheckBlock blk height (ch_view c) params);
          let idx := make_index blk (hdr_prevBlockHash (blk_header blk)) height
                       (add (idx_chainWork prevIdx) (GetBlockWork (hdr_bits (blk_header blk)))) false in
          let c' := {| ch_view := newView; ch_index := <[idx_hash idx := idx]> (ch_index c);
                       ch_byHeight := ch_byHeight c ++ [BlockHash blk]; ch_height := height;
                       ch_tipHash := BlockHash blk; ch_chainWork := idx_chainWork idx |} in
          _ ← put_chain c';
          _ ← write_block blk height;
          save_state c'
      end
  end.

(** * Start-up *)

(** The nonce search of [ApplyGenesis]. *)
Definition with_nonce (h : CBlockHeader) (nonce : Z) : CBlockHeader := {|
  hdr_version := hdr_version h; hdr_prevBlockHash := hdr_prevBlockHash h;
  hdr_merkleRoot := hdr_merkleRoot h; hdr_timestamp := hdr_timestamp h;
  hdr_bits := hdr_bits h; hdr_nonce := nonce |}.
Fixpoint genesis_search (fuel : nat) (nonce : Z) (h : CBlockHeader) : option CBlockHeader :=
  match fuel with
  | O => None
  | S k =>
      if CheckProofOfWork (HeaderHash (with_nonce h nonce)) (hdr_bits h)
      then Some (with_nonce h nonce)
      else genesis_search k (nonce + 1) h
  end.
(** [for (nonce = 0; nonce < 0xffffffff; ++nonce)] runs at most
    [0xffffffff] times. *)
Definition mine_genesis (h : CBlockHeader) : option CBlockHeader :=
  genesis_search (Z.to_nat 0xffffffff) 0 h.

Definition genesis_header : option CBlockHeader :=
  let hdr := blk_header (GetGenesisBlock params) in
  if is_ok (CheckBlockHeader hdr None params) then Some hdr else mine_genesis hdr.

Definition ApplyGenesis : NodeM unit :=
  match genesis_header with
  | None => nfail "could not mine genesis block"
  | Some hdr =>
      let genesis := {| blk_header := hdr; blk_vtx := blk_vtx (GetGenesisBlock params) |} in
      match CheckBlock genesis 0 ∅ params with
      | Err verr => nfail (String.append "genesis validation failed: " verr)
      | Ok (outView, fees) =>
          c ← get_chain;
          let idx := make_index genesis zero 0 (GetBlockWork (hdr_bits hdr)) true in
          let c' := {| ch_view := outView; ch_index := <[idx_hash idx := idx]> (ch_index c);
                       ch_byHeight := [BlockHash genesis]; ch_height := 0;
                       ch_tipHash := BlockHash genesis; ch_chainWork := idx_chainWork idx |} in
          _ ← put_chain c';
          _ ← write_block genesis 0;
          save_state c'
      end
  end.

(** [chain.index[h]]: inserts a default entry when there is none. *)
Definition index_at (m : gmap uint256 CBlockIndex) (h : uint256) : CBlockIndex * gmap uint256 CBlockIndex :=
  match m !! h with
  | Some idx => (idx, m)
  | None => (default_index, <[h := default_index]> m)
  end.

(** The loop that rebuilds the index from the stored blocks. *)
Fixpoint rebuild_index (i : nat) (hs : list uint256) (m : gmap uint256 CBlockIndex) :
    NodeM (gmap uint256 CBlockIndex) :=
  match hs with
  | [] => mret m
  | h :: r =>
      b ← read_block h;
      match b with
      | None => rebuild_index (S i) r m
      | Some blk =>
          let work := GetBlockWork (hdr_bits (blk_header blk)) in
          let '(w, m) :=
            if (i =? 0)%nat then (work, m)
            else let '(p, m) := index_at m (hdr_prevBlockHash (blk_header blk)) in
                 (add (idx_chainWork p) work, m) in
          let idx := make_index blk (hdr_prevBlockHash (blk_header blk)) (Z.of_nat i) w (i =? 0)%nat in
          rebuild_index (S i) r (<[idx_hash idx := idx]> m)
      end
  end.

Definition LoadFromStorage : NodeM unit :=
  c ← get_chain;
  st ← load_state;
  match st with
  | None => ApplyGenesis
  | Some (view, h, tip, byHeight) =>
      m ← rebuild_index 0 byHeight (ch_index c);
      if bool_decide (m = ∅) then
        _ ← put_chain {| ch_view := view; ch_index := m; ch_byHeight := byHeight; ch_height := h;
                         ch_tipHash := tip; ch_chainWork := ch_chainWork c |};
        ApplyGenesis
      else
        let '(t, m) := index_at m tip in
        put_chain {| ch_view := view; ch_index := m; ch_byHeight := byHeight; ch_height := h;
                     ch_tipHash := tip; ch_chainWork := idx_chainWork t |}
  end.
Definition Init : NodeM unit := LoadFromStorage.

(** * Reorganisation *)

(** Collects the active blocks [0..forkHeight]. *)
Fixpoint collect_blocks (n : nat) (h : Z) : NodeM (res (list CBlock)) :=
  match n with
  | O => mret (Ok [])
  | S k =>
      b ← GetBlockByHeight h;
      match b with
      | None => mret (Err (String.append "cannot read chain block " (pretty h)))
      | Some b => r ← collect_blocks k (h + 1); mret (l ← r; Ok (b :: l))
      end
  end.

(** One iteration of the validation loop; the state is the height, the view,
    the hashes so far and the previous header. *)
Record fork_state := {
  fs_height : Z; fs_view : CCoinsView; fs_byHeight : list uint256; fs_prev : option CBlockHeader }.
Definition validate_step (s : fork_state) (b : CBlock) : res fork_state :=
  match CheckBlockHeader (blk_header b) (fs_prev s) params with
  | Err verr => Err (String.append "fork validation: " verr)
  | Ok _ =>
      match CheckBlock b (fs_height s) (fs_view s) params with
      | Err verr => Err (String.append "fork block invalid: " verr)
      | Ok (outView, _) =>
          Ok {| fs_height := fs_height s + 1; fs_view := outView;
                fs_byHeight := fs_byHeight s ++ [BlockHash b]; fs_prev := Some (blk_header b) |}
      end
  end.
Definition fork_start : fork_state :=
  {| fs_height := 0; fs_view := ∅; fs_byHeight := []; fs_prev := None |}.

Definition TryAcceptBlock (blk : CBlock) : NodeM ReorgResult :=
  c ← get_chain;
  if HaveBlock c (BlockHash blk) then mret (reorg_ok (-1) [])
  else
    match GetIndex c (hdr_prevBlockHash (blk_header blk)) with
    | None => mret (reorg_fail "unknown prev block (need sync)")
    | Some prevIdx =>
        if eqb (hdr_prevBlockHash (blk_header blk)) (ch_tipHash c) then
          r ← ntry (AcceptBlock blk (idx_height prevIdx + 1));
          mret (match r with
                | Ok _ => reorg_ok (-1) [BlockHash blk]
                | Err e => reorg_fail e
                end)
        else
          let forkWork := add (idx_chainWork prevIdx) (GetBlockWork (hdr_bits (blk_header blk))) in
          if leb forkWork (ch_chainWork c) then mret (reorg_fail "fork has lower chain work")
          else
            let forkHeight := idx_height prevIdx in
            blocks ← collect_blocks (Z.to_nat (forkHeight + 1)) 0;
            match blocks with
            | Err e => mret (reorg_fail e)
            | Ok bs =>
                match res_fold validate_step fork_start (bs ++ [blk]) with
                | Err e => mret (reorg_fail e)
                | Ok s =>
                    let newByHeight := fs_byHeight s in
                    let newHeight := Z.of_nat (length newByHeight) - 1 in
                    _ ← put_chain {| ch_view := fs_view s; ch_index := ch_index c;
                                     ch_byHeight := newByHeight; ch_height := newHeight;
                                     ch_tipHash := BlockHash blk; ch_chainWork := ch_chainWork c |};
                    _ ← AddIndexEntry blk newHeight true;
                    mret (reorg_ok forkHeight newByHeight)
                end
            end
    end.

End Node.
Arguments Node St : clear implicits.
Arguments NodeM St A : clear implicits.

(** * Invariant *)

Section ChainFacts.
Context {ossl : OpenSSL} {laws : OpenSSLLaws ossl}.
Context {St : Type} {stor : IStorage St} {slaws : StorageLaws St}.
Context (params : ChainParams).
Abbreviation node := (Node St).

Record chain_inv (c : CChain) : Prop := {
  ci_height : 0 <= ch_height c;
  ci_length : Z.of_nat (length (ch_byHeight c)) = ch_height c + 1;
  ci_tip : ch_byHeight c !! Z.to_nat (ch_height c) = Some (ch_tipHash c);
  ci_view : view_ok (ch_view c);
  ci_supply : supply (ch_view c) <= subsidy_sum (length (ch_byHeight c));
  (** every indexed block is filed under its hash and met its target *)
  ci_index h idx : ch_index c !! h = Some idx ->
    idx_hash idx = h /\ 0 <= idx_height idx /\ CheckProofOfWork h (idx_bits idx) = true;
  (** the active chain is indexed, at its heights *)
  ci_active k h : ch_byHeight c !! k = Some h ->
    exists idx, ch_index c !! h = Some idx /\ idx_height idx = Z.of_nat k;
  (** and linked by previous-block hashes *)
  ci_linked k h h' : ch_byHeight c !! k = Some h -> ch_byHeight c !! S k = Some h' ->
    exists idx, ch_index c !! h' = Some idx /\ idx_prevHash idx = h;
  ci_wf : Forall wf (ch_byHeight c)
}.

(** ** Running the monad *)

(** [m] from [n] ends normally with [r] in [n']. *)
Definition runs {A} (m : NodeM St A) (n : node) (r : res A) (n' : node) : Prop := m n = Done (r, n').

Lemma runs_bind_inv {A B} (m : NodeM St A) (f : A -> NodeM St B) n r n' :
  runs (m ≫= f) n r n' ->
  (exists a n1, runs m n (Ok a) n1 /\ runs (f a) n1 r n') \/ (exists e, runs m n (Err e) n' /\ r = Err e).
Proof.
  unfold runs, mbind, NodeM_bind. destruct (m n) as [[[a|e] n1]|]; [| |done].
  - left. by exists a, n1.
  - intros [= <- <-]. right. by exists e.
Qed.

Lemma runs_get n r n' : runs get_chain n r n' -> r = Ok (nd_chain n) /\ n' = n.
Proof. by intros [= <- <-]. Qed.
Lemma runs_ret {A} (a : A) n r n' : runs (mret a) n r n' -> r = Ok a /\ n' = n.
Proof. by intros [= <- <-]. Qed.
Lemma runs_fail {A} e n (r : res A) n' : runs (nfail e) n r n' -> r = Err e /\ n' = n.
Proof. by intros [= <- <-]. Qed.
Lemma runs_lift {A} (x : res A) n r n' : runs (lift_res x) n r n' -> r = x /\ n' = n.
Proof. by intros [= <- <-]. Qed.

Lemma runs_read h n r n' : runs (read_block h) n r n' ->
  exists b, r = Ok b /\ nd_chain n' = nd_chain n /\ (forall blk, b = Some blk -> BlockHash blk = h).
Proof.
  unfold runs, read_block. destruct (ReadBlock h (nd_store n)) as [b s] eqn:E. intros [= <- <-].
  exists b. split_and!; [done..|]. intros blk ->. by eapply ReadBlock_hash.
Qed.

Lemma runs_vec_at {A} (v : list A) i n r n' : runs (vec_at v i) n r n' ->
  exists a, v !! Z.to_nat i = Some a /\ r = Ok a /\ n' = n.
Proof. unfold vec_at. destruct (v !! Z.to_nat i) as [a|]; [|done]. intros [= <- <-]. by exists a. Qed.

(** Steps through a run: takes the first operation of a bind apart, on the
    path on which it succeeds (an operation that cannot fail has no other). *)
Ltac run_step H a n1 :=
  apply runs_bind_inv in H as [(a & n1 & ?Hm & H)|(?e & ?Hm & ?)].

Lemma runs_first_time c prevIdx prev n r n' :
  runs (interval_first_time params c prevIdx prev) n r n' ->
  nd_chain n' = nd_chain n /\ exists t, r = Ok t.
Proof.
  unfold interval_first_time. destruct (_ >? 0); [|intros H; apply runs_ret in H as [-> ->]; eauto].
  intros H. run_step H x n1; apply runs_vec_at in Hm as (h & _ & E & ->); [|done]. injection E as ->.
  run_step H y n2; apply runs_read in Hm as (b & E & Hc & _); [|done]. injection E as ->.
  apply runs_ret in H as [-> ->]. eauto.
Qed.

(** ** AcceptBlock *)

(** A successful [AcceptBlock] has checked the header and the block, and its
    effect on the chain is this. *)
Definition accepted_chain (c : CChain) (blk : CBlock) (height : Z) (view : CCoinsView) (work : uint256) : CChain := {|
  ch_view := view;
  ch_index := <[BlockHash blk := make_index blk (hdr_prevBlockHash (blk_header blk)) height work false]> (ch_index c);
  ch_byHeight := ch_byHeight c ++ [BlockHash blk]; ch_height := height;
  ch_tipHash := BlockHash blk; ch_chainWork := work |}.

Lemma AcceptBlock_runs blk height n r n' : runs (AcceptBlock params blk height) n r n' ->
  (exists e, r = Err e /\ nd_chain n' = nd_chain n) \/
  (r = Ok tt /\ exists prevIdx prevBlk view fees,
     ch_index (nd_chain n) !! hdr_prevBlockHash (blk_header blk) = Some prevIdx /\
     BlockHash prevBlk = hdr_prevBlockHash (blk_header blk) /\
     CheckBlockHeader (blk_header blk) (Some (blk_header prevBlk)) params = Ok tt /\
     CheckBlock blk height (ch_view (nd_chain n)) params = Ok (view, fees) /\
     nd_chain n' = accepted_chain (nd_chain n) blk height view
       (add (idx_chainWork prevIdx) (GetBlockWork (hdr_bits (blk_header blk))))).
Proof.
  intros H. unfold AcceptBlock in H. run_step H c n1; apply runs_get in Hm as [E ->]; [injection E as ->|done].
  unfold GetIndex in H.
  destruct (ch_index (nd_chain n) !! _) as [prevIdx|] eqn:Ei; [|apply runs_fail in H as [-> ->]; eauto].
  run_step H ob n2; apply runs_read in Hm as (b & E & Hc & Hb); [injection E as ->|done].
  destruct b as [prevBlk|]; [|apply runs_fail in H as [-> ->]; eauto].
  run_step H u n3; apply runs_lift in Hm as [E ->]; [|subst; eauto].
  run_step H ft n4; apply runs_first_time in Hm as (Hc' & t & E'); [injection E' as ->|done].
  run_step H u' n5; apply runs_lift in Hm as [E'' ->]; [|subst; left; eexists; split; [done|congruence]].
  run_step H vf n6; apply runs_lift in Hm as [E3 ->]; [|subst; left; eexists; split; [done|congruence]].
  destruct vf as [view fees], u. right. cbv zeta in H. injection H as <- <-. split; [done|].
  exists prevIdx, prevBlk, view, fees. split_and!; auto.
Qed.

(** ** Extending the active chain at height [k] *)

Definition extended_chain (c : CChain) (k : nat) (blk : CBlock) (view : CCoinsView)
    (work : uint256) (gen : bool) (total : uint256) : CChain := {|
  ch_view := view;
  ch_index := <[BlockHash blk :=
    make_index blk (hdr_prevBlockHash (blk_header blk)) (Z.of_nat k + 1) work gen]> (ch_index c);
  ch_byHeight := take (S k) (ch_byHeight c) ++ [BlockHash blk];
  ch_height := Z.of_nat k + 1; ch_tipHash := BlockHash blk; ch_chainWork := total |}.

Lemma CheckBlockHeader_pow hdr prev : CheckBlockHeader hdr prev params = Ok tt ->
  CheckProofOfWork (HeaderHash hdr) (hdr_bits hdr) = true.
Proof. unfold CheckBlockHeader. rewrite fail_if_bind, negb_false_iff. by intros [? _]. Qed.

Lemma CheckBlockHeader_prev hdr prev : CheckBlockHeader hdr (Some prev) params = Ok tt ->
  hdr_prevBlockHash hdr = HeaderHash prev.
Proof.
  unfold CheckBlockHeader. rewrite !fail_if_bind. intros (_ & H & _).
  by rewrite negb_false_iff, eqb_spec, bool_decide_eq_true in H.
Qed.

Lemma chain_inv_extend c k blk view work gen total :
  chain_inv c -> ch_index c !! BlockHash blk = None ->
  ch_byHeight c !! k = Some (hdr_prevBlockHash (blk_header blk)) ->
  CheckProofOfWork (BlockHash blk) (hdr_bits (blk_header blk)) = true ->
  view_ok view -> supply view <= subsidy_sum (S (S k)) ->
  chain_inv (extended_chain c k blk view work gen total).
Proof.
  intros Hc Hfresh Hk Hpow Hv Hs. destruct Hc.
  pose proof (lookup_lt_Some _ _ _ Hk) as Hlt.
  assert (length (take (S k) (ch_byHeight c)) = S k) as Hl by (rewrite length_take; lia).
  assert (forall j h, take (S k) (ch_byHeight c) !! j = Some h -> ch_byHeight c !! j = Some h /\ (j <= k)%nat) as Ht.
  { intros j h Hj. pose proof (lookup_lt_Some _ _ _ Hj). rewrite lookup_take_Some in Hj. split; [tauto|lia]. }
  assert (forall h idx, ch_index c !! h = Some idx ->
    <[BlockHash blk := make_index blk (hdr_prevBlockHash (blk_header blk)) (Z.of_nat k + 1) work gen]>
      (ch_index c) !! h = Some idx) as Hkeep.
  { intros h idx Hh. rewrite lookup_insert_ne; [done|]. congruence. }
  split; cbn [extended_chain ch_view ch_index ch_byHeight ch_height ch_tipHash ch_chainWork].
  - lia.
  - rewrite length_app, Hl. cbn [length]. lia.
  - rewrite lookup_app_r by lia. by replace (Z.to_nat (Z.of_nat k + 1) - _)%nat with 0%nat by lia.
  - done.
  - rewrite length_app, Hl. cbn [length]. by replace (S k + 1)%nat with (S (S k)) by lia.
  - intros h idx. rewrite lookup_insert_Some. intros [[<- <-]|[_ H]]; [|by apply ci_index0].
    split_and!; [done|cbn [make_index idx_height]; lia|done].
  - intros j h [Hj|[Hj1 Hj2]]%lookup_app_Some.
    + apply Ht in Hj as [Hj _]. apply ci_active0 in Hj as (idx & ? & ?). exists idx. auto.
    + rewrite Hl in *. apply list_lookup_singleton_Some in Hj2 as [Hz <-].
      eexists. split; [apply lookup_insert_eq|]. cbn [make_index idx_height]. lia.
  - intros j h h' [Hj|[Hj1 Hj2]]%lookup_app_Some [Hj'|[Hj1' Hj2']]%lookup_app_Some; rewrite ?Hl in *.
    + apply Ht in Hj as [Hj _], Hj' as [Hj' _].
      destruct (ci_linked0 _ _ _ Hj Hj') as (idx & ? & ?). exists idx. auto.
    + apply list_lookup_singleton_Some in Hj2' as [Hz <-]. apply Ht in Hj as [Hj ?].
      assert (j = k) as -> by lia. rewrite Hj in Hk. injection Hk as ->.
      eexists. split; [apply lookup_insert_eq|done].
    + apply Ht in Hj' as [_ ?]. lia.
    + apply list_lookup_singleton_Some in Hj2' as [? _]. lia.
  - apply Forall_app. split; [by apply Forall_take|]. apply Forall_singleton, SHA256d_wf.
Qed.

Lemma subsidy_sum_step k : subsidy_sum (S k) = subsidy_sum k + GetBlockSubsidy (Z.of_nat k).
Proof. apply subsidy_sum_S. Qed.


(** ** Reorganisation *)

Lemma GetBlockByHeight_runs h n r n' : 0 <= h ->
  runs (GetBlockByHeight h) n r n' ->
  nd_chain n' = nd_chain n /\ exists ob, r = Ok ob /\
    forall b, ob = Some b -> ch_byHeight (nd_chain n) !! Z.to_nat h = Some (BlockHash b).
Proof.
  intros Hh H. unfold GetBlockByHeight in H. run_step H c n1; apply runs_get in Hm as [E ->]; [injection E as ->|done].
  destruct (_ || _).
  { apply runs_ret in H as [-> ->]. split; [done|]. by exists None. }
  run_step H x n1; apply runs_vec_at in Hm as (hh & Hx & E & ->); [injection E as ->|done].
  apply runs_read in H as (b & -> & Hc & Hb). split; [done|]. exists b. split; [done|].
  intros blk ->. by rewrite (Hb blk eq_refl).
Qed.

Lemma collect_blocks_runs m : forall h n r n', 0 <= h ->
  runs (collect_blocks m h) n r n' ->
  nd_chain n' = nd_chain n /\ exists rb, r = Ok rb /\
    forall bs, rb = Ok bs -> length bs = m /\
      forall i b, bs !! i = Some b -> ch_byHeight (nd_chain n) !! (Z.to_nat h + i)%nat = Some (BlockHash b).
Proof.
  induction m as [|m IH]; intros h n r n' Hh H; cbn [collect_blocks] in H.
  { apply runs_ret in H as [-> ->]. split; [done|]. eexists. split; [done|]. by intros bs [= <-]. }
  run_step H ob n1; apply GetBlockByHeight_runs in Hm as (Hc & ob' & E & Hb); [injection E as ->|done|done|done].
  destruct ob' as [b|].
  2: { apply runs_ret in H as [-> ->]. split; [done|]. eexists. split; [done|]. done. }
  run_step H rb n2; apply IH in Hm as (Hc2 & rb' & E & Hbs); try lia; [injection E as ->|done].
  apply runs_ret in H as [-> ->]. split; [congruence|]. eexists. split; [done|].
  intros bs Hl. apply bind_Ok in Hl as (l & -> & [= <-]).
  destruct (Hbs l eq_refl) as [Hlen Hi]. split; [by simpl; f_equal|].
  intros [|i] b' Hb'; cbn in Hb'.
  - injection Hb' as <-. rewrite Nat.add_0_r. by apply Hb.
  - rewrite <- Hc. replace (Z.to_nat h + S i)%nat with (Z.to_nat (h + 1) + i)%nat by lia. by apply Hi.
Qed.

Lemma validate_step_ok s b s' k : fs_height s = Z.of_nat k -> view_ok (fs_view s) ->
  supply (fs_view s) <= subsidy_sum k -> validate_step params s b = Ok s' ->
  CheckBlockHeader (blk_header b) (fs_prev s) params = Ok tt /\
  fs_height s' = Z.of_nat (S k) /\ view_ok (fs_view s') /\ supply (fs_view s') <= subsidy_sum (S k) /\
  fs_byHeight s' = fs_byHeight s ++ [BlockHash b] /\ fs_prev s' = Some (blk_header b).
Proof.
  intros Hk Hv Hs H. unfold validate_step in H.
  destruct (CheckBlockHeader _ _ _) as [[]|]; [|done].
  destruct (CheckBlock _ _ _ _) as [[v f]|] eqn:Eb; [|done]. injection H as <-. cbn [fs_height fs_view fs_byHeight fs_prev].
  pose proof (subsidy_sum_max k). apply CheckBlock_supply in Eb as (Hv' & _ & Hs'); [|lia|done|lia].
  rewrite subsidy_sum_step, <- Hk. split_and!; done || lia.
Qed.

Lemma validate_fold bs : forall s s' k, fs_height s = Z.of_nat k -> view_ok (fs_view s) ->
  supply (fs_view s) <= subsidy_sum k -> res_fold (validate_step params) s bs = Ok s' ->
  fs_height s' = Z.of_nat (k + length bs) /\ view_ok (fs_view s') /\
  supply (fs_view s') <= subsidy_sum (k + length bs) /\
  fs_byHeight s' = fs_byHeight s ++ map BlockHash bs /\
  (forall bs' b, bs = bs' ++ [b] -> fs_prev s' = Some (blk_header b)).
Proof.
  induction bs as [|b bs IH]; intros s s' k Hk Hv Hs H.
  { injection H as <-. cbn. rewrite Nat.add_0_r, app_nil_r. split_and!; try done. by intros []. }
  cbn [res_fold] in H. apply bind_Ok in H as (s1 & H1 & H2).
  apply (validate_step_ok s b s1 k) in H1 as (_ & Hk1 & Hv1 & Hs1 & Eb & Ep); [|done..].
  destruct (IH s1 s' (S k) Hk1 Hv1 Hs1 H2) as (Hk2 & Hv2 & Hs2 & Eb2 & Ep2). cbn [length map].
  replace (k + S (length bs))%nat with (S k + length bs)%nat by lia.
  split_and!; try done.
  - by rewrite Eb2, Eb, <- app_assoc.
  - intros [|x bs'] y E; injection E as -> E; [|by eapply Ep2].
    subst bs. cbn in H2. by injection H2 as <-.
Qed.

Lemma supply_subsidy_0 : supply ∅ <= subsidy_sum 0.
Proof. done. Qed.

(** A validated fork [bs ++ [blk]] whose first blocks are the active ones. *)
Lemma fork_validated c bs blk s k : chain_inv c ->
  length bs = S k -> (forall i b, bs !! i = Some b -> ch_byHeight c !! i = Some (BlockHash b)) ->
  res_fold (validate_step params) fork_start (bs ++ [blk]) = Ok s ->
  ch_byHeight c !! k = Some (hdr_prevBlockHash (blk_header blk)) /\
  CheckProofOfWork (BlockHash blk) (hdr_bits (blk_header blk)) = true /\
  view_ok (fs_view s) /\ supply (fs_view s) <= subsidy_sum (S (S k)) /\
  fs_byHeight s = take (S k) (ch_byHeight c) ++ [BlockHash blk].
Proof.
  intros Hc Hlen Hbs H. rewrite res_fold_app in H. apply bind_Ok in H as (s1 & H1 & H2).
  apply (validate_fold bs fork_start s1 0) in H1 as (Hk1 & Hv1 & Hs1 & Eb1 & Ep1);
    [|done|apply view_ok_empty|apply supply_subsidy_0].
  cbn [res_fold] in H2. apply bind_Ok in H2 as (s2 & H2 & [= <-]).
  apply (validate_step_ok s1 blk s2 (0 + length bs)) in H2 as (Hh & _ & Hv2 & Hs2 & Eb2 & _); [|done..].
  destruct (exists_last (l := bs)) as (bs' & b & Eb); [by intros ->|].
  rewrite (Ep1 bs' b Eb) in Hh. apply CheckBlockHeader_prev in Hh as Hp. apply CheckBlockHeader_pow in Hh.
  rewrite Hlen in Hs2. split_and!; try done.
  - rewrite Hp. change (HeaderHash (blk_header b)) with (BlockHash b). apply Hbs. subst bs.
    rewrite length_app in Hlen. cbn in Hlen. rewrite lookup_app_r by lia.
    by replace (k - length bs')%nat with 0%nat by lia.
  - rewrite Eb2, Eb1. cbn [fork_start fs_byHeight app]. f_equal.
    apply list_eq. intros i. change (map BlockHash bs) with (BlockHash <$> bs). rewrite list_lookup_fmap.
    destruct (bs !! i) as [x|] eqn:Ex; cbn.
    + pose proof (lookup_lt_Some _ _ _ Ex). rewrite lookup_take_lt by lia. symmetry. by apply Hbs.
    + symmetry. apply lookup_ge_None. apply lookup_ge_None in Ex. rewrite length_take. lia.
Qed.

(** What a call of [TryAcceptBlock] can do to the chain: nothing, append the
    block to the tip, or replace the blocks above height [k] by it. *)
Inductive try_effect (c : CChain) (blk : CBlock) (rr : ReorgResult) : CChain -> Prop :=
| te_none : (rr_ok rr = true -> HaveBlock c (BlockHash blk) = true) -> try_effect c blk rr c
| te_append view work :
    rr = reorg_ok (-1) [BlockHash blk] -> ch_index c !! BlockHash blk = None ->
    hdr_prevBlockHash (blk_header blk) = ch_tipHash c ->
    CheckProofOfWork (BlockHash blk) (hdr_bits (blk_header blk)) = true ->
    view_ok view -> supply view <= subsidy_sum (S (length (ch_byHeight c))) ->
    try_effect c blk rr (accepted_chain c blk (ch_height c + 1) view work)
| te_reorg k prevIdx view :
    let work := add (idx_chainWork prevIdx) (GetBlockWork (hdr_bits (blk_header blk))) in
    rr = reorg_ok (Z.of_nat k) (take (S k) (ch_byHeight c) ++ [BlockHash blk]) ->
    ch_index c !! BlockHash blk = None ->
    ch_byHeight c !! k = Some (hdr_prevBlockHash (blk_header blk)) ->
    ch_index c !! hdr_prevBlockHash (blk_header blk) = Some prevIdx ->
    hdr_prevBlockHash (blk_header blk) <> ch_tipHash c ->
    leb work (ch_chainWork c) = false ->
    CheckProofOfWork (BlockHash blk) (hdr_bits (blk_header blk)) = true ->
    view_ok view -> supply view <= subsidy_sum (S (S k)) ->
    try_effect c blk rr (extended_chain c k blk view work false (ch_chainWork c)).

Lemma accept_effect blk n n' : chain_inv (nd_chain n) ->
  runs (AcceptBlock params blk (ch_height (nd_chain n) + 1)) n (Ok tt) n' ->
  exists view work,
    CheckProofOfWork (BlockHash blk) (hdr_bits (blk_header blk)) = true /\
    view_ok view /\ supply view <= subsidy_sum (S (length (ch_byHeight (nd_chain n)))) /\
    nd_chain n' = accepted_chain (nd_chain n) blk (ch_height (nd_chain n) + 1) view work.
Proof.
  intros Hc H. apply AcceptBlock_runs in H as [(e & ? & _)|(_ & pi & pb & v & f & _ & _ & Hh & Hb & ->)]; [done|].
  set (c := nd_chain n) in *. destruct (Hc) as [H0 Hlen Htip Hv Hs _ _ _ _].
  pose proof (subsidy_sum_max (length (ch_byHeight c))).
  apply CheckBlock_supply in Hb as (Hv' & _ & Hs'); [|lia|done|lia].
  eexists v, _. split_and!; [by eapply CheckBlockHeader_pow|done| |done].
  rewrite subsidy_sum_step. replace (Z.of_nat (length (ch_byHeight c))) with (ch_height c + 1) by lia. lia.
Qed.

Lemma reorg_put_runs c n blk s k prevIdx r n' :
  let work := add (idx_chainWork prevIdx) (GetBlockWork (hdr_bits (blk_header blk))) in
  ch_index c !! hdr_prevBlockHash (blk_header blk) = Some prevIdx ->
  (k < length (ch_byHeight c))%nat ->
  fs_byHeight s = take (S k) (ch_byHeight c) ++ [BlockHash blk] ->
  runs (_ ← put_chain {| ch_view := fs_view s; ch_index := ch_index c; ch_byHeight := fs_byHeight s;
                         ch_height := Z.of_nat (length (fs_byHeight s)) - 1;
                         ch_tipHash := BlockHash blk; ch_chainWork := ch_chainWork c |};
        _ ← AddIndexEntry blk (Z.of_nat (length (fs_byHeight s)) - 1) true;
        mret (reorg_ok (Z.of_nat k) (fs_byHeight s))) n r n' ->
  r = Ok (reorg_ok (Z.of_nat k) (take (S k) (ch_byHeight c) ++ [BlockHash blk])) /\
  nd_chain n' = extended_chain c k blk (fs_view s) work false (ch_chainWork c).
Proof.
  intros work Hi Hlen Eb. rewrite Eb.
  replace (Z.of_nat (length (take (S k) (ch_byHeight c) ++ [BlockHash blk])) - 1) with (Z.of_nat k + 1)
    by (rewrite length_app, length_take; cbn [length]; lia).
  unfold runs, AddIndexEntry, put_chain, get_chain, write_block, GetIndex.
  unfold mbind, NodeM_bind, mret, NodeM_ret. cbn [nd_chain nd_store ch_index]. rewrite Hi.
  replace (Z.of_nat k + 1 =? 0) with false by (symmetry; apply Z.eqb_neq; lia).
  by intros [= <- <-].
Qed.

Lemma TryAcceptBlock_runs blk n r n' : chain_inv (nd_chain n) ->
  runs (TryAcceptBlock params blk) n r n' ->
  exists rr, r = Ok rr /\ try_effect (nd_chain n) blk rr (nd_chain n').
Proof.
  intros Hc H. unfold TryAcceptBlock in H. run_step H c n1; apply runs_get in Hm as [E ->]; [injection E as ->|done].
  set (c := nd_chain n) in *.
  destruct (HaveBlock c (BlockHash blk)) eqn:Eh.
  { apply runs_ret in H as [-> ->]. eexists. split; [done|]. by apply te_none. }
  assert (ch_index c !! BlockHash blk = None) as Hfresh.
  { unfold HaveBlock in Eh. apply bool_decide_eq_false in Eh. by apply eq_None_not_Some. }
  unfold GetIndex in H. destruct (ch_index c !! hdr_prevBlockHash _) as [prevIdx|] eqn:Ei.
  2: { apply runs_ret in H as [-> ->]. eexists. split; [done|]. by apply te_none. }
  rewrite eqb_spec in H. case_bool_decide as Htip.
  - assert (idx_height prevIdx = ch_height c) as Eh'.
    { destruct (ci_active c Hc _ _ (ci_tip c Hc)) as (idx & Hidx & Hh). rewrite Htip in Ei.
      rewrite Ei in Hidx. injection Hidx as ->. rewrite Hh. pose proof (ci_height c Hc). lia. }
    run_step H ra n1; [|unfold runs, ntry in Hm; by destruct (AcceptBlock _ _ _ _) as [[]|]].
    apply runs_ret in H as [-> ->]. eexists. split; [done|].
    unfold runs, ntry in Hm. rewrite Eh' in Hm.
    destruct (AcceptBlock params blk (ch_height c + 1) n) as [[r2 n2]|] eqn:Ea; [|done]. injection Hm as -> ->.
    destruct ra as [[]|e].
    + apply accept_effect in Ea as (v & w & Hpow & Hv & Hs & ->); [|done]. by apply te_append.
    + apply AcceptBlock_runs in Ea as [(e' & _ & ->)|(? & _)]; [|done]. by apply te_none.
  - destruct (leb _ _) eqn:Ew.
    { apply runs_ret in H as [-> ->]. eexists. split; [done|]. by apply te_none. }
    destruct (ci_index c Hc _ _ Ei) as (_ & Hge & _).
    run_step H rb n1; apply collect_blocks_runs in Hm as (Hc1 & rb' & E & Hbs); try lia; [injection E as ->|done].
    destruct rb' as [bs|e]; cycle 1.
    { apply runs_ret in H as [-> ->]. eexists. split; [done|]. rewrite Hc1. by apply te_none. }
    destruct (Hbs bs eq_refl) as [Hlen Hi].
    destruct (res_fold _ _ _) as [s|e] eqn:Ef; cycle 1.
    { apply runs_ret in H as [-> ->]. eexists. split; [done|]. rewrite Hc1. by apply te_none. }
    destruct (Z_of_nat_complete _ Hge) as [k Ek]. rewrite Ek in H.
    destruct (fork_validated c bs blk s k Hc ltac:(lia) Hi Ef) as (Hk & Hpow & Hv & Hs & Eb).
    pose proof (lookup_lt_Some _ _ _ Hk).
    eapply reorg_put_runs in H as [-> ->]; [|exact Ei|lia|exact Eb].
    eexists. split; [done|]. by apply te_reorg.
Qed.

Lemma try_effect_inv c blk rr c' : chain_inv c -> try_effect c blk rr c' -> chain_inv c'.
Proof.
  intros Hc H. destruct H as [|v w _ Hf Hp Hpow Hv Hs|k pi v w _ Hf Hk Hi Hne Hw Hpow Hv Hs]; [done| |by apply chain_inv_extend].
  pose proof (ci_height c Hc). pose proof (ci_length c Hc).
  replace (accepted_chain _ _ _ _ _) with (extended_chain c (Z.to_nat (ch_height c)) blk v w false w).
  - apply chain_inv_extend; try done.
    + rewrite Hp. by apply ci_tip.
    + by replace (S (Z.to_nat (ch_height c))) with (length (ch_byHeight c)) by lia.
  - unfold extended_chain, accepted_chain. rewrite Z2Nat.id by lia. by rewrite take_ge by lia.
Qed.

(** ** Start-up *)

Lemma genesis_search_pow fuel nonce h h' : genesis_search fuel nonce h = Some h' ->
  CheckProofOfWork (HeaderHash h') (hdr_bits h') = true.
Proof.
  revert nonce. induction fuel as [|k IH]; intros nonce H; [done|]. cbn [genesis_search] in H.
  destruct (CheckProofOfWork (HeaderHash (with_nonce h nonce)) _) eqn:E; [|eapply IH, H]. injection H as <-. exact E.
Qed.

Lemma genesis_header_pow h : genesis_header params = Some h ->
  CheckProofOfWork (HeaderHash h) (hdr_bits h) = true.
Proof.
  unfold genesis_header. destruct (CheckBlockHeader _ _ _) as [[]|e] eqn:E; cbn [is_ok].
  - intros [= <-]. by eapply CheckBlockHeader_pow.
  - apply genesis_search_pow.
Qed.

Lemma ApplyGenesis_inv n n' : ch_index (nd_chain n) = ∅ ->
  runs (ApplyGenesis params) n (Ok tt) n' -> chain_inv (nd_chain n').
Proof.
  intros He H. unfold ApplyGenesis in H. destruct (genesis_header params) as [h|] eqn:Eg; [|done].
  apply genesis_header_pow in Eg.
  destruct (CheckBlock _ 0 ∅ params) as [[v f]|e] eqn:Eb; [|done].
  apply CheckBlock_supply in Eb as (Hv & _ & Hs); [|lia|apply view_ok_empty|done].
  unfold runs, put_chain, get_chain, write_block, save_state, mbind, NodeM_bind in H.
  cbv zeta in H. cbn [nd_chain nd_store] in H. injection H as <-. cbn [nd_chain]. rewrite He.
  split; cbn [ch_view ch_index ch_byHeight ch_height ch_tipHash ch_chainWork make_index idx_hash].
  - done.
  - done.
  - done.
  - done.
  - exact Hs.
  - intros hh idx. rewrite insert_empty, lookup_singleton_Some. intros [<- <-].
    split_and!; done.
  - intros [|[|]] hh Hk; try done. injection Hk as <-. eexists. split; [apply lookup_insert_eq|done].
  - by intros [|[|]] hh h'.
  - apply Forall_singleton, SHA256d_wf.
Qed.

(** States a node reaches from empty storage by processing blocks and reading
    blocks back. *)
Inductive reachable : node -> Prop :=
| reach_init s n : LoadChainState s = None ->
    runs (Init params) {| nd_chain := empty_chain; nd_store := s |} (Ok tt) n -> reachable n
| reach_block n blk rr n' : reachable n -> runs (TryAcceptBlock params blk) n (Ok rr) n' -> reachable n'
| reach_read n h b n' : reachable n -> runs (read_block h) n (Ok b) n' -> reachable n'.

Lemma reachable_inv n : reachable n -> chain_inv (nd_chain n).
Proof.
  induction 1 as [s n Hl H|n blk rr n' _ IH H|n h b n' _ IH H].
  - unfold Init, LoadFromStorage in H.
    run_step H c n1; apply runs_get in Hm as [E ->]; [injection E as ->|done].
    run_step H st n1; unfold runs, load_state in Hm; [injection Hm as <- <-|done].
    cbn [nd_store] in H. rewrite Hl in H. by eapply ApplyGenesis_inv; [|exact H].
  - apply TryAcceptBlock_runs in H as (rr' & _ & He); [|done]. by eapply try_effect_inv.
  - apply runs_read in H as (? & _ & -> & _). done.
Qed.

(** ** Definedness *)

Definition defined {A} (m : NodeM St A) (n : node) : Prop := m n <> Undef.

Lemma defined_bind {A B} (m : NodeM St A) (f : A -> NodeM St B) n :
  defined m n -> (forall a n', runs m n (Ok a) n' -> defined (f a) n') -> defined (m ≫= f) n.
Proof.
  unfold defined, runs, mbind, NodeM_bind. intros Hm Hf.
  destruct (m n) as [[[a|e] n']|]; [|done|done]. by apply Hf.
Qed.

Lemma defined_vec_at {A} (v : list A) i n : is_Some (v !! Z.to_nat i) -> defined (vec_at v i) n.
Proof. intros [a Ha]. unfold defined, vec_at. by rewrite Ha. Qed.

Lemma defined_read h n : defined (read_block h) n.
Proof. unfold defined, read_block. by destruct (ReadBlock h (nd_store n)). Qed.

(** The height at which the retarget reads outside [byHeight]. *)
Definition at_boundary (c : CChain) : Prop := (ch_height c + 1) mod difficultyInterval params = 0.

Lemma interval_start_range c : chain_inv c -> params_ok params -> ~ at_boundary c ->
  Z.quot (ch_height c + 1) (difficultyInterval params) * difficultyInterval params <= ch_height c.
Proof.
  unfold at_boundary. intros Hc (_ & Hp & _) Hb. pose proof (ci_height c Hc).
  rewrite Z.quot_div_nonneg by lia. pose proof (Z.div_mod (ch_height c + 1) (difficultyInterval params)).
  pose proof (Z.mod_pos_bound (ch_height c + 1) (difficultyInterval params)). lia.
Qed.

Lemma AcceptBlock_defined blk height n idx : params_ok params -> chain_inv (nd_chain n) ->
  ~ at_boundary (nd_chain n) ->
  ch_index (nd_chain n) !! hdr_prevBlockHash (blk_header blk) = Some idx ->
  idx_height idx = ch_height (nd_chain n) ->
  defined (AcceptBlock params blk height) n.
Proof.
  intros Hp Hc Hb Hi Hh. unfold AcceptBlock. apply defined_bind; [done|].
  intros c n1 [E ->]%runs_get. injection E as ->. unfold GetIndex. rewrite Hi.
  apply defined_bind; [apply defined_read|]. intros ob n2 (b & E & Hc2 & _)%runs_read. injection E as ->.
  destruct b as [pb|]; [|done]. apply defined_bind; [done|]. intros u n3 [_ ->]%runs_lift.
  apply defined_bind.
  - unfold interval_first_time. rewrite Hh, Z.gtb_ltb.
    destruct (Z.ltb_spec 0 (Z.quot (ch_height (nd_chain n) + 1) (difficultyInterval params) *
      difficultyInterval params)); [|done].
    apply defined_bind; [|intros h n4 _; apply defined_bind; [apply defined_read|done]].
    pose proof (interval_start_range _ Hc Hp Hb). pose proof (ci_length _ Hc).
    apply defined_vec_at, lookup_lt_is_Some. lia.
  - intros t n4 _. apply defined_bind; [done|]. intros u' n5 _.
    apply defined_bind; [done|]. by intros [v f] n6 _.
Qed.

Lemma GetBlockByHeight_defined h n : chain_inv (nd_chain n) -> defined (GetBlockByHeight h) n.
Proof.
  intros Hc. unfold GetBlockByHeight. apply defined_bind; [done|]. intros c n1 [E ->]%runs_get. injection E as ->.
  destruct (_ || _) eqn:E; [done|]. apply orb_false_iff in E as [E1%Z.ltb_ge E2%gtb_false].
  apply defined_bind; [|intros; apply defined_read]. pose proof (ci_length _ Hc).
  apply defined_vec_at, lookup_lt_is_Some. lia.
Qed.

Lemma collect_blocks_defined m : forall h n, 0 <= h -> chain_inv (nd_chain n) -> defined (collect_blocks m h) n.
Proof.
  induction m as [|m IH]; intros h n Hh Hc; [done|]. cbn [collect_blocks].
  apply defined_bind; [by apply GetBlockByHeight_defined|]. intros ob n1 H.
  apply GetBlockByHeight_runs in H as (Hc1 & _); [|done].
  destruct ob; [|done]. apply defined_bind; [|done]. apply IH; [lia|]. by rewrite Hc1.
Qed.

Lemma TryAcceptBlock_defined blk n : params_ok params -> chain_inv (nd_chain n) ->
  (hdr_prevBlockHash (blk_header blk) = ch_tipHash (nd_chain n) -> ~ at_boundary (nd_chain n)) ->
  defined (TryAcceptBlock params blk) n.
Proof.
  intros Hp Hc Hb. unfold TryAcceptBlock. apply defined_bind; [done|]. intros c n1 [E ->]%runs_get. injection E as ->.
  destruct (HaveBlock _ _); [done|]. unfold GetIndex.
  destruct (ch_index (nd_chain n) !! hdr_prevBlockHash _) as [idx|] eqn:Ei; [|done].
  rewrite eqb_spec. case_bool_decide as Ht.
  - apply defined_bind; [|done]. unfold defined, ntry.
    assert (defined (AcceptBlock params blk (idx_height idx + 1)) n) as Hd.
    { eapply AcceptBlock_defined; [done|done|by apply Hb|exact Ei|].
      destruct (ci_active _ Hc _ _ (ci_tip _ Hc)) as (idx' & Hi' & Hh). rewrite Ht, Hi' in Ei.
      injection Ei as ->. pose proof (ci_height _ Hc). lia. }
    unfold defined in Hd. by destruct (AcceptBlock _ _ _ _) as [[]|].
  - destruct (leb _ _); [done|]. apply defined_bind; [by apply collect_blocks_defined|].
    intros [bs|e] n2 _; [|done]. by destruct (res_fold _ _ _).
Qed.

End ChainFacts.

(** * Properties *)

Section ChainProperties.
Context {ossl : OpenSSL} {laws : OpenSSLLaws ossl}.
Context {St : Type} {stor : IStorage St} {slaws : StorageLaws St}.
Context (params : ChainParams).

(** C1: the supply cap: in every state a node reaches from empty storage by
    processing blocks, the value of all unspent outputs, which
    [CCoinsView::TotalValue] computes exactly, is at most the sum of the
    subsidies of the blocks of the active chain, and so at most 21 million
    coins. *)
Theorem chain_supply_cap (n : Node St) :
  reachable params n ->
  TotalValue (ch_view (nd_chain n)) = supply (ch_view (nd_chain n)) /\
  0 <= TotalValue (ch_view (nd_chain n)) <= subsidy_sum (Z.to_nat (ch_height (nd_chain n) + 1)) /\
  TotalValue (ch_view (nd_chain n)) <= MAX_MONEY.
Proof.
  intros Hr. apply reachable_inv in Hr as Hc. destruct Hc as [H0 Hl _ Hv Hs _ _ _ _].
  pose proof (supply_nonneg _ Hv). pose proof MAX_MONEY_i64.
  pose proof (subsidy_sum_max (length (ch_byHeight (nd_chain n)))).
  rewrite TotalValue_supply by u_range.
  replace (Z.to_nat (ch_height (nd_chain n) + 1)) with (length (ch_byHeight (nd_chain n))) by lia.
  split_and!; done || lia.
Qed.

(** C6: in every reachable state the active chain is a chain: [byHeight] has
    one hash per height up to the tip, its last element is the tip, each hash
    is indexed at its height and names the one below as its previous block, and
    every indexed block (active or not) meets the target of its bits. *)
Theorem chain_well_formed (n : Node St) :
  reachable params n -> let c := nd_chain n in
  Z.of_nat (length (ch_byHeight c)) = ch_height c + 1 /\
  ch_byHeight c !! Z.to_nat (ch_height c) = Some (ch_tipHash c) /\
  (forall k h, ch_byHeight c !! k = Some h ->
     exists idx, ch_index c !! h = Some idx /\ idx_height idx = Z.of_nat k) /\
  (forall k h h', ch_byHeight c !! k = Some h -> ch_byHeight c !! S k = Some h' ->
     exists idx, ch_index c !! h' = Some idx /\ idx_prevHash idx = h) /\
  (forall h idx, ch_index c !! h = Some idx ->
     idx_hash idx = h /\ CheckProofOfWork h (idx_bits idx) = true).
Proof.
  intros Hr c. apply reachable_inv in Hr as Hc. destruct Hc as [H0 Hl Ht Hv Hs Hi Ha Hk _].
  split_and!; try done. intros h idx Hh. by destruct (Hi h idx Hh) as (? & _ & ?).
Qed.

(** Processing a block never reads outside [byHeight], except when the
    block extends the tip and the next height is a multiple of the difficulty
    interval. *)
Theorem try_accept_defined (n : Node St) (blk : CBlock) :
  params_ok params -> reachable params n ->
  (hdr_prevBlockHash (blk_header blk) = ch_tipHash (nd_chain n) ->
   (ch_height (nd_chain n) + 1) mod difficultyInterval params <> 0) ->
  TryAcceptBlock params blk n <> Undef.
Proof. intros Hp Hr Hb. apply TryAcceptBlock_defined; [done|by apply reachable_inv in Hr|exact Hb]. Qed.

(** At a retarget boundary the code has undefined behaviour: when the next
    height is a positive multiple of the difficulty interval, any new block
    with a valid header on top of the tip makes [AcceptBlock] read
    [byHeight[intervalStartHeight]] one past the end of the vector. *)
Theorem accept_boundary_undefined (n : Node St)
    (blk prevBlk : CBlock) s :
  params_ok params -> reachable params n ->
  (ch_height (nd_chain n) + 1) mod difficultyInterval params = 0 ->
  hdr_prevBlockHash (blk_header blk) = ch_tipHash (nd_chain n) ->
  HaveBlock (nd_chain n) (BlockHash blk) = false ->
  ReadBlock (ch_tipHash (nd_chain n)) (nd_store n) = (Some prevBlk, s) ->
  CheckBlockHeader (blk_header blk) (Some (blk_header prevBlk)) params = Ok tt ->
  TryAcceptBlock params blk n = Undef.
Proof.
  intros (_ & Hp & _) Hr Hb Ht Hn Hrd Hh. apply reachable_inv in Hr as Hc. set (c := nd_chain n) in *.
  destruct (ci_active c Hc _ _ (ci_tip c Hc)) as (idx & Hi & Hht).
  pose proof (ci_height c Hc). pose proof (ci_length c Hc).
  assert (Z.quot (idx_height idx + 1) (difficultyInterval params) * difficultyInterval params = ch_height c + 1) as Hq.
  { rewrite Hht, Z2Nat.id, Z.quot_div_nonneg by lia.
    pose proof (Z.div_mod (ch_height c + 1) (difficultyInterval params)). lia. }
  assert (TryAcceptBlock params blk n = (r ← ntry (AcceptBlock params blk (idx_height idx + 1));
    mret (match r with Ok _ => reorg_ok (-1) [BlockHash blk] | Err e => reorg_fail e end)) n) as ->.
  { unfold TryAcceptBlock, get_chain, mbind at 1, NodeM_bind at 1. fold c. rewrite Hn. unfold GetIndex.
    rewrite Ht, Hi, eqb_spec, bool_decide_true by done. reflexivity. }
  unfold ntry, AcceptBlock, get_chain, read_block, lift_res, interval_first_time, vec_at, GetIndex.
  unfold mbind, NodeM_bind. fold c. rewrite Ht, Hi, Hrd, Hh. cbn [nd_chain nd_store]. rewrite Hq.
  rewrite Z.gtb_ltb. destruct (Z.ltb_spec 0 (ch_height c + 1)); [|lia].
  by rewrite (lookup_ge_None_2 (ch_byHeight c)) by lia.
Qed.

(** A block that is not accepted leaves the chain (view, index, active
    chain and work) as it was. *)
Theorem rejected_block_no_effect (n n' : Node St)
    (blk : CBlock) (rr : ReorgResult) :
  reachable params n -> TryAcceptBlock params blk n = Done (Ok rr, n') -> rr_ok rr = false ->
  nd_chain n' = nd_chain n.
Proof.
  intros Hr H Hf. apply TryAcceptBlock_runs in H as (rr' & [= <-] & He); [|by apply reachable_inv in Hr].
  by destruct He as [|? ? ->|? ? ? ? ->].
Qed.

(** A new block is accepted only on top of a block of the active chain:
    the active chain is then cut after the parent and extended by the block.
    (So a fork of two or more blocks is never followed, whatever its work.) *)
Theorem accepted_on_active_parent (n n' : Node St)
    (blk : CBlock) (rr : ReorgResult) :
  reachable params n -> TryAcceptBlock params blk n = Done (Ok rr, n') -> rr_ok rr = true ->
  HaveBlock (nd_chain n) (BlockHash blk) = false ->
  exists k, ch_byHeight (nd_chain n) !! k = Some (hdr_prevBlockHash (blk_header blk)) /\
    ch_byHeight (nd_chain n') = take (S k) (ch_byHeight (nd_chain n)) ++ [BlockHash blk] /\
    ch_tipHash (nd_chain n') = BlockHash blk /\ ch_height (nd_chain n') = Z.of_nat k + 1.
Proof.
  intros Hr H Hok Hn. apply reachable_inv in Hr as Hc.
  apply TryAcceptBlock_runs in H as (rr' & [= <-] & He); [|done].
  destruct He as [Hh|v w _ _ Hp _ _ _|k pi v w _ _ Hk _ _ _ _ _ _].
  - rewrite Hh in Hn by done. done.
  - pose proof (ci_height _ Hc). pose proof (ci_length _ Hc).
    exists (Z.to_nat (ch_height (nd_chain n))). rewrite Hp, (ci_tip _ Hc). split_and!; try done.
    + cbn [accepted_chain ch_byHeight]. by rewrite take_ge by lia.
    + cbn [accepted_chain ch_height]. lia.
  - by exists k.
Qed.

(** After a reorganisation the recorded chain work is stale: it is still
    the work of the abandoned tip, and smaller than the work indexed for the new
    tip. *)
Theorem reorg_leaves_stale_work (n n' : Node St)
    (blk : CBlock) (rr : ReorgResult) :
  reachable params n -> TryAcceptBlock params blk n = Done (Ok rr, n') -> rr_ok rr = true ->
  HaveBlock (nd_chain n) (BlockHash blk) = false ->
  hdr_prevBlockHash (blk_header blk) <> ch_tipHash (nd_chain n) ->
  ch_chainWork (nd_chain n') = ch_chainWork (nd_chain n) /\
  exists idx, ch_index (nd_chain n') !! ch_tipHash (nd_chain n') = Some idx /\
    leb (idx_chainWork idx) (ch_chainWork (nd_chain n')) = false.
Proof.
  intros Hr H Hok Hn Hne. apply TryAcceptBlock_runs in H as (rr' & [= <-] & He); [|by apply reachable_inv in Hr].
  destruct He as [Hh|v w _ _ Hp _ _ _|k pi v w _ _ Hk _ _ Hw _ _ _]; [|done|].
  - rewrite Hh in Hn by done. done.
  - split; [done|]. eexists. split; [apply lookup_insert_eq|exact Hw].
Qed.

End ChainProperties.

(** ** Concrete runs

    An in-memory storage, and a testnet node evaluated with the byte-sum
    digest: it applies the genesis block, accepts a first block, and then
    reorganises to a competing first block that carries more work. *)

Record MemStorage := {
  ms_blocks : gmap uint256 CBlock; ms_state : option (CCoinsView * Z * uint256 * list uint256) }.

#[export] Instance mem_storage {ossl : OpenSSL} : IStorage MemStorage := {
  WriteBlock b _ s := (true, {| ms_blocks := <[BlockHash b := b]> (ms_blocks s); ms_state := ms_state s |});
  ReadBlock h s :=
    (match ms_blocks s !! h with
     | Some b => if bool_decide (BlockHash b = h) then Some b else None
     | None => None
     end, s);
  SaveChainState v h t bh s := (true, {| ms_blocks := ms_blocks s; ms_state := Some (v, h, t, bh) |});
  LoadChainState s := ms_state s }.
#[export] Instance mem_storage_laws {ossl : OpenSSL} : StorageLaws MemStorage.
Proof.
  split. intros h s b s'. unfold ReadBlock, mem_storage.
  destruct (ms_blocks s !! h); [|done]. case_bool_decide; [|done]. by intros [= <- <-].
Qed.

(** The value and state a run ends in, when it ends normally. *)
Definition run_ok {St A} (m : NodeM St A) (n : Node St) : bool :=
  match m n with Done (r, _) => is_ok r | Undef => false end.
Definition run_value {St A} (d : A) (m : NodeM St A) (n : Node St) : A :=
  match m n with Done (r, _) => ok_or d r | Undef => d end.
Definition run_state {St A} (m : NodeM St A) (n : Node St) : Node St :=
  match m n with Done (_, n') => n' | Undef => n end.
Lemma run_ok_runs {St A} (d : A) (m : NodeM St A) n :
  run_ok m n = true -> runs m n (Ok (run_value d m n)) (run_state m n).
Proof.
  unfold run_ok, runs, run_value, run_state. destruct (m n) as [[[a|e] n']|]; done.
Qed.
Lemma run_ok_unit {St} (m : NodeM St unit) n : run_ok m n = true -> runs m n (Ok tt) (run_state m n).
Proof. intros H. apply (run_ok_runs tt) in H. by destruct (run_value tt m n). Qed.

#[local] Instance wit_ossl : OpenSSL := toy_ossl.

Definition wit_start : Node MemStorage :=
  {| nd_chain := empty_chain; nd_store := {| ms_blocks := ∅; ms_state := None |} |}.
Definition wit_node0 : Node MemStorage := run_state (Init TESTNET) wit_start.
Definition testnet_block (bits time nonce : Z) : CBlock :=
  let cb := wit_coinbase [1; 1] (50 * COIN) in
  {| blk_header := {| hdr_version := 1; hdr_prevBlockHash := BlockHash (GetGenesisBlock TESTNET);
                      hdr_merkleRoot := default zero (ComputeMerkleRoot [cb]);
                      hdr_timestamp := time; hdr_bits := bits; hdr_nonce := nonce |};
     blk_vtx := [cb] |}.
Definition wit_block1 : CBlock := testnet_block 0x1d00ffff 1717200600 0.
Definition wit_fork1 : CBlock := testnet_block 0x1c00ffff 1717200601 8.
Definition wit_node1 : Node MemStorage := run_state (TryAcceptBlock TESTNET wit_block1) wit_node0.
Definition wit_accept1 : ReorgResult := run_value (reorg_fail "") (TryAcceptBlock TESTNET wit_block1) wit_node0.
Definition wit_node2 : Node MemStorage := run_state (TryAcceptBlock TESTNET wit_fork1) wit_node1.
Definition wit_reorg : ReorgResult := run_value (reorg_fail "") (TryAcceptBlock TESTNET wit_fork1) wit_node1.
(** Testnet with a difficulty interval of one block, so that every height is
    a boundary. *)
Definition TESTNET_1 : ChainParams := {|
  name := name TESTNET; genesisHashHex := genesisHashHex TESTNET; genesisNonce := genesisNonce TESTNET;
  networkMagic := networkMagic TESTNET; defaultPort := defaultPort TESTNET; rpcPort := rpcPort TESTNET;
  addressVersion := addressVersion TESTNET; privkeyVersion := privkeyVersion TESTNET;
  bech32Hrp := bech32Hrp TESTNET; initialBlockReward := initialBlockReward TESTNET;
  halvingInterval := halvingInterval TESTNET; targetBlockTime := targetBlockTime TESTNET;
  difficultyInterval := 1; maxAdjustment := maxAdjustment TESTNET;
  coinbaseMaturity := coinbaseMaturity TESTNET; maxSupplyBase := maxSupplyBase TESTNET;
  powNoRetarget := powNoRetarget TESTNET; allowMinDifficulty := allowMinDifficulty TESTNET;
  minDifficultyBits := minDifficultyBits TESTNET; maxBlockSize := maxBlockSize TESTNET;
  defaultFeeRate := defaultFeeRate TESTNET; seedNodes := seedNodes TESTNET;
  peerRegistryUri := peerRegistryUri TESTNET |}.
Definition wit_node_1 : Node MemStorage := run_state (Init TESTNET_1) wit_start.

Lemma read_pair {ossl : OpenSSL} h (s : MemStorage) b : fst (ReadBlock h s) = Some b -> ReadBlock h s = (Some b, s).
Proof. cbn. by intros ->. Qed.

Lemma wit_init_ok : runs (Init TESTNET) wit_start (Ok tt) wit_node0.
Proof. refine (run_ok_unit _ _ _). vm_compute. reflexivity. Qed.
Lemma wit_block1_ok : runs (TryAcceptBlock TESTNET wit_block1) wit_node0 (Ok wit_accept1) wit_node1.
Proof. refine (run_ok_runs _ _ _ _). vm_compute. reflexivity. Qed.
Lemma wit_fork1_ok : runs (TryAcceptBlock TESTNET wit_fork1) wit_node1 (Ok wit_reorg) wit_node2.
Proof. refine (run_ok_runs _ _ _ _). vm_compute. reflexivity. Qed.

Lemma wit_node0_reachable : reachable TESTNET wit_node0.
Proof. eapply reach_init; [|exact wit_init_ok]. reflexivity. Qed.
Lemma wit_node1_reachable : reachable TESTNET wit_node1.
Proof. eapply reach_block; [exact wit_node0_reachable|exact wit_block1_ok]. Qed.
Lemma wit_node2_reachable : reachable TESTNET wit_node2.
Proof. eapply reach_block; [exact wit_node1_reachable|exact wit_fork1_ok]. Qed.
Lemma wit_node_1_reachable : reachable TESTNET_1 wit_node_1.
Proof.
  eapply (reach_init _ (nd_store wit_start)); [reflexivity|].
  refine (run_ok_unit _ _ _). vm_compute. reflexivity.
Qed.

Lemma chain_supply_cap_witness :
  TotalValue (ch_view (nd_chain wit_node2)) = supply (ch_view (nd_chain wit_node2)) /\
  0 <= TotalValue (ch_view (nd_chain wit_node2)) <= subsidy_sum (Z.to_nat (ch_height (nd_chain wit_node2) + 1)) /\
  TotalValue (ch_view (nd_chain wit_node2)) <= MAX_MONEY.
Proof. exact (chain_supply_cap TESTNET wit_node2 wit_node2_reachable). Defined.

Lemma chain_well_formed_witness :
  Z.of_nat (length (ch_byHeight (nd_chain wit_node1))) = ch_height (nd_chain wit_node1) + 1.
Proof. exact (proj1 (chain_well_formed TESTNET wit_node1 wit_node1_reachable)). Defined.

Lemma try_accept_defined_witness : TryAcceptBlock TESTNET wit_fork1 wit_node1 <> Undef.
Proof.
  refine (try_accept_defined TESTNET wit_node1 wit_fork1 (GetParams_ok "testnet") wit_node1_reachable _).
  intros _. vm_compute. congruence.
Defined.

Lemma accept_boundary_undefined_witness : TryAcceptBlock TESTNET_1 wit_block1 wit_node_1 = Undef.
Proof.
  refine (accept_boundary_undefined TESTNET_1 wit_node_1 wit_block1 (GetGenesisBlock TESTNET)
    (nd_store wit_node_1) _ wit_node_1_reachable _ _ _ _ _).
  - repeat split; vm_compute; first [reflexivity | congruence].
  - vm_compute. reflexivity.
  - vm_compute. reflexivity.
  - vm_compute. reflexivity.
  - apply read_pair. vm_compute. reflexivity.
  - vm_compute. reflexivity.
Defined.

Lemma rejected_block_no_effect_witness :
  nd_chain (run_state (TryAcceptBlock TESTNET (testnet_block 0x1d00ffff 1717200600 1)) wit_node1) =
  nd_chain wit_node1.
Proof.
  refine (rejected_block_no_effect TESTNET wit_node1 _ (testnet_block 0x1d00ffff 1717200600 1)
    (run_value (reorg_ok 0 []) (TryAcceptBlock TESTNET (testnet_block 0x1d00ffff 1717200600 1)) wit_node1)
    wit_node1_reachable _ _).
  - refine (run_ok_runs _ _ _ _). vm_compute. reflexivity.
  - vm_compute. reflexivity.
Defined.

Lemma accepted_on_active_parent_witness :
  exists k, ch_byHeight (nd_chain wit_node1) !! k = Some (hdr_prevBlockHash (blk_header wit_fork1)) /\
    ch_byHeight (nd_chain wit_node2) = take (S k) (ch_byHeight (nd_chain wit_node1)) ++ [BlockHash wit_fork1] /\
    ch_tipHash (nd_chain wit_node2) = BlockHash wit_fork1 /\ ch_height (nd_chain wit_node2) = Z.of_nat k + 1.
Proof.
  refine (accepted_on_active_parent TESTNET wit_node1 wit_node2 wit_fork1 wit_reorg
    wit_node1_reachable wit_fork1_ok _ _); vm_compute; reflexivity.
Defined.

Lemma reorg_leaves_stale_work_witness :
  ch_chainWork (nd_chain wit_node2) = ch_chainWork (nd_chain wit_node1).
Proof.
  refine (proj1 (reorg_leaves_stale_work TESTNET wit_node1 wit_node2 wit_fork1 wit_reorg
    wit_node1_reachable wit_fork1_ok _ _ _)); [vm_compute; reflexivity..|].
  vm_compute. congruence.
Defined.
