(* ===== verification/Storage.v ===== *)
(** [storage/blocks.cpp]: [CBlockStorage], the file-based implementation of the
    storage interface of [Chain].  The files of the data directory are a finite
    map from names to contents; [cs_writable] says which of them can be opened
    for writing.  A [std::map] is a [gmap] whose loops run over its entries in
    key order. *)
From Stdlib Require Import Ascii.
From stdpp Require Import sorting.
From S2P Require Import Prelude Config UInt256 Compact Consensus Crypto Transaction Script Utxo Block Validation Chain.
Import uint256.

(** * Definitions *)

(** The files of the data directory: [blocks/blk%05d.dat] for a file number,
    [blocks/index.dat], [chainstate.dat] and [peers.dat]. *)
Inductive path := BlockFilePath (fileNum : Z) | IndexPath | ChainStatePath | PeersPath.
#[export] Instance path_eq_dec : EqDecision path.
Proof. solve_decision. Defined.
#[export] Instance path_countable : Countable path.
Proof.
  refine (inj_countable'
    (fun p => match p with BlockFilePath n => inl n | IndexPath => inr 0 | ChainStatePath => inr 1 | PeersPath => inr 2 end)
    (fun c : Z + Z => match c with
       | inl n => BlockFilePath n
       | inr n => if n =? 0 then IndexPath else if n =? 1 then ChainStatePath else PeersPath
       end) _).
  by intros [].
Defined.

(** [std::tuple<int64_t, int, int64_t, int64_t>] of the index. *)
Record IndexEntry := { e_height : Z; e_file : Z; e_offset : Z; e_size : Z }.
#[export] Instance IndexEntry_eq_dec : EqDecision IndexEntry.
Proof. solve_decision. Defined.

Record CBlockStorage := {
  cs_files : gmap path bytes; cs_writable : path -> bool;
  cs_index : gmap uint256 IndexEntry; cs_loaded : bool }.
Definition with_files (s : CBlockStorage) (f : gmap path bytes) : CBlockStorage :=
  {| cs_files := f; cs_writable := cs_writable s; cs_index := cs_index s; cs_loaded := cs_loaded s |}.
Definition with_index (s : CBlockStorage) (i : gmap uint256 IndexEntry) (loaded : bool) : CBlockStorage :=
  {| cs_files := cs_files s; cs_writable := cs_writable s; cs_index := i; cs_loaded := loaded |}.
(** The constructor, on existing files. *)
Definition open_storage (files : gmap path bytes) (writable : path -> bool) : CBlockStorage :=
  {| cs_files := files; cs_writable := writable; cs_index := ∅; cs_loaded := false |}.

(** ** Streams *)

(** An [std::ifstream]: the bytes not yet read and [good()]. *)
Record istream := { is_rest : bytes; is_good : bool }.
(** [in.read(buf, n)]: a short read fills what there is and clears [good()];
    a stream that is not good leaves the buffer alone. *)
Definition stream_read (n : nat) (buf : bytes) (s : istream) : bytes * istream :=
  if is_good s then
    if (n <=? length (is_rest s))%nat
    then (take n (is_rest s) ++ drop n buf, {| is_rest := drop n (is_rest s); is_good := true |})
    else (is_rest s ++ drop (length (is_rest s)) buf, {| is_rest := []; is_good := false |})
  else (buf, s).
(** [std::ofstream out(path, trunc)] followed by writes and [close]. *)
Definition write_file (s : CBlockStorage) (p : path) (content : bytes) : CBlockStorage :=
  if cs_writable s p then with_files s (<[p := content]> (cs_files s)) else s.

(** ** Index *)

Definition index_order (a b : uint256 * IndexEntry) : Prop := leb a.1 b.1 = true.
#[export] Instance index_order_dec a b : Decision (index_order a b).
Proof. unfold index_order. apply _. Defined.
Definition entry_bytes (kv : uint256 * IndexEntry) : bytes :=
  getBytesLE kv.1 ++ le_bytes 8 (u64 (e_height kv.2)) ++ le_bytes 4 (u32 (e_file kv.2)) ++
  le_bytes 8 (u64 (e_offset kv.2)) ++ le_bytes 8 (u64 (e_size kv.2)).
Definition index_bytes (index : gmap uint256 IndexEntry) : bytes :=
  le_bytes 8 (Z.of_nat (size index)) ++ flat_map entry_bytes (merge_sort index_order (map_to_list index)).
Definition SaveIndex (s : CBlockStorage) : CBlockStorage := write_file s IndexPath (index_bytes (cs_index s)).

(** The loop of [LoadIndex]; [buf] stands for the contents of the buffers
    before they are filled. *)
Fixpoint load_entries (buf : bytes) (n : nat) (st : istream) (index : gmap uint256 IndexEntry) : gmap uint256 IndexEntry :=
  match n with
  | O => index
  | S k =>
      let '(hashBytes, st) := stream_read 32 buf st in
      let '(meta, st) := stream_read 8 buf st in
      let height := i64 (le_read (take 8 meta)) in
      let '(meta, st) := stream_read 4 meta st in
      let fileNum := i32 (le_read (take 4 meta)) in
      let '(meta, st) := stream_read 8 meta st in
      let offset := i64 (le_read (take 8 meta)) in
      let '(meta, st) := stream_read 8 meta st in
      let sz := i64 (le_read (take 8 meta)) in
      if negb (is_good st) then index
      else load_entries buf k st
             (<[setBytesLE (take 32 hashBytes) := {| e_height := height; e_file := fileNum; e_offset := offset; e_size := sz |}]> index)
  end.
Definition load_index_file (buf content : bytes) (index : gmap uint256 IndexEntry) : gmap uint256 IndexEntry :=
  let '(hdr, st) := stream_read 8 buf {| is_rest := content; is_good := true |} in
  let n := le_read (take 8 hdr) in
  if n >? 100000000 then index else load_entries buf (Z.to_nat n) st index.

Section WithBuffers.
(** The bytes found in a local buffer before anything is read into it. *)
Context (uninit : bytes).

Definition LoadIndex (s : CBlockStorage) : CBlockStorage :=
  if cs_loaded s then s
  else match cs_files s !! IndexPath with
       | None => with_index s (cs_index s) true
       | Some content => with_index s (load_index_file uninit content (cs_index s)) true
       end.

(** ** Blocks *)

Definition MAX_FILE : Z := 128 * 1024 * 1024.
Definition file_size (s : CBlockStorage) (p : path) : Z :=
  match cs_files s !! p with Some c => Z.of_nat (length c) | None => 0 end.
Definition max_file (index : gmap uint256 IndexEntry) : Z :=
  map_fold (fun _ e f => if e_file e >? f then e_file e else f) 0 index.
(** The file number, or -1 when the file cannot be opened. *)
Definition AppendToFile (data : bytes) (s : CBlockStorage) : Z * CBlockStorage :=
  let fileNum := max_file (cs_index s) in
  let sz := file_size s (BlockFilePath fileNum) in
  let fileNum := if (sz >? 0) && (sz + Z.of_nat (length data) >? MAX_FILE) then fileNum + 1 else fileNum in
  let p := BlockFilePath fileNum in
  if negb (cs_writable s p) then (-1, s)
  else (fileNum, with_files s (<[p := default [] (cs_files s !! p) ++ data]> (cs_files s))).

Context {ossl : OpenSSL}.

Definition WriteBlock_file (blk : CBlock) (height : Z) (s : CBlockStorage) : bool * CBlockStorage :=
  let ser := SerializeBlock blk in
  let hash := BlockHash blk in
  let '(fileNum, s) := AppendToFile ser s in
  if fileNum <? 0 then (false, s)
  else
    let sz := Z.of_nat (length ser) in
    let offset := file_size s (BlockFilePath fileNum) - sz in
    let e := {| e_height := height; e_file := fileNum; e_offset := offset; e_size := sz |} in
    (true, SaveIndex (with_index s (<[hash := e]> (cs_index s)) (cs_loaded s))).

(** [out.resize((size_t)size)] throws for a negative size. *)
Definition ReadFromFile (fileNum offset sz : Z) (s : CBlockStorage) : outcome (option bytes) :=
  match cs_files s !! BlockFilePath fileNum with
  | None => Done None
  | Some content =>
      if sz <? 0 then Undef
      else
        let st := if offset <? 0 then {| is_rest := content; is_good := false |}
                  else {| is_rest := drop (Z.to_nat offset) content; is_good := true |} in
        let '(out, st) := stream_read (Z.to_nat sz) (repeat 0 (Z.to_nat sz)) st in
        if is_good st then Done (Some out) else Done None
  end.
Definition ReadBlock_file (hash : uint256) (s : CBlockStorage) : outcome (option CBlock * CBlockStorage) :=
  let s := LoadIndex s in
  match cs_index s !! hash with
  | None => Done (None, s)
  | Some e =>
      r ← ReadFromFile (e_file e) (e_offset e) (e_size e) s;
      match r with
      | None => Done (None, s)
      | Some data =>
          match DeserializeBlock data with
          | None => Done (None, s)
          | Some blk => if negb (bool_decide (BlockHash blk = hash)) then Done (None, s) else Done (Some blk, s)
          end
      end
  end.
Definition HasBlock (hash : uint256) (s : CBlockStorage) : bool * CBlockStorage :=
  let s := LoadIndex s in (bool_decide (is_Some (cs_index s !! hash)), s).
Definition BlockCount (s : CBlockStorage) : Z * CBlockStorage :=
  let s := LoadIndex s in (Z.of_nat (size (cs_index s)), s).

End WithBuffers.

(** ** Chain state *)

Definition MAGIC : bytes := [0x43; 0x44; 0x58; 0x53]. (* "CDXS" *)
Definition utxo_order (a b : COutPoint * CUTXO) : Prop := outpoint_ltb b.1 a.1 = false.
#[export] Instance utxo_order_dec a b : Decision (utxo_order a b).
Proof. unfold utxo_order. apply _. Defined.
Definition coin_bytes (kv : COutPoint * CUTXO) : bytes :=
  getBytesLE (op_hash kv.1) ++ le_bytes 4 (op_n kv.1) ++ le_bytes 8 (u64 (coin_value kv.2)) ++
  le_bytes 8 (u64 (coin_height kv.2)) ++ [if coin_isCoinbase kv.2 then 1 else 0] ++
  le_bytes 8 (Z.of_nat (length (coin_scriptPubKey kv.2))) ++ coin_scriptPubKey kv.2.
Definition chainstate_bytes (view : CCoinsView) (height : Z) (tipHash : uint256) (byHeight : list uint256) : bytes :=
  MAGIC ++ le_bytes 8 (u64 height) ++ getBytesLE tipHash ++ le_bytes 8 (Z.of_nat (length byHeight)) ++
  flat_map getBytesLE byHeight ++ le_bytes 8 (Z.of_nat (size view)) ++
  flat_map coin_bytes (merge_sort utxo_order (map_to_list view)).
Definition SaveChainState_file (view : CCoinsView) (height : Z) (tipHash : uint256) (byHeight : list uint256)
    (s : CBlockStorage) : bool * CBlockStorage :=
  (cs_writable s ChainStatePath, write_file s ChainStatePath (chainstate_bytes view height tipHash byHeight)).

(** [tip] is the buffer the hashes are read into. *)
Fixpoint load_heights (n : nat) (tip : bytes) (st : istream) : list uint256 * istream :=
  match n with
  | O => ([], st)
  | S k => let '(tip, st) := stream_read 32 tip st in
           let '(l, st) := load_heights k tip st in (setBytesLE tip :: l, st)
  end.
(** [None] is [return false]. *)
Fixpoint load_coins (uninit : bytes) (n : nat) (meta : bytes) (st : istream) (view : CCoinsView) : option CCoinsView :=
  match n with
  | O => Some view
  | S k =>
      let '(hashBytes, st) := stream_read 32 (take 32 uninit) st in
      let '(meta, st) := stream_read 4 meta st in
      let out := {| op_hash := setBytesLE hashBytes; op_n := le_read (take 4 meta) |} in
      let '(meta, st) := stream_read 8 meta st in
      let value := i64 (le_read meta) in
      let '(meta, st) := stream_read 8 meta st in
      let utxoHeight := i64 (le_read meta) in
      let '(flags, st) := stream_read 1 (take 1 uninit) st in
      let '(meta, st) := stream_read 8 meta st in
      let scriptLen := le_read meta in
      if scriptLen >? 100000 then None
      else
        let '(script, st) := stream_read (Z.to_nat scriptLen) (repeat 0 (Z.to_nat scriptLen)) st in
        load_coins uninit k meta st
          (<[out := {| coin_value := value; coin_scriptPubKey := script; coin_height := utxoHeight;
                       coin_isCoinbase := negb (nth 0 flags 0 =? 0) |}]> view)
  end.
Definition parse_chainstate (uninit content : bytes) : option (CCoinsView * Z * uint256 * list uint256) :=
  let '(magic, st) := stream_read 4 (take 4 uninit) {| is_rest := content; is_good := true |} in
  if negb (bool_decide (magic = MAGIC)) then None
  else
    let '(meta, st) := stream_read 8 (take 8 uninit) st in
    let height := i64 (le_read meta) in
    let '(tip, st) := stream_read 32 (take 32 uninit) st in
    let tipHash := setBytesLE tip in
    let '(meta, st) := stream_read 8 meta st in
    let nHeight := le_read meta in
    if nHeight >? 100000000 then None
    else
      let '(byHeight, st) := load_heights (Z.to_nat nHeight) tip st in
      let '(meta, st) := stream_read 8 meta st in
      let nUtxo := le_read meta in
      if nUtxo >? 1000000000 then None
      else
        view ← load_coins uninit (Z.to_nat nUtxo) meta st ∅;
        Some (view, height, tipHash, byHeight).
Definition LoadChainState_file (uninit : bytes) (s : CBlockStorage) : option (CCoinsView * Z * uint256 * list uint256) :=
  match cs_files s !! ChainStatePath with
  | None => None
  | Some content => parse_chainstate uninit content
  end.

(** ** Peers *)

Definition peers_bytes (addresses : list bytes) : bytes :=
  le_bytes 8 (Z.of_nat (length addresses)) ++
  flat_map (fun a => le_bytes 8 (Z.of_nat (length a)) ++ a) addresses.
Definition SavePeers (addresses : list bytes) (s : CBlockStorage) : bool * CBlockStorage :=
  (cs_writable s PeersPath, write_file s PeersPath (peers_bytes addresses)).
Fixpoint load_peers (n : nat) (meta : bytes) (st : istream) : list bytes :=
  match n with
  | O => []
  | S k =>
      let '(meta, st) := stream_read 8 meta st in
      let len := le_read meta in
      if len >? 512 then []
      else
        let '(a, st) := stream_read (Z.to_nat len) (repeat 0 (Z.to_nat len)) st in
        if is_good st then a :: load_peers k meta st else load_peers k meta st
  end.
Definition LoadPeers (uninit : bytes) (s : CBlockStorage) : list bytes :=
  match cs_files s !! PeersPath with
  | None => []
  | Some content =>
      let '(meta, st) := stream_read 8 (take 8 uninit) {| is_rest := content; is_good := true |} in
      let n := le_read meta in
      if n >? 1000000 then [] else load_peers (Z.to_nat n) meta st
  end.

(** ** The interface *)

(** [ReadBlock] throws only for an index with a negative size, which the
    storage never writes ([read_block_defined]); the interface has no
    exceptions and gives no block there. *)
Definition file_storage {ossl : OpenSSL} (uninit : bytes) : IStorage CBlockStorage := {|
  WriteBlock := WriteBlock_file;
  ReadBlock h s := match ReadBlock_file uninit h s with Done r => r | Undef => (None, s) end;
  SaveChainState := SaveChainState_file;
  LoadChainState := LoadChainState_file uninit |}.

(** * Lemmas *)

(** ** Streams and maps *)

Abbreviation stream bs := {| is_rest := bs; is_good := true |}.

Lemma stream_read_exact n buf bs rest : length bs = n ->
  stream_read n buf (stream (bs ++ rest)) = (bs ++ drop n buf, stream rest).
Proof.
  intros Hl. unfold stream_read. cbn [is_good is_rest]. rewrite length_app.
  destruct (Nat.leb_spec n (length bs + length rest)); [|lia].
  by rewrite take_app_length', drop_app_length' by done.
Qed.

(** A read into a buffer of exactly that size. *)
Lemma stream_read_fill n buf bs rest : length bs = n -> (length buf <= n)%nat ->
  stream_read n buf (stream (bs ++ rest)) = (bs, stream rest).
Proof. intros H1 H2. rewrite stream_read_exact, drop_ge, app_nil_r by done. done. Qed.

Section Maps.
Context {K A : Type} `{Countable K}.

Definition insert_all (l : list (K * A)) (m : gmap K A) : gmap K A :=
  foldl (fun m kv => <[kv.1 := kv.2]> m) m l.

Lemma insert_all_union l : forall m, NoDup l.*1 -> insert_all l m = list_to_map l ∪ m.
Proof.
  induction l as [|[k a] l IH]; intros m Hnd.
  { cbn [insert_all foldl]. by rewrite list_to_map_nil, (left_id_L ∅ (∪)). }
  cbn [fmap list_fmap fst] in Hnd. apply NoDup_cons in Hnd as [Hk Hnd].
  change (insert_all l (<[k := a]> m) = list_to_map ((k, a) :: l) ∪ m). rewrite IH by done.
  rewrite list_to_map_cons, <- insert_union_r, <- insert_union_l; [done|].
  by apply not_elem_of_list_to_map_1.
Qed.

(** Reading back the entries of a map, in whatever order. *)
Lemma insert_all_sorted (R : relation (K * A)) `{forall x y, Decision (R x y)} (m : gmap K A) :
  insert_all (merge_sort R (map_to_list m)) ∅ = m.
Proof.
  assert (merge_sort R (map_to_list m) ≡ₚ map_to_list m) as Hp by apply merge_sort_Permutation.
  assert (NoDup (merge_sort R (map_to_list m)).*1) as Hnd.
  { rewrite Hp. apply NoDup_fst_map_to_list. }
  rewrite insert_all_union, (right_id_L ∅ (∪)) by done.
  rewrite (list_to_map_proper _ (map_to_list m)) by done. apply list_to_map_to_list.
Qed.

Lemma length_sorted_entries (R : relation (K * A)) `{forall x y, Decision (R x y)} (m : gmap K A) :
  length (merge_sort R (map_to_list m)) = size m.
Proof. rewrite merge_sort_Permutation. apply length_map_to_list. Qed.

Lemma elem_of_sorted_entries (R : relation (K * A)) `{forall x y, Decision (R x y)} (m : gmap K A) k a :
  (k, a) ∈ merge_sort R (map_to_list m) <-> m !! k = Some a.
Proof. rewrite merge_sort_Permutation. apply elem_of_map_to_list. Qed.

End Maps.

(** ** The index file *)

Definition entry_wf (h : uint256) (e : IndexEntry) : Prop :=
  wf h /\ is_i64 (e_height e) /\ is_i32 (e_file e) /\ is_i64 (e_offset e) /\ is_i64 (e_size e).

Lemma read_i64 v rest buf : is_i64 v ->
  i64 (le_read (take 8 (le_bytes 8 (u64 v) ++ drop 8 buf))) = v /\
  stream_read 8 buf (stream (le_bytes 8 (u64 v) ++ rest)) = (le_bytes 8 (u64 v) ++ drop 8 buf, stream rest).
Proof.
  intros Hv. split; [|apply stream_read_exact, length_le_bytes].
  rewrite take_app_length' by (by rewrite length_le_bytes). by rewrite le_bytes_read_u64, i64_u64 by (done || apply u64_range).
Qed.

Lemma load_entries_cons buf n h e rest index : entry_wf h e ->
  load_entries buf (S n) (stream (entry_bytes (h, e) ++ rest)) index =
  load_entries buf n (stream rest) (<[h := e]> index).
Proof.
  intros (Hh & H1 & H2 & H3 & H4). cbn [load_entries]. unfold entry_bytes. cbn [fst snd].
  rewrite <- !app_assoc, stream_read_exact by apply length_getBytesLE.
  rewrite (proj2 (read_i64 _ _ _ H1)), (proj1 (read_i64 _ [] _ H1)).
  rewrite stream_read_exact by apply length_le_bytes.
  rewrite (proj2 (read_i64 _ _ _ H3)), (proj1 (read_i64 _ [] _ H3)).
  rewrite (proj2 (read_i64 _ _ _ H4)), (proj1 (read_i64 _ [] _ H4)). cbn [is_good negb].
  rewrite !take_app_length' by (by rewrite ?length_getBytesLE, ?length_le_bytes).
  rewrite setBytesLE_getBytesLE by done. rewrite le_bytes_read_u32 by apply u32_range. rewrite i32_u32 by done.
  by destruct e.
Qed.

Lemma load_entries_all buf l : forall rest index, Forall (fun kv => entry_wf kv.1 kv.2) l ->
  load_entries buf (length l) (stream (flat_map entry_bytes l ++ rest)) index = insert_all l index.
Proof.
  induction l as [|[h e] l IH]; intros rest index Hl; [done|]. apply Forall_cons in Hl as [He Hl].
  cbn [length flat_map]. rewrite <- app_assoc, load_entries_cons by done. by apply IH.
Qed.

(** An index survives [SaveIndex] and [LoadIndex]. *)
Lemma load_index_bytes buf index : map_Forall entry_wf index -> Z.of_nat (size index) <= 100000000 ->
  load_index_file buf (index_bytes index) ∅ = index.
Proof.
  intros Hwf Hn. unfold load_index_file, index_bytes. rewrite stream_read_exact by apply length_le_bytes.
  rewrite take_app_length' by (by rewrite length_le_bytes). rewrite le_bytes_read_u64 by u_range.
  rewrite Z.gtb_ltb. destruct (Z.ltb_spec 100000000 (Z.of_nat (size index))); [lia|].
  rewrite Nat2Z.id, <- (length_sorted_entries index_order), <- (app_nil_r (flat_map _ _)), load_entries_all.
  - apply insert_all_sorted.
  - apply Forall_forall. intros [h e] Hin%elem_of_sorted_entries. by apply Hwf.
Qed.

(** ** The chain-state file *)

(** What fits the file format: every field in range; loading admits no script
    above 100000 bytes. *)
Definition coin_fields (o : COutPoint) (c : CUTXO) : Prop :=
  wf (op_hash o) /\ is_u32 (op_n o) /\ is_i64 (coin_value c) /\ is_i64 (coin_height c) /\
  Z.of_nat (length (coin_scriptPubKey c)) < 2 ^ 64.
Definition oversized (c : CUTXO) : Prop := 100000 < Z.of_nat (length (coin_scriptPubKey c)).

Lemma length_take_le {A} n (l : list A) : (length (take n l) <= n)%nat.
Proof. rewrite length_take. lia. Qed.

(** One round of the loop of [LoadChainState]. *)
Lemma load_coins_cons uninit n meta o c rest view : coin_fields o c -> (length meta <= 8)%nat ->
  exists meta', (length meta' <= 8)%nat /\
    load_coins uninit (S n) meta (stream (coin_bytes (o, c) ++ rest)) view =
    if Z.of_nat (length (coin_scriptPubKey c)) >? 100000 then None
    else load_coins uninit n meta' (stream rest) (<[o := c]> view).
Proof.
  intros (Hh & Hn & Hv & Hht & Hs) Hm. exists (le_bytes 8 (Z.of_nat (length (coin_scriptPubKey c)))).
  split; [by rewrite length_le_bytes|]. cbn [load_coins]. unfold coin_bytes. cbn [fst snd].
  rewrite <- !app_assoc.
  rewrite stream_read_fill by (apply length_getBytesLE || apply length_take_le).
  rewrite stream_read_exact by apply length_le_bytes.
  rewrite (take_app_length' (le_bytes 4 _)) by (by rewrite length_le_bytes).
  rewrite stream_read_fill by (rewrite ?length_app, ?length_drop, ?length_le_bytes; lia).
  rewrite stream_read_fill by (rewrite ?length_le_bytes; lia).
  rewrite stream_read_fill by (done || apply length_take_le).
  rewrite stream_read_fill by (rewrite ?length_le_bytes; lia).
  rewrite !le_bytes_read_u64, le_bytes_read_u32, !i64_u64 by (done || apply u64_range || u_range).
  destruct (Z.of_nat (length (coin_scriptPubKey c)) >? 100000); [done|].
  rewrite Nat2Z.id, stream_read_fill by (rewrite ?repeat_length; lia).
  rewrite setBytesLE_getBytesLE by done. do 2 f_equal.
  - by destruct o.
  - destruct c as [v s h []]; reflexivity.
Qed.

Lemma load_coins_all uninit l : forall meta rest view, (length meta <= 8)%nat ->
  Forall (fun kv => coin_fields kv.1 kv.2) l ->
  (Forall (fun kv => ~ oversized kv.2) l ->
   load_coins uninit (length l) meta (stream (flat_map coin_bytes l ++ rest)) view = Some (insert_all l view)) /\
  (Exists (fun kv => oversized kv.2) l ->
   load_coins uninit (length l) meta (stream (flat_map coin_bytes l ++ rest)) view = None).
Proof.
  induction l as [|[o c] l IH]; intros meta rest view Hm Hl; [split; [done|by intros []%Exists_nil]|].
  apply Forall_cons in Hl as [Hc Hl]. cbn [length flat_map]. rewrite <- app_assoc.
  destruct (load_coins_cons uninit (length l) meta o c (flat_map coin_bytes l ++ rest) view Hc Hm) as (meta' & Hm' & ->).
  destruct (IH meta' rest (<[o := c]> view) Hm' Hl) as [IH1 IH2]. rewrite Z.gtb_ltb.
  destruct (Z.ltb_spec 100000 (Z.of_nat (length (coin_scriptPubKey c)))) as [Ho|Ho]; (split; [intros Hs|intros Hs]).
  - apply Forall_cons in Hs as [Hs _]. by destruct Hs.
  - done.
  - apply Forall_cons in Hs as [_ Hs]. by apply IH1.
  - apply IH2. apply Exists_cons in Hs as [Hs|Hs]; [|done]. unfold oversized in Hs. cbn in Hs. lia.
Qed.

Lemma load_heights_all l : forall tip rest, (length tip <= 32)%nat -> Forall wf l ->
  load_heights (length l) tip (stream (flat_map getBytesLE l ++ rest)) = (l, stream rest).
Proof.
  induction l as [|h l IH]; intros tip rest Ht Hl; [done|]. apply Forall_cons in Hl as [Hh Hl].
  cbn [length flat_map load_heights]. rewrite <- app_assoc, stream_read_fill by (done || apply length_getBytesLE).
  rewrite IH by (done || by rewrite length_getBytesLE). by rewrite setBytesLE_getBytesLE.
Qed.

(** The limits of the format on a whole chain state. *)
Definition storable_state (view : CCoinsView) (height : Z) (tip : uint256) (byHeight : list uint256) : Prop :=
  map_Forall coin_fields view /\ Z.of_nat (size view) <= 1000000000 /\ is_i64 height /\ wf tip /\
  Forall wf byHeight /\ Z.of_nat (length byHeight) <= 100000000.

(** The header of the file, up to the counts. *)
Lemma parse_chainstate_header uninit height tip n rest : is_i64 height -> wf tip -> 0 <= n <= 100000000 ->
  parse_chainstate uninit (MAGIC ++ le_bytes 8 (u64 height) ++ getBytesLE tip ++ le_bytes 8 n ++ rest) =
  let '(byHeight, st) := load_heights (Z.to_nat n) (getBytesLE tip) (stream rest) in
  let '(meta, st) := stream_read 8 (le_bytes 8 n) st in
  if le_read meta >? 1000000000 then None
  else view ← load_coins uninit (Z.to_nat (le_read meta)) meta st ∅; Some (view, height, tip, byHeight).
Proof.
  intros Hh Ht Hn. unfold parse_chainstate.
  rewrite stream_read_fill by (done || apply length_take_le). rewrite bool_decide_true by done. cbn [negb].
  rewrite stream_read_fill by (apply length_le_bytes || apply length_take_le).
  rewrite stream_read_fill by (apply length_getBytesLE || apply length_take_le).
  rewrite stream_read_fill by (apply length_le_bytes || (rewrite length_le_bytes; lia)).
  rewrite (le_bytes_read_u64 n) by u_range. rewrite Z.gtb_ltb. destruct (Z.ltb_spec 100000000 n); [lia|].
  rewrite le_bytes_read_u64 by apply u64_range. rewrite i64_u64, setBytesLE_getBytesLE by done. done.
Qed.

(** Reading a saved state back: exactly that state, or nothing when some
    script is too long. *)
Lemma chainstate_parse uninit view height tip byHeight : storable_state view height tip byHeight ->
  (map_Forall (fun _ c => ~ oversized c) view ->
   parse_chainstate uninit (chainstate_bytes view height tip byHeight) = Some (view, height, tip, byHeight)) /\
  ((exists o c, view !! o = Some c /\ oversized c) ->
   parse_chainstate uninit (chainstate_bytes view height tip byHeight) = None).
Proof.
  intros (Hc & Hs & Hh & Ht & Hb & Hl). unfold chainstate_bytes. rewrite parse_chainstate_header by (done || lia).
  rewrite Nat2Z.id, load_heights_all by (done || by rewrite length_getBytesLE).
  rewrite stream_read_fill by (apply length_le_bytes || (rewrite length_le_bytes; lia)).
  rewrite le_bytes_read_u64 by u_range. rewrite Z.gtb_ltb.
  destruct (Z.ltb_spec 1000000000 (Z.of_nat (size view))); [lia|].
  rewrite Nat2Z.id. set (l := merge_sort utxo_order (map_to_list view)).
  assert (size view = length l) as -> by (symmetry; apply length_sorted_entries).
  rewrite <- (app_nil_r (flat_map coin_bytes l)).
  destruct (load_coins_all uninit l (le_bytes 8 (Z.of_nat (length l))) [] ∅) as [H1 H2].
  - by rewrite length_le_bytes.
  - apply Forall_forall. intros [o c] Hin%elem_of_sorted_entries. by apply Hc.
  - split.
    + intros Hsm. rewrite H1; [unfold l; by rewrite insert_all_sorted|].
      apply Forall_forall. intros [o c] Hin%elem_of_sorted_entries. by apply (Hsm o c).
    + intros (o & c & Ho & Hbig). rewrite H2; [done|]. apply Exists_exists. exists (o, c).
      split; [by apply elem_of_sorted_entries|done].
Qed.

(** ** Peers *)

Lemma load_peers_all l : forall meta rest, (length meta <= 8)%nat -> Forall (fun a => Z.of_nat (length a) <= 512) l ->
  load_peers (length l) meta (stream (flat_map (fun a => le_bytes 8 (Z.of_nat (length a)) ++ a) l ++ rest)) = l.
Proof.
  induction l as [|a l IH]; intros meta rest Hm Hl; [done|]. apply Forall_cons in Hl as [Ha Hl].
  cbn [length flat_map load_peers]. rewrite <- !app_assoc.
  rewrite stream_read_fill by (done || apply length_le_bytes).
  rewrite le_bytes_read_u64 by u_range. rewrite Z.gtb_ltb. destruct (Z.ltb_spec 512 (Z.of_nat (length a))); [lia|].
  rewrite Nat2Z.id, stream_read_fill by (rewrite ?repeat_length; lia). cbn [is_good]. f_equal.
  apply IH; [by rewrite length_le_bytes|done].
Qed.

(** ** Blocks *)

Section Blocks.
Context {ossl : OpenSSL} {laws : OpenSSLLaws ossl}.

(** The abstract storage: which block is stored under a hash. *)
Definition stored (uninit : bytes) (s : CBlockStorage) (h : uint256) : option CBlock :=
  match ReadBlock_file uninit h s with Done (r, _) => r | Undef => None end.

(** An index entry points at the serialization of [b]. *)
Definition entry_at (files : gmap path bytes) (e : IndexEntry) (b : CBlock) : Prop :=
  exists content, files !! BlockFilePath (e_file e) = Some content /\ blk_wf b /\
    0 <= e_file e < 2 ^ 31 /\ 0 <= e_offset e /\ e_size e = Z.of_nat (length (SerializeBlock b)) /\
    e_offset e + e_size e <= Z.of_nat (length content) /\ Z.of_nat (length content) < 2 ^ 62 /\
    take (Z.to_nat (e_size e)) (drop (Z.to_nat (e_offset e)) content) = SerializeBlock b.
Definition entry_ok (files : gmap path bytes) (h : uint256) (e : IndexEntry) : Prop :=
  exists b, entry_at files e b /\ BlockHash b = h.

Record file_inv (s : CBlockStorage) : Prop := {
  fi_loaded : cs_loaded s = true;
  fi_entries : map_Forall (entry_ok (cs_files s)) (cs_index s);
  fi_wf : map_Forall entry_wf (cs_index s);
  fi_size : Z.of_nat (size (cs_index s)) <= 100000000;
  fi_sync : match cs_files s !! IndexPath with
            | Some c => c = index_bytes (cs_index s)
            | None => cs_index s = ∅
            end
}.

Lemma LoadIndex_loaded u s : cs_loaded s = true -> LoadIndex u s = s.
Proof. intros H. unfold LoadIndex. by rewrite H. Qed.

(** Reading the region of an entry gives its block. *)
Lemma ReadBlock_entry u s h e b : cs_loaded s = true -> cs_index s !! h = Some e ->
  entry_at (cs_files s) e b -> BlockHash b = h -> ReadBlock_file u h s = Done (Some b, s).
Proof.
  intros Hl He (content & Hf & Hb & _ & Ho & Hs & Hin & _ & Ht) Hh.
  unfold ReadBlock_file. rewrite LoadIndex_loaded, He by done. unfold ReadFromFile. rewrite Hf.
  destruct (Z.ltb_spec (e_size e) 0); [lia|]. destruct (Z.ltb_spec (e_offset e) 0); [lia|].
  rewrite <- (take_drop (Z.to_nat (e_size e)) (drop (Z.to_nat (e_offset e)) content)), Ht.
  rewrite stream_read_fill by (rewrite ?repeat_length; lia). cbn [is_good mbind outcome_bind].
  rewrite deserialize_block, bool_decide_true by done. done.
Qed.

Lemma ReadBlock_missing u s h : cs_loaded s = true -> cs_index s !! h = None -> ReadBlock_file u h s = Done (None, s).
Proof. intros Hl He. unfold ReadBlock_file. by rewrite LoadIndex_loaded, He. Qed.

(** Under the invariant a read neither throws nor changes anything. *)
Lemma read_block_defined u s h : file_inv s -> ReadBlock_file u h s = Done (stored u s h, s).
Proof.
  intros [Hl He _ _ _]. unfold stored. destruct (cs_index s !! h) as [e|] eqn:E.
  - destruct (He h e E) as (b & Hb & Hh). by rewrite (ReadBlock_entry u s h e b).
  - by rewrite ReadBlock_missing.
Qed.

(** A new storage object on the same files reads the same blocks. *)
Lemma LoadIndex_open u s : file_inv s ->
  LoadIndex u (open_storage (cs_files s) (cs_writable s)) = s.
Proof.
  intros [Hl He Hw Hs Hy]. unfold LoadIndex, open_storage. cbn [cs_loaded cs_files cs_index].
  assert (with_index {| cs_files := cs_files s; cs_writable := cs_writable s; cs_index := ∅; cs_loaded := false |}
            (cs_index s) true = s) as E by (destruct s; cbn in *; by rewrite Hl).
  destruct (cs_files s !! IndexPath) as [c|].
  - subst c. by rewrite load_index_bytes.
  - rewrite Hy in E. exact E.
Qed.

Lemma ReadBlock_open u s h : file_inv s ->
  ReadBlock_file u h (open_storage (cs_files s) (cs_writable s)) = ReadBlock_file u h s.
Proof.
  intros Hi. unfold ReadBlock_file. rewrite LoadIndex_open by done. by rewrite LoadIndex_loaded by apply Hi.
Qed.

(** ** Writing *)

Lemma max_file_spec index : 0 <= max_file index /\ map_Forall (fun _ e => e_file e <= max_file index) index.
Proof.
  unfold max_file. apply (map_fold_weak_ind (fun f m => 0 <= f /\ map_Forall (fun _ e => e_file e <= f) m)).
  - split; [lia|apply map_Forall_empty].
  - intros k e m f Hk [H0 Hf]. rewrite Z.gtb_ltb. destruct (Z.ltb_spec f (e_file e)).
    + split; [lia|]. apply map_Forall_insert; [done|]. split; [cbn; lia|]. intros i x Hx. specialize (Hf i x Hx). cbn in *. lia.
    + split; [lia|]. apply map_Forall_insert; [done|]. split; [cbn; lia|]. done.
Qed.

(** The file a block is appended to. *)
Definition target_file (data : bytes) (s : CBlockStorage) : Z :=
  let fileNum := max_file (cs_index s) in
  let sz := file_size s (BlockFilePath fileNum) in
  if (sz >? 0) && (sz + Z.of_nat (length data) >? MAX_FILE) then fileNum + 1 else fileNum.

Lemma target_file_range data s : max_file (cs_index s) < 2 ^ 31 - 1 -> 0 <= target_file data s < 2 ^ 31.
Proof. intros H. destruct (max_file_spec (cs_index s)) as [H0 _]. unfold target_file. case_if; lia. Qed.

Definition new_entry (blk : CBlock) (height : Z) (s : CBlockStorage) : IndexEntry :=
  let ser := SerializeBlock blk in
  {| e_height := height; e_file := target_file ser s;
     e_offset := file_size s (BlockFilePath (target_file ser s)); e_size := Z.of_nat (length ser) |}.
Definition new_files (blk : CBlock) (s : CBlockStorage) : gmap path bytes :=
  let p := BlockFilePath (target_file (SerializeBlock blk) s) in
  <[p := default [] (cs_files s !! p) ++ SerializeBlock blk]> (cs_files s).

(** What [WriteBlock] does when every file can be written. *)
Lemma WriteBlock_spec blk height s : (forall p, cs_writable s p = true) ->
  WriteBlock_file blk height s =
  (true, {| cs_files := <[IndexPath := index_bytes (<[BlockHash blk := new_entry blk height s]> (cs_index s))]> (new_files blk s);
            cs_writable := cs_writable s; cs_index := <[BlockHash blk := new_entry blk height s]> (cs_index s);
            cs_loaded := cs_loaded s |}).
Proof.
  intros Hw. unfold WriteBlock_file, AppendToFile. fold (target_file (SerializeBlock blk) s). rewrite Hw. cbn [negb].
  destruct (max_file_spec (cs_index s)) as [H0 _].
  assert (0 <= target_file (SerializeBlock blk) s) by (unfold target_file; case_if; lia).
  destruct (Z.ltb_spec (target_file (SerializeBlock blk) s) 0); [lia|].
  unfold SaveIndex, write_file. cbn [cs_writable with_index with_files cs_index cs_loaded cs_files]. rewrite Hw.
  assert (file_size (with_files s (new_files blk s)) (BlockFilePath (target_file (SerializeBlock blk) s))
          - Z.of_nat (length (SerializeBlock blk)) = file_size s (BlockFilePath (target_file (SerializeBlock blk) s))) as E.
  { unfold file_size, new_files. cbn [with_files cs_files]. rewrite lookup_insert_eq, length_app.
    destruct (cs_files s !! _); cbn; lia. }
  unfold new_files in E. rewrite E. reflexivity.
Qed.

(** Appending keeps every region. *)
Lemma entry_at_append blk s e b idx : Z.of_nat (length (SerializeBlock blk)) < 2 ^ 31 ->
  file_size s (BlockFilePath (target_file (SerializeBlock blk) s)) < 2 ^ 61 ->
  entry_at (cs_files s) e b -> entry_at (<[IndexPath := idx]> (new_files blk s)) e b.
Proof.
  intros Hl Hsz (content & Hf & Hb & Hr & Ho & Hs & Hin & Hc & Ht).
  unfold new_files. set (p := BlockFilePath (target_file (SerializeBlock blk) s)) in *.
  destruct (decide (p = BlockFilePath (e_file e))) as [Ep|Hne].
  - exists (content ++ SerializeBlock blk). rewrite lookup_insert_ne, Ep, lookup_insert_eq, Hf by done. cbn [default].
    unfold file_size in Hsz. rewrite Ep, Hf in Hsz. rewrite length_app.
    split_and!; try done; try lia. rewrite drop_app_le, take_app_le by (rewrite ?length_drop; lia). done.
  - exists content. rewrite lookup_insert_ne, lookup_insert_ne by done. done.
Qed.

Lemma entry_at_new blk height s idx : blk_wf blk -> Z.of_nat (length (SerializeBlock blk)) < 2 ^ 31 ->
  max_file (cs_index s) < 2 ^ 31 - 1 -> file_size s (BlockFilePath (target_file (SerializeBlock blk) s)) < 2 ^ 61 ->
  entry_at (<[IndexPath := idx]> (new_files blk s)) (new_entry blk height s) blk.
Proof.
  intros Hb Hl Hm Hsz. unfold new_files, new_entry. cbn [e_file e_offset e_size].
  pose proof (target_file_range (SerializeBlock blk) s Hm) as Hr.
  set (p := BlockFilePath (target_file (SerializeBlock blk) s)) in *.
  exists (default [] (cs_files s !! p) ++ SerializeBlock blk). cbn [e_file e_offset e_size].
  rewrite lookup_insert_ne, lookup_insert_eq by done. rewrite length_app.
  assert (file_size s p = Z.of_nat (length (default [] (cs_files s !! p)))) as E
    by (unfold file_size; by destruct (cs_files s !! p)).
  rewrite E in *. split_and!; try done; try lia. rewrite !Nat2Z.id, drop_app_length. by rewrite take_ge.
Qed.

Lemma entry_at_wf files h e b : wf h -> is_i64 (e_height e) -> entry_at files e b -> entry_wf h e.
Proof.
  intros Hh Hht (content & _ & _ & Hr & Ho & Hs & Hin & Hc & _). unfold entry_wf. split_and!; try done; u_range.
Qed.

(** The invariant after a write. *)
Lemma WriteBlock_inv blk height s s' : file_inv s -> (forall p, cs_writable s p = true) -> blk_wf blk -> is_i64 height ->
  Z.of_nat (length (SerializeBlock blk)) < 2 ^ 31 -> max_file (cs_index s) < 2 ^ 31 - 1 ->
  file_size s (BlockFilePath (target_file (SerializeBlock blk) s)) < 2 ^ 61 ->
  Z.of_nat (size (cs_index s)) < 100000000 -> WriteBlock_file blk height s = (true, s') -> file_inv s'.
Proof.
  intros [Hl He Hw Hs _] Hwr Hb Hht Hlen Hm Hsz Hcap H. rewrite WriteBlock_spec in H by done. injection H as <-.
  set (idx := index_bytes _) in *. split; cbn [cs_loaded cs_index cs_files]; [done| | | |].
  - apply map_Forall_insert_2.
    + exists blk. split; [by apply entry_at_new|done].
    + intros h e Hh. destruct (He h e Hh) as (b & Hat & Eh). exists b. split; [by apply entry_at_append|done].
  - apply map_Forall_insert_2; [|done].
    apply (entry_at_wf (<[IndexPath := idx]> (new_files blk s)) _ _ blk); [apply SHA256d_wf|done|by apply entry_at_new].
  - rewrite map_size_insert. destruct (cs_index s !! BlockHash blk); cbn; lia.
  - rewrite lookup_insert_eq. done.
Qed.

End Blocks.

(** ** Restart *)

Section Restart.
Context {ossl : OpenSSL} {laws : OpenSSLLaws ossl} (params : ChainParams) (uninit : bytes).
#[local] Instance fstor : IStorage CBlockStorage := file_storage uninit.

#[export] Instance file_storage_laws : StorageLaws CBlockStorage.
Proof.
  split. intros h s b s' H. unfold ReadBlock, fstor, file_storage, ReadBlock_file in H.
  destruct (cs_index (LoadIndex uninit s) !! h) as [e|]; [|done].
  destruct (ReadFromFile _ _ _ _) as [[data|]|]; [|done..]. cbn [mbind outcome_bind] in H.
  destruct (DeserializeBlock data) as [blk|]; [|done]. destruct (bool_decide_reflect (BlockHash blk = h)); [|done].
  by injection H as <- <-.
Qed.

Abbreviation node := (Node CBlockStorage).

(** Rebuilding the index over readable storage: the store keeps its contents,
    and one readable block is enough for a non-empty index. *)
Lemma rebuild_index_file hs : forall i m (n : node), file_inv (nd_store n) ->
  exists m', runs (rebuild_index i hs m) n (Ok m') n /\
    (m <> ∅ \/ (exists h, h ∈ hs /\ is_Some (stored uninit (nd_store n) h)) -> m' <> ∅).
Proof.
  induction hs as [|h hs IH]; intros i m n Hi; cbn [rebuild_index].
  { exists m. split; [done|]. intros [?|(h & Hh%not_elem_of_nil & _)]; done. }
  assert (read_block h n = Done (Ok (stored uninit (nd_store n) h), n)) as Hr.
  { unfold read_block, ReadBlock, fstor, file_storage. rewrite read_block_defined by done. by destruct n. }
  unfold runs, mbind, NodeM_bind. rewrite Hr.
  destruct (stored uninit (nd_store n) h) as [blk|] eqn:Es.
  - destruct (if (i =? 0)%nat then _ else _) as [w m1].
    set (idx := make_index blk _ _ w _).
    destruct (IH (S i) (<[idx_hash idx := idx]> m1) n Hi) as (m' & Hm' & Hne). exists m'. split; [done|].
    intros _. apply Hne. left. apply insert_non_empty.
  - destruct (IH (S i) m n Hi) as (m' & Hm' & Hne). exists m'. split; [done|].
    intros [?|(x & Hx & Hsx)]; apply Hne; [by left|]. apply elem_of_cons in Hx as [->|Hx]; [|right; by exists x].
    rewrite Es in Hsx. by destruct Hsx.
Qed.

(** A fresh storage object: the first read loads the index. *)
Lemma rebuild_index_open hs h0 i m (s : CBlockStorage) c : file_inv s -> is_Some (stored uninit s h0) ->
  exists m', runs (rebuild_index i (h0 :: hs) m) {| nd_chain := c; nd_store := open_storage (cs_files s) (cs_writable s) |}
    (Ok m') {| nd_chain := c; nd_store := s |} /\ m' <> ∅.
Proof.
  intros Hi Hs. set (n0 := {| nd_chain := c; nd_store := open_storage _ _ |}). set (n := {| nd_chain := c; nd_store := s |}).
  destruct (rebuild_index_file (h0 :: hs) i m n Hi) as (m' & Hr & Hne). exists m'.
  split; [|apply Hne; right; exists h0; split; [by left|done]].
  unfold runs in *. rewrite <- Hr. cbn [rebuild_index]. unfold mbind, NodeM_bind.
  assert (read_block h0 n0 = read_block h0 n) as ->; [|done].
  unfold read_block, ReadBlock, fstor, file_storage, n0, n. cbn [nd_store nd_chain].
  by rewrite ReadBlock_open, read_block_defined by done.
Qed.

End Restart.

Lemma SaveChainState_load uninit view height tip byHeight s s' :
  SaveChainState_file view height tip byHeight s = (true, s') ->
  forall loaded index, LoadChainState_file uninit {| cs_files := cs_files s'; cs_writable := cs_writable s';
    cs_index := index; cs_loaded := loaded |} = parse_chainstate uninit (chainstate_bytes view height tip byHeight).
Proof.
  intros H loaded index. unfold SaveChainState_file, write_file in H. injection H as Hw <-. rewrite Hw.
  unfold LoadChainState_file. cbn [with_files cs_files]. by rewrite lookup_insert_eq.
Qed.

(** Saving the chain state leaves the blocks alone. *)
Lemma SaveChainState_inv {ossl : OpenSSL} uninit view height tip byHeight s s' h :
  file_inv s -> SaveChainState_file view height tip byHeight s = (true, s') ->
  file_inv s' /\ (is_Some (stored uninit s h) -> is_Some (stored uninit s' h)).
Proof.
  intros Hi H. unfold SaveChainState_file, write_file in H. injection H as Hw <-. rewrite Hw.
  assert (file_inv (with_files s (<[ChainStatePath := chainstate_bytes view height tip byHeight]> (cs_files s)))) as Hi'.
  { destruct Hi as [A1 A2 A3 A4 A5]. split; cbn [with_files cs_loaded cs_index cs_files]; try done.
    - intros x e He. destruct (A2 x e He) as (b & (content & Hf & Hat) & Hh). exists b. split; [|done].
      exists content. rewrite lookup_insert_ne by done. done.
    - by rewrite lookup_insert_ne by done. }
  split; [done|]. intros [b Hb]. unfold stored in Hb. destruct (cs_index s !! h) as [e|] eqn:Ee.
  - destruct (fi_entries _ Hi' h e Ee) as (b' & Hat & Hh). unfold stored.
    rewrite (ReadBlock_entry uninit _ h e b'); [by eexists|apply Hi'|done|done|done].
  - rewrite ReadBlock_missing in Hb by (done || apply Hi). done.
Qed.

(** * Theorems *)

(** C8: the block files implement a map from hashes to blocks.  A write of a
    well-formed block, with room in the index and in the file numbers, succeeds
    and adds exactly that block: it is read back under its hash, every other
    hash gives what it gave before, no region of an earlier block is disturbed,
    and a new storage object on the same files reads the same.  When the block
    file cannot be opened, [WriteBlock] fails and changes nothing. *)
Theorem storage_refines_map {ossl : OpenSSL} {laws : OpenSSLLaws ossl} uninit s blk height :
  (file_inv s -> (forall p, cs_writable s p = true) -> blk_wf blk -> is_i64 height ->
   Z.of_nat (length (SerializeBlock blk)) < 2 ^ 31 -> max_file (cs_index s) < 2 ^ 31 - 1 ->
   file_size s (BlockFilePath (target_file (SerializeBlock blk) s)) < 2 ^ 61 ->
   Z.of_nat (size (cs_index s)) < 100000000 ->
   exists s', WriteBlock_file blk height s = (true, s') /\ file_inv s' /\
     (forall h, ReadBlock_file uninit h s' =
                Done (if decide (h = BlockHash blk) then Some blk else stored uninit s h, s')) /\
     (forall h, stored uninit (open_storage (cs_files s') (cs_writable s')) h = stored uninit s' h)) /\
  (cs_writable s (BlockFilePath (target_file (SerializeBlock blk) s)) = false ->
   WriteBlock_file blk height s = (false, s)).
Proof.
  split.
  - intros Hi Hw Hb Hh Hl Hm Hsz Hcap. pose proof (WriteBlock_spec blk height s Hw) as Ew.
    eexists. split; [exact Ew|].
    pose proof (WriteBlock_inv blk height s _ Hi Hw Hb Hh Hl Hm Hsz Hcap Ew) as Hi'. split; [done|]. split.
    + intros h. rewrite read_block_defined by done. do 2 f_equal. unfold stored.
      destruct Hi as [Hload He _ _ _]. destruct (decide (h = BlockHash blk)) as [->|Hne].
      * rewrite (ReadBlock_entry uninit _ _ (new_entry blk height s) blk); [done|done| |by apply entry_at_new|done].
        apply lookup_insert_eq.
      * destruct (cs_index s !! h) as [e|] eqn:Eh.
        { destruct (He h e Eh) as (b & Hat & Hbh). rewrite (ReadBlock_entry uninit s h e b) by done.
          rewrite (ReadBlock_entry uninit _ h e b); [done|done| |by apply entry_at_append|done].
          by rewrite <- Eh; apply lookup_insert_ne. }
        rewrite (ReadBlock_missing uninit s) by done. rewrite ReadBlock_missing; [done|done|].
        by rewrite <- Eh; apply lookup_insert_ne.
    + intros h. unfold stored. by rewrite ReadBlock_open by done.
  - intros Hw. unfold WriteBlock_file, AppendToFile. fold (target_file (SerializeBlock blk) s). by rewrite Hw.
Qed.

(** [SaveChainState] followed by [LoadChainState] from a new storage object
    gives back exactly the coins, the height, the tip and the active chain,
    whatever the uninitialised buffers hold.  That needs every script to have
    at most 100000 bytes: a state with a longer script, which transaction
    validation allows, is refused on loading, and the node starts over from
    the genesis block. *)
Theorem chainstate_save_load uninit view height tip byHeight s s' :
  storable_state view height tip byHeight -> SaveChainState_file view height tip byHeight s = (true, s') ->
  (map_Forall (fun _ c => ~ oversized c) view ->
   LoadChainState_file uninit (open_storage (cs_files s') (cs_writable s')) = Some (view, height, tip, byHeight)) /\
  ((exists o c, view !! o = Some c /\ oversized c) ->
   LoadChainState_file uninit (open_storage (cs_files s') (cs_writable s')) = None).
Proof.
  intros Hs H. unfold open_storage. rewrite (SaveChainState_load uninit _ _ _ _ _ _ H). by apply chainstate_parse.
Qed.

(** A start that applies the genesis block ends with that block alone. *)
Lemma ApplyGenesis_chain {ossl : OpenSSL} {St : Type} {stor : IStorage St} params (n n' : Node St) :
  runs (ApplyGenesis params) n (Ok tt) n' -> exists g, ch_byHeight (nd_chain n') = [g] /\ ch_tipHash (nd_chain n') = g /\ ch_height (nd_chain n') = 0.
Proof.
  unfold runs, ApplyGenesis. destruct (genesis_header params) as [h|]; [|done].
  destruct (CheckBlock _ _ _ _) as [[view fees]|]; [|done]. intros [= <-]. by eexists.
Qed.

(** C7: what a node that is restarted on its own files comes back with.  The saved
    state is within the limits of the format and the genesis block of its chain
    is still stored.  When no coin has a script of more than 100000 bytes, the
    node comes back with exactly the saved coins, height, tip and active chain.
    When one has, a state that transaction validation allows and [SaveChainState]
    writes without an error, [LoadChainState] refuses the file: a start that
    succeeds has then lost the chain, and begins at height 0 with a genesis
    block alone. *)
Theorem restart_restores_chain {ossl : OpenSSL} {laws : OpenSSLLaws ossl} params uninit (c : CChain) (s s' : CBlockStorage) genesis rest :
  let stor := file_storage uninit in
  file_inv s -> ch_byHeight c = genesis :: rest -> is_Some (stored uninit s genesis) ->
  storable_state (ch_view c) (ch_height c) (ch_tipHash c) (ch_byHeight c) ->
  SaveChainState (ch_view c) (ch_height c) (ch_tipHash c) (ch_byHeight c) s = (true, s') ->
  let fresh := {| nd_chain := empty_chain; nd_store := open_storage (cs_files s') (cs_writable s') |} in
  (map_Forall (fun _ k => ~ oversized k) (ch_view c) ->
   exists n, runs (Init params) fresh (Ok tt) n /\
     ch_view (nd_chain n) = ch_view c /\ ch_height (nd_chain n) = ch_height c /\
     ch_tipHash (nd_chain n) = ch_tipHash c /\ ch_byHeight (nd_chain n) = ch_byHeight c) /\
  ((exists o k, ch_view c !! o = Some k /\ oversized k) ->
   LoadChainState (nd_store fresh) = None /\
   forall n, runs (Init params) fresh (Ok tt) n -> exists g, ch_byHeight (nd_chain n) = [g] /\ ch_height (nd_chain n) = 0).
Proof.
  intros stor Hi Hbh Hg Hst H fresh. cbn [SaveChainState stor file_storage] in H.
  destruct (SaveChainState_inv uninit _ _ _ _ _ _ genesis Hi H) as [Hi' Hg']. specialize (Hg' Hg).
  pose proof (SaveChainState_load uninit _ _ _ _ _ _ H false ∅) as Hload.
  change (LoadChainState (nd_store fresh) = parse_chainstate uninit
    (chainstate_bytes (ch_view c) (ch_height c) (ch_tipHash c) (ch_byHeight c))) in Hload.
  destruct (chainstate_parse uninit _ _ _ _ Hst) as [Hsmall Hbig].
  unfold Init, LoadFromStorage, runs, mbind, NodeM_bind, get_chain, load_state. split; intros Hs.
  - rewrite (Hsmall Hs) in Hload. rewrite Hload, Hbh. cbn [nd_chain fresh].
    destruct (rebuild_index_open uninit rest genesis 0 (ch_index empty_chain) s' empty_chain Hi' Hg') as (m & Hr & Hm).
    unfold runs, fstor in Hr. fold stor in Hr. fold fresh in Hr. rewrite Hr. rewrite bool_decide_false by done.
    destruct (index_at m (ch_tipHash c)) as [t m']. eexists. split; [reflexivity|]. done.
  - rewrite (Hbig Hs) in Hload. split; [done|]. intros n Hn. rewrite Hload in Hn.
    apply ApplyGenesis_chain in Hn as (g & Hb & _ & Hh). by exists g.
Qed.

(** [WriteBlock] does not load the index first.  On a new storage object
    over existing files it forgets all blocks: the index it saves holds the new
    block only, and no other block can be read afterwards. *)
Theorem write_before_load_drops_index {ossl : OpenSSL} {laws : OpenSSLLaws ossl} uninit files writable blk height s' :
  let s := open_storage files writable in
  (forall p, writable p = true) -> blk_wf blk -> is_i64 height -> Z.of_nat (length (SerializeBlock blk)) < 2 ^ 31 ->
  file_size s (BlockFilePath (target_file (SerializeBlock blk) s)) < 2 ^ 61 ->
  WriteBlock_file blk height s = (true, s') ->
  stored uninit (open_storage (cs_files s') writable) (BlockHash blk) = Some blk /\
  forall h, h <> BlockHash blk -> stored uninit (open_storage (cs_files s') writable) h = None.
Proof.
  intros s Hw Hb Hh Hl Hsz H. rewrite WriteBlock_spec in H by exact Hw. injection H as <-.
  cbn [cs_files cs_index s open_storage]. fold s. set (e := new_entry blk height s).
  set (files' := <[IndexPath := _]> (new_files blk s)).
  assert (entry_at files' e blk) as Hat by (by apply entry_at_new; [..|vm_compute|]).
  assert (LoadIndex uninit (open_storage files' writable) =
          {| cs_files := files'; cs_writable := writable; cs_index := <[BlockHash blk := e]> ∅; cs_loaded := true |}) as El.
  { unfold LoadIndex. cbn [open_storage cs_loaded cs_files cs_index]. unfold files' at 1. rewrite lookup_insert_eq.
    rewrite load_index_bytes; [done| |].
    - apply map_Forall_insert_2; [|apply map_Forall_empty]. eapply entry_at_wf; [apply SHA256d_wf|exact Hh|exact Hat].
    - rewrite map_size_insert, lookup_empty, map_size_empty. cbn. lia. }
  assert (forall h, ReadBlock_file uninit h (open_storage files' writable) =
          ReadBlock_file uninit h {| cs_files := files'; cs_writable := writable; cs_index := <[BlockHash blk := e]> ∅; cs_loaded := true |}) as Er.
  { intros h. unfold ReadBlock_file. rewrite El. reflexivity. }
  split.
  - unfold stored. rewrite Er, (ReadBlock_entry uninit _ _ e blk); [done|done|apply lookup_insert_eq|done|done].
  - intros h Hne. unfold stored. rewrite Er, ReadBlock_missing; [done|done|]. cbn [cs_index].
    rewrite lookup_insert_ne by done. apply lookup_empty.
Qed.

(** A chain-state file that was cut off is accepted: nothing checks the
    stream after a read, so a file of a chain at height 0 that ends after the
    tip hash loads as a chain without blocks and without coins. *)
Theorem truncated_chainstate_accepted uninit view tip byHeight :
  wf tip ->
  parse_chainstate uninit (take 44 (chainstate_bytes view 0 tip byHeight)) = Some (∅, 0, tip, []).
Proof.
  intros Ht. unfold chainstate_bytes. rewrite !app_assoc, <- (app_assoc MAGIC), <- !app_assoc.
  rewrite (app_assoc (le_bytes 8 (u64 0))), (app_assoc MAGIC), take_app_length'
    by (rewrite !length_app, length_le_bytes, length_getBytesLE; done).
  unfold parse_chainstate.
  rewrite stream_read_fill by (done || apply length_take_le). rewrite bool_decide_true by done. cbn [negb].
  rewrite stream_read_fill by (apply length_le_bytes || apply length_take_le).
  rewrite <- (app_nil_r (getBytesLE tip)), stream_read_fill by (apply length_getBytesLE || apply length_take_le).
  rewrite setBytesLE_getBytesLE by done. reflexivity.
Qed.

(** The peer list survives [SavePeers] and [LoadPeers], for at most a
    million addresses of at most 512 characters. *)
Theorem peers_roundtrip uninit addresses s s' :
  Z.of_nat (length addresses) <= 1000000 -> Forall (fun a => Z.of_nat (length a) <= 512) addresses ->
  SavePeers addresses s = (true, s') -> LoadPeers uninit s' = addresses.
Proof.
  intros Hn Ha H. unfold SavePeers, write_file in H. injection H as Hw <-. rewrite Hw.
  unfold LoadPeers, peers_bytes. cbn [with_files cs_files]. rewrite lookup_insert_eq.
  rewrite stream_read_fill by (apply length_le_bytes || apply length_take_le).
  rewrite le_bytes_read_u64 by u_range. rewrite Z.gtb_ltb.
  destruct (Z.ltb_spec 1000000 (Z.of_nat (length addresses))); [lia|].
  rewrite Nat2Z.id, <- (app_nil_r (flat_map _ _)). apply load_peers_all; [by rewrite length_le_bytes|done].
Qed.

(** * Witnesses *)

#[local] Instance store_ossl : OpenSSL := toy_ossl.

Definition wit_writable (p : path) : bool := true.
Definition wit_store0 : CBlockStorage :=
  {| cs_files := ∅; cs_writable := wit_writable; cs_index := ∅; cs_loaded := true |}.
Definition wit_stored_block : CBlock := {| blk_header := sample_hdr; blk_vtx := [sample_tx] |}.

Lemma wit_stored_block_wf : blk_wf wit_stored_block.
Proof.
  split; [exact sample_hdr_wf|]. split; [|vm_compute; congruence].
  apply Forall_cons_2; [exact sample_tx_wf|apply Forall_nil_2].
Qed.

Lemma wit_store0_inv : file_inv wit_store0.
Proof. split; cbn; [done|apply map_Forall_empty..|rewrite map_size_empty; lia|done]. Qed.

Lemma wit_ser_size : Z.of_nat (length (SerializeBlock wit_stored_block)) < 2 ^ 31.
Proof. vm_compute. reflexivity. Qed.

Lemma storage_refines_map_witness : exists s',
  WriteBlock_file wit_stored_block 1 wit_store0 = (true, s') /\ file_inv s' /\
  ReadBlock_file [] (BlockHash wit_stored_block) s' = Done (Some wit_stored_block, s').
Proof.
  destruct (proj1 (storage_refines_map [] wit_store0 wit_stored_block 1) wit_store0_inv (fun _ => eq_refl)
    wit_stored_block_wf ltac:(u_range) wit_ser_size eq_refl eq_refl ltac:(cbn; rewrite map_size_empty; lia))
    as (s' & H1 & H2 & H3 & _).
  exists s'. split; [exact H1|]. split; [exact H2|]. rewrite H3.
  destruct (decide (BlockHash wit_stored_block = BlockHash wit_stored_block)); [reflexivity|done].
Defined.

Definition wit_big_coin : CUTXO :=
  {| coin_value := 5; coin_scriptPubKey := repeat 0x6a (Z.to_nat 100001); coin_height := 1; coin_isCoinbase := false |}.
Definition wit_outpoint : COutPoint := {| op_hash := U256 7 0 0 9; op_n := 0 |}.
Definition wit_small_coin : CUTXO :=
  {| coin_value := 5; coin_scriptPubKey := [0x51]; coin_height := 1; coin_isCoinbase := true |}.

Lemma wit_storable c : is_i64 (coin_value c) -> is_i64 (coin_height c) -> Z.of_nat (length (coin_scriptPubKey c)) < 2 ^ 64 ->
  storable_state {[wit_outpoint := c]} 1 (U256 1 2 3 4) [U256 5 6 7 8; U256 1 2 3 4].
Proof.
  intros H1 H2 H3. split_and!; try u_range.
  - apply map_Forall_singleton. split_and!; done.
  - rewrite map_size_singleton. lia.
  - wf_compute.
  - wf_compute.
  - cbn. lia.
Qed.

Lemma chainstate_save_load_witness :
  LoadChainState_file [] (open_storage (cs_files (snd (SaveChainState_file {[wit_outpoint := wit_small_coin]} 1 (U256 1 2 3 4)
    [U256 5 6 7 8; U256 1 2 3 4] wit_store0))) wit_writable)
  = Some ({[wit_outpoint := wit_small_coin]}, 1, U256 1 2 3 4, [U256 5 6 7 8; U256 1 2 3 4]) /\
  LoadChainState_file [] (open_storage (cs_files (snd (SaveChainState_file {[wit_outpoint := wit_big_coin]} 1 (U256 1 2 3 4)
    [U256 5 6 7 8; U256 1 2 3 4] wit_store0))) wit_writable) = None.
Proof.
  assert (length (coin_scriptPubKey wit_big_coin) = Z.to_nat 100001) as El by (cbn [wit_big_coin coin_scriptPubKey]; apply repeat_length).
  split.
  - refine (proj1 (chainstate_save_load [] _ _ _ _ wit_store0 _ (wit_storable wit_small_coin _ _ _) eq_refl) _); [cbn; u_range..|].
    apply map_Forall_singleton. unfold oversized. cbn. lia.
  - refine (proj2 (chainstate_save_load [] _ _ _ _ wit_store0 _ (wit_storable wit_big_coin _ _ _) eq_refl) _);
      [cbn [wit_big_coin coin_value coin_height]; u_range..|rewrite El; lia|].
    exists wit_outpoint, wit_big_coin. split; [apply lookup_singleton_eq|]. unfold oversized. rewrite El. lia.
Defined.

Definition wit_saved_chain : CChain := {|
  ch_view := {[wit_outpoint := wit_small_coin]}; ch_index := ∅; ch_byHeight := [BlockHash wit_stored_block];
  ch_height := 0; ch_tipHash := BlockHash wit_stored_block; ch_chainWork := zero |}.

Definition wit_store1 : CBlockStorage := snd (WriteBlock_file wit_stored_block 0 wit_store0).

Lemma wit_store1_write : WriteBlock_file wit_stored_block 0 wit_store0 = (true, wit_store1).
Proof. unfold wit_store1. by rewrite (WriteBlock_spec wit_stored_block 0 wit_store0). Qed.

Lemma wit_store1_inv : file_inv wit_store1.
Proof.
  exact (WriteBlock_inv wit_stored_block 0 wit_store0 wit_store1 wit_store0_inv (fun _ => eq_refl) wit_stored_block_wf
    ltac:(u_range) wit_ser_size eq_refl eq_refl ltac:(cbn; rewrite map_size_empty; lia) wit_store1_write).
Qed.

Lemma wit_store1_stored : is_Some (stored [] wit_store1 (BlockHash wit_stored_block)).
Proof.
  pose proof wit_store1_write as E. rewrite (WriteBlock_spec wit_stored_block 0 wit_store0) in E by done.
  apply (f_equal snd) in E. cbn [snd] in E. unfold stored.
  rewrite (ReadBlock_entry [] wit_store1 _ (new_entry wit_stored_block 0 wit_store0) wit_stored_block).
  - by eexists.
  - apply wit_store1_inv.
  - rewrite <- E. apply lookup_insert_eq.
  - rewrite <- E. apply entry_at_new; [exact wit_stored_block_wf|exact wit_ser_size|reflexivity..].
  - reflexivity.
Qed.

Lemma wit_storable_genesis c : is_i64 (coin_value c) -> is_i64 (coin_height c) -> Z.of_nat (length (coin_scriptPubKey c)) < 2 ^ 64 ->
  storable_state {[wit_outpoint := c]} 0 (BlockHash wit_stored_block) [BlockHash wit_stored_block].
Proof.
  intros H1 H2 H3. assert (wf (BlockHash wit_stored_block)) as Hw by apply SHA256d_wf.
  split; [apply map_Forall_singleton; split_and!; done|]. split; [rewrite map_size_singleton; lia|].
  split; [u_range|]. split; [exact Hw|]. split; [|cbn; lia]. apply Forall_cons_2; [exact Hw|apply Forall_nil_2].
Qed.

(** A saved chain that comes back, and one with an oversized script that is lost. *)
Definition wit_lost_chain : CChain := {|
  ch_view := {[wit_outpoint := wit_big_coin]}; ch_index := ∅; ch_byHeight := [BlockHash wit_stored_block];
  ch_height := 0; ch_tipHash := BlockHash wit_stored_block; ch_chainWork := zero |}.
Abbreviation wit_saved v := (snd (SaveChainState_file v 0 (BlockHash wit_stored_block) [BlockHash wit_stored_block] wit_store1)).
Abbreviation wit_fresh v := {| nd_chain := empty_chain; nd_store := open_storage (cs_files (wit_saved v)) wit_writable |}.
Lemma restart_restores_chain_witness :
  (exists n, runs (Init (stor := file_storage []) TESTNET) (wit_fresh (ch_view wit_saved_chain)) (Ok tt) n /\
    ch_view (nd_chain n) = ch_view wit_saved_chain /\ ch_byHeight (nd_chain n) = ch_byHeight wit_saved_chain) /\
  LoadChainState_file [] (nd_store (wit_fresh (ch_view wit_lost_chain))) = None.
Proof.
  split.
  - destruct (restart_restores_chain TESTNET [] wit_saved_chain wit_store1 (wit_saved (ch_view wit_saved_chain))
      (BlockHash wit_stored_block) [] wit_store1_inv eq_refl wit_store1_stored) as [H _];
      [apply (wit_storable_genesis wit_small_coin); cbn; u_range|reflexivity|].
    destruct H as (n & Hn & Hv & _ & _ & Hb); [apply map_Forall_singleton; unfold oversized; cbn; lia|].
    exists n. split; [exact Hn|]. split; [exact Hv|exact Hb].
  - assert (length (coin_scriptPubKey wit_big_coin) = Z.to_nat 100001) as El by (cbn [wit_big_coin coin_scriptPubKey]; apply repeat_length).
    destruct (restart_restores_chain TESTNET [] wit_lost_chain wit_store1 (wit_saved (ch_view wit_lost_chain))
      (BlockHash wit_stored_block) [] wit_store1_inv eq_refl wit_store1_stored) as [_ H];
      [apply (wit_storable_genesis wit_big_coin); [cbn [wit_big_coin coin_value coin_height]; u_range..|rewrite El; lia]|reflexivity|].
    apply H. exists wit_outpoint, wit_big_coin. split; [apply lookup_singleton_eq|]. unfold oversized. rewrite El. lia.
Defined.

Lemma write_before_load_drops_index_witness : exists s',
  WriteBlock_file wit_stored_block 0 (open_storage (cs_files wit_store1) wit_writable) = (true, s') /\
  stored [] (open_storage (cs_files s') wit_writable) (U256 1 1 1 1) = None.
Proof.
  pose proof (WriteBlock_spec wit_stored_block 0 (open_storage (cs_files wit_store1) wit_writable) (fun _ => eq_refl)) as E.
  eexists. split; [exact E|].
  refine (proj2 (write_before_load_drops_index [] _ _ _ _ _ (fun _ => eq_refl) wit_stored_block_wf _ wit_ser_size _ E) _ _).
  - u_range.
  - apply Z.ltb_lt. vm_compute. reflexivity.
  - intros H. apply (f_equal w0) in H. vm_compute in H. discriminate.
Defined.

Lemma truncated_chainstate_witness :
  parse_chainstate [] (take 44 (chainstate_bytes {[wit_outpoint := wit_small_coin]} 0 (U256 1 2 3 4) [U256 1 2 3 4]))
  = Some (∅, 0, U256 1 2 3 4, []).
Proof. apply truncated_chainstate_accepted. wf_compute. Defined.

Lemma peers_roundtrip_witness :
  LoadPeers [] (snd (SavePeers [[49; 48]; []] wit_store0)) = [[49; 48]; []].
Proof.
  apply (peers_roundtrip [] [[49; 48]; []] wit_store0); [cbn; lia| |reflexivity].
  repeat (apply Forall_cons_2; [cbn; lia|]). apply Forall_nil_2.
Defined.
