(* ===== verification/Mining.v ===== *)
(** [mining/pow.cpp] and [mining/miner.cpp]: the nonce search of
    [MineBlockHeader], the block template of the miner and its status. *)
From Stdlib Require Import Ascii.
From stdpp Require Import sorting.
From S2P Require Import Prelude Config UInt256 Compact Consensus Crypto Transaction Encoding Script Utxo Block Validation Mempool Chain.
Import uint256 Rewards Rules Difficulty Script Encoding.
Open Scope cdx_scope.

(** * Proof of work *)

Definition CheckPoW (hash : uint256) (bits : Z) : bool := CheckProofOfWork hash bits.

(** [hdr[76] = b[0]; ... hdr[79] = b[3];] *)
Definition set_nonce_bytes (hdr : bytes) (nonce : Z) : bytes := take 76 hdr ++ le_bytes 4 nonce ++ drop 80 hdr.

Definition with_bits (h : CBlockHeader) (bits : Z) : CBlockHeader := {|
  hdr_version := hdr_version h; hdr_prevBlockHash := hdr_prevBlockHash h;
  hdr_merkleRoot := hdr_merkleRoot h; hdr_timestamp := hdr_timestamp h;
  hdr_bits := bits; hdr_nonce := hdr_nonce h |}.

Section Pow.
Context {ossl : OpenSSL}.

(** The [while (true)] loop: [Some None] is the exit without a nonce.  The
    flag is asked once per nonce; [stopFlag nonce] is its answer.  The loop
    makes at most [2^32] rounds; [None] is a round too many. *)
Fixpoint nonce_loop (fuel : nat) (stopFlag : Z -> bool) (target : uint256) (hdr : bytes) (nonce : Z) : option (option Z) :=
  match fuel with
  | O => None
  | S k =>
      if stopFlag nonce then Some None
      else
        let hdr := set_nonce_bytes hdr nonce in
        if leb (SHA256d hdr) target then Some (Some nonce)
        else
          let nonce := u32 (nonce + 1) in
          if nonce =? 0 then Some None else nonce_loop k stopFlag target hdr nonce
  end.
Definition max_rounds : nat := Z.to_nat (2 ^ 32).

(** The result and the header as the call leaves it. *)
Definition MineBlockHeader (header : CBlockHeader) (bits : Z) (stopFlag : Z -> bool) : option (bool * CBlockHeader) :=
  let target := TargetFromBits bits in
  if isZero target then Some (false, header)
  else
    let header := with_bits header bits in
    match nonce_loop max_rounds stopFlag target (SerializeBlockHeader header) 0 with
    | None => None
    | Some None => Some (false, header)
    | Some (Some nonce) => Some (true, with_nonce header nonce)
    end.

End Pow.

(** * Block template *)

(** [while (n > 1 && le[n - 1] == 0) --n;] *)
Fixpoint trim_zeros (le : bytes) (n : nat) : nat :=
  match n with
  | S ((S _) as k) => if nth k le 0 =? 0 then trim_zeros le k else n
  | _ => n
  end.
(** The push of the height.  [le] has eight bytes: for a height with the top
    bit set [le[n] = 0] would write past its end. *)
Definition height_push (h : Z) : outcome bytes :=
  if h =? 0 then Done [0x00]
  else
    let le := le_bytes 8 (u64 h) in
    let n := trim_zeros le 8 in
    if negb (Z.land (nth (n - 1) le 0) 0x80 =? 0) then
      if (n =? 8)%nat then Undef
      else Done (u8 (Z.of_nat (S n)) :: take (S n) (<[n := 0]> le))
    else Done (u8 (Z.of_nat n) :: take n le).
Definition MINER_DATA : bytes := string_bytes "CDX Miner".
Definition coinbase_script (h : Z) : outcome bytes :=
  push ← height_push h;
  Done (push ++ [0x04; 0x00; 0x00; 0x00; 0x00] ++ [u8 (Z.of_nat (length MINER_DATA))] ++ MINER_DATA).

Section Template.
Context {ossl : OpenSSL}.

(** The loop over the pool's transactions, with [txs] and [fees] as state. *)
Fixpoint select_txs (view : CCoinsView) (height : Z) (pool : list CTransaction)
    (txs : list CTransaction) (fees : Z) : list CTransaction * Z :=
  match pool with
  | [] => (txs, fees)
  | tx :: r =>
      match CheckTxInputs tx view height with
      | Err _ => select_txs view height r txs fees
      | Ok fee =>
          let fees := fees +i fee in
          let txs := txs ++ [tx] in
          if (500 <=? length txs)%nat then (txs, fees) else select_txs view height r txs fees
      end
  end.

(** [minerHash]: an uninitialised array ([garbage]) unless the address
    decodes; an address that does not decode to the network's version only
    sets its first byte. *)
Definition miner_hash (garbage : bytes) (minerAddress : list ascii) (versionByte : Z) : bytes :=
  match DecodeAddress minerAddress with
  | None => 0 :: tail garbage
  | Some (ver, hash) => if ver =? versionByte then hash else 0 :: tail hash
  end.

Definition coinbase_tx (script : bytes) (value : Z) (minerHash : bytes) : CTransaction := {|
  tx_version := 1;
  tx_vin := [{| in_prevout := {| op_hash := zero; op_n := 0xffffffff |};
                in_scriptSig := script; in_sequence := 0xffffffff |}];
  tx_vout := [{| out_value := value; out_scriptPubKey := BuildP2PKHScript minerHash |}];
  tx_lockTime := 0 |}.

(** The block and [feesOut]. *)
Definition CreateCandidateBlock (garbage : bytes) (height bits timestamp : Z) (prevHash : uint256)
    (mempool : CTxMemPool) (view : CCoinsView) (minerAddress : list ascii) (versionByte : Z) : outcome (CBlock * Z) :=
  let minerHash := miner_hash garbage minerAddress versionByte in
  cbScript ← coinbase_script height;
  let subsidy := GetBlockSubsidy height in
  let '(txs, fees) := select_txs view height (GetTxs mempool) [] 0 in
  let coinbase := coinbase_tx cbScript (subsidy +i fees) minerHash in
  let vtx := coinbase :: txs in
  Done ({| blk_header := {|
             hdr_version := 1; hdr_prevBlockHash := prevHash;
             hdr_merkleRoot := default zero (ComputeMerkleRoot vtx);
             hdr_timestamp := timestamp; hdr_bits := bits; hdr_nonce := 0 |};
           blk_vtx := vtx |}, fees).

End Template.

(** * The miner object *)

Record CMiner := {
  m_running : bool; m_stopRequested : bool; m_totalHashes : Z; m_blocksFound : Z;
  m_lastHeightMined : Z; m_immatureReward : Z; m_maturedReward : Z; m_miningAddress : list ascii; m_miningVersion : Z }.
Definition new_miner : CMiner := {|
  m_running := false; m_stopRequested := false; m_totalHashes := 0; m_blocksFound := 0;
  m_lastHeightMined := -1; m_immatureReward := 0; m_maturedReward := 0; m_miningAddress := []; m_miningVersion := 0x1E |}.
Definition SetMiningAddress (m : CMiner) (addr : list ascii) (versionByte : Z) : CMiner := {|
  m_running := m_running m; m_stopRequested := m_stopRequested m; m_totalHashes := m_totalHashes m;
  m_blocksFound := m_blocksFound m; m_lastHeightMined := m_lastHeightMined m;
  m_immatureReward := m_immatureReward m; m_maturedReward := m_maturedReward m;
  m_miningAddress := addr; m_miningVersion := versionByte |}.
Definition set_flags (m : CMiner) (running stopRequested : bool) : CMiner := {|
  m_running := running; m_stopRequested := stopRequested; m_totalHashes := m_totalHashes m;
  m_blocksFound := m_blocksFound m; m_lastHeightMined := m_lastHeightMined m;
  m_immatureReward := m_immatureReward m; m_maturedReward := m_maturedReward m;
  m_miningAddress := m_miningAddress m; m_miningVersion := m_miningVersion m |}.
Definition MinerStop (m : CMiner) : CMiner := set_flags m (m_running m) true.

(** [Start] and the thread it starts: [RunLoop] sets [running], waits for the
    stop request, and clears it. *)
Definition MinerStart (m : CMiner) : CMiner := if m_running m then m else set_flags m (m_running m) false.
Definition RunLoop_begin (m : CMiner) : CMiner := set_flags m true (m_stopRequested m).
Definition RunLoop_end (m : CMiner) : option CMiner :=
  if m_stopRequested m then Some (set_flags m false (m_stopRequested m)) else None.

Record MiningStatus := {
  ms_mining : bool; ms_hashesPerSec : Z; ms_hashCount : Z; ms_lastBlockHeight : Z; ms_blockReward : Z;
  ms_miningAddress : list ascii; ms_blocksFound : Z; ms_immatureReward : Z; ms_maturedReward : Z }.
Definition GetStatus (m : CMiner) : MiningStatus := {|
  ms_mining := m_running m; ms_hashesPerSec := 0; ms_hashCount := m_totalHashes m; ms_lastBlockHeight := m_lastHeightMined m;
  ms_blockReward := GetBlockSubsidy (if m_lastHeightMined m >=? 0 then m_lastHeightMined m else 0);
  ms_miningAddress := m_miningAddress m; ms_blocksFound := m_blocksFound m;
  ms_immatureReward := m_immatureReward m; ms_maturedReward := m_maturedReward m |}.

(** * Lemmas *)

(** ** The nonce search *)

Lemma with_nonce_with_nonce h m n : with_nonce (with_nonce h m) n = with_nonce h n.
Proof. done. Qed.

Lemma set_nonce_header h n : set_nonce_bytes (SerializeBlockHeader h) n = SerializeBlockHeader (with_nonce h n).
Proof.
  unfold set_nonce_bytes. rewrite (drop_ge (SerializeBlockHeader h)) by (rewrite length_header; lia).
  unfold SerializeBlockHeader, with_nonce. cbn [hdr_version hdr_prevBlockHash hdr_merkleRoot hdr_timestamp hdr_bits hdr_nonce].
  rewrite app_nil_r, !app_assoc. rewrite take_app_length'; [done|].
  rewrite !length_app. unfold WriteU32, WriteUint256. rewrite !length_le_bytes, !length_getBytesLE. done.
Qed.

Section PowFacts.
Context {ossl : OpenSSL}.

Definition meets (h : CBlockHeader) (target : uint256) (n : Z) : bool := leb (HeaderHash (with_nonce h n)) target.

Lemma nonce_loop_spec stop target h : forall k nonce m, 0 <= nonce < 2 ^ 32 -> Z.of_nat k + nonce = 2 ^ 32 ->
  exists r, nonce_loop k stop target (SerializeBlockHeader (with_nonce h m)) nonce = Some r /\
  match r with
  | Some n => nonce <= n < 2 ^ 32 /\ meets h target n = true /\
              forall n', nonce <= n' < n -> meets h target n' = false
  | None => (exists s, nonce <= s < 2 ^ 32 /\ stop s = true) \/
            (forall n', nonce <= n' < 2 ^ 32 -> meets h target n' = false)
  end.
Proof.
  induction k as [|k IH]; intros nonce m Hn Hk; [lia|]. cbn [nonce_loop].
  destruct (stop nonce) eqn:Es.
  { eexists. split; [done|]. left. exists nonce. split; [lia|done]. }
  rewrite set_nonce_header, with_nonce_with_nonce. change (SHA256d (SerializeBlockHeader ?x)) with (HeaderHash x).
  fold (meets h target nonce). destruct (meets h target nonce) eqn:Em.
  { eexists. split; [done|]. cbn beta. split_and!; [lia|lia|done|lia]. }
  cbv zeta. destruct (decide (nonce + 1 = 2 ^ 32)) as [He|He].
  - unfold u32. rewrite He, Z.mod_same by done. eexists. split; [done|]. right.
    intros n' Hn'. by replace n' with nonce by lia.
  - rewrite u32_id by (unfold is_u32; lia). destruct (Z.eqb_spec (nonce + 1) 0) as [?|_]; [lia|].
    destruct (IH (nonce + 1) nonce) as (r & Er & Hr); [lia|lia|]. exists r. split; [exact Er|].
    assert (forall n' b, nonce <= n' < b -> n' = nonce \/ nonce + 1 <= n' < b) as Hc by lia.
    destruct r as [n|].
    + destruct Hr as (H1 & H2 & H3). split_and!; [lia|lia|done|].
      intros n' [->|?]%Hc; [done|]. by apply H3.
    + destruct Hr as [(s & Hs & Hst)|Hall]; [left; exists s; split; [lia|done]|right].
      intros n' [->|?]%Hc; [done|]. by apply Hall.
Qed.

Lemma CheckPoW_meets h bits n : isZero (TargetFromBits bits) = false ->
  CheckPoW (HeaderHash (with_nonce h n)) bits = meets h (TargetFromBits bits) n.
Proof. unfold CheckPoW, CheckProofOfWork, meets. by intros ->. Qed.

End PowFacts.

(** ** The height push *)

Lemma trim_zeros_spec le n : (1 <= n)%nat -> (1 <= trim_zeros le n <= n)%nat /\
  forall i, (trim_zeros le n <= i < n)%nat -> nth i le 0 = 0.
Proof.
  induction n as [|n IH]; intros Hn; [lia|]. destruct n as [|n]; [cbn; split; lia|].
  change (trim_zeros le (S (S n))) with (if nth (S n) le 0 =? 0 then trim_zeros le (S n) else S (S n)).
  destruct (Z.eqb_spec (nth (S n) le 0) 0) as [Hz|Hz]; [|split; lia].
  destruct IH as [H1 H2]; [lia|]. split; [lia|]. intros i Hi.
  destruct (decide (i = S n)) as [->|]; [done|]. apply H2. lia.
Qed.

Lemma le_read_zeros bs : Forall (fun b => b = 0) bs -> le_read bs = 0.
Proof. induction 1 as [|b bs -> _ IH]; [done|]. rewrite le_read_cons, IH by (unfold is_u8; lia). lia. Qed.

Lemma le_read_take_zeros n : forall bs, bytes_wf bs ->
  (forall i, (n <= i < length bs)%nat -> nth i bs 0 = 0) -> le_read (take n bs) = le_read bs.
Proof.
  induction n as [|n IH]; intros bs Hw Hz.
  - symmetry. apply le_read_zeros, Forall_lookup_2. intros i b Hb. rewrite <- (Hz i).
    + symmetry. by apply nth_lookup_Some.
    + apply lookup_lt_Some in Hb. lia.
  - destruct bs as [|b bs]; [done|]. apply Forall_cons in Hw as [Hb Hw]. cbn [take firstn].
    rewrite !le_read_cons by done. rewrite IH; [done|done|]. intros i Hi. apply (Hz (S i)). cbn [length]. lia.
Qed.

Lemma land_128_small x : 0 <= x < 128 -> Z.land x 0x80 = 0.
Proof.
  intros Hx. assert (forallb (fun k => Z.land (Z.of_nat k) 0x80 =? 0) (seq 0 128) = true) as H by done.
  rewrite forallb_forall in H. apply Z.eqb_eq. rewrite <- (Z2Nat.id x) by lia. apply H, in_seq. lia.
Qed.

(** The push is the number of bytes and the height in little-endian order. *)
Lemma height_push_spec h : 0 <= h < 2 ^ 63 -> exists m, (m <= 8)%nat /\
  height_push h = Done (Z.of_nat m :: take m (le_bytes 8 h)) /\ le_read (take m (le_bytes 8 h)) = h.
Proof.
  intros Hh. unfold height_push. destruct (Z.eqb_spec h 0) as [->|Hne]; [by exists 0%nat; split; [lia|]|].
  rewrite (u64_id h) by (unfold is_u64; lia). set (le := le_bytes 8 h).
  assert (length le = 8%nat) as Hl by apply length_le_bytes.
  assert (le_read le = h) as Hr by (apply le_bytes_read_u64; unfold is_u64; lia).
  destruct (trim_zeros_spec le 8) as [Hn Hz]; [lia|]. set (n := trim_zeros le 8) in *.
  assert (forall m, (n <= m)%nat -> le_read (take m le) = h) as Hread.
  { intros m Hm. rewrite le_read_take_zeros; [done|apply le_bytes_wf|]. intros i Hi. apply Hz. lia. }
  assert (forall m, (m <= 8)%nat -> u8 (Z.of_nat m) = Z.of_nat m) as Hu by (intros; apply u8_id; unfold is_u8; lia).
  destruct (Z.eqb_spec (Z.land (nth (n - 1) le 0) 0x80) 0) as [Hb|Hb]; cbn [negb].
  - exists n. rewrite Hu by lia. split_and!; [lia|done|by apply Hread].
  - destruct (Nat.eqb_spec n 8) as [E|E].
    + exfalso. apply Hb. rewrite E. change (nth (8 - 1) le 0) with (u8 (Z.shiftr h (8 * 7))).
      apply land_128_small. rewrite Z.shiftr_div_pow2 by lia. rewrite u8_id; unfold is_u8;
        (split; [apply Z.div_pos; lia|apply Z.div_lt_upper_bound; lia]).
    + exists (S n). rewrite Hu by lia. split_and!; [lia| |apply Hread; lia].
      assert (<[n:=0]> le = le) as ->; [|done]. apply list_insert_id.
      rewrite <- (Hz n) by lia. destruct (nth_lookup_or_length le n 0); [done|lia].
Qed.

Lemma coinbase_script_spec h : 0 <= h < 2 ^ 63 -> exists m, (m <= 8)%nat /\
  coinbase_script h = Done ((Z.of_nat m :: take m (le_bytes 8 h)) ++
    [0x04; 0x00; 0x00; 0x00; 0x00] ++ [u8 (Z.of_nat (length MINER_DATA))] ++ MINER_DATA) /\
  le_read (take m (le_bytes 8 h)) = h.
Proof.
  intros Hh. destruct (height_push_spec h Hh) as (m & Hm & E & Hr). exists m. split_and!; [done| |done].
  unfold coinbase_script. by rewrite E.
Qed.

Lemma coinbase_script_inj h h' s : 0 <= h < 2 ^ 63 -> 0 <= h' < 2 ^ 63 ->
  coinbase_script h = Done s -> coinbase_script h' = Done s -> h = h'.
Proof.
  intros Hh Hh' H H'. destruct (coinbase_script_spec h Hh) as (m & Hm & E & Hr).
  destruct (coinbase_script_spec h' Hh') as (m' & Hm' & E' & Hr'). rewrite E in H. rewrite E' in H'.
  injection H as Es. injection H' as Es'. rewrite <- Es in Es'. cbn [app] in Es'. injection Es' as Em Et.
  apply Nat2Z.inj in Em as ->. apply app_inj_1 in Et as [Et _]; [congruence|].
  by rewrite !length_take, !length_le_bytes.
Qed.

Lemma coinbase_script_length h s : 0 <= h < 2 ^ 63 -> coinbase_script h = Done s -> (16 <= length s <= 24)%nat.
Proof.
  intros Hh H. destruct (coinbase_script_spec h Hh) as (m & Hm & E & _). rewrite E in H. injection H as <-.
  cbn [length]. rewrite length_app, length_take, length_le_bytes. cbn [length].
  change (length MINER_DATA) with 9%nat. lia.
Qed.

(** ** The template *)

Section TemplateFacts.
Context {ossl : OpenSSL}.

(** What [CheckTxInputs] asks of a valid transaction, and the fee. *)
Definition spendable (view : CCoinsView) (h : Z) (tx : CTransaction) : Prop :=
  IsCoinBase tx = false /\ Forall (input_authorised tx view h) (indexed (tx_vin tx)) /\
  in_sum view tx <= MAX_MONEY /\ out_sum tx <= in_sum view tx.
Definition tx_fee (view : CCoinsView) (tx : CTransaction) : Z := in_sum view tx - out_sum tx.

Lemma CheckTxInputs_spendable view h tx fee : view_ok view -> tx_valid tx ->
  CheckTxInputs tx view h = Ok fee <-> spendable view h tx /\ fee = tx_fee view tx.
Proof. intros Hv Ht. rewrite CheckTxInputs_spec by done. unfold spendable, tx_fee. tauto. Qed.

Lemma select_txs_spec view h l : view_ok view -> Forall tx_valid l -> forall acc fees, (length acc < 500)%nat ->
  exists sel, select_txs view h l acc fees = (acc ++ sel, foldl i64_add fees (map (tx_fee view) sel)) /\
    sel `sublist_of` l /\ Forall (spendable view h) sel /\ (length (acc ++ sel) <= 500)%nat /\
    ((length (acc ++ sel) < 500)%nat -> forall tx, tx ∈ l -> spendable view h tx -> tx ∈ sel).
Proof.
  intros Hv. induction 1 as [|tx l Ht Hl IH]; intros acc fees Ha; cbn [select_txs].
  - exists []. rewrite app_nil_r. split_and!; [done|constructor|constructor|lia|]. by intros _ tx ?%not_elem_of_nil.
  - pose proof (CheckTxInputs_spendable view h tx) as Hc.
    destruct (CheckTxInputs tx view h) as [fee|e] eqn:Ec.
    + destruct (proj1 (Hc fee Hv Ht) eq_refl) as [Hs ->]. cbv zeta. destruct (Nat.leb_spec 500 (length (acc ++ [tx]))) as [H5|H5].
      * exists [tx]. rewrite length_app in *. cbn [length] in *. split_and!; [done| |by constructor|lia|lia].
        apply sublist_skip, sublist_nil_l.
      * destruct (IH (acc ++ [tx]) (fees +i tx_fee view tx) H5) as (sel & E & Hsub & Hall & Hlen & Hmax).
        exists (tx :: sel). rewrite <- app_assoc in E, Hlen, Hmax. split_and!; [exact E|by apply sublist_skip|by constructor|done|].
        intros Hlt tx' [->|Hin]%elem_of_cons Hsp; [left|right; by apply Hmax].
    + destruct (IH acc fees Ha) as (sel & E & Hsub & Hall & Hlen & Hmax). exists sel.
      split_and!; [done|by apply sublist_cons|done|done|].
      intros Hlt tx' [->|Hin]%elem_of_cons Hsp; [|by apply Hmax]. exfalso.
      assert (Err e = Ok (tx_fee view tx)) by (by apply Hc). done.
Qed.

Definition spent (txs : list CTransaction) : list COutPoint := concat (map prevouts txs).

Lemma elem_of_spent o txs : o ∈ spent txs <-> exists tx, tx ∈ txs /\ o ∈ prevouts tx.
Proof.
  unfold spent. rewrite list_elem_of_In, in_concat. setoid_rewrite in_map_iff. setoid_rewrite <- list_elem_of_In.
  split; [intros (l & (tx & <- & ?) & ?); eauto|intros (tx & ? & ?); eauto].
Qed.

Lemma NoDup_spent_sublist l1 l2 : l1 `sublist_of` l2 -> NoDup (spent l2) -> NoDup (spent l1).
Proof.
  unfold spent. induction 1 as [|x l1 l2 Hs IH|x l1 l2 Hs IH]; cbn [map concat]; [done| |];
    rewrite !NoDup_app; intros (H1 & H2 & H3); [|by apply IH].
  split_and!; [done| |by apply IH]. intros o Ho Hin. apply (H2 o Ho).
  apply elem_of_spent in Hin as (tx & Htx & Hp). apply elem_of_spent. exists tx. split; [|done].
  by eapply elem_of_sublist.
Qed.

Lemma NoDup_spent_entries pool : pool_inv pool -> forall l, NoDup (map fst l) ->
  (forall id e, (id, e) ∈ l -> mapTx pool !! id = Some e) -> NoDup (spent (map (fun kv => e_tx kv.2) l)).
Proof.
  intros Hp. induction l as [|[id e] l IH]; intros Hn Hl; cbn [map fst snd]; [apply NoDup_nil_2|].
  cbn [map fst] in Hn. apply NoDup_cons in Hn as [Hid Hn]. unfold spent. cbn [map concat]. apply NoDup_app. split_and!.
  - eapply (pi_id _ Hp). apply Hl. left.
  - intros o Ho Hin. apply elem_of_spent in Hin as (tx & Htx & Hp2). apply list_elem_of_fmap in Htx as ([id2 e2] & -> & H2).
    apply Hid. assert (id = id2) as ->.
    { eapply (pool_no_conflict pool id id2 e e2 o); [done|apply Hl; left|apply Hl; by right|done|done]. }
    apply list_elem_of_fmap. by exists (id2, e2).
  - apply IH; [done|]. intros id' e' H'. apply Hl. by right.
Qed.

Lemma NoDup_spent_pool pool : pool_inv pool -> NoDup (spent (GetTxs pool)).
Proof.
  intros Hp. apply (NoDup_spent_entries pool Hp); [|intros id e; apply elem_of_entries].
  unfold entries. change (map fst ?l) with (l.*1). rewrite merge_sort_Permutation. apply NoDup_fst_map_to_list.
Qed.

(** Inputs that a view has not touched stay authorised. *)
Lemma spendable_ext view v h tx : (forall o, o ∈ prevouts tx -> v !! o = view !! o) ->
  spendable view h tx -> spendable v h tx /\ in_sum v tx = in_sum view tx.
Proof.
  intros Ho (Hc & Ha & Hm & Hle).
  assert (forall i, i ∈ tx_vin tx -> v !! in_prevout i = view !! in_prevout i) as Hi.
  { intros i Hi. apply Ho. apply list_elem_of_fmap. by exists i. }
  assert (in_sum v tx = in_sum view tx) as Hsum.
  { unfold in_sum. f_equal. apply map_ext_in. intros i Hin%list_elem_of_In. unfold in_value. by rewrite Hi. }
  split; [|done]. unfold spendable. rewrite Hsum. split_and!; [done| |done|done].
  apply Forall_forall. intros [n i] Hin. eapply Forall_forall in Ha; [|exact Hin].
  destruct Ha as (c & Hcoin & Ha). exists c. cbn [fst snd] in *. rewrite Hi; [done|].
  unfold indexed in Hin. apply elem_of_lookup_imap_1 in Hin as (k & x & [= -> ->] & Hk). by eapply list_elem_of_lookup_2.
Qed.

Lemma connect_selected view h txs : forall v fees, view_ok v -> Forall tx_valid txs -> Forall (spendable view h) txs ->
  NoDup (spent txs) -> (forall o, o ∈ spent txs -> v !! o = view !! o) ->
  (forall o tx, o ∈ spent txs -> tx ∈ txs -> op_hash o <> GetTxID tx) ->
  exists v', res_fold (connect_tx h) (v, fees) txs = Ok (v', foldl i64_add fees (map (tx_fee view) txs)).
Proof.
  induction txs as [|tx txs IH]; intros v fees Hv Ht Hs Hn Hag Hfr; cbn [res_fold map foldl]; [by exists v|].
  apply Forall_cons in Ht as [Ht Hts]. apply Forall_cons in Hs as [Hs Hss].
  unfold spent in Hn. cbn [map concat] in Hn. apply NoDup_app in Hn as (Hn1 & Hn2 & Hn3).
  assert (forall o, o ∈ prevouts tx -> o ∈ spent (tx :: txs)) as Hhd.
  { intros o Ho. unfold spent. cbn [map concat]. apply elem_of_app. by left. }
  assert (forall o, o ∈ spent txs -> o ∈ spent (tx :: txs)) as Htl.
  { intros o Ho. unfold spent. cbn [map concat]. apply elem_of_app. by right. }
  destruct (spendable_ext view v h tx) as [(Hc & Ha & Hm & Hle) Hsum]; [by intros; apply Hag, Hhd|done|].
  rewrite (proj2 (connect_tx_spec h v fees tx (tx_effect h v tx, i64_add fees (in_sum v tx - out_sum tx)) Hv)) by done.
  cbn [mbind res_bind]. unfold tx_fee at 1. rewrite Hsum. apply IH; [by apply tx_effect_supply|done|done|done| |].
  - intros o Ho. unfold tx_effect. rewrite lookup_add_outputs_ne by (apply Hfr; [by apply Htl|left]).
    rewrite lookup_spend_all, bool_decide_false; [by apply Hag, Htl|]. intros Hin. by apply (Hn2 o Hin).
  - intros o tx' Ho Hin. apply Hfr; [by apply Htl|by right].
Qed.

End TemplateFacts.

Lemma coinbase_tx_valid script value hash : 0 <= value <= MAX_MONEY -> (2 <= length script <= 100)%nat ->
  tx_valid (coinbase_tx script value hash) /\ out_sum (coinbase_tx script value hash) = value /\
  IsCoinBase (coinbase_tx script value hash) = true.
Proof.
  intros Hv Hs. assert (out_sum (coinbase_tx script value hash) = value) as Ho by (unfold out_sum; cbn; lia).
  split_and!; [|done|done]. unfold tx_valid. rewrite Ho.
  assert (IsCoinBase (coinbase_tx script value hash) = true) as -> by done.
  cbn [coinbase_tx tx_vin tx_vout map head from_option in_scriptSig length].
  split_and!; try done; [apply NoDup_singleton|by apply Forall_singleton|lia|lia|lia].
Qed.

Lemma ComputeMerkleRoot_total `{OpenSSL} txs : is_Some (ComputeMerkleRoot txs).
Proof.
  unfold ComputeMerkleRoot, ComputeMerkleRoot_hashes. destruct (map GetTxID txs) eqn:E; [done|].
  apply merkle_loop_total; done.
Qed.

Lemma const_bytes_wf bs : forallb (fun b => (0 <=? b) && (b <? 256)) bs = true -> bytes_wf bs.
Proof.
  rewrite forallb_forall. intros H. apply Forall_forall. intros b Hb%list_elem_of_In%H.
  unfold is_u8. lia.
Qed.

Section CandidateFacts.
Context {ossl : OpenSSL}.

(** A block of spendable, conflict-free transactions with a matching merkle
    root and a coinbase within subsidy and fees passes [CheckBlock]. *)
Lemma assembled_block_ok p header cb sel height view v1 fees : 0 <= height -> 0 <= fees <= MAX_MONEY ->
  tx_valid cb -> IsCoinBase cb = true -> out_sum cb <= GetBlockSubsidy height + fees ->
  Forall (fun tx => IsCoinBase tx = false) sel -> (length sel <= 500)%nat ->
  ComputeMerkleRoot (cb :: sel) = Some (hdr_merkleRoot header) ->
  res_fold (connect_tx height) (view, 0) sel = Ok (v1, fees) ->
  CheckBlock {| blk_header := header; blk_vtx := cb :: sel |} height view p =
    Ok (<[{| op_hash := GetTxID cb; op_n := 0 |} := coinbase_coin height cb]> v1, fees).
Proof.
  intros Hh Hf Hv Hc Ho Hs Hl Hm Hcon. unfold CheckBlock. cbn [blk_vtx]. rewrite Hc. cbn [negb fail_if mbind res_bind].
  rewrite (proj2 (existsb_false IsCoinBase sel)) by done. cbn [fail_if mbind res_bind].
  rewrite (proj2 (gtb_false _ _)) by (cbn [length]; unfold MAX_TX_COUNT_PER_BLOCK; lia). cbn [fail_if mbind res_bind].
  unfold CheckMerkleRoot. cbn [blk_vtx blk_header].
  rewrite Hm, eqb_spec, bool_decide_true by done. cbn [negb fail_if mbind res_bind]. rewrite Hcon. cbn [mbind res_bind].
  by rewrite (proj2 (connect_coinbase_spec height v1 fees cb _ Hh Hf) (conj Hv (conj Ho eq_refl))).
Qed.

Lemma pool_txs_valid pool : pool_reachable pool ->
  Forall tx_valid (GetTxs pool) /\ Forall (fun tx => IsCoinBase tx = false) (GetTxs pool).
Proof.
  intros Hr. apply Forall_and, Forall_forall. intros tx Htx. apply list_elem_of_fmap in Htx as ([id e] & -> & He).
  eapply pool_reachable_valid; [done|]. by apply elem_of_entries.
Qed.

Lemma Forall_sublist {A} (P : A -> Prop) l1 l2 : l1 `sublist_of` l2 -> Forall P l2 -> Forall P l1.
Proof. intros Hs H. apply Forall_forall. intros x Hx. eapply Forall_forall in H; [done|]. by eapply elem_of_sublist. Qed.

(** The selected transactions connect to the view, with exact fees. *)
Lemma selected_connect pool view height sel : view_ok view -> supply view <= MAX_MONEY -> pool_reachable pool ->
  (forall o tx, is_Some (view !! o) -> tx ∈ GetTxs pool -> op_hash o <> GetTxID tx) ->
  sel `sublist_of` GetTxs pool -> Forall (spendable view height) sel ->
  let fees := foldl i64_add 0 (map (tx_fee view) sel) in
  exists v1, res_fold (connect_tx height) (view, 0) sel = Ok (v1, fees) /\ 0 <= fees <= supply view.
Proof.
  intros Hv Hsup Hr Hfresh Hsub Hsp fees. destruct (pool_txs_valid pool Hr) as [Hval _].
  destruct (connect_selected view height sel view 0) as [v1 Hcon]; [done|by eapply Forall_sublist|done| |done| |].
  { eapply NoDup_spent_sublist; [done|]. by apply NoDup_spent_pool, pool_reachable_inv. }
  { intros o tx Ho Htx. apply Hfresh; [|by eapply elem_of_sublist]. apply elem_of_spent in Ho as (tx' & Htx' & Ho).
    eapply Forall_forall in Hsp; [|exact Htx']. destruct Hsp as (_ & Ha & _). apply authorised_exists in Ha.
    apply list_elem_of_fmap in Ho as (i & -> & Hi). by eapply Forall_forall in Ha. }
  exists v1. split; [done|]. destruct (connect_txs_inv height view sel _ Hv Hsup Hcon) as (Hv1 & Hf0 & Hf1).
  cbn [fst snd] in *. pose proof (supply_nonneg _ Hv1). fold fees in Hf0, Hf1. lia.
Qed.

Lemma coinbase_tx_wf script value hash : is_i64 value -> bytes_wf script -> (length script <= 100)%nat ->
  bytes_wf hash -> tx_wf (coinbase_tx script value hash).
Proof.
  intros Hv Hs Hl Hh. unfold tx_wf, coinbase_tx. cbn [tx_version tx_vin tx_vout tx_lockTime length].
  assert (script_wf (BuildP2PKHScript hash)) as Hp.
  { unfold BuildP2PKHScript. split; [|rewrite !length_app, length_take; cbn [length]; lia].
    apply Forall_app_2; [by apply const_bytes_wf|]. apply Forall_app_2; [by apply Forall_take|by apply const_bytes_wf]. }
  assert (script_wf script) as Hsc by (split; [done|lia]).
  split; [done|]. split; [by apply Forall_singleton|]. split; [by apply Forall_singleton|done].
Qed.

Lemma coinbase_script_wf h s : 0 <= h < 2 ^ 63 -> coinbase_script h = Done s -> bytes_wf s.
Proof.
  intros Hh H. destruct (coinbase_script_spec h Hh) as (m & Hm & E & _). rewrite E in H. injection H as <-.
  constructor; [unfold is_u8; lia|]. apply Forall_app_2; [apply Forall_take, le_bytes_wf|].
  by apply const_bytes_wf.
Qed.

(** The template of the miner, block and contents. *)
Lemma candidate_block_ok (p : ChainParams) (garbage : bytes) (height bits timestamp : Z)
    (prevHash : uint256) (pool : CTxMemPool) (view : CCoinsView) (addr : list ascii) (ver : Z) :
  0 <= height < 2 ^ 63 -> view_ok view -> supply view <= subsidy_sum (Z.to_nat height) -> pool_reachable pool ->
  (forall o tx, is_Some (view !! o) -> tx ∈ GetTxs pool -> op_hash o <> GetTxID tx) ->
  exists blk fees view' cb txs,
    CreateCandidateBlock garbage height bits timestamp prevHash pool view addr ver = Done (blk, fees) /\
    CheckBlock blk height view p = Ok (view', fees) /\
    blk_vtx blk = cb :: txs /\ out_sum cb = GetBlockSubsidy height + fees /\
    (forall tx, tx ∈ txs -> tx ∈ GetTxs pool /\ is_ok (CheckTxInputs tx view height) = true) /\
    (length txs <= 500)%nat /\
    ((length txs < 500)%nat ->
       forall tx, tx ∈ GetTxs pool -> is_ok (CheckTxInputs tx view height) = true -> tx ∈ txs).
Proof.
  intros Hh Hv Hsup Hr Hfresh. destruct (pool_txs_valid pool Hr) as [Hval Hcb].
  destruct (coinbase_script_spec height Hh) as (m & _ & Es & _).
  destruct (coinbase_script height) as [s|] eqn:Escr; [|done]. clear Es.
  destruct (select_txs_spec view height (GetTxs pool) Hv Hval [] 0) as (sel & Esel & Hsub & Hsp & Hlen & Hmax); [cbn; lia|].
  cbn [app] in *. pose proof (subsidy_sum_max (Z.to_nat height)) as Hmx.
  destruct (selected_connect pool view height sel Hv ltac:(lia) Hr Hfresh Hsub Hsp) as (v1 & Hcon & Hf).
  set (fees := foldl i64_add 0 (map (tx_fee view) sel)) in *.
  pose proof (subsidy_sum_max (S (Z.to_nat height))) as Hmx'. rewrite subsidy_sum_S, Z2Nat.id in Hmx' by lia.
  pose proof (subsidy_range height ltac:(lia)) as Hsr. pose proof MAX_MONEY_i64 as HM.
  set (value := GetBlockSubsidy height + fees). set (hash := miner_hash garbage addr ver).
  destruct (coinbase_tx_valid s value hash) as (Hct & Hco & Hcc); [unfold value; lia|apply coinbase_script_length in Escr; [lia|done]|].
  set (cb := coinbase_tx s value hash) in *. destruct (ComputeMerkleRoot_total (cb :: sel)) as [r Er].
  eexists {| blk_header := {| hdr_version := 1; hdr_prevBlockHash := prevHash; hdr_merkleRoot := r;
      hdr_timestamp := timestamp; hdr_bits := bits; hdr_nonce := 0 |}; blk_vtx := cb :: sel |}, fees, _, cb, sel.
  split_and!; [|apply assembled_block_ok|reflexivity|done| |done|]; try done; try lia.
  - unfold CreateCandidateBlock. rewrite Escr. cbn [mbind outcome_bind]. rewrite Esel.
    unfold i64_add. rewrite i64_id by (unfold is_i64; lia). fold value hash cb. by rewrite Er.
  - by eapply Forall_sublist.
  - intros tx Htx. split; [by eapply elem_of_sublist|]. eapply Forall_forall in Hsp; [|exact Htx].
    eapply Forall_forall in Hval; [|by eapply elem_of_sublist].
    by rewrite (proj2 (CheckTxInputs_spendable view height tx _ Hv Hval) (conj Hsp eq_refl)).
  - intros Hlt tx Htx Hok. apply Hmax; [done|done|]. eapply Forall_forall in Hval; [|exact Htx].
    destruct (CheckTxInputs tx view height) as [fee|] eqn:Ec; [|done].
    by apply CheckTxInputs_spendable in Ec as [? _].
Qed.

End CandidateFacts.

(** * Properties *)

(** C17: [MineBlockHeader] always returns, within [2^32] rounds.  It returns
    [true] with the least nonce whose header meets the target of the bits; it
    returns [false] only when the target is zero, the flag asked it to stop, or
    no nonce meets the target. *)
Theorem mine_header_correct `{OpenSSL} (header : CBlockHeader) (bits : Z) (stopFlag : Z -> bool) :
  exists found header', MineBlockHeader header bits stopFlag = Some (found, header') /\
  let mined n := with_nonce (with_bits header bits) n in
  (found = true -> exists n, is_u32 n /\ header' = mined n /\ CheckPoW (HeaderHash header') bits = true /\
     forall n', 0 <= n' < n -> CheckPoW (HeaderHash (mined n')) bits = false) /\
  (found = false -> (exists n, is_u32 n /\ stopFlag n = true) \/
     forall n, is_u32 n -> CheckPoW (HeaderHash (mined n)) bits = false).
Proof.
  unfold MineBlockHeader. destruct (isZero (TargetFromBits bits)) eqn:Ez.
  { eexists _, _. split; [done|]. split; [done|]. intros _. right. intros n _.
    unfold CheckPoW, CheckProofOfWork. by rewrite Ez. }
  set (hd := with_bits header bits).
  assert (Z.of_nat max_rounds + 0 = 2 ^ 32) as Hk by (unfold max_rounds; lia).
  generalize dependent max_rounds. intros k Hk.
  destruct (nonce_loop_spec stopFlag (TargetFromBits bits) hd k 0 (hdr_nonce hd)) as (r & E & Hr); [lia|done|].
  change (with_nonce hd (hdr_nonce hd)) with hd in E. rewrite E. clear E.
  destruct r as [n|]; (eexists _, _; split; [done|]; split; [|try done]); [|done|].
  - intros _. destruct Hr as (Hn & Hm & Hl). exists n. split_and!; [exact Hn|done|by rewrite CheckPoW_meets|].
    intros n' Hn'. rewrite CheckPoW_meets by done. by apply Hl.
  - intros _. destruct Hr as [(s & Hs & Hst)|Hall]; [left; by exists s|right].
    intros n Hn. rewrite CheckPoW_meets by done. by apply Hall.
Qed.

(** C9: the miner's template is a valid block: at a height whose view holds at
    most the subsidies below it, and when no transaction of the pool has an
    unspent output under its own id already, [CreateCandidateBlock] returns a
    block that [CheckBlock] accepts, with the fees it reports.  The coinbase
    pays exactly the subsidy plus the fees, and the other transactions are
    spendable transactions of the pool: at most 500, and all of them when there
    are fewer. *)
Theorem candidate_block_valid `{OpenSSL} (p : ChainParams) (garbage : bytes) (height bits timestamp : Z)
    (prevHash : uint256) (pool : CTxMemPool) (view : CCoinsView) (addr : list ascii) (ver : Z) :
  0 <= height < 2 ^ 63 -> view_ok view -> supply view <= subsidy_sum (Z.to_nat height) -> pool_reachable pool ->
  (forall o tx, is_Some (view !! o) -> tx ∈ GetTxs pool -> op_hash o <> GetTxID tx) ->
  exists blk fees view' cb txs,
    CreateCandidateBlock garbage height bits timestamp prevHash pool view addr ver = Done (blk, fees) /\
    CheckBlock blk height view p = Ok (view', fees) /\
    blk_vtx blk = cb :: txs /\ out_sum cb = GetBlockSubsidy height + fees /\
    (forall tx, tx ∈ txs -> tx ∈ GetTxs pool /\ is_ok (CheckTxInputs tx view height) = true) /\
    (length txs <= 500)%nat /\
    ((length txs < 500)%nat ->
       forall tx, tx ∈ GetTxs pool -> is_ok (CheckTxInputs tx view height) = true -> tx ∈ txs).
Proof. apply candidate_block_ok. Qed.

(** The coinbases of candidate blocks of different heights differ, so they have
    the same id only if their serializations are a collision of SHA-256d. *)
Theorem candidate_coinbase_unique `{OpenSSLLaws} (h h' v v' : Z) (hash hash' s s' : bytes) :
  0 <= h < 2 ^ 63 -> 0 <= h' < 2 ^ 63 -> is_i64 v -> is_i64 v' -> bytes_wf hash -> bytes_wf hash' ->
  coinbase_script h = Done s -> coinbase_script h' = Done s' -> h <> h' ->
  let c := SerializeTransaction (coinbase_tx s v hash) in let c' := SerializeTransaction (coinbase_tx s' v' hash') in
  c <> c' /\ (GetTxID (coinbase_tx s v hash) = GetTxID (coinbase_tx s' v' hash') -> SHA256d_bytes c = SHA256d_bytes c').
Proof.
  intros Hh Hh' Hv Hv' Hw Hw' Hs Hs' Hne c c'.
  pose proof (coinbase_script_length h s Hh Hs). pose proof (coinbase_script_length h' s' Hh' Hs').
  split.
  - intros E. apply serialize_tx_inj in E; [|apply coinbase_tx_wf; try done; [by eapply coinbase_script_wf; [|eassumption]|lia]..].
    injection E as -> _ _. apply Hne. by eapply (coinbase_script_inj h h' s').
  - intros Hid. unfold GetTxID in Hid. unfold c, c'. by rewrite <- !getBytesLE_SHA256d, Hid.
Qed.

(** ** Concrete instances: a block template at height 11 over a pool with one
    transaction. *)

#[local] Instance wit_mining_ossl : OpenSSL := toy_ossl.

Lemma mp_fresh o tx : is_Some (mp_view !! o) -> tx ∈ GetTxs mp_pool -> op_hash o <> GetTxID tx.
Proof.
  intros Ho Htx. assert (GetTxs mp_pool = [mp_tx]) as E by (vm_compute; reflexivity).
  rewrite E in Htx. apply list_elem_of_singleton in Htx as ->. clear E.
  assert (negb (eqb (U256 1 0 0 0) (GetTxID mp_tx)) && negb (eqb (U256 2 0 0 0) (GetTxID mp_tx)) = true) as H
    by (vm_compute; reflexivity).
  rewrite andb_true_iff, !negb_true_iff, !eqb_spec, !bool_decide_eq_false in H. destruct H as [H1 H2].
  unfold mp_view in Ho. rewrite lookup_insert_is_Some, lookup_singleton_is_Some in Ho.
  by destruct Ho as [<-|[_ <-]].
Qed.

Lemma candidate_block_valid_witness :
  exists blk fees view', CreateCandidateBlock [] 11 0x1d00ffff 1717300000 zero mp_pool mp_view [] 28 = Done (blk, fees) /\
    CheckBlock blk 11 mp_view TESTNET = Ok (view', fees).
Proof.
  destruct (candidate_block_valid TESTNET [] 11 0x1d00ffff 1717300000 zero mp_pool mp_view [] 28)
    as (blk & fees & view' & cb & txs & H1 & H2 & _).
  - lia.
  - exact mp_view_ok.
  - vm_compute. congruence.
  - exact mp_reachable.
  - exact mp_fresh.
  - exists blk, fees, view'. exact (conj H1 H2).
Defined.

Definition wit_script (h : Z) : bytes := match coinbase_script h with Done s => s | Undef => [] end.
(** Under the byte-sum digest a smaller value makes up for the height. *)
Lemma candidate_coinbase_unique_witness :
  SHA256d_bytes (SerializeTransaction (coinbase_tx (wit_script 7) 50 [])) = SHA256d_bytes (SerializeTransaction (coinbase_tx (wit_script 8) 49 [])).
Proof.
  refine (proj2 (candidate_coinbase_unique 7 8 50 49 [] [] (wit_script 7) (wit_script 8) _ _ _ _ _ _ _ _ _) _);
    [lia|lia|unfold is_i64; lia|unfold is_i64; lia|constructor|constructor|vm_compute; reflexivity|
     vm_compute; reflexivity|lia|vm_compute; reflexivity].
Defined.
