(* ===== verification/Protocol.v ===== *)
(** [p2p/protocol.cpp] and [p2p/sync.cpp]: message framing and the payloads of
    the peer-to-peer protocol.  A [std::string] is the list of its bytes. *)
From Stdlib Require Import Sorted.
From S2P Require Import Prelude UInt256 Crypto Transaction Block.
Import uint256.

(** * Framing *)

Definition MAX_MESSAGE_SIZE : Z := 4 * 1024 * 1024.
Definition MAX_INV_PER_MESSAGE : Z := 50000.
Definition PROTOCOL_VERSION : Z := 10001.
Definition MIN_PROTOCOL_VERSION : Z := 10001.

Record CNetMessage := { msg_command : bytes; msg_payload : bytes }.

Definition known_commands : list bytes := map string_bytes
  ["version"; "verack"; "addr"; "getaddr"; "inv"; "getdata"; "tx";
   "block"; "getblocks"; "getheaders"; "headers"; "ping"; "pong"]%string.
Definition IsKnownCommand (cmd : bytes) : bool := existsb (fun k => bool_decide (k = cmd)) known_commands.

Section Framing.
Context {ossl : OpenSSL}.

Definition BuildMessage (magic : Z) (command payload : bytes) : option bytes :=
  if (12 <? Z.of_nat (length command)) || (Z.of_nat (length payload) >? MAX_MESSAGE_SIZE) then None
  else Some (le_bytes 4 magic ++ (command ++ repeat 0 (12 - length command)) ++
             le_bytes 4 (u32 (Z.of_nat (length payload))) ++ take 4 (SHA256d_bytes payload) ++ payload).

(** [command.substr(0, command.find('\0'))] *)
Fixpoint strip_nul (s : bytes) : bytes :=
  match s with
  | [] => []
  | c :: r => if c =? 0 then [] else c :: strip_nul r
  end.

(** The results -1, 0 and 1 of [ParseMessage]. *)
Inductive parse_result :=
| Incomplete
| Malformed
| Parsed (msg : CNetMessage) (consumed : nat).

Definition ParseMessage (data : bytes) (magic : Z) : parse_result :=
  if Z.of_nat (length data) <? 24 then Incomplete
  else if negb (le_read (take 4 data) =? magic) then Malformed
  else
    let command := strip_nul (take 12 (drop 4 data)) in
    if negb (IsKnownCommand command) then Malformed
    else
      let payloadLen := le_read (take 4 (drop 16 data)) in
      if payloadLen >? MAX_MESSAGE_SIZE then Malformed
      else if Z.of_nat (length data) <? u32 (24 + payloadLen) then Incomplete
      else
        let payload := take (Z.to_nat payloadLen) (drop 24 data) in
        if negb (bool_decide (take 4 (SHA256d_bytes payload) = take 4 (drop 20 data))) then Malformed
        else Parsed {| msg_command := command; msg_payload := payload |} (24 + Z.to_nat payloadLen).

End Framing.

(** * Payloads *)

Record CVersionMessage := {
  v_version : Z; v_services : Z; v_timestamp : Z; v_addrMe : bytes; v_addrYou : bytes;
  v_nonce : Z; v_userAgent : bytes; v_startHeight : Z; v_relay : bool }.
(** The member initialisers. *)
Definition default_version : CVersionMessage := {|
  v_version := PROTOCOL_VERSION; v_services := 0; v_timestamp := 0; v_addrMe := repeat 0 26;
  v_addrYou := repeat 0 26; v_nonce := 0; v_userAgent := string_bytes "/CDX:0.1.0/"; v_startHeight := 0; v_relay := true |}.

Definition SerializeVersion (v : CVersionMessage) : bytes :=
  WriteU32 (u32 (v_version v)) ++ WriteU64 (u64 (v_services v)) ++ WriteU64 (u64 (v_timestamp v)) ++
  take 26 (v_addrYou v) ++ take 26 (v_addrMe v) ++ WriteU64 (v_nonce v) ++ WriteVarStr (v_userAgent v) ++
  WriteU32 (u32 (v_startHeight v)) ++ WriteU8 (if v_relay v then 1 else 0).
Definition ReadVersion : Rd CVersionMessage :=
  ver ← ReadU32; svc ← ReadU64; ts ← ReadU64; you ← ReadBytes 26; me ← ReadBytes 26;
  nonce ← ReadU64; ua ← ReadVarStr; sh ← ReadU32; relay ← ReadU8;
  mret {| v_version := i32 ver; v_services := i64 svc; v_timestamp := i64 ts; v_addrMe := me; v_addrYou := you;
          v_nonce := nonce; v_userAgent := ua; v_startHeight := i32 sh; v_relay := negb (relay =? 0) |}.
Definition run_rd {A} (m : Rd A) (payload : bytes) : option A := fst <$> m {| d_p := payload; d_pos := 0 |}.
Definition DeserializeVersion (payload : bytes) : option CVersionMessage := run_rd ReadVersion payload.

(** [InvType] is a [uint32_t]; other values than 1 and 2 can arrive. *)
Definition INV_TX : Z := 1.
Definition INV_BLOCK : Z := 2.
Record CInv := { inv_type : Z; inv_hash : uint256 }.
#[export] Instance CInv_eq_dec : EqDecision CInv.
Proof. solve_decision. Defined.

Definition SerializeInv (inv : list CInv) : bytes :=
  WriteVarInt (Z.of_nat (length inv)) ++ flat_map (fun i => WriteU32 (inv_type i) ++ WriteUint256 (inv_hash i)) inv.
Definition ReadInv : Rd CInv := t ← ReadU32; h ← ReadUint256; mret {| inv_type := t; inv_hash := h |}.
Definition DeserializeInv (payload : bytes) : option (list CInv) :=
  run_rd (n ← ReadVarInt; if n >? MAX_INV_PER_MESSAGE then rd_fail else read_n ReadInv (Z.to_nat n)) payload.

(** * Synchronisation *)

Definition BuildGetHeadersPayload (locator : list uint256) (hashStop : uint256) : bytes :=
  WriteVarInt (Z.of_nat (length locator)) ++ flat_map WriteUint256 locator ++ WriteUint256 hashStop.
Definition ParseGetHeadersPayload (payload : bytes) : option (list uint256 * uint256) :=
  run_rd (n ← ReadVarInt; if n >? 1000 then rd_fail else
          l ← read_n ReadUint256 (Z.to_nat n); s ← ReadUint256; mret (l, s)) payload.

(** The loop body: a header from the remaining bytes, [d.pos += 80], and the
    transaction count byte. *)
Definition ReadHeaderEntry : Rd CBlockHeader := fun d =>
  match DeserializeBlockHeader (drop (d_pos d) (d_p d)) with
  | Some hdr => (c ← ReadU8; mret hdr) (set_pos d (d_pos d + 80))
  | None => None
  end.
Definition ParseHeadersPayload (payload : bytes) : option (list CBlockHeader) :=
  run_rd (n ← ReadVarInt; if n >? 2000 then rd_fail else read_n ReadHeaderEntry (Z.to_nat n)) payload.
Definition BuildHeadersPayload (headers : list CBlockHeader) : bytes :=
  WriteVarInt (Z.of_nat (length headers)) ++ flat_map (fun h => SerializeBlockHeader h ++ WriteU8 0) headers.
Definition BuildGetBlocksPayload (locator : list uint256) (hashStop : uint256) : bytes :=
  BuildGetHeadersPayload locator hashStop.
Definition ParseBlockPayload (payload : bytes) : option CBlock := DeserializeBlock payload.
Definition ParseTxPayload (payload : bytes) : option CTransaction := DeserializeTransaction payload.

(** The [while] loop of [BuildLocator]: [n] entries are in the vector so far.
    It pushes at most 32 entries, so 32 rounds of fuel are enough; an index
    outside [chainHashes] is undefined. *)
Fixpoint locator_loop (chainHashes : list uint256) (fuel : nat) (n : Z) (step h : Z) : outcome (list uint256) :=
  match fuel with
  | O => Done []
  | S k =>
      if (0 <=? h) && (n <? 32) then
        match chainHashes !! Z.to_nat h with
        | None => Undef
        | Some x =>
            if h =? 0 then Done [x]
            else
              let step' := if n + 1 >? 10 then i32 (step * 2) else step in
              l ← locator_loop chainHashes k (n + 1) step' (h - step);
              Done (x :: l)
        end
      else Done []
  end.
Definition BuildLocator (chainHashes : list uint256) (tipHeight : Z) : outcome (list uint256) :=
  match chainHashes with
  | [] => Done []
  | _ => locator_loop chainHashes 32 0 1 tipHeight
  end.

(** * Lemmas *)

(** ** Frames *)

Lemma known_command_wf cmd : IsKnownCommand cmd = true ->
  (length cmd <= 12)%nat /\ strip_nul (cmd ++ repeat 0 (12 - length cmd)) = cmd /\ bytes_wf cmd.
Proof.
  intros H. unfold IsKnownCommand in H. apply existsb_exists in H as (k & Hk & E). apply bool_decide_eq_true in E. subst k.
  assert (Forall (fun c => (length c <= 12)%nat /\ strip_nul (c ++ repeat 0 (12 - length c)) = c /\ bytes_wf c) known_commands) as Hall.
  { apply (bool_decide_unpack _). vm_compute. exact I. }
  rewrite Forall_forall in Hall. by apply Hall, list_elem_of_In.
Qed.

Section Frames.
Context {ossl : OpenSSL} {laws : OpenSSLLaws ossl}.

(** The 24 bytes before the payload. *)
Definition frame_header (magic : Z) (cmd payload : bytes) : bytes :=
  le_bytes 4 magic ++ (cmd ++ repeat 0 (12 - length cmd)) ++
  le_bytes 4 (u32 (Z.of_nat (length payload))) ++ take 4 (SHA256d_bytes payload).

Lemma length_frame_header magic cmd payload : (length cmd <= 12)%nat -> length (frame_header magic cmd payload) = 24%nat.
Proof.
  intros Hc. unfold frame_header. rewrite !length_app, !length_le_bytes, repeat_length, length_take, length_SHA256d_bytes. lia.
Qed.

(** A known command with a payload of legal size is framed. *)
Lemma BuildMessage_frame magic cmd payload : IsKnownCommand cmd = true -> Z.of_nat (length payload) <= MAX_MESSAGE_SIZE ->
  BuildMessage magic cmd payload = Some (frame_header magic cmd payload ++ payload).
Proof.
  intros Hk Hl. destruct (known_command_wf cmd Hk) as (Hc & _ & _). unfold BuildMessage.
  destruct (Z.ltb_spec 12 (Z.of_nat (length cmd))); [lia|]. rewrite Z.gtb_ltb.
  destruct (Z.ltb_spec MAX_MESSAGE_SIZE (Z.of_nat (length payload))); [lia|]. cbn [orb].
  unfold frame_header. by rewrite <- !app_assoc.
Qed.

(** Parsing behind a valid header depends only on how much has arrived. *)
Lemma ParseMessage_header magic cmd payload body :
  is_u32 magic -> IsKnownCommand cmd = true -> Z.of_nat (length payload) <= MAX_MESSAGE_SIZE ->
  ParseMessage (frame_header magic cmd payload ++ body) magic =
  if Z.of_nat (length body) <? Z.of_nat (length payload) then Incomplete
  else if bool_decide (take 4 (SHA256d_bytes (take (length payload) body)) = take 4 (SHA256d_bytes payload))
  then Parsed {| msg_command := cmd; msg_payload := take (length payload) body |} (24 + length payload) else Malformed.
Proof.
  intros Hm Hk Hl. destruct (known_command_wf cmd Hk) as (Hc & Hs & _).
  pose proof (length_frame_header magic cmd payload Hc) as H24.
  change MAX_MESSAGE_SIZE with 4194304 in Hl.
  assert (length (le_bytes 4 (u32 (Z.of_nat (length payload))) ++ take 4 (SHA256d_bytes payload)) = 8%nat) as H8
    by (rewrite length_app, length_le_bytes, length_take, length_SHA256d_bytes; done).
  assert (length (cmd ++ repeat 0 (12 - length cmd)) = 12%nat) as H12 by (rewrite length_app, repeat_length; lia).
  unfold ParseMessage. rewrite length_app, H24.
  destruct (Z.ltb_spec (Z.of_nat (24 + length body)) 24); [lia|].
  assert (take 4 (frame_header magic cmd payload ++ body) = le_bytes 4 magic) as ->.
  { unfold frame_header. rewrite <- !app_assoc. apply take_app_length'. by rewrite length_le_bytes. }
  rewrite le_bytes_read_u32, Z.eqb_refl by done. cbn [negb].
  assert (take 12 (drop 4 (frame_header magic cmd payload ++ body)) = cmd ++ repeat 0 (12 - length cmd)) as ->.
  { unfold frame_header. rewrite <- !app_assoc, (app_assoc cmd). apply chunk_app; [apply length_le_bytes|done]. }
  rewrite Hs, Hk. cbn [negb].
  assert (take 4 (drop 16 (frame_header magic cmd payload ++ body)) = le_bytes 4 (u32 (Z.of_nat (length payload)))) as ->.
  { unfold frame_header. rewrite <- !app_assoc, (app_assoc cmd), (app_assoc (le_bytes 4 magic)).
    apply chunk_app; [|apply length_le_bytes]. rewrite length_app, length_le_bytes, H12. done. }
  assert (take 4 (drop 20 (frame_header magic cmd payload ++ body)) = take 4 (SHA256d_bytes payload)) as ->.
  { unfold frame_header. rewrite <- !app_assoc, (app_assoc cmd), (app_assoc (le_bytes 4 magic)), (app_assoc (_ ++ _)).
    apply chunk_app; [|by rewrite length_take, length_SHA256d_bytes].
    rewrite !length_app, !length_le_bytes, repeat_length. lia. }
  rewrite le_bytes_read_u32 by apply u32_range. rewrite u32_id by u_range. rewrite Z.gtb_ltb.
  destruct (Z.ltb_spec MAX_MESSAGE_SIZE (Z.of_nat (length payload))) as [Hbig|_];
    [change MAX_MESSAGE_SIZE with 4194304 in Hbig; lia|].
  rewrite u32_id by u_range.
  destruct (Z.ltb_spec (Z.of_nat (24 + length body)) (24 + Z.of_nat (length payload))),
    (Z.ltb_spec (Z.of_nat (length body)) (Z.of_nat (length payload))); try lia; [done|].
  rewrite Nat2Z.id, <- H24, drop_app_length. rewrite H24. by destruct (bool_decide _).
Qed.

(** A complete frame is parsed, a part of it waits. *)
Lemma ParseMessage_frame magic cmd payload rest :
  is_u32 magic -> IsKnownCommand cmd = true -> Z.of_nat (length payload) <= MAX_MESSAGE_SIZE ->
  ParseMessage ((frame_header magic cmd payload ++ payload) ++ rest) magic =
  Parsed {| msg_command := cmd; msg_payload := payload |} (length (frame_header magic cmd payload ++ payload)).
Proof.
  intros Hm Hk Hl. destruct (known_command_wf cmd Hk) as (Hc & _ & _).
  rewrite <- app_assoc, ParseMessage_header by done. rewrite length_app, take_app_length.
  destruct (Z.ltb_spec (Z.of_nat (length payload + length rest)) (Z.of_nat (length payload))); [lia|].
  rewrite bool_decide_true by done. by rewrite length_app, length_frame_header.
Qed.

Lemma ParseMessage_prefix magic cmd payload k :
  is_u32 magic -> IsKnownCommand cmd = true -> Z.of_nat (length payload) <= MAX_MESSAGE_SIZE ->
  (k < length (frame_header magic cmd payload ++ payload))%nat ->
  ParseMessage (take k (frame_header magic cmd payload ++ payload)) magic = Incomplete.
Proof.
  intros Hm Hk Hl Hlt. destruct (known_command_wf cmd Hk) as (Hc & _ & _).
  pose proof (length_frame_header magic cmd payload Hc) as H24. rewrite length_app, H24 in Hlt.
  destruct (decide (k < 24)%nat) as [Hs|Hs].
  - unfold ParseMessage. rewrite length_take, length_app, H24.
    match goal with |- context [?a <? ?b] => destruct (Z.ltb_spec a b); [done|lia] end.
  - rewrite take_app_ge by lia. rewrite H24, ParseMessage_header by done.
    rewrite length_take. match goal with |- context [?a <? ?b] => destruct (Z.ltb_spec a b); [done|lia] end.
Qed.

End Frames.

(** ** Payloads *)

Definition version_wf (v : CVersionMessage) : Prop :=
  is_i32 (v_version v) /\ is_i64 (v_services v) /\ is_i64 (v_timestamp v) /\ length (v_addrMe v) = 26%nat /\
  length (v_addrYou v) = 26%nat /\ is_u64 (v_nonce v) /\ Z.of_nat (length (v_userAgent v)) < 2 ^ 64 /\ is_i32 (v_startHeight v).
Definition inv_wf (i : CInv) : Prop := is_u32 (inv_type i) /\ wf (inv_hash i).

Lemma run_rd_reads {A} (m : Rd A) bs a : reads m bs a -> run_rd m bs = Some a.
Proof. intros H. unfold run_rd. rewrite <- (app_nil_r bs) at 1. by rewrite (reads_start _ _ _ _ H). Qed.

Lemma reads_version v : version_wf v -> reads ReadVersion (SerializeVersion v) v.
Proof.
  intros (H1 & H2 & H3 & H4 & H5 & H6 & H7 & H8). unfold ReadVersion, SerializeVersion.
  rewrite !take_ge by lia.
  eapply reads_bind; [apply reads_u32, u32_range|]. eapply reads_bind; [apply reads_u64, u64_range|].
  eapply reads_bind; [apply reads_u64, u64_range|]. eapply reads_bind; [by apply reads_bytes|].
  eapply reads_bind; [by apply reads_bytes|]. eapply reads_bind; [by apply reads_u64|].
  eapply reads_bind; [by apply reads_varstr|]. eapply reads_bind; [apply reads_u32, u32_range|].
  eapply reads_bind_ret; [apply reads_u8|]. rewrite !i32_u32, !i64_u64 by done. by destruct v as [? ? ? ? ? ? ? ? []].
Qed.

(** A counted list behind a limit. *)
Lemma reads_counted {A} (rd : Rd A) (ser : A -> bytes) limit l :
  (forall x, x ∈ l -> reads rd (ser x) x) -> Z.of_nat (length l) <= limit -> limit < 2 ^ 64 ->
  reads (n ← ReadVarInt; if n >? limit then rd_fail else read_n rd (Z.to_nat n))
        (WriteVarInt (Z.of_nat (length l)) ++ flat_map ser l) l.
Proof.
  intros Hx Hl Hlim. eapply reads_bind; [apply reads_varint; u_range|]. rewrite Z.gtb_ltb.
  destruct (Z.ltb_spec limit (Z.of_nat (length l))); [lia|]. rewrite Nat2Z.id. by apply reads_list.
Qed.

Lemma reads_inv i : inv_wf i -> reads ReadInv (WriteU32 (inv_type i) ++ WriteUint256 (inv_hash i)) i.
Proof.
  intros [H1 H2]. unfold ReadInv. eapply reads_bind; [by apply reads_u32|].
  eapply reads_bind_ret; [by apply reads_uint256|]. by destruct i.
Qed.

Lemma reads_header_entry h : hdr_wf h -> reads ReadHeaderEntry (SerializeBlockHeader h ++ WriteU8 0) h.
Proof.
  intros Hw p pos rest Hp H. unfold ReadHeaderEntry. cbn [d_p d_pos]. rewrite H, <- app_assoc in *.
  rewrite deserialize_header_prefix by done. unfold set_pos. cbn [d_p d_pos].
  assert (reads (c ← ReadU8; mret h) (WriteU8 0) h) as Hr by (eapply reads_bind_ret; [apply reads_u8|done]).
  rewrite (Hr p (pos + 80)%nat rest).
  - rewrite length_app, length_header. do 3 f_equal. lia.
  - pose proof (drop_room _ _ _ _ Hp H) as Hroom. rewrite length_header in Hroom. done.
  - apply drop_consume in H. by rewrite length_header in H.
Qed.

(** Payloads read back. *)
Lemma inv_roundtrip inv : Forall inv_wf inv -> Z.of_nat (length inv) <= MAX_INV_PER_MESSAGE ->
  DeserializeInv (SerializeInv inv) = Some inv.
Proof.
  rewrite Forall_forall. intros Hi Hl. apply run_rd_reads, reads_counted; [intros x Hx; by apply reads_inv, Hi|done|done].
Qed.
Lemma headers_roundtrip headers : Forall hdr_wf headers -> Z.of_nat (length headers) <= 2000 ->
  ParseHeadersPayload (BuildHeadersPayload headers) = Some headers.
Proof.
  rewrite Forall_forall. intros Hh Hl. apply run_rd_reads, reads_counted; [intros x Hx; by apply reads_header_entry, Hh|done|done].
Qed.
Lemma getheaders_roundtrip locator hashStop : Forall wf locator -> Z.of_nat (length locator) <= 1000 -> wf hashStop ->
  ParseGetHeadersPayload (BuildGetHeadersPayload locator hashStop) = Some (locator, hashStop).
Proof.
  rewrite Forall_forall. intros Hl Hll Hs. apply run_rd_reads. unfold BuildGetHeadersPayload.
  eapply reads_bind; [apply reads_varint; u_range|]. rewrite Z.gtb_ltb.
  destruct (Z.ltb_spec 1000 (Z.of_nat (length locator))); [lia|]. rewrite Nat2Z.id.
  eapply reads_bind; [apply reads_list; intros x Hx; by apply reads_uint256, Hl|].
  eapply reads_bind_ret; [by apply reads_uint256|done].
Qed.

(** ** Locators *)

(** The heights the loop visits. *)
Fixpoint locator_heights (fuel : nat) (n step h : Z) : list Z :=
  match fuel with
  | O => []
  | S k =>
      if (0 <=? h) && (n <? 32) then
        h :: if h =? 0 then [] else locator_heights k (n + 1) (if n + 1 >? 10 then i32 (step * 2) else step) (h - step)
      else []
  end.

Lemma locator_loop_heights chain fuel : forall n step h, h < Z.of_nat (length chain) -> 0 <= n ->
  1 <= step -> (n <= 10 -> step = 1) -> (10 < n -> step <= 2 ^ (n - 10)) ->
  exists l, locator_loop chain fuel n step h = Done l /\
    Forall2 (fun k x => 0 <= k <= h /\ chain !! Z.to_nat k = Some x) (locator_heights fuel n step h) l /\
    StronglySorted (fun a b => b < a) (locator_heights fuel n step h) /\ (length l <= fuel)%nat.
Proof.
  induction fuel as [|k IH]; intros n step h Hh Hn Hs Hs1 Hs2; cbn [locator_loop locator_heights].
  { exists []. split_and!; [done|constructor|constructor|done]. }
  destruct (Z.leb_spec 0 h) as [H0|]; [|exists []; split_and!; [done|constructor|constructor|cbn; lia]].
  destruct (Z.ltb_spec n 32) as [H32|]; [|exists []; split_and!; [done|constructor|constructor|cbn; lia]].
  cbn [andb]. destruct (lookup_lt_is_Some_2 chain (Z.to_nat h) ltac:(lia)) as [x Hx]. rewrite Hx.
  destruct (Z.eqb_spec h 0) as [->|Hne].
  { exists [x]. split_and!; [done| |repeat constructor|cbn; lia]. constructor; [|constructor]. split; [lia|done]. }
  set (step' := if n + 1 >? 10 then i32 (step * 2) else step).
  assert (step <= 2 ^ 22) as Hsb.
  { destruct (Z.le_gt_cases n 10) as [Hc|Hc]; [rewrite Hs1 by lia; lia|].
    etrans; [apply Hs2; lia|apply Z.pow_le_mono_r; lia]. }
  assert (1 <= step' /\ (n + 1 <= 10 -> step' = 1) /\ (10 < n + 1 -> step' <= 2 ^ (n + 1 - 10))) as (A1 & A2 & A3).
  { unfold step'. rewrite Z.gtb_ltb. destruct (Z.ltb_spec 10 (n + 1)); [|split_and!; [lia|intros; apply Hs1; lia|lia]].
    rewrite i32_id by u_range. split_and!; [lia|lia|]. intros _.
    replace (n + 1 - 10) with (Z.succ (n - 10)) by lia. rewrite Z.pow_succ_r by lia.
    destruct (Z.le_gt_cases n 10) as [Hc|Hc]; [|specialize (Hs2 ltac:(lia)); lia].
    rewrite Hs1 by lia. assert (n = 10) as -> by lia. change (2 ^ (10 - 10)) with 1. lia. }
  destruct (IH (n + 1) step' (h - step)) as (l & El & Hf & Hsort & Hlen); [lia..|done|done|].
  rewrite El. cbn [mbind outcome_bind]. exists (x :: l). split_and!; [done| | |cbn; lia].
  - constructor; [split; [lia|done]|]. eapply Forall2_impl; [exact Hf|]. cbn. intros a b [? ?]. split; [lia|done].
  - constructor; [done|]. apply Forall_forall. intros a Ha%list_elem_of_lookup_1. destruct Ha as [i Hi].
    destruct (Forall2_lookup_l _ _ _ _ _ Hf Hi) as (b & _ & Hb & _). lia.
Qed.

Lemma head_locator_heights k n step h : 0 <= h -> n < 32 -> head (locator_heights (S k) n step h) = Some h.
Proof.
  intros Hh Hn. cbn [locator_heights]. destruct (Z.leb_spec 0 h), (Z.ltb_spec n 32); [done|lia..].
Qed.

(** * Theorems *)

(** Framing is exact and incremental.  A known command with a payload of at
    most 4 MB is framed; the receiver gets back exactly that command and
    payload and the length of the frame, whatever follows in the buffer, and
    for every proper prefix of the frame it waits for more. *)
Theorem frame_roundtrip {ossl : OpenSSL} {laws : OpenSSLLaws ossl} magic cmd payload :
  is_u32 magic -> IsKnownCommand cmd = true -> Z.of_nat (length payload) <= MAX_MESSAGE_SIZE ->
  exists frame, BuildMessage magic cmd payload = Some frame /\
    (forall rest, ParseMessage (frame ++ rest) magic =
       Parsed {| msg_command := cmd; msg_payload := payload |} (length frame)) /\
    (forall k, (k < length frame)%nat -> ParseMessage (take k frame) magic = Incomplete).
Proof.
  intros Hm Hk Hl. exists (frame_header magic cmd payload ++ payload). split; [by apply BuildMessage_frame|]. split.
  - intros rest. by apply ParseMessage_frame.
  - intros k Hlt. by apply ParseMessage_prefix.
Qed.

(** Whatever bytes arrive, a message that [ParseMessage] hands out has a
    known command, at most 4 MB of payload taken from inside the buffer, the
    right checksum, and accounts for exactly the bytes it consumes. *)
Theorem parse_message_safe {ossl : OpenSSL} data magic msg consumed :
  bytes_wf data -> ParseMessage data magic = Parsed msg consumed ->
  IsKnownCommand (msg_command msg) = true /\ Z.of_nat (length (msg_payload msg)) <= MAX_MESSAGE_SIZE /\
  consumed = (24 + length (msg_payload msg))%nat /\ (consumed <= length data)%nat /\
  msg_payload msg = take (length (msg_payload msg)) (drop 24 data) /\
  take 4 (SHA256d_bytes (msg_payload msg)) = take 4 (drop 20 data) /\ le_read (take 4 data) = magic.
Proof.
  intros Hw H. unfold ParseMessage in H. destruct (Z.ltb_spec (Z.of_nat (length data)) 24); [done|].
  destruct (Z.eqb_spec (le_read (take 4 data)) magic) as [Em|]; [|done]. cbn [negb] in H.
  destruct (IsKnownCommand _) eqn:Ek; [|done]. cbn [negb] in H.
  set (plen := le_read (take 4 (drop 16 data))) in *.
  assert (0 <= plen) as Hp0 by (apply le_read_bound; by apply Forall_take, Forall_drop).
  rewrite Z.gtb_ltb in H. destruct (Z.ltb_spec MAX_MESSAGE_SIZE plen); [done|].
  rewrite u32_id in H by (change MAX_MESSAGE_SIZE with 4194304 in *; u_range).
  destruct (Z.ltb_spec (Z.of_nat (length data)) (24 + plen)); [done|].
  case_bool_decide as Hc; [|done]. injection H as <- <-. cbn [msg_command msg_payload].
  assert (length (take (Z.to_nat plen) (drop 24 data)) = Z.to_nat plen) as El by (rewrite length_take, length_drop; lia).
  rewrite !El. split_and!; try done; lia.
Qed.

(** The payloads of the synchronisation protocol survive the network:
    version messages, inventories, locators with their stop hash, and headers
    are read back exactly, within the limits the readers impose (50000
    inventory entries, 1000 locator hashes, 2000 headers). *)
Theorem payload_roundtrip v inv locator hashStop headers :
  version_wf v -> Forall inv_wf inv -> Z.of_nat (length inv) <= MAX_INV_PER_MESSAGE ->
  Forall wf locator -> Z.of_nat (length locator) <= 1000 -> wf hashStop ->
  Forall hdr_wf headers -> Z.of_nat (length headers) <= 2000 ->
  DeserializeVersion (SerializeVersion v) = Some v /\
  DeserializeInv (SerializeInv inv) = Some inv /\
  ParseGetHeadersPayload (BuildGetHeadersPayload locator hashStop) = Some (locator, hashStop) /\
  ParseHeadersPayload (BuildHeadersPayload headers) = Some headers.
Proof.
  intros Hv Hi Hil Hl Hll Hs Hh Hhl. split_and!.
  - by apply run_rd_reads, reads_version.
  - by apply inv_roundtrip.
  - by apply getheaders_roundtrip.
  - by apply headers_roundtrip.
Qed.

(** A block locator is well defined and useful: for a tip inside the chain
    it never indexes outside the vector, lists at most 32 blocks of the chain,
    starts with the tip and goes strictly down. *)
Theorem locator_correct chain tipHeight :
  0 <= tipHeight < Z.of_nat (length chain) ->
  exists l heights, BuildLocator chain tipHeight = Done l /\
    Forall2 (fun k x => 0 <= k <= tipHeight /\ chain !! Z.to_nat k = Some x) heights l /\
    StronglySorted (fun a b => b < a) heights /\ head heights = Some tipHeight /\ (length l <= 32)%nat.
Proof.
  intros Ht. destruct (locator_loop_heights chain 32 0 1 tipHeight ltac:(lia) ltac:(lia) ltac:(lia) ltac:(done) ltac:(lia))
    as (l & El & Hf & Hs & Hlen).
  exists l, (locator_heights 32 0 1 tipHeight). split_and!; [|done|done| |done].
  - unfold BuildLocator. destruct chain; [cbn in Ht; lia|done].
  - apply (head_locator_heights 31); lia.
Qed.

(** * Witnesses *)

Definition CMD_PING : bytes := string_bytes "ping".

Lemma frame_roundtrip_witness :
  exists frame, BuildMessage (ossl := toy_ossl) 0xCDA1CD01 CMD_PING [1; 2; 3] = Some frame /\
    ParseMessage (ossl := toy_ossl) (frame ++ [9]) 0xCDA1CD01 = Parsed {| msg_command := CMD_PING; msg_payload := [1; 2; 3] |} (length frame).
Proof.
  destruct (frame_roundtrip (ossl := toy_ossl) 0xCDA1CD01 CMD_PING [1; 2; 3]) as (f & H1 & H2 & _);
    [u_range|reflexivity|vm_compute; discriminate|].
  exists f. split; [exact H1|exact (H2 [9])].
Defined.

Definition wit_frame : bytes := default [] (BuildMessage (ossl := toy_ossl) 0xCDA1CD01 CMD_PING [1; 2; 3]).

Lemma parse_message_safe_witness :
  IsKnownCommand CMD_PING = true /\ (27 <= length wit_frame)%nat.
Proof.
  destruct (parse_message_safe (ossl := toy_ossl) wit_frame 0xCDA1CD01
    {| msg_command := CMD_PING; msg_payload := [1; 2; 3] |} 27) as (H1 & _ & _ & H2 & _).
  - apply (bool_decide_unpack _). vm_compute. exact I.
  - vm_compute. reflexivity.
  - exact (conj H1 H2).
Defined.

Lemma payload_roundtrip_witness :
  DeserializeVersion (SerializeVersion default_version) = Some default_version /\
  ParseHeadersPayload (BuildHeadersPayload [sample_hdr]) = Some [sample_hdr].
Proof.
  destruct (payload_roundtrip default_version [{| inv_type := 2; inv_hash := U256 1 2 3 4 |}] [U256 5 6 7 8] zero [sample_hdr])
    as (H1 & _ & _ & H4).
  - wf_compute.
  - wf_compute.
  - vm_compute. discriminate.
  - wf_compute.
  - vm_compute. discriminate.
  - apply wf_zero.
  - apply Forall_cons_2; [exact sample_hdr_wf|apply Forall_nil_2].
  - vm_compute. discriminate.
  - exact (conj H1 H4).
Defined.

Lemma locator_correct_witness :
  exists l heights, BuildLocator (map (fun n => of_u64 (Z.of_nat n)) (seq 0 20)) 19 = Done l /\
    head heights = Some 19 /\ (length l <= 32)%nat /\ StronglySorted (fun a b => b < a) heights.
Proof.
  destruct (locator_correct (map (fun n => of_u64 (Z.of_nat n)) (seq 0 20)) 19) as (l & hs & H1 & _ & H3 & H4 & H5);
    [cbn; lia|].
  exists l, hs. exact (conj H1 (conj H4 (conj H5 H3))).
Defined.
