(* ===== verification/Net.v ===== *)
(** [p2p/server.cpp]: the connections of the node.  Socket calls are events that
    a run is given; [time(nullptr)] is a parameter.  The handler of complete
    messages is the interface [NodeHandler], implemented in [Daemon]. *)
From S2P Require Import Prelude UInt256 Crypto Config Transaction Block Protocol.

(** * Data *)

(** [CNode]; the members that no code uses are left out. *)
Record CNode := {
  n_fd : Z; n_addr : bytes; n_inbound : bool; n_handshakeDone : bool; n_verackReceived : bool;
  n_theirVersion : CVersionMessage; n_lastMessageTime : Z; n_lastPingTime : Z;
  n_misbehaviorScore : Z; n_disconnected : bool; n_recvBuffer : bytes }.
(** [CNode(fd, addr, inbound)] *)
Definition new_node (fd : Z) (addr : bytes) (inbound : bool) : CNode := {|
  n_fd := fd; n_addr := addr; n_inbound := inbound; n_handshakeDone := false; n_verackReceived := false;
  n_theirVersion := default_version; n_lastMessageTime := 0; n_lastPingTime := 0;
  n_misbehaviorScore := 0; n_disconnected := false; n_recvBuffer := [] |}.

Definition set_io (n : CNode) (buf : bytes) (t : Z) : CNode := {|
  n_fd := n_fd n; n_addr := n_addr n; n_inbound := n_inbound n; n_handshakeDone := n_handshakeDone n;
  n_verackReceived := n_verackReceived n; n_theirVersion := n_theirVersion n; n_lastMessageTime := t;
  n_lastPingTime := n_lastPingTime n; n_misbehaviorScore := n_misbehaviorScore n;
  n_disconnected := n_disconnected n; n_recvBuffer := buf |}.
Definition set_score (n : CNode) (score : Z) (disc : bool) : CNode := {|
  n_fd := n_fd n; n_addr := n_addr n; n_inbound := n_inbound n; n_handshakeDone := n_handshakeDone n;
  n_verackReceived := n_verackReceived n; n_theirVersion := n_theirVersion n; n_lastMessageTime := n_lastMessageTime n;
  n_lastPingTime := n_lastPingTime n; n_misbehaviorScore := score;
  n_disconnected := disc; n_recvBuffer := n_recvBuffer n |}.
Definition MarkDisconnected (n : CNode) : CNode := set_score n (n_misbehaviorScore n) true.
(** [node.misbehaviorScore += k] *)
Definition misbehave (n : CNode) (k : Z) : CNode := set_score n (i32 (n_misbehaviorScore n + k)) (n_disconnected n).

(** [INodeHandler]: [OnMessage] may change the node and the state [Hs] behind
    the handler. *)
Class NodeHandler (Hs : Type) := { OnMessage : CNode -> CNetMessage -> Hs -> CNode * Hs }.
(** A handler leaves the receive buffer and the time stamp to the server. *)
Class NodeHandlerLaws (Hs : Type) `{NodeHandler Hs} : Prop := {
  OnMessage_io n m h buf t :
    OnMessage (set_io n buf t) m h = (set_io (fst (OnMessage n m h)) buf t, snd (OnMessage n m h)) }.

(** * Receiving *)

Definition http_methods : list bytes := map string_bytes
  ["GET "; "POST "; "HEAD "; "PUT "; "OPTIONS "; "DELETE "; "PATCH "]%string.
Definition is_http (buf : bytes) : bool :=
  existsb (fun m => (length m <=? length buf)%nat && bool_decide (take (length m) buf = m)) http_methods.

Section Receive.
Context {ossl : OpenSSL} {Hs : Type} {handler : NodeHandler Hs} (magic now : Z).

(** The [for (;;)] loop of [ProcessBuffer]: every complete message takes at
    least 24 bytes out of the buffer, so its length is enough fuel. *)
Fixpoint process_loop (fuel : nat) (node : CNode) (h : Hs) : CNode * Hs :=
  match fuel with
  | O => (node, h)
  | S k =>
      match ParseMessage (n_recvBuffer node) magic with
      | Incomplete => (node, h)
      | Malformed =>
          let node := set_io (misbehave node 100) [] (n_lastMessageTime node) in
          (if n_misbehaviorScore node >=? 200 then MarkDisconnected node else node, h)
      | Parsed msg consumed =>
          let node := set_io node (drop consumed (n_recvBuffer node)) now in
          let '(node, h) := OnMessage node msg h in
          process_loop k node h
      end
  end.
(** The HTTP health check: a reply is written and the peer dropped. *)
Definition ProcessBuffer (node : CNode) (h : Hs) : CNode * Hs :=
  if is_http (n_recvBuffer node) then (MarkDisconnected node, h)
  else process_loop (S (length (n_recvBuffer node))) node h.

(** What a round of [ReadLoop] meets: [running] cleared, or the node marked by
    another thread, before the loop test; or what [recv] and the [poll] after
    it report. *)
Inductive recv_event :=
| RecvStop
| RecvData (bs : bytes)
| RecvClosed
| RecvReady
| RecvIdle
| RecvFailed.
(** One round of [ReadLoop]; the boolean says whether the loop goes on. *)
Definition ReadLoop_round (ev : recv_event) (node : CNode) (h : Hs) : bool * CNode * Hs :=
  match ev with
  | RecvStop => (false, node, h)
  | RecvData bs =>
      let '(node, h) := ProcessBuffer (set_io node (n_recvBuffer node ++ bs) now) h in (true, node, h)
  | RecvClosed => (false, node, h)
  | RecvReady => (true, node, h)
  | RecvIdle => (negb (now - n_lastMessageTime node >? 90), node, h)
  | RecvFailed => (false, node, h)
  end.
(** The loop with its test of [node->disconnected]. *)
Fixpoint ReadLoop (evs : list recv_event) (node : CNode) (h : Hs) : CNode * Hs :=
  if n_disconnected node then (MarkDisconnected node, h)
  else match evs with
  | [] => (node, h)
  | ev :: r =>
      let '(go, node, h) := ReadLoop_round ev node h in
      if go then ReadLoop r node h else (MarkDisconnected node, h)
  end.

End Receive.

(** * Sending *)

(** What [send], and the [poll] after a full socket buffer, report. *)
Inductive send_event :=
| Sent (n : nat)
| WaitWritable
| WaitTimeout
| SendFailed.
(** [WriteTo]: the result and the bytes handed to the socket; [None] while the
    call has not returned. *)
Fixpoint WriteTo (evs : list send_event) (data : bytes) : option (bool * bytes) :=
  match data with
  | [] => Some (true, [])
  | _ =>
      match evs with
      | [] => None
      | Sent n :: r =>
          let n := Nat.min n (length data) in
          if (n =? 0)%nat then Some (false, [])
          else match WriteTo r (drop n data) with
               | Some (ok, out) => Some (ok, take n data ++ out)
               | None => None
               end
      | WaitWritable :: r => WriteTo r data
      | WaitTimeout :: _ | SendFailed :: _ => Some (false, [])
      end
  end.

Record CNetServer := { sv_peers : gmap Z CNode; sv_targets : list bytes }.

Section Send.
Context {ossl : OpenSSL} (magic : Z).
(** [write fd frame]: the result of [WriteTo] on that socket and the bytes it
    took. *)
Context (write : Z -> bytes -> bool * bytes).

(** The new server, the result, and what was put on which socket (the order
    over the sockets does not matter). *)
Definition SendTo (s : CNetServer) (fd : Z) (command payload : bytes) : CNetServer * bool * list (Z * bytes) :=
  match BuildMessage magic command payload with
  | None => (s, false, [])
  | Some frame =>
      match sv_peers s !! fd with
      | None => (s, false, [])
      | Some node =>
          let '(ok, out) := write fd frame in
          if ok then (s, true, [(fd, out)])
          else ({| sv_peers := <[fd := MarkDisconnected node]> (sv_peers s); sv_targets := sv_targets s |}, false, [(fd, out)])
      end
  end.
Definition broadcast_to (excludeFd : Z) (node : CNode) : bool :=
  negb ((n_fd node =? excludeFd) || negb (n_handshakeDone node)).
Definition BroadcastMessage (s : CNetServer) (command payload : bytes) (excludeFd : Z) : CNetServer * list (Z * bytes) :=
  match BuildMessage magic command payload with
  | None => (s, [])
  | Some frame =>
      ({| sv_peers := (fun node => if broadcast_to excludeFd node && negb (fst (write (n_fd node) frame))
                                   then MarkDisconnected node else node) <$> sv_peers s;
          sv_targets := sv_targets s |},
       omap (fun kv : Z * CNode => if broadcast_to excludeFd kv.2 then Some (n_fd kv.2, snd (write (n_fd kv.2) frame)) else None)
            (map_to_list (sv_peers s)))
  end.

End Send.

(** * Connections *)

(** [if (peers.size() >= 32) { close(fd); ... } peers[fd] = node;] *)
Definition add_peer (s : CNetServer) (node : CNode) : option CNetServer :=
  if (32 <=? size (sv_peers s))%nat then None
  else Some {| sv_peers := <[n_fd node := node]> (sv_peers s); sv_targets := sv_targets s |}.
(** The end of [ReadLoop]. *)
Definition remove_peer (s : CNetServer) (fd : Z) : CNetServer :=
  {| sv_peers := delete fd (sv_peers s); sv_targets := sv_targets s |}.
Definition add_target (s : CNetServer) (t : bytes) : CNetServer :=
  if existsb (fun x => bool_decide (x = t)) (sv_targets s) then s
  else {| sv_peers := sv_peers s; sv_targets := sv_targets s ++ [t] |}.
Definition HasTargetConnection (s : CNetServer) (target : bytes) : bool :=
  existsb (fun n => negb (n_inbound n) && bool_decide (n_addr n = target) && negb (n_disconnected n))
    (map snd (map_to_list (sv_peers s))).
(** The targets one round of [ConnectLoop] dials. *)
Definition connect_round (s : CNetServer) : list bytes :=
  filter (fun t => HasTargetConnection s t = false) (sv_targets s).
Definition GetPeerCount (s : CNetServer) : Z :=
  Z.of_nat (length (filter (fun n => n_disconnected n = false) (map snd (map_to_list (sv_peers s))))).
Definition GetPeerList (s : CNetServer) : list (bytes * bool) :=
  map (fun kv => (n_addr kv.2, n_handshakeDone kv.2)) (map_to_list (sv_peers s)).
Definition NetStop (s : CNetServer) : CNetServer := {| sv_peers := ∅; sv_targets := sv_targets s |}.

(** Every change the server makes to its own state. *)
Inductive server_step : CNetServer -> CNetServer -> Prop :=
| step_accept s node s' : add_peer s node = Some s' -> server_step s s'
| step_close s fd : server_step s (remove_peer s fd)
| step_target s t : server_step s (add_target s t)
| step_node s fd node node' : sv_peers s !! fd = Some node -> n_fd node' = n_fd node ->
    server_step s {| sv_peers := <[fd := node']> (sv_peers s); sv_targets := sv_targets s |}
| step_stop s : server_step s (NetStop s).
Inductive server_reach : CNetServer -> Prop :=
| server_init : server_reach {| sv_peers := ∅; sv_targets := [] |}
| server_next s s' : server_reach s -> server_step s s' -> server_reach s'.

(** * Lemmas *)

(** ** Streams of frames *)

Definition frame_ok (m : CNetMessage) : Prop :=
  IsKnownCommand (msg_command m) = true /\ Z.of_nat (length (msg_payload m)) <= MAX_MESSAGE_SIZE.
(** No HTTP method starts with the first byte of the magic. *)
Definition magic_ok (magic : Z) : Prop :=
  is_u32 magic /\ forallb (fun m => match m with b :: _ => negb (b =? u8 magic) | [] => false end) http_methods = true.

Lemma set_io_io n b t b' t' : set_io (set_io n b t) b' t' = set_io n b' t'.
Proof. done. Qed.

Section Stream.
Context {ossl : OpenSSL} {laws : OpenSSLLaws ossl} {Hs : Type} {handler : NodeHandler Hs} {hlaws : NodeHandlerLaws Hs}.
Context (magic now : Z) (Hmagic : magic_ok magic).

Definition frame (m : CNetMessage) : bytes := frame_header magic (msg_command m) (msg_payload m) ++ msg_payload m.
(** The handler applied to a sequence of messages. *)
Definition deliver (s : CNode * Hs) (m : CNetMessage) : CNode * Hs := OnMessage (fst s) m (snd s).
Definition deliver_all (ms : list CNetMessage) (s : CNode * Hs) : CNode * Hs := foldl deliver s ms.

Lemma length_frame m : frame_ok m -> (24 <= length (frame m))%nat.
Proof.
  intros [Hk _]. apply known_command_wf in Hk as (Hc & _). unfold frame. rewrite length_app, length_frame_header by done. lia.
Qed.

Lemma parse_frame m rest : frame_ok m -> ParseMessage (frame m ++ rest) magic = Parsed m (length (frame m)).
Proof. intros [Hk Hl]. unfold frame. rewrite ParseMessage_frame by (done || apply Hmagic). by destruct m. Qed.

Lemma parse_part m part rest : frame_ok m -> frame m = part ++ rest -> rest <> [] -> ParseMessage part magic = Incomplete.
Proof.
  intros [Hk Hl] E Hne. assert (part = take (length part) (frame m)) as -> by (by rewrite E, take_app_length).
  apply ParseMessage_prefix; try done; [apply Hmagic|]. fold (frame m). rewrite E, length_app.
  destruct rest; [done|cbn; lia].
Qed.

(** A buffer of complete frames and a part of the next one: everything complete
    is delivered, the part stays. *)
Lemma process_frames ms : forall fuel n h part, Forall frame_ok ms -> ParseMessage part magic = Incomplete ->
  (length ms < fuel)%nat ->
  exists t, process_loop magic now fuel (set_io n (concat (map frame ms) ++ part) now) h =
    (set_io (fst (deliver_all ms (n, h))) part t, snd (deliver_all ms (n, h))) /\ t = now.
Proof.
  induction ms as [|m ms IH]; intros [|fuel] n h part Hms Hp Hf; [cbn in Hf; lia| |cbn in Hf; lia|];
    cbn [process_loop map concat app]; cbn [set_io n_recvBuffer].
  - exists now. rewrite Hp. done.
  - apply Forall_cons in Hms as [Hm Hms]. rewrite <- app_assoc, parse_frame, drop_app_length by done.
    rewrite set_io_io, OnMessage_io. destruct (OnMessage n m h) as [n' h'] eqn:E.
    destruct (IH fuel n' h' part Hms Hp ltac:(cbn in Hf; lia)) as (t & Ht & Et). exists t. cbn [fst snd].
    rewrite Ht. cbn [deliver_all foldl]. unfold deliver at 2 4. cbn [fst snd]. by rewrite E.
Qed.

Lemma length_frames ms : Forall frame_ok ms -> (length ms <= length (concat (map frame ms)))%nat.
Proof.
  induction 1 as [|m ms Hm _ IH]; [done|]. cbn [map concat length]. rewrite length_app.
  pose proof (length_frame m Hm). lia.
Qed.

(** Any prefix of a stream of frames splits into whole frames and a part. *)
Lemma prefix_frames ms : forall p rest, concat (map frame ms) = p ++ rest ->
  exists ms1 ms2 part, ms = ms1 ++ ms2 /\ p = concat (map frame ms1) ++ part /\
    concat (map frame ms2) = part ++ rest /\
    (part = [] \/ exists m r, head ms2 = Some m /\ frame m = part ++ r /\ r <> []).
Proof.
  induction ms as [|m ms IH]; intros p rest E.
  { exists [], [], []. cbn [map concat] in E. symmetry in E. apply app_eq_nil in E as [-> ->]. split_and!; auto. }
  cbn [map concat] in E. destruct (decide (length (frame m) <= length p)%nat) as [Hle|Hgt].
  - assert (p = frame m ++ drop (length (frame m)) p) as Ep.
    { rewrite <- (take_drop (length (frame m)) p) at 1. f_equal.
      rewrite <- (take_app_le p rest (length (frame m))) by lia. rewrite <- E. apply take_app_length. }
    rewrite Ep, <- app_assoc in E. apply app_inv_head in E.
    destruct (IH _ _ E) as (ms1 & ms2 & part & -> & Hp & Hr & Hpart). exists (m :: ms1), ms2, part.
    split_and!; [done| |done|done]. rewrite Ep, Hp. cbn [map concat]. by rewrite app_assoc.
  - exists [], (m :: ms), p. split_and!; [done|done|done|]. right. exists m, (drop (length p) (frame m)).
    split_and!; [done| |].
    + rewrite <- (take_drop (length p) (frame m)) at 1. f_equal.
      rewrite <- (take_app_le (frame m) (concat (map frame ms)) (length p)) by lia. rewrite E. apply take_app_length.
    + intros Hd. apply (f_equal length) in Hd. rewrite length_drop, length_nil in Hd. lia.
Qed.

(** A buffer at a frame boundary is not taken for an HTTP request. *)
Lemma frames_not_http ms p rest : concat (map frame ms) = p ++ rest -> is_http p = false.
Proof.
  intros E. destruct p as [|b p]; [done|].
  assert (b = u8 magic) as ->.
  { destruct ms as [|m ms]; [done|]. cbn [map concat] in E. unfold frame, frame_header in E.
    rewrite <- !app_assoc, le_bytes_S in E. cbn [app] in E. by injection E as <- _. }
  destruct Hmagic as [_ Hm]. unfold is_http. apply not_true_is_false. intros (m & Hin & Hb)%existsb_exists.
  apply andb_true_iff in Hb as [_ Hb%bool_decide_eq_true].
  rewrite forallb_forall in Hm. specialize (Hm m Hin). destruct m as [|c m]; [done|].
  cbn [length take] in Hb. injection Hb as Hc _. rewrite Hc, Z.eqb_refl in Hm. done.
Qed.

(** The messages whose frames have arrived when [k] bytes of the stream have. *)
Fixpoint complete (k : nat) (ms : list CNetMessage) : list CNetMessage :=
  match ms with
  | [] => []
  | m :: r => if (length (frame m) <=? k)%nat then m :: complete (k - length (frame m)) r else []
  end.
Lemma complete_app ms1 ms2 k : complete (length (concat (map frame ms1)) + k) (ms1 ++ ms2) = ms1 ++ complete k ms2.
Proof.
  induction ms1 as [|m ms1 IH]; [done|]. cbn [map concat app complete]. rewrite length_app.
  destruct (Nat.leb_spec (length (frame m)) (length (frame m) + length (concat (map frame ms1)) + k)); [|lia]. f_equal. rewrite <- IH. f_equal. lia.
Qed.
Lemma complete_all ms : complete (length (concat (map frame ms))) ms = ms.
Proof. pose proof (complete_app ms [] 0) as H. by rewrite Nat.add_0_r, !app_nil_r in H. Qed.

(** One chunk of the stream. *)
Lemma receive_chunk ms part chunk rest n h :
  Forall frame_ok ms -> concat (map frame ms) = (part ++ chunk) ++ rest ->
  exists ms1 ms2 part', ms = ms1 ++ ms2 /\ part ++ chunk = concat (map frame ms1) ++ part' /\ concat (map frame ms2) = part' ++ rest /\
    ProcessBuffer magic now (set_io n (part ++ chunk) now) h =
    (set_io (fst (deliver_all ms1 (n, h))) part' now, snd (deliver_all ms1 (n, h))) /\ complete (length part') ms2 = [].
Proof.
  intros Hms E. destruct (prefix_frames ms _ _ E) as (ms1 & ms2 & part' & -> & Ep & Er & Hpart).
  apply Forall_app in Hms as [H1 H2]. exists ms1, ms2, part'. split_and!; [done|done|done| |].
  - unfold ProcessBuffer. cbn [set_io n_recvBuffer]. rewrite (frames_not_http _ _ _ E).
    assert (ParseMessage part' magic = Incomplete) as Hi.
    { destruct Hpart as [->|(m & r & Hh & Ef & Hr)]; [done|]. destruct ms2 as [|m' ms2]; [done|].
      injection Hh as ->. apply Forall_cons in H2 as [Hm _]. by eapply parse_part. }
    destruct (process_frames ms1 (S (length (part ++ chunk))) n h part' H1 Hi) as (t & Ht & ->).
    + rewrite Ep, length_app. pose proof (length_frames ms1 H1). lia.
    + rewrite <- Ep in Ht. exact Ht.
  - destruct ms2 as [|m ms2]; [done|]. apply Forall_cons in H2 as [Hm _]. cbn [complete].
    destruct (Nat.leb_spec (length (frame m)) (length part')); [|done]. exfalso. destruct Hpart as [->|(m' & r & [= <-] & Ef & Hr)].
    + pose proof (length_frame m Hm). cbn in *. lia.
    + rewrite Ef, length_app in *. destruct r; [done|cbn in *; lia].
Qed.

(** The loop over the chunks of a stream of frames: it ends after the first
    chunk at the end of which the node is marked, and has then delivered what
    had arrived. *)
Lemma read_chunks chunks : forall ms part n h, Forall frame_ok ms -> n_disconnected n = false -> complete (length part) ms = [] ->
  concat (map frame ms) = part ++ concat chunks ->
  let arrived i := complete (length part + length (concat (take i chunks))) ms in
  exists j, (j <= length chunks)%nat /\
    ReadLoop magic now (map RecvData chunks) (set_io n part now) h =
      (set_io (fst (deliver_all (arrived j) (n, h))) (drop (length (concat (map frame (arrived j)))) (part ++ concat (take j chunks))) now,
       snd (deliver_all (arrived j) (n, h))) /\
    (forall i, (i < j)%nat -> n_disconnected (fst (deliver_all (arrived i) (n, h))) = false) /\
    (j = length chunks \/ n_disconnected (fst (deliver_all (arrived j) (n, h))) = true).
Proof.
  induction chunks as [|c chunks IH]; intros ms part n h Hms Hd Hp E arrived.
  { exists 0%nat. unfold arrived. cbn [take concat length map ReadLoop]. rewrite Nat.add_0_r, Hp. cbn [deliver_all foldl map concat length drop fst snd].
    change (n_disconnected (set_io n part now)) with (n_disconnected n). rewrite Hd, app_nil_r. split_and!; [lia|done|lia|by left]. }
  cbn [concat] in E. rewrite app_assoc in E.
  destruct (receive_chunk ms part c (concat chunks) n h Hms E) as (ms1 & ms2 & part' & -> & Epc & Er & Ep & Hend).
  apply Forall_app in Hms as [H1 H2].
  assert (forall i, arrived (S i) = ms1 ++ complete (length part' + length (concat (take i chunks))) ms2) as Ha.
  { intros i. unfold arrived. cbn [take concat]. rewrite <- complete_app by done. f_equal.
    apply (f_equal length) in Epc. rewrite !length_app in *. lia. }
  assert (arrived 0%nat = []) as Ha0 by (unfold arrived; cbn [take concat length]; by rewrite Nat.add_0_r).
  cbn [map ReadLoop ReadLoop_round]. change (n_disconnected (set_io n part now)) with (n_disconnected n). rewrite Hd.
  cbn [set_io n_recvBuffer]. change (set_io _ (part ++ c) now) with (set_io n (part ++ c) now). rewrite Ep.
  destruct (deliver_all ms1 (n, h)) as [n1 h1] eqn:E1. cbn [fst snd].
  destruct (n_disconnected n1) eqn:Hd1.
  - exists 1%nat. rewrite Ha. cbn [take concat length]. rewrite Nat.add_0_r, Hend, !app_nil_r, E1, Epc, drop_app_length. cbn [fst snd]. split_and!.
    + lia.
    + destruct chunks; cbn [map ReadLoop]; change (n_disconnected (set_io n1 part' now)) with (n_disconnected n1); rewrite Hd1; unfold MarkDisconnected, set_score, set_io; cbn; by rewrite Hd1.
    + intros i Hi. assert (i = 0%nat) as -> by lia. by rewrite Ha0.
    + by right.
  - destruct (IH ms2 part' n1 h1 H2 Hd1 Hend Er) as (j & Hj & Hrun & Hbefore & Hlast).
    assert (forall l, deliver_all (ms1 ++ l) (n, h) = deliver_all l (n1, h1)) as Hda.
    { intros l. unfold deliver_all in *. by rewrite foldl_app, E1. }
    exists (S j). rewrite !Ha, !Hda. split_and!.
    + cbn [length]. lia.
    + rewrite Hrun. cbn [take concat]. do 2 f_equal. rewrite map_app, concat_app, length_app, app_assoc, Epc, <- app_assoc.
      by rewrite <- drop_drop, drop_app_length.
    + intros [|i] Hi; [by rewrite Ha0|]. rewrite Ha, Hda. apply Hbefore. lia.
    + destruct Hlast as [->|]; [by left|by right].
Qed.

End Stream.

(** ** Sending and connections *)

Lemma WriteTo_prefix evs : forall data ok out, WriteTo evs data = Some (ok, out) ->
  exists rest, data = out ++ rest /\ (ok = true <-> rest = []).
Proof.
  induction evs as [|ev evs IH]; intros data ok out H.
  { destruct data as [|x data]; [|done]. injection H as <- <-. by exists []. }
  destruct data as [|x data]; [injection H as <- <-; by exists []|]. set (d := x :: data) in *.
  change (WriteTo (ev :: evs) d) with
    (match ev with
     | Sent n => let n := Nat.min n (length d) in
         if (n =? 0)%nat then Some (false, [])
         else match WriteTo evs (drop n d) with Some (ok, out) => Some (ok, take n d ++ out) | None => None end
     | WaitWritable => WriteTo evs d
     | WaitTimeout | SendFailed => Some (false, [])
     end) in H.
  destruct ev as [n| | |].
  - cbn zeta in H. destruct (Nat.min n (length d) =? 0)%nat.
    { injection H as <- <-. exists d. by split. }
    destruct (WriteTo evs (drop (Nat.min n (length d)) d)) as [[ok' out']|] eqn:E; [|done]. injection H as <- <-.
    destruct (IH _ _ _ E) as (rest & Er & Hr). exists rest. split; [|done].
    rewrite <- app_assoc, <- Er. symmetry. apply take_drop.
  - by apply IH.
  - injection H as <- <-. exists d. by split.
  - injection H as <- <-. exists d. by split.
Qed.

Lemma server_step_inv s s' :
  (size (sv_peers s) <= 32)%nat /\ NoDup (sv_targets s) /\ map_Forall (fun fd n => n_fd n = fd) (sv_peers s) ->
  server_step s s' ->
  (size (sv_peers s') <= 32)%nat /\ NoDup (sv_targets s') /\ map_Forall (fun fd n => n_fd n = fd) (sv_peers s').
Proof.
  intros (H1 & H2 & H3) Hs. destruct Hs as [s node s' Ha|s fd|s t|s fd node node' Hn He|s].
  - unfold add_peer in Ha. destruct (Nat.leb_spec 32 (size (sv_peers s))); [done|]. injection Ha as <-. cbn.
    split_and!; [|done|by apply map_Forall_insert_2]. rewrite map_size_insert. destruct (_ !! _); cbn; lia.
  - cbn. split_and!; [|done|by apply map_Forall_delete]. rewrite map_size_delete. destruct (_ !! _); cbn; lia.
  - unfold add_target. destruct (existsb _ _) eqn:E; [done|]. cbn. split_and!; [done| |done].
    apply NoDup_app. split_and!; [done| |apply NoDup_singleton]. intros x Hx ->%list_elem_of_singleton.
    apply not_true_iff_false in E. apply E. apply existsb_exists. exists t. split; [by apply list_elem_of_In|by apply bool_decide_eq_true].
  - cbn. split_and!; [|done|].
    + rewrite map_size_insert, Hn. cbn. done.
    + apply map_Forall_insert_2; [|done]. rewrite He. by apply H3.
  - cbn. split_and!; [rewrite map_size_empty; lia|done|apply map_Forall_empty].
Qed.

(** * Theorems *)

(** C27: however TCP cuts the byte stream, [ReadLoop] reassembles it.  When a peer
    sends a sequence of framed messages and the bytes arrive in arbitrary
    chunks, there is a chunk [j] up to which the loop reads: the handler has
    been called for exactly the messages whose frames have arrived by then, in
    order, and the buffer holds the part of the next frame that has; no chunk
    boundary is mistaken for an HTTP request or a malformed frame.  The loop
    stops after [j] chunks only because there are no more, and then the
    handler has had all messages, or because the node is marked disconnected
    by then; after no earlier chunk was it. *)
Theorem stream_reassembly {ossl : OpenSSL} {laws : OpenSSLLaws ossl} {Hs : Type} {handler : NodeHandler Hs}
    {hlaws : NodeHandlerLaws Hs} magic now ms frames chunks n h :
  magic_ok magic -> Forall frame_ok ms ->
  Forall2 (fun m f => BuildMessage magic (msg_command m) (msg_payload m) = Some f) ms frames ->
  concat frames = concat chunks -> n_disconnected n = false -> n_recvBuffer n = [] -> n_lastMessageTime n = now ->
  let arrived i := complete magic (length (concat (take i chunks))) ms in
  exists j, (j <= length chunks)%nat /\
    ReadLoop magic now (map RecvData chunks) n h =
      (set_io (fst (deliver_all (arrived j) (n, h))) (drop (length (concat (map (frame magic) (arrived j)))) (concat (take j chunks))) now,
       snd (deliver_all (arrived j) (n, h))) /\
    (forall i, (i < j)%nat -> n_disconnected (fst (deliver_all (arrived i) (n, h))) = false) /\
    (j = length chunks /\ arrived j = ms \/ n_disconnected (fst (deliver_all (arrived j) (n, h))) = true).
Proof.
  intros Hm Hms Hf Hc Hd Hb Ht arrived.
  assert (concat (map (frame magic) ms) = concat chunks) as Hst.
  { rewrite <- Hc. f_equal. clear Hc arrived. revert Hms. induction Hf as [|m f ms' fs Hmf _ IH]; intros Hms; [done|]. apply Forall_cons in Hms as [[Hk Hl] Hms].
    cbn [map]. rewrite (IH Hms). f_equal. rewrite BuildMessage_frame in Hmf by done. by injection Hmf as <-. }
  assert (n = set_io n [] now) as En by (destruct n; cbn in *; by subst).
  assert (complete magic (length ([] : bytes)) ms = []) as H0.
  { destruct Hms as [|m ms' Hm1 _]; [done|]. cbn [complete length]. apply (length_frame magic) in Hm1.
    by destruct (Nat.leb_spec (length (frame magic m)) 0); [lia|]. }
  destruct (read_chunks magic now Hm chunks ms [] n h Hms Hd H0 Hst) as (j & Hj & Hrun & Hbefore & Hlast).
  rewrite <- En in Hrun. exists j. split_and!; [done|exact Hrun|exact Hbefore|].
  destruct Hlast as [->|]; [left|by right]. split; [done|]. unfold arrived. by rewrite firstn_all, <- Hst, complete_all.
Qed.

(** [WriteTo] is all or nothing as far as its result goes: whatever the
    socket reports, the bytes it passed on are a prefix of the frame, and it
    returns [true] exactly when they are the whole frame; a peer that got a
    truncated frame is marked disconnected by [SendTo]. *)
Theorem write_to_exact {ossl : OpenSSL} magic evs s fd cmd payload frame node ok out :
  BuildMessage magic cmd payload = Some frame -> sv_peers s !! fd = Some node -> WriteTo evs frame = Some (ok, out) ->
  (exists rest, frame = out ++ rest /\ (ok = true <-> rest = [])) /\
  let '(s', sent, log) := SendTo magic (fun _ _ => (ok, out)) s fd cmd payload in
  sent = ok /\ log = [(fd, out)] /\
  (sent = true -> s' = s) /\
  (sent = false -> (exists node', sv_peers s' !! fd = Some node' /\ n_disconnected node' = true) /\
                   forall fd', fd' <> fd -> sv_peers s' !! fd' = sv_peers s !! fd').
Proof.
  intros Hb Hn Hw. split; [by eapply WriteTo_prefix|]. unfold SendTo. rewrite Hb, Hn. destruct ok.
  - split_and!; done.
  - split_and!; [done|done|done|]. intros _. split.
    + exists (MarkDisconnected node). split; [apply lookup_insert_eq|done].
    + intros fd' Hne. by apply lookup_insert_ne.
Qed.

(** Whatever connections come and go, the server keeps at most 32 peers,
    each filed under its own socket, and never lists a reconnection target
    twice. *)
Theorem peers_bounded s :
  server_reach s ->
  (size (sv_peers s) <= 32)%nat /\ NoDup (sv_targets s) /\ map_Forall (fun fd n => n_fd n = fd) (sv_peers s).
Proof.
  induction 1 as [|s s' _ IH Hs].
  - cbn. split_and!; [rewrite map_size_empty; lia|constructor|apply map_Forall_empty].
  - by eapply server_step_inv.
Qed.

(** A broadcast reaches exactly the peers that finished the handshake,
    except the excluded one, with the same frame, and only a peer whose write
    failed is marked disconnected. *)
Theorem broadcast_exact {ossl : OpenSSL} magic write s cmd payload frame excludeFd :
  BuildMessage magic cmd payload = Some frame ->
  map_Forall (fun fd n => n_fd n = fd) (sv_peers s) ->
  let '(s', log) := BroadcastMessage magic write s cmd payload excludeFd in
  (forall fd out, (fd, out) ∈ log <->
     exists n, sv_peers s !! fd = Some n /\ n_handshakeDone n = true /\ fd <> excludeFd /\ out = snd (write fd frame)) /\
  (forall fd n, sv_peers s !! fd = Some n ->
     exists n', sv_peers s' !! fd = Some n' /\
       (n_disconnected n' = true <-> n_disconnected n = true \/
          n_handshakeDone n = true /\ fd <> excludeFd /\ fst (write fd frame) = false)).
Proof.
  intros Hb Hfd. unfold BroadcastMessage. rewrite Hb. cbn [sv_peers].
  assert (forall n, broadcast_to excludeFd n = true <-> n_handshakeDone n = true /\ n_fd n <> excludeFd) as Hbt.
  { intros n. unfold broadcast_to. destruct (Z.eqb_spec (n_fd n) excludeFd), (n_handshakeDone n); cbn; intuition congruence. }
  split.
  - intros fd out. rewrite list_elem_of_omap. split.
    + intros ([k n] & Hin%elem_of_map_to_list & Hs). cbn [snd] in Hs. destruct (broadcast_to excludeFd n) eqn:E; [|done].
      apply Hbt in E as [E1 E2]. injection Hs as <- <-. pose proof (Hfd k n Hin) as Ek. cbn in Ek. subst k.
      exists n. split_and!; done.
    + intros (n & Hn & Hh & Hne & ->). exists (fd, n). pose proof (Hfd fd n Hn) as Ek. cbn in Ek.
      split; [by apply elem_of_map_to_list|]. cbn [snd]. rewrite (proj2 (Hbt n)) by (split; congruence). by rewrite Ek.
  - intros fd n Hn. pose proof (Hfd fd n Hn) as Ek. cbn in Ek. rewrite lookup_fmap, Hn. cbn [fmap option_fmap option_map].
    eexists. split; [reflexivity|]. rewrite Ek.
    destruct (broadcast_to excludeFd n) eqn:E.
    + apply Hbt in E as [E1 E2]. destruct (fst (write fd frame)) eqn:Ew; cbn [andb negb]; split; try done; try tauto.
      * intros [?|(_ & _ & ?)]; done.
      * intros _. right. split_and!; [done|congruence|done].
    + cbn [andb]. split; [by left|]. intros [?|(H1 & H2 & _)]; [done|].
      rewrite (proj2 (Hbt n)) in E by (split; congruence). done.
Qed.

(** The idle timeout of 90 seconds counts from 0 for a new connection: a
    peer that sends nothing in the first second is dropped at once. *)
Theorem silent_peer_dropped {ossl : OpenSSL} {Hs : Type} {handler : NodeHandler Hs} magic now fd addr inbound evs (h : Hs) :
  90 < now ->
  ReadLoop magic now (RecvIdle :: evs) (new_node fd addr inbound) h = (MarkDisconnected (new_node fd addr inbound), h).
Proof.
  intros Hn. cbn [ReadLoop ReadLoop_round new_node n_lastMessageTime n_disconnected]. rewrite Z.sub_0_r, Z.gtb_ltb.
  by rewrite (proj2 (Z.ltb_lt 90 now) Hn).
Qed.

(** * Witnesses *)

(** A handler that records the messages. *)
Definition recorder : NodeHandler (list CNetMessage) := {| OnMessage n m h := (n, h ++ [m]) |}.
Lemma recorder_laws : @NodeHandlerLaws _ recorder.
Proof. by split. Qed.

Lemma network_magics_ok : magic_ok (networkMagic MAINNET) /\ magic_ok (networkMagic TESTNET) /\ magic_ok (networkMagic REGTEST).
Proof. split_and!; (split; [vm_compute; split; congruence|reflexivity]). Qed.

Definition wit_msgs : list CNetMessage :=
  [{| msg_command := string_bytes "ping"; msg_payload := [1; 2] |}; {| msg_command := string_bytes "verack"; msg_payload := [] |}].
Definition wit_frames : list bytes :=
  map (fun m => default [] (BuildMessage (ossl := toy_ossl) (networkMagic MAINNET) (msg_command m) (msg_payload m))) wit_msgs.
Definition wit_chunks : list bytes := [take 3 (concat wit_frames); drop 3 (concat wit_frames)].
Definition wit_peer : CNode := new_node 5 [49] true.

Lemma wit_msgs_ok : Forall frame_ok wit_msgs.
Proof. repeat (apply Forall_cons_2; [split; [reflexivity|vm_compute; discriminate]|]). apply Forall_nil_2. Qed.

Lemma stream_reassembly_witness :
  snd (ReadLoop (ossl := toy_ossl) (handler := recorder) (networkMagic MAINNET) 0 (map RecvData wit_chunks) wit_peer []) = wit_msgs.
Proof.
  destruct (stream_reassembly (ossl := toy_ossl) (handler := recorder) (hlaws := recorder_laws) (networkMagic MAINNET) 0
    wit_msgs wit_frames wit_chunks wit_peer [] (proj1 network_magics_ok) wit_msgs_ok) as (j & _ & Hrun & _ & Hlast); [| |reflexivity..|].
  - constructor; [vm_compute; reflexivity|]. constructor; [vm_compute; reflexivity|]. constructor.
  - unfold wit_chunks. cbn [concat]. by rewrite app_nil_r, take_drop.
  - rewrite Hrun. cbn [snd]. destruct Hlast as [[_ ->]|Hd]; [reflexivity|]. exfalso. revert Hd.
    assert (forall ms s, n_disconnected (fst (deliver_all (handler := recorder) ms s)) = n_disconnected (fst s)) as Hk.
    { intros ms. induction ms as [|m ms IH]; intros s; [reflexivity|]. exact (IH _). }
    rewrite Hk. discriminate.
Defined.
(** A handler that marks the node stops the loop: the second message is not
    delivered when it comes in a later chunk, but is when it comes in the same. *)
Definition marker : NodeHandler (list CNetMessage) := {| OnMessage n m h := (MarkDisconnected n, h ++ [m]) |}.
Example marked_node_stops :
  snd (ReadLoop (ossl := toy_ossl) (handler := marker) (networkMagic MAINNET) 0 (map RecvData wit_frames) wit_peer []) = take 1 wit_msgs /\
  snd (ReadLoop (ossl := toy_ossl) (handler := marker) (networkMagic MAINNET) 0 [RecvData (concat wit_frames)] wit_peer []) = wit_msgs.
Proof. split; vm_compute; reflexivity. Qed.

Definition wit_server : CNetServer := {| sv_peers := {[5 := wit_peer]}; sv_targets := [] |}.

Lemma write_to_exact_witness :
  exists rest, hd [] wit_frames = take 3 (hd [] wit_frames) ++ rest /\ (false = true <-> rest = []).
Proof.
  refine (proj1 (write_to_exact (ossl := toy_ossl) (networkMagic MAINNET) [WaitWritable; Sent 3; WaitTimeout] wit_server 5
    (string_bytes "ping") [1; 2] (hd [] wit_frames) wit_peer false (take 3 (hd [] wit_frames)) _ _ _)).
  - vm_compute. reflexivity.
  - apply lookup_singleton_eq.
  - vm_compute. reflexivity.
Defined.

Lemma peers_bounded_witness :
  (size (sv_peers {| sv_peers := <[5%Z := wit_peer]> (∅ : gmap Z CNode); sv_targets := [] |}) <= 32)%nat.
Proof.
  refine (proj1 (peers_bounded {| sv_peers := <[5%Z := wit_peer]> ∅; sv_targets := [] |} _)).
  eapply server_next; [apply server_init|]. apply (step_accept _ wit_peer). unfold add_peer. cbn [sv_peers].
  by rewrite map_size_empty.
Defined.

Lemma broadcast_exact_witness :
  ~ exists out, (5, out) ∈ snd (BroadcastMessage (ossl := toy_ossl) (networkMagic MAINNET) (fun _ _ => (true, [])) wit_server
                  (string_bytes "ping") [1; 2] 7).
Proof.
  intros (out & Hin).
  pose proof (broadcast_exact (ossl := toy_ossl) (networkMagic MAINNET) (fun _ _ => (true, [])) wit_server
    (string_bytes "ping") [1; 2] (hd [] wit_frames) 7) as H.
  destruct (BroadcastMessage _ _ _ _ _ _) as [s' log]. cbn [snd] in Hin.
  destruct H as [H _]; [vm_compute; reflexivity|apply map_Forall_singleton; reflexivity|].
  apply H in Hin as (n & Hn & Hh & _). cbn [wit_server sv_peers] in Hn. rewrite lookup_singleton_eq in Hn.
  injection Hn as <-. discriminate.
Defined.

Lemma silent_peer_dropped_witness :
  n_disconnected (fst (ReadLoop (ossl := toy_ossl) (handler := recorder) 0xCDA1CD01 1717200000 [RecvIdle] wit_peer [])) = true.
Proof.
  unfold wit_peer. rewrite (silent_peer_dropped (ossl := toy_ossl) (handler := recorder) 0xCDA1CD01 1717200000 5 [49] true [] []).
  - reflexivity.
  - lia.
Defined.
