(* ===== verification/Handlers.v ===== *)
(** [CNodeHandler] of [bin/cdxd.cpp]: what the node does with the messages of a
    peer, on the chain, the mempool, the wallet's history and the connections.

    A handler runs for one peer [node]; the other entries of the server's peer
    table are [d_peers].  What the sockets do is a parameter: the result of a
    write may depend on everything written before.  [None] is a state after
    undefined behaviour. *)
From Stdlib Require Import Ascii.
From S2P Require Import Prelude Config UInt256 Consensus Crypto Transaction Utxo Block Validation Mempool Chain Protocol Net.
Import uint256 Rewards.

(** * State *)

(** [WalletTxRecord] *)
Record WalletTxRecord := {
  wr_txid : uint256; wr_height : Z; wr_amount : Z; wr_fee : Z; wr_address : list ascii;
  wr_timestamp : Z; wr_isCoinbase : bool }.

Definition set_version (v : CVersionMessage) (n : CNode) : CNode := {|
  n_fd := n_fd n; n_addr := n_addr n; n_inbound := n_inbound n; n_handshakeDone := true;
  n_verackReceived := n_verackReceived n; n_theirVersion := v; n_lastMessageTime := n_lastMessageTime n;
  n_lastPingTime := n_lastPingTime n; n_misbehaviorScore := n_misbehaviorScore n;
  n_disconnected := n_disconnected n; n_recvBuffer := n_recvBuffer n |}.
Definition set_verack (n : CNode) : CNode := {|
  n_fd := n_fd n; n_addr := n_addr n; n_inbound := n_inbound n; n_handshakeDone := n_handshakeDone n;
  n_verackReceived := true; n_theirVersion := n_theirVersion n; n_lastMessageTime := n_lastMessageTime n;
  n_lastPingTime := n_lastPingTime n; n_misbehaviorScore := n_misbehaviorScore n;
  n_disconnected := n_disconnected n; n_recvBuffer := n_recvBuffer n |}.
Definition set_ping_time (t : Z) (n : CNode) : CNode := {|
  n_fd := n_fd n; n_addr := n_addr n; n_inbound := n_inbound n; n_handshakeDone := n_handshakeDone n;
  n_verackReceived := n_verackReceived n; n_theirVersion := n_theirVersion n; n_lastMessageTime := n_lastMessageTime n;
  n_lastPingTime := t; n_misbehaviorScore := n_misbehaviorScore n;
  n_disconnected := n_disconnected n; n_recvBuffer := n_recvBuffer n |}.

(** [CVersionMessage mine; mine.startHeight = h;] *)
Definition version_at (h : Z) : CVersionMessage := {|
  v_version := v_version default_version; v_services := v_services default_version;
  v_timestamp := v_timestamp default_version; v_addrMe := v_addrMe default_version;
  v_addrYou := v_addrYou default_version; v_nonce := v_nonce default_version;
  v_userAgent := v_userAgent default_version; v_startHeight := i32 h; v_relay := v_relay default_version |}.

Section Handlers.
Context {ossl : OpenSSL} {St : Type} {stor : IStorage St} (params : ChainParams).
(** [time(nullptr)], and the outcome of a write after the writes in the list. *)
Context (now : Z) (write : list (Z * bytes) -> Z -> bytes -> bool * bytes).

Record Daemon := {
  d_node : Node St; d_pool : CTxMemPool; d_peers : gmap Z CNode;
  d_sent : list (Z * bytes); d_history : list WalletTxRecord }.

(** * The handler monad *)

Definition HandlerM (A : Type) : Type := CNode * Daemon -> outcome (A * (CNode * Daemon)).
#[global] Instance HandlerM_ret : MRet HandlerM := fun A a s => Done (a, s).
#[global] Instance HandlerM_bind : MBind HandlerM := fun A B f m s =>
  match m s with
  | Done (a, s') => f a s'
  | Undef => Undef
  end.

Definition hnode {A} (f : CNode -> A) : HandlerM A := fun s => Done (f s.1, s).
Definition hset (f : CNode -> CNode) : HandlerM unit := fun s => Done (tt, (f s.1, s.2)).
Definition hget : HandlerM Daemon := fun s => Done (s.2, s).
Definition hput (f : Daemon -> Daemon) : HandlerM unit := fun s => Done (tt, (s.1, f s.2)).

Definition with_node (d : Daemon) (n : Node St) : Daemon := {|
  d_node := n; d_pool := d_pool d; d_peers := d_peers d; d_sent := d_sent d; d_history := d_history d |}.
Definition with_pool (p : CTxMemPool) (d : Daemon) : Daemon := {|
  d_node := d_node d; d_pool := p; d_peers := d_peers d; d_sent := d_sent d; d_history := d_history d |}.
Definition with_net (d : Daemon) (ps : gmap Z CNode) (out : list (Z * bytes)) : Daemon := {|
  d_node := d_node d; d_pool := d_pool d; d_peers := ps; d_sent := d_sent d ++ out; d_history := d_history d |}.
Definition add_record (r : WalletTxRecord) (d : Daemon) : Daemon := {|
  d_node := d_node d; d_pool := d_pool d; d_peers := d_peers d; d_sent := d_sent d; d_history := d_history d ++ [r] |}.

(** An operation of the chain that has no error exit. *)
Definition hrun {A} (m : NodeM St A) : HandlerM A := fun s =>
  match m (d_node s.2) with
  | Done (Ok a, n) => Done (a, (s.1, with_node s.2 n))
  | Done (Err _, _) => Undef
  | Undef => Undef
  end.
Definition hlift {A} (o : outcome A) : HandlerM A := fun s =>
  match o with Done a => Done (a, s) | Undef => Undef end.
Definition hchain : HandlerM CChain := d ← hget; mret (nd_chain (d_node d)).

(** [net.SendTo(node.fd, command, payload)] *)
Definition hsend (command : string) (payload : bytes) : HandlerM unit := fun s =>
  let '(n, d) := s in
  let '(sv, _, out) := SendTo (networkMagic params) (write (d_sent d)) {| sv_peers := {[n_fd n := n]}; sv_targets := [] |}
                         (n_fd n) (string_bytes command) payload in
  Done (tt, (default n (sv_peers sv !! n_fd n), with_net d (d_peers d) out)).
(** [net.BroadcastMessage(command, payload, excludeFd)]: the other peers, then
    the peer itself. *)
Definition hbroadcast (command : string) (payload : bytes) (excludeFd : Z) : HandlerM unit := fun s =>
  let '(n, d) := s in
  let '(sv, out) := BroadcastMessage (networkMagic params) (write (d_sent d)) {| sv_peers := d_peers d; sv_targets := [] |}
                      (string_bytes command) payload excludeFd in
  let '(sv1, out1) := BroadcastMessage (networkMagic params) (write (d_sent d ++ out)) {| sv_peers := {[n_fd n := n]}; sv_targets := [] |}
                        (string_bytes command) payload excludeFd in
  Done (tt, (default n (sv_peers sv1 !! n_fd n), with_net d (sv_peers sv) (out ++ out1))).

(** * Handlers *)

(** The locator loop of the handlers: [h] goes down by one, and by two once
    there are more than ten hashes; it is below zero after at most [h + 1]
    rounds. *)
Fixpoint locator_from (fuel : nat) (h : Z) (locator : list uint256) : NodeM St (list uint256) :=
  match fuel with
  | O => mret locator
  | S k =>
      if (h >=? 0) && (length locator <? 32)%nat then
        hh ← GetBlockHashByHeight h;
        let locator := match hh with Some x => locator ++ [x] | None => locator end in
        locator_from k (h - (if (10 <? length locator)%nat then 2 else 1)) locator
      else mret locator
  end.
Definition chain_locator : NodeM St (list uint256) :=
  c ← get_chain; locator_from (Z.to_nat (ch_height c + 1)) (ch_height c) [].
Definition send_getheaders : HandlerM unit :=
  locator ← hrun chain_locator; hsend "getheaders" (BuildGetHeadersPayload locator zero).

Definition HandleVersion (payload : bytes) : HandlerM unit :=
  match DeserializeVersion payload with
  | None => hset MarkDisconnected
  | Some v =>
      if v_version v <? MIN_PROTOCOL_VERSION then hset MarkDisconnected
      else
        _ ← hset (set_version v);
        inbound ← hnode n_inbound;
        _ ← (if (inbound : bool)
             then c ← hchain; hsend "version" (SerializeVersion (version_at (ch_height c)))
             else mret tt);
        _ ← hsend "verack" [];
        send_getheaders
  end.

(** The loop of [HandleInv], with [want] as state. *)
Fixpoint inv_want (pool : CTxMemPool) (c : CChain) (inv want : list CInv) : list CInv :=
  match inv with
  | [] => want
  | i :: r =>
      let want :=
        if inv_type i =? INV_TX then (if Exists_ pool (inv_hash i) then want else want ++ [i])
        else if inv_type i =? INV_BLOCK then (if HaveBlock c (inv_hash i) then want else want ++ [i])
        else want in
      if (500 <=? length want)%nat then want else inv_want pool c r want
  end.
Definition HandleInv (payload : bytes) : HandlerM unit :=
  match DeserializeInv payload with
  | None => hset (fun n => misbehave n 10)
  | Some inv =>
      d ← hget; c ← hchain;
      let want := inv_want (d_pool d) c inv [] in
      match want with
      | [] => mret tt
      | _ => hsend "getdata" (SerializeInv want)
      end
  end.

(** The loop of [HandleGetData]: [txSer] and [blockSer]. *)
Fixpoint collect_data (pool : CTxMemPool) (inv : list CInv) (txSer blockSer : list bytes) : NodeM St (list bytes * list bytes) :=
  match inv with
  | [] => mret (txSer, blockSer)
  | i :: r =>
      if inv_type i =? INV_TX then
        collect_data pool r
          (match mapTx pool !! inv_hash i with Some e => txSer ++ [SerializeTransaction (e_tx e)] | None => txSer end) blockSer
      else if inv_type i =? INV_BLOCK then
        b ← GetBlock (inv_hash i);
        collect_data pool r txSer (match b with Some blk => blockSer ++ [SerializeBlock blk] | None => blockSer end)
      else collect_data pool r txSer blockSer
  end.
Fixpoint send_all (command : string) (l : list bytes) : HandlerM unit :=
  match l with
  | [] => mret tt
  | ser :: r => _ ← hsend command ser; send_all command r
  end.
Definition HandleGetData (payload : bytes) : HandlerM unit :=
  match DeserializeInv payload with
  | None => hset (fun n => misbehave n 10)
  | Some inv =>
      d ← hget;
      '(txSer, blockSer) ← hrun (collect_data (d_pool d) inv [] []);
      _ ← send_all "tx" txSer;
      send_all "block" blockSer
  end.

Definition RelayTx (tx : CTransaction) : HandlerM unit := hbroadcast "tx" (SerializeTransaction tx) (-1).
Definition HandleTx (payload : bytes) : HandlerM unit :=
  match ParseTxPayload payload with
  | None => hset (fun n => misbehave n 10)
  | Some tx =>
      d ← hget; c ← hchain;
      if Exists_ (d_pool d) (GetTxID tx) then mret tt
      else
        let height := ch_height c in
        match CheckTx (d_pool d) tx (ch_view c) height with
        | Err _ => hset (fun n => misbehave n 5)
        | Ok fee =>
            _ ← hput (with_pool (snd (AddUnchecked (d_pool d) tx fee height now)));
            RelayTx tx
        end
  end.

(** [r.error.find("unknown prev") != npos] *)
Definition unknown_prev (e : string) : bool :=
  match String.index 0 "unknown prev" e with Some _ => true | None => false end.
Definition block_record (height : Z) (blk : CBlock) (tx : CTransaction) : WalletTxRecord := {|
  wr_txid := GetTxID tx; wr_height := height; wr_amount := 0; wr_fee := 0; wr_address := [];
  wr_timestamp := hdr_timestamp (blk_header blk); wr_isCoinbase := IsCoinBase tx |}.
Fixpoint add_records (height : Z) (blk : CBlock) (txs : list CTransaction) : HandlerM unit :=
  match txs with
  | [] => mret tt
  | tx :: r => _ ← hput (add_record (block_record height blk tx)); add_records height blk r
  end.
Definition HandleBlock (payload : bytes) : HandlerM unit :=
  match ParseBlockPayload payload with
  | None => hset (fun n => misbehave n 10)
  | Some blk =>
      c ← hchain;
      let hash := BlockHash blk in
      if HaveBlock c hash then mret tt
      else
        r ← hrun (TryAcceptBlock params blk);
        if rr_ok r then
          d ← hget; c ← hchain;
          '(pool, _) ← hlift (RemoveSpent (d_pool d) (ch_view c) (ch_height c));
          _ ← hput (with_pool pool);
          fd ← hnode n_fd;
          _ ← hbroadcast "inv" (SerializeInv [{| inv_type := INV_BLOCK; inv_hash := hash |}]) fd;
          start ← hnode (fun n => v_startHeight (n_theirVersion n));
          _ ← (if ch_height c <? start then send_getheaders else mret tt);
          match GetIndex c hash with
          | Some idx => add_records (idx_height idx) blk (blk_vtx blk)
          | None => mret tt
          end
        else if unknown_prev (rr_error r) then send_getheaders
        else if negb (bool_decide (rr_error r = "")) then hset (fun n => misbehave n 10)
        else mret tt
  end.

(** [startHeight]: behind the first locator hash that is indexed. *)
Fixpoint locate (c : CChain) (locator : list uint256) : Z :=
  match locator with
  | [] => 0
  | h :: r => match GetIndex c h with Some idx => idx_height idx + 1 | None => locate c r end
  end.
(** The loop over the heights [h..GetHeight()]. *)
Fixpoint headers_from (fuel : nat) (hashStop : uint256) (h : Z) (out : list CBlockHeader) : NodeM St (list CBlockHeader) :=
  match fuel with
  | O => mret out
  | S k =>
      c ← get_chain;
      if (h <=? ch_height c) && (length out <? 2000)%nat then
        b ← GetBlockByHeight h;
        match b with
        | None => mret out
        | Some blk =>
            let out := out ++ [blk_header blk] in
            if negb (isZero hashStop) && eqb (BlockHash blk) hashStop then mret out
            else headers_from k hashStop (h + 1) out
        end
      else mret out
  end.
Definition collect_headers (locator : list uint256) (hashStop : uint256) : NodeM St (list CBlockHeader) :=
  c ← get_chain;
  let start := locate c locator in
  headers_from (Z.to_nat (ch_height c - start + 1)) hashStop start [].
Definition HandleGetHeaders (payload : bytes) : HandlerM unit :=
  match ParseGetHeadersPayload payload with
  | None => hset (fun n => misbehave n 10)
  | Some (locator, hashStop) =>
      out ← hrun (collect_headers locator hashStop);
      hsend "headers" (BuildHeadersPayload out)
  end.

(** The loop of [HandleHeaders]: [want] and [haveAll]. *)
Fixpoint headers_want (c : CChain) (headers : list CBlockHeader) (want : list CInv) (haveAll : bool) : list CInv * bool :=
  match headers with
  | [] => (want, haveAll)
  | h :: r =>
      let hash := HeaderHash h in
      if HaveBlock c hash then headers_want c r want haveAll
      else headers_want c r
             (if (length want <? 100)%nat then want ++ [{| inv_type := INV_BLOCK; inv_hash := hash |}] else want) false
  end.
Definition HandleHeaders (payload : bytes) : HandlerM unit :=
  match ParseHeadersPayload payload with
  | None => hset (fun n => misbehave n 10)
  | Some [] => mret tt
  | Some headers =>
      c ← hchain;
      let '(want, haveAll) := headers_want c headers [] true in
      _ ← (match want with [] => mret tt | _ => hsend "getdata" (SerializeInv want) end);
      if negb haveAll || (2000 <=? length headers)%nat then send_getheaders else mret tt
  end.

Definition HandlePing (payload : bytes) : HandlerM unit := hsend "pong" payload.

(** The reply to [getaddr]: a count and 26 zero bytes per peer. *)
Definition addr_payload (peers : nat) : bytes := WriteVarInt (Z.of_nat peers) ++ repeat 0 (26 * peers).

Definition is_cmd (cmd : bytes) (s : string) : bool := bool_decide (cmd = string_bytes s).
Definition handle (msg : CNetMessage) : HandlerM unit :=
  let cmd := msg_command msg in
  let payload := msg_payload msg in
  if is_cmd cmd "version" then HandleVersion payload
  else if is_cmd cmd "verack" then hset set_verack
  else if is_cmd cmd "inv" then HandleInv payload
  else if is_cmd cmd "getdata" then HandleGetData payload
  else if is_cmd cmd "tx" then HandleTx payload
  else if is_cmd cmd "block" then HandleBlock payload
  else if is_cmd cmd "getheaders" then HandleGetHeaders payload
  else if is_cmd cmd "headers" then HandleHeaders payload
  else if is_cmd cmd "ping" then HandlePing payload
  else if is_cmd cmd "pong" then hset (set_ping_time now)
  else if is_cmd cmd "getaddr" then
    d ← hget; hsend "addr" (addr_payload (S (size (d_peers d))))
  else mret tt.

(** [CNodeHandler::OnMessage] *)
#[global] Instance node_handler : NodeHandler (option Daemon) := {|
  OnMessage n msg h :=
    match h with
    | None => (n, None)
    | Some d => match handle msg (n, d) with
                | Done (_, (n', d')) => (n', Some d')
                | Undef => (n, None)
                end
    end |}.

End Handlers.
Arguments Daemon St : clear implicits.
Arguments HandlerM St A : clear implicits.

(** * A program logic for handlers *)

Create HintDb handler.

Section Logic.
Context {ossl : OpenSSL} {St : Type} {stor : IStorage St} (params : ChainParams).
Context (now : Z) (write : list (Z * bytes) -> Z -> bytes -> bool * bytes).
Abbreviation state := (CNode * Daemon St)%type.

(** [m] from [s] ends in a state with [Q]; it may have undefined behaviour
    only if [ub] holds. *)
Definition wp {A} (ub : Prop) (m : HandlerM St A) (Q : A -> state -> Prop) (s : state) : Prop :=
  match m s with Done (a, s') => Q a s' | Undef => ub end.

Lemma wp_mono {A} ub (m : HandlerM St A) (Q Q' : A -> state -> Prop) s :
  (forall a s', Q a s' -> Q' a s') -> wp ub m Q s -> wp ub m Q' s.
Proof. unfold wp. intros H. destruct (m s) as [[a s']|]; [apply H|done]. Qed.
Lemma wp_ret {A} ub (a : A) Q s : Q a s -> wp ub (mret a) Q s.
Proof. done. Qed.
Lemma wp_bind {A B} ub (m : HandlerM St A) (f : A -> HandlerM St B) Q s :
  wp ub m (fun a s' => wp ub (f a) Q s') s -> wp ub (m ≫= f) Q s.
Proof. unfold wp, mbind, HandlerM_bind. by destruct (m s) as [[a s']|]. Qed.
Lemma wp_get ub Q s : Q s.2 s -> wp ub hget Q s.
Proof. done. Qed.
Lemma wp_chain ub Q s : Q (nd_chain (d_node s.2)) s -> wp ub hchain Q s.
Proof. done. Qed.

(** What a chain operation does to the node. *)
Lemma wp_run {A} ub (m : NodeM St A) Q s :
  (m (d_node s.2) = Undef -> ub) ->
  (forall r n, runs m (d_node s.2) r n -> exists a, r = Ok a /\ Q a (s.1, with_node s.2 n)) ->
  wp ub (hrun m) Q s.
Proof.
  intros Hu H. unfold wp, hrun. destruct (m (d_node s.2)) as [[r n]|] eqn:E; [|by apply Hu].
  destruct (H r n E) as (a & -> & Hq). done.
Qed.

(** [I d] does not depend on the connections. *)
Definition stable (I : Daemon St -> Prop) : Prop := forall d d', d_node d' = d_node d -> d_pool d' = d_pool d -> I d -> I d'.

Lemma wp_send ub (I : Daemon St -> Prop) cmd p s : stable I -> I s.2 -> wp ub (hsend params write cmd p) (fun _ s' => I s'.2) s.
Proof.
  intros HI H. destruct s as [n d]. unfold wp, hsend. destruct (SendTo _ _ _ _ _ _) as [[sv b] out].
  eapply HI; [..|exact H]; done.
Qed.
Lemma wp_broadcast ub (I : Daemon St -> Prop) cmd p fd s : stable I -> I s.2 ->
  wp ub (hbroadcast params write cmd p fd) (fun _ s' => I s'.2) s.
Proof.
  intros HI H. destruct s as [n d]. unfold wp, hbroadcast. destruct (BroadcastMessage _ _ _ _ _ _) as [sv out].
  destruct (BroadcastMessage _ _ _ _ _ _) as [sv1 out1]. eapply HI; [..|exact H]; done.
Qed.
Lemma wp_send_all ub (I : Daemon St -> Prop) cmd l : stable I -> forall s, I s.2 ->
  wp ub (send_all params write cmd l) (fun _ s' => I s'.2) s.
Proof.
  intros HI. induction l as [|x l IH]; intros s H; [done|]. cbn [send_all]. apply wp_bind.
  eapply wp_mono; [|by apply wp_send]. intros [] s' H'. by apply IH.
Qed.
Lemma wp_add_records ub (I : Daemon St -> Prop) h blk txs : stable I -> forall s, I s.2 ->
  wp ub (add_records h blk txs) (fun _ s' => I s'.2) s.
Proof.
  intros HI. induction txs as [|x l IH]; intros s H; [done|]. cbn [add_records]. apply wp_bind, IH.
  by eapply HI; [..|exact H].
Qed.

End Logic.

(** ** Chain operations of the handlers *)

Section HandlerFacts.
Context {ossl : OpenSSL} {laws : OpenSSLLaws ossl}.
Context {St : Type} {stor : IStorage St} {slaws : StorageLaws St}.
Context (params : ChainParams) (now : Z) (write : list (Z * bytes) -> Z -> bytes -> bool * bytes).

(** [m] only reads blocks: it ends normally, and leaves a reachable node with
    the same chain. *)
Definition reads_only {A} (m : NodeM St A) : Prop := forall n, reachable params n ->
  exists a n', runs m n (Ok a) n' /\ reachable params n' /\ nd_chain n' = nd_chain n.

Lemma reads_only_ret {A} (a : A) : reads_only (mret a).
Proof. intros n Hn. by exists a, n. Qed.
Lemma reads_only_bind {A B} (m : NodeM St A) (f : A -> NodeM St B) :
  reads_only m -> (forall a, reads_only (f a)) -> reads_only (m ≫= f).
Proof.
  intros Hm Hf n Hn. destruct (Hm n Hn) as (a & n1 & H1 & Hr & Hc).
  destruct (Hf a n1 Hr) as (b & n2 & H2 & Hr2 & Hc2). exists b, n2. split_and!; [|done|congruence].
  unfold runs, mbind, NodeM_bind. by rewrite H1.
Qed.
Lemma reads_only_get_bind {B} (f : CChain -> NodeM St B) :
  (forall c, chain_inv c -> forall n, reachable params n -> nd_chain n = c ->
     exists a n', runs (f c) n (Ok a) n' /\ reachable params n' /\ nd_chain n' = c) -> reads_only (get_chain ≫= f).
Proof. intros Hf n Hn. apply (Hf (nd_chain n)); [by eapply reachable_inv|done|done]. Qed.
Lemma reads_only_read h : reads_only (read_block h).
Proof.
  intros n Hn. unfold runs, read_block. destruct (ReadBlock h (nd_store n)) as [b s'] eqn:E.
  exists b, {| nd_chain := nd_chain n; nd_store := s' |}. split_and!; [done| |done].
  eapply reach_read; [exact Hn|]. unfold runs, read_block. by rewrite E.
Qed.

Lemma height_lookup c h : chain_inv c -> (h <? 0) || (h >? ch_height c) = false -> is_Some (ch_byHeight c !! Z.to_nat h).
Proof.
  intros Hc [E1%Z.ltb_ge E2%gtb_false]%orb_false_iff. pose proof (ci_length _ Hc). apply lookup_lt_is_Some. lia.
Qed.

Lemma reads_only_hash h : reads_only (GetBlockHashByHeight h).
Proof.
  apply reads_only_get_bind. intros c Hc n Hn E. destruct (_ || _) eqn:Eb; [by exists None, n|].
  destruct (height_lookup c h Hc Eb) as [x Hx]. exists (Some x), n. split_and!; [|done|done].
  unfold runs, mbind, NodeM_bind, vec_at. by rewrite Hx.
Qed.
Lemma reads_only_block h : reads_only (GetBlockByHeight h).
Proof.
  apply reads_only_get_bind. intros c Hc n Hn E. destruct (_ || _) eqn:Eb; [by exists None, n|].
  destruct (height_lookup c h Hc Eb) as [x Hx]. destruct (reads_only_read x n Hn) as (b & n' & H & Hr & Hc').
  exists b, n'. split_and!; [|done|congruence]. unfold runs, mbind, NodeM_bind, vec_at. by rewrite Hx.
Qed.
Lemma reads_only_locator_from fuel : forall h l, reads_only (locator_from fuel h l).
Proof.
  induction fuel as [|k IH]; intros h l; cbn [locator_from]; [apply reads_only_ret|].
  destruct (_ && _); [|apply reads_only_ret]. apply reads_only_bind; [apply reads_only_hash|]. intros [x|]; apply IH.
Qed.
Lemma reads_only_locator : reads_only chain_locator.
Proof.
  apply reads_only_get_bind. intros c Hc n Hn <-.
  apply (reads_only_locator_from (Z.to_nat (ch_height (nd_chain n) + 1)) (ch_height (nd_chain n)) [] n Hn).
Qed.
Lemma reads_only_collect_data pool inv : forall a b, reads_only (collect_data pool inv a b).
Proof.
  induction inv as [|i r IH]; intros a b; cbn [collect_data]; [apply reads_only_ret|].
  destruct (inv_type i =? INV_TX); [apply IH|]. destruct (inv_type i =? INV_BLOCK); [|apply IH].
  apply reads_only_bind; [apply reads_only_read|]. intros ob. apply IH.
Qed.
Lemma reads_only_headers fuel stop : forall h out, reads_only (headers_from fuel stop h out).
Proof.
  induction fuel as [|k IH]; intros h out; cbn [headers_from]; [apply reads_only_ret|].
  apply reads_only_bind; [intros n Hn; by exists (nd_chain n), n|]. intros c.
  destruct (_ && _); [|apply reads_only_ret]. apply reads_only_bind; [apply reads_only_block|].
  intros [blk|]; [|apply reads_only_ret]. destruct (_ && _); [apply reads_only_ret|apply IH].
Qed.
Lemma reads_only_collect_headers locator stop : reads_only (collect_headers locator stop).
Proof.
  apply reads_only_get_bind. intros c Hc n Hn <-. by apply (reads_only_headers _ stop _ [] n Hn).
Qed.

(** ** The invariant *)

Definition daemon_inv (d : Daemon St) : Prop := reachable params (d_node d) /\ pool_reachable (d_pool d).

Lemma daemon_inv_stable : stable daemon_inv.
Proof. intros d d' En Ep [H1 H2]. split; congruence. Qed.

Lemma wp_reads {A} ub (m : NodeM St A) s : reads_only m -> daemon_inv s.2 ->
  wp ub (hrun m) (fun _ s' => daemon_inv s'.2) s.
Proof.
  intros Hm [Hr Hp]. destruct (Hm _ Hr) as (a & n' & E & Hr' & _). unfold runs in E. apply wp_run; [by rewrite E|].
  unfold runs. rewrite E. intros r n [= <- <-]. exists a. split; [done|]. by split.
Qed.

Lemma wp_getheaders ub s : daemon_inv s.2 -> wp ub (send_getheaders params write) (fun _ s' => daemon_inv s'.2) s.
Proof.
  intros H. unfold send_getheaders. apply wp_bind. eapply wp_mono; [|apply wp_reads; [apply reads_only_locator|exact H]].
  intros l s' H'. apply wp_send; [apply daemon_inv_stable|done].
Qed.

End HandlerFacts.

(** ** Every handler keeps the invariant *)

Section HandlerInvariant.
Context {ossl : OpenSSL} {laws : OpenSSLLaws ossl}.
Context {St : Type} {stor : IStorage St} {slaws : StorageLaws St}.
Context (params : ChainParams) (now : Z) (write : list (Z * bytes) -> Z -> bytes -> bool * bytes).
Abbreviation inv := (daemon_inv params).
Abbreviation keeps ub m s := (wp ub m (fun _ s' => inv s'.2) s).

(** A send, a broadcast or the end of a handler. *)
Local Ltac wp_end := first
  [ apply wp_ret; assumption | assumption
  | apply wp_send; [apply daemon_inv_stable|assumption]
  | apply wp_broadcast; [apply daemon_inv_stable|assumption]
  | apply wp_getheaders; assumption
  | apply wp_send_all; [apply daemon_inv_stable|assumption]
  | apply wp_add_records; [apply daemon_inv_stable|assumption] ].
(** Sequencing: the first part keeps the invariant. *)
Local Ltac wp_then s H := apply wp_bind; eapply (wp_mono _ _ (fun _ s' => inv s'.2)); [intros ? s H|].

Lemma HandleVersion_inv ub p s : inv s.2 -> keeps ub (HandleVersion params write p) s.
Proof.
  intros H. unfold HandleVersion. destruct (DeserializeVersion p) as [v|]; [|done]. destruct (_ <? _); [done|].
  wp_then s1 H1; [|done]. apply wp_bind. unfold wp at 1, hnode. wp_then s2 H2; [wp_then s3 H3; wp_end|].
  destruct (n_inbound s1.1); [|done]. apply wp_bind, wp_chain. wp_end.
Qed.
Lemma HandleInv_inv ub p s : inv s.2 -> keeps ub (HandleInv params write p) s.
Proof.
  intros H. unfold HandleInv. destruct (DeserializeInv p) as [l|]; [|done].
  apply wp_bind, wp_get, wp_bind, wp_chain. cbv zeta. destruct (inv_want _ _ _ _); wp_end.
Qed.
Lemma HandleGetData_inv ub p s : inv s.2 -> keeps ub (HandleGetData params write p) s.
Proof.
  intros H. unfold HandleGetData. destruct (DeserializeInv p) as [l|]; [|done].
  apply wp_bind, wp_get. wp_then s1 H1; [|by apply wp_reads; [apply reads_only_collect_data|]].
  destruct a as [t b]. wp_then s2 H2; wp_end.
Qed.
Lemma HandleTx_inv ub p s : inv s.2 -> keeps ub (HandleTx params now write p) s.
Proof.
  intros H. unfold HandleTx. destruct (ParseTxPayload p) as [tx|]; [|done].
  apply wp_bind, wp_get, wp_bind, wp_chain. destruct (Exists_ _ _); [done|]. cbv zeta.
  destruct (CheckTx _ _ _ _) as [fee|] eqn:Ec; [|done].
  wp_then s1 H1; [unfold RelayTx; wp_end|]. destruct H as [Hr Hp]. split; [exact Hr|]. cbn [with_pool d_pool snd].
  eapply (pr_accept (d_pool s.2) tx); [|exact Hp|unfold accept_tx; rewrite Ec; reflexivity].
  eapply ci_view, reachable_inv, Hr.
Qed.
Lemma HandleGetHeaders_inv ub p s : inv s.2 -> keeps ub (HandleGetHeaders params write p) s.
Proof.
  intros H. unfold HandleGetHeaders. destruct (ParseGetHeadersPayload p) as [[l stop]|]; [|done].
  wp_then s1 H1; [wp_end|]. by apply wp_reads; [apply reads_only_collect_headers|].
Qed.
Lemma HandleHeaders_inv ub p s : inv s.2 -> keeps ub (HandleHeaders params write p) s.
Proof.
  intros H. unfold HandleHeaders. destruct (ParseHeadersPayload p) as [[|h hs]|]; [done| |done].
  apply wp_bind, wp_chain. destruct (headers_want _ _ _ _) as [want haveAll].
  wp_then s1 H1; [destruct (_ || _); wp_end|]. destruct want; wp_end.
Qed.

(** A block on top of the tip at a retarget boundary. *)
Definition boundary_block (d : Daemon St) (p : bytes) : Prop :=
  exists blk, ParseBlockPayload p = Some blk /\
    hdr_prevBlockHash (blk_header blk) = ch_tipHash (nd_chain (d_node d)) /\ at_boundary params (nd_chain (d_node d)).

Lemma HandleBlock_inv p s : params_ok params -> inv s.2 -> keeps (boundary_block s.2 p) (HandleBlock params write p) s.
Proof.
  intros Hpar H. unfold HandleBlock. destruct (ParseBlockPayload p) as [blk|] eqn:Eb; [|done].
  apply wp_bind, wp_chain. cbv zeta. destruct (HaveBlock _ _); [done|]. destruct H as [Hr Hp].
  apply wp_bind, wp_run.
  - intros Hu. assert (~ ~ boundary_block s.2 p) as Hnn.
    { intros Hn. eapply (TryAcceptBlock_defined params blk (d_node s.2)); [done|by eapply reachable_inv| |exact Hu].
      intros Ht Ha. apply Hn. exists blk. split_and!; done. }
    unfold boundary_block in *. rewrite Eb in *.
    destruct (decide (hdr_prevBlockHash (blk_header blk) = ch_tipHash (nd_chain (d_node s.2)))) as [Et|Et].
    + destruct (decide ((ch_height (nd_chain (d_node s.2)) + 1) mod difficultyInterval params = 0)) as [Ea|Ea]; [by exists blk|].
      exfalso. apply Hnn. by intros (b & [= <-] & _ & ?).
    + exfalso. apply Hnn. by intros (b & [= <-] & ? & _).
  - intros r n Hrun. pose proof Hrun as Hrun'. apply TryAcceptBlock_runs in Hrun' as (rr & -> & _); [|by eapply reachable_inv].
    exists rr. split; [done|]. set (s1 := (s.1, with_node s.2 n)).
    assert (inv s1.2) as H1 by (split; [by eapply reach_block|exact Hp]). clearbody s1.
    destruct (rr_ok rr); [|destruct (unknown_prev _); [wp_end|destruct (negb _); done]].
    apply wp_bind, wp_get, wp_bind, wp_chain. destruct H1 as [Hr1 Hp1].
    destruct (RemoveSpent_ok (d_pool s1.2) (ch_view (nd_chain (d_node s1.2))) (ch_height (nd_chain (d_node s1.2)))
      (pool_reachable_inv _ Hp1)) as (pool & ids & Es & _).
    apply wp_bind. unfold wp at 1, hlift. rewrite Es. wp_then s2 H2; [|split; [exact Hr1|by eapply pr_spent]].
    apply wp_bind. unfold wp at 1, hnode. wp_then s3 H3; [|wp_end].
    apply wp_bind. unfold wp at 1, hnode. wp_then s4 H4; [destruct (GetIndex _ _); wp_end|destruct (_ <? _); wp_end].
Qed.

Lemma handle_inv msg s : params_ok params -> inv s.2 ->
  keeps (msg_command msg = string_bytes "block" /\ boundary_block s.2 (msg_payload msg)) (handle params now write msg) s.
Proof.
  intros Hpar H. unfold handle, is_cmd. cbv zeta.
  case_bool_decide; [by apply HandleVersion_inv|]. case_bool_decide; [done|]. case_bool_decide; [by apply HandleInv_inv|].
  case_bool_decide; [by apply HandleGetData_inv|]. case_bool_decide; [by apply HandleTx_inv|].
  case_bool_decide as Hb.
  { pose proof (HandleBlock_inv (msg_payload msg) s Hpar H) as Hk. unfold wp in *.
    by destruct (HandleBlock _ _ _ _) as [[]|]. }
  case_bool_decide; [by apply HandleGetHeaders_inv|]. case_bool_decide; [by apply HandleHeaders_inv|].
  case_bool_decide; [unfold HandlePing; wp_end|]. case_bool_decide; [done|].
  case_bool_decide; [|done]. apply wp_bind, wp_get. wp_end.
Qed.

End HandlerInvariant.

(** ** Handlers leave the receive buffer alone *)

Section HandlerIo.
Context {ossl : OpenSSL} {St : Type} {stor : IStorage St} (params : ChainParams).
Context (now : Z) (write : list (Z * bytes) -> Z -> bytes -> bool * bytes).

Definition io_ok {A} (m : HandlerM St A) : Prop := forall n d b t,
  m (set_io n b t, d) = match m (n, d) with Done (a, (n', d')) => Done (a, (set_io n' b t, d')) | Undef => Undef end.

Lemma io_ret {A} (a : A) : io_ok (mret a).
Proof. done. Qed.
Lemma io_bind {A B} (m : HandlerM St A) (f : A -> HandlerM St B) : io_ok m -> (forall a, io_ok (f a)) -> io_ok (m ≫= f).
Proof.
  intros Hm Hf n d b t. unfold mbind, HandlerM_bind. rewrite Hm. destruct (m (n, d)) as [[a [n' d']]|]; [apply Hf|done].
Qed.
Lemma io_node {A} (f : CNode -> A) : (forall n b t, f (set_io n b t) = f n) -> io_ok (hnode f).
Proof. intros Hf n d b t. unfold hnode. cbn [fst]. by rewrite Hf. Qed.
Lemma io_set f : (forall n b t, f (set_io n b t) = set_io (f n) b t) -> io_ok (hset f).
Proof. intros Hf n d b t. unfold hset. cbn [fst snd]. by rewrite Hf. Qed.
Lemma io_get : io_ok hget.
Proof. done. Qed.
Lemma io_put f : io_ok (hput f).
Proof. done. Qed.
Lemma io_chain : io_ok hchain.
Proof. done. Qed.
Lemma io_run {A} (m : NodeM St A) : io_ok (hrun m).
Proof. intros n d b t. unfold hrun. cbn [fst snd]. by destruct (m (d_node d)) as [[[a|e] n']|]. Qed.
Lemma io_lift {A} (o : outcome A) : io_ok (hlift o).
Proof. intros n d b t. unfold hlift. by destruct o. Qed.

Lemma own_entry f (n : CNode) : default n ((f <$> ({[n_fd n := n]} : gmap Z CNode)) !! n_fd n) = f n.
Proof. by rewrite lookup_fmap, lookup_singleton_eq. Qed.

Lemma io_send cmd p : io_ok (hsend params write cmd p).
Proof.
  intros n d b t. unfold hsend, SendTo. cbn [n_fd set_io].
  destruct (BuildMessage _ _ _) as [fr|]; cbn [sv_peers]; rewrite !lookup_singleton_eq; [|done].
  destruct (write _ _ _) as [[] out]; cbn [sv_peers]; [by rewrite !lookup_singleton_eq|].
  by rewrite !lookup_insert_eq.
Qed.
Lemma io_broadcast cmd p fd : io_ok (hbroadcast params write cmd p fd).
Proof.
  intros n d b t. unfold hbroadcast. destruct (BroadcastMessage _ _ {| sv_peers := d_peers d; sv_targets := [] |} _ _ _) as [sv out].
  unfold BroadcastMessage. cbn [n_fd set_io]. destruct (BuildMessage _ _ _) as [fr|]; cbn [sv_peers].
  - rewrite own_entry. change (n_fd n) with (n_fd (set_io n b t)) at 1 2. rewrite own_entry.
    rewrite !map_to_list_singleton. cbn [omap list_omap snd]. unfold broadcast_to. cbn [set_io n_fd n_handshakeDone].
    by destruct (negb (_ || _)); [destruct (fst _)|].
  - by rewrite !lookup_singleton_eq.
Qed.
Lemma io_send_all cmd l : io_ok (send_all params write cmd l).
Proof. induction l as [|x l IH]; [apply io_ret|]. apply io_bind; [apply io_send|done]. Qed.
Lemma io_add_records h blk txs : io_ok (add_records h blk txs).
Proof. induction txs as [|x l IH]; [apply io_ret|]. apply io_bind; [apply io_put|done]. Qed.
Lemma io_getheaders : io_ok (send_getheaders params write).
Proof. apply io_bind; [apply io_run|]. intros. apply io_send. Qed.

#[local] Hint Resolve io_ret io_get io_put io_chain io_run io_lift io_send io_broadcast io_send_all io_add_records
  io_getheaders : handler.

(** Works through the branches and binds of a handler. *)
Local Ltac solve_io := repeat first
  [ progress auto with handler
  | apply io_set; done | apply io_node; done
  | match goal with
    | |- io_ok (_ ≫= _) => apply io_bind; [|intros]
    | |- io_ok (match ?x with _ => _ end) => destruct x
    end ].

Lemma io_handle msg : io_ok (handle params now write msg).
Proof.
  unfold handle, HandleVersion, HandleInv, HandleGetData, HandleTx, HandleBlock, HandleGetHeaders, HandleHeaders,
    HandlePing, RelayTx. cbv zeta. solve_io.
Qed.

#[export] Instance node_handler_laws : @NodeHandlerLaws (option (Daemon St)) (node_handler params now write).
Proof.
  split. intros n m [d|] b t; cbn [OnMessage node_handler]; [|done]. rewrite io_handle.
  by destruct (handle params now write m (n, d)) as [[a [n' d']]|].
Qed.

End HandlerIo.

(** ** Synchronisation *)

Section Sync.
Context {ossl : OpenSSL} {laws : OpenSSLLaws ossl}.
Context {St : Type} {stor : IStorage St} {slaws : StorageLaws St}.
Context (params : ChainParams).

Lemma GetBlockHashByHeight_ok h (n : Node St) x : 0 <= h <= ch_height (nd_chain n) -> ch_byHeight (nd_chain n) !! Z.to_nat h = Some x ->
  GetBlockHashByHeight h n = Done (Ok (Some x), n).
Proof.
  intros Hh Hx. unfold GetBlockHashByHeight, get_chain, mbind, NodeM_bind.
  destruct (Z.ltb_spec h 0); [lia|]. rewrite Z.gtb_ltb. destruct (Z.ltb_spec (ch_height (nd_chain n)) h); [lia|].
  cbn [orb]. unfold vec_at. by rewrite Hx.
Qed.

(** The locator grows by hashes of the active chain, up to 32. *)
Lemma locator_from_ok (n : Node St) : chain_inv (nd_chain n) -> forall fuel h l, h <= ch_height (nd_chain n) ->
  (length l <= 32)%nat -> exists l', locator_from fuel h l n = Done (Ok (l ++ l'), n) /\
    Forall (fun x => x ∈ ch_byHeight (nd_chain n)) l' /\ (length (l ++ l') <= 32)%nat /\
    ((0 < fuel)%nat -> 0 <= h -> (length l < 32)%nat -> head l' = ch_byHeight (nd_chain n) !! Z.to_nat h).
Proof.
  intros Hc. induction fuel as [|k IH]; intros h l Hh Hl; cbn [locator_from].
  { exists []. rewrite app_nil_r. split_and!; [done|constructor|done|lia]. }
  rewrite Z.geb_leb. destruct (Z.leb_spec 0 h) as [H0|H0]; cbn [andb].
  2: { exists []. rewrite app_nil_r. split_and!; [done|constructor|done|lia]. }
  destruct (Nat.ltb_spec (length l) 32) as [H1|H1].
  2: { exists []. rewrite app_nil_r. split_and!; [done|constructor|done|lia]. }
  pose proof (ci_length _ Hc). destruct (lookup_lt_is_Some_2 (ch_byHeight (nd_chain n)) (Z.to_nat h)) as [x Hx]; [lia|].
  unfold mbind, NodeM_bind. rewrite (GetBlockHashByHeight_ok h n x) by (done || lia). cbv zeta.
  destruct (IH (h - (if (10 <? length (l ++ [x]))%nat then 2 else 1)) (l ++ [x])) as (l' & E & Ha & Hl' & _);
    [case_if; lia|rewrite length_app; cbn [length]; lia|].
  exists (x :: l'). rewrite E, <- !app_assoc in *. split_and!; [done| |done|intros; by rewrite Hx].
  constructor; [by eapply list_elem_of_lookup_2|done].
Qed.

Lemma chain_locator_ok (n : Node St) : chain_inv (nd_chain n) -> exists l, chain_locator n = Done (Ok (ch_tipHash (nd_chain n) :: l), n) /\
  Forall (fun x => x ∈ ch_byHeight (nd_chain n)) (ch_tipHash (nd_chain n) :: l) /\ (length (ch_tipHash (nd_chain n) :: l) <= 32)%nat.
Proof.
  intros Hc. pose proof (ci_height _ Hc). unfold chain_locator, get_chain, mbind, NodeM_bind.
  destruct (locator_from_ok n Hc (Z.to_nat (ch_height (nd_chain n) + 1)) (ch_height (nd_chain n)) []) as (l & E & Ha & Hl & Hh);
    [lia|cbn; lia|]. rewrite (ci_tip _ Hc) in Hh. destruct l as [|x l]; [discriminate Hh; cbn; lia|].
  assert (x = ch_tipHash (nd_chain n)) as -> by (assert (Some x = Some (ch_tipHash (nd_chain n))) as [=->] by (apply Hh; cbn; lia); done).
  exists l. split_and!; [exact E|done|done].
Qed.

(** ** Serving headers *)

(** The headers are those of consecutive blocks of the active chain. *)
Lemma headers_from_slice stop fuel : forall h out (n : Node St) r n', 0 <= h -> (length out <= 2000)%nat ->
  runs (headers_from fuel stop h out) n r n' ->
  exists new, r = Ok (out ++ new) /\ (length (out ++ new) <= 2000)%nat /\ nd_chain n' = nd_chain n /\
    map HeaderHash new = take (length new) (drop (Z.to_nat h) (ch_byHeight (nd_chain n))).
Proof.
  induction fuel as [|k IH]; intros h out n r n' Hh Ho H; cbn [headers_from] in H.
  { apply runs_ret in H as [-> ->]. exists []. by rewrite app_nil_r. }
  apply runs_bind_inv in H as [(c & n1 & Hm & H)|(e & Hm & _)]; apply runs_get in Hm as [E ->]; [injection E as ->|done].
  destruct (_ && _) eqn:Eg; [|apply runs_ret in H as [-> ->]; exists []; by rewrite app_nil_r].
  apply andb_true_iff in Eg as [_ Eg%Nat.ltb_lt].
  apply runs_bind_inv in H as [(b & n1 & Hm & H)|(e & Hm & _)];
    apply GetBlockByHeight_runs in Hm as (Hc1 & ob & E & Hb); try done; injection E as ->.
  destruct ob as [blk|]; [|apply runs_ret in H as [-> ->]; exists []; by rewrite app_nil_r].
  specialize (Hb blk eq_refl). pose proof (drop_S _ _ _ Hb) as Hd. cbv zeta in H. destruct (_ && _).
  - apply runs_ret in H as [-> ->]. exists [blk_header blk]. rewrite length_app. cbn [length map].
    split_and!; [done|lia|done|]. rewrite Hd. done.
  - apply IH in H as (new & -> & Hl & Hc2 & Hm); [|lia|rewrite length_app; cbn [length]; lia].
    exists (blk_header blk :: new). rewrite <- app_assoc in *. split_and!; [done|done|congruence|].
    cbn [map length]. rewrite Hd, Hm, Hc1. replace (Z.to_nat (h + 1)) with (S (Z.to_nat h)) by lia. done.
Qed.

(** [P] is a set of storage states in which the blocks of [hs] can be read. *)
Definition readable (P : St -> Prop) (hs : list uint256) : Prop := forall s h, P s -> h ∈ hs ->
  exists blk s', ReadBlock h s = (Some blk, s') /\ P s'.

Lemma headers_from_ok P c : chain_inv c -> readable P (ch_byHeight c) -> forall fuel h out (n : Node St),
  nd_chain n = c -> P (nd_store n) -> 0 <= h <= ch_height c + 1 -> Z.of_nat fuel = ch_height c - h + 1 -> (length out <= 2000)%nat ->
  exists new n', headers_from fuel zero h out n = Done (Ok (out ++ new), n') /\
    map HeaderHash new = take (2000 - length out) (drop (Z.to_nat h) (ch_byHeight c)).
Proof.
  intros Hc HP. pose proof (ci_length _ Hc) as Hlen.
  induction fuel as [|k IH]; intros h out n En Hs Hh Hf Ho; cbn [headers_from].
  { exists [], n. rewrite app_nil_r, drop_ge by lia. split; [done|]. by destruct (2000 - length out)%nat. }
  unfold mbind at 1, NodeM_bind at 1, get_chain. rewrite En.
  destruct (Z.leb_spec h (ch_height c)); [|lia]. cbn [andb]. destruct (Nat.ltb_spec (length out) 2000) as [Hlt|Hge].
  2: { exists [], n. rewrite app_nil_r. replace (2000 - length out)%nat with 0%nat by lia. done. }
  destruct (lookup_lt_is_Some_2 (ch_byHeight c) (Z.to_nat h)) as [x Hx]; [lia|].
  destruct (HP (nd_store n) x Hs) as (blk & s' & Hr & Hs'); [by eapply list_elem_of_lookup_2|].
  pose proof (ReadBlock_hash _ _ _ _ Hr) as Hbh.
  assert (GetBlockByHeight h n = Done (Ok (Some blk), {| nd_chain := c; nd_store := s' |})) as Eb.
  { unfold GetBlockByHeight, get_chain, mbind, NodeM_bind. rewrite En.
    destruct (Z.ltb_spec h 0); [lia|]. rewrite Z.gtb_ltb. destruct (Z.ltb_spec (ch_height c) h); [lia|].
    cbn [orb]. unfold vec_at. rewrite Hx. unfold mret, NodeM_ret, read_block. by rewrite Hr, En. }
  unfold mbind, NodeM_bind. rewrite Eb. cbv zeta. replace (isZero zero) with true by done. cbn [negb andb].
  destruct (IH (h + 1) (out ++ [blk_header blk]) {| nd_chain := c; nd_store := s' |}) as (new & n' & E & Hm);
    [done|done|lia|lia|rewrite length_app; cbn [length]; lia|].
  exists (blk_header blk :: new), n'. rewrite <- app_assoc in E. split; [exact E|]. cbn [map]. rewrite Hm.
  rewrite (drop_S _ _ _ Hx). replace (Z.to_nat (h + 1)) with (S (Z.to_nat h)) by lia.
  rewrite length_app. cbn [length]. replace (2000 - length out)%nat with (S (2000 - (length out + 1))) by lia.
  cbn [firstn]. f_equal. exact Hbh.
Qed.

Definition inv_block (h : uint256) : CInv := {| inv_type := INV_BLOCK; inv_hash := h |}.

Lemma headers_want_ok c hs : forall want all, Forall (fun h => ch_index c !! HeaderHash h = None) hs -> (length want <= 100)%nat ->
  headers_want c hs want all =
  (want ++ map inv_block (take (100 - length want) (map HeaderHash hs)), match hs with [] => all | _ => false end).
Proof.
  induction hs as [|h hs IH]; intros want all Hn Hw; cbn [headers_want map].
  { by rewrite take_nil, app_nil_r. }
  apply Forall_cons in Hn as [Hh Hn]. unfold HaveBlock. rewrite bool_decide_false by (rewrite Hh; by intros [? ?]).
  destruct (Nat.ltb_spec (length want) 100) as [Hlt|Hge].
  - rewrite IH by (done || rewrite length_app; cbn [length]; lia). rewrite <- app_assoc, length_app. cbn [length app].
    replace (100 - length want)%nat with (S (100 - (length want + 1))) by lia. cbn [take firstn map].
    f_equal. by destruct hs.
  - rewrite IH by done. replace (100 - length want)%nat with 0%nat by lia. cbn [firstn map]. by destruct hs.
Qed.

End Sync.

(** ** Sending on a working connection *)

Section WorkingNet.
Context {ossl : OpenSSL} {St : Type} {stor : IStorage St} (params : ChainParams).

(** Every write succeeds. *)
Definition good_write (_ : list (Z * bytes)) (_ : Z) (f : bytes) : bool * bytes := (true, f).
Definition message_frame (m : string * bytes) : bytes := default [] (BuildMessage (networkMagic params) (string_bytes m.1) m.2).
(** The daemon after sending [ms] to [fd]. *)
Definition after_sends (d : Daemon St) (fd : Z) (ms : list (string * bytes)) : Daemon St :=
  with_net d (d_peers d) (map (fun m => (fd, message_frame m)) ms).

Lemma after_sends_app d fd ms1 ms2 : after_sends (after_sends d fd ms1) fd ms2 = after_sends d fd (ms1 ++ ms2).
Proof. unfold after_sends, with_net. cbn. by rewrite map_app, app_assoc. Qed.
Lemma after_sends_nil d fd : after_sends d fd [] = d.
Proof. unfold after_sends, with_net. cbn. rewrite app_nil_r. by destruct d. Qed.

Lemma hsend_good cmd p n d : Z.of_nat (length (string_bytes cmd)) <= 12 -> Z.of_nat (length p) <= MAX_MESSAGE_SIZE ->
  hsend params good_write cmd p (n, d) = Done (tt, (n, after_sends d (n_fd n) [(cmd, p)])).
Proof.
  intros Hc Hp. unfold hsend, after_sends, message_frame, SendTo. cbn [map fst snd].
  assert (exists f, BuildMessage (networkMagic params) (string_bytes cmd) p = Some f) as [f ->].
  { unfold BuildMessage. destruct (Z.ltb_spec 12 (Z.of_nat (length (string_bytes cmd)))); [lia|]. rewrite Z.gtb_ltb.
    destruct (Z.ltb_spec MAX_MESSAGE_SIZE (Z.of_nat (length p))); [lia|]. cbn [orb]. eauto. }
  cbn [sv_peers]. rewrite lookup_singleton_eq. cbn [good_write sv_peers]. by rewrite lookup_singleton_eq.
Qed.

End WorkingNet.

Lemma length_varint_le n : (length (WriteVarInt n) <= 9)%nat.
Proof.
  unfold WriteVarInt, WriteU64, WriteU32, WriteU16, WriteU8.
  repeat case_if; cbn [length]; rewrite ?length_app, ?length_le_bytes; cbn [length]; lia.
Qed.
Lemma length_getheaders l s : (length (BuildGetHeadersPayload l s) <= 9 + 32 * length l + 32)%nat.
Proof.
  unfold BuildGetHeadersPayload. rewrite !length_app. unfold WriteUint256 at 2. rewrite length_getBytesLE.
  pose proof (length_varint_le (Z.of_nat (length l))).
  assert (length (flat_map WriteUint256 l) = 32 * length l)%nat as ->; [|lia].
  clear. induction l as [|x l IH]; [done|]. cbn [flat_map length]. rewrite length_app, IH. unfold WriteUint256.
  rewrite length_getBytesLE. lia.
Qed.
Lemma i32_add a b : i32 (i32 a + b) = i32 (a + b).
Proof.
  unfold i32. replace ((a + 2 ^ 31) mod 2 ^ 32 - 2 ^ 31 + b + 2 ^ 31) with ((a + 2 ^ 31) mod 2 ^ 32 + b) by lia.
  rewrite Zplus_mod_idemp_l. f_equal. f_equal. lia.
Qed.

(** * Runs of the node *)

(** The node starts on a chain it has just loaded, with an empty pool.  Then
    peers send messages, at any time and over connections that behave in any
    way, and connections come and go. *)
Inductive daemon_reach {ossl : OpenSSL} {St : Type} {stor : IStorage St} (params : ChainParams) : Daemon St -> Prop :=
| daemon_start d : reachable params (d_node d) -> d_pool d = Clear -> daemon_reach params d
| daemon_message now write msg n d n' d' : daemon_reach params d ->
    handle params now write msg (n, d) = Done (tt, (n', d')) -> daemon_reach params d'
| daemon_peers d peers : daemon_reach params d -> daemon_reach params (with_net d peers []).

Lemma daemon_reach_inv {ossl : OpenSSL} {laws : OpenSSLLaws ossl} {St : Type} {stor : IStorage St} {slaws : StorageLaws St}
    params (d : Daemon St) : params_ok params -> daemon_reach params d -> daemon_inv params d.
Proof.
  intros Hp. induction 1 as [d Hr Hc|now write msg n d n' d' _ IH H|d peers _ IH].
  - split; [done|]. rewrite Hc. apply pr_clear.
  - pose proof (handle_inv params now write msg (n, d) Hp IH) as Hk. unfold wp in Hk. by rewrite H in Hk.
  - done.
Qed.

(** * Properties *)

Section HandlerProperties.
Context {ossl : OpenSSL} {laws : OpenSSLLaws ossl}.
Context {St : Type} {stor : IStorage St} {slaws : StorageLaws St}.
Context (params : ChainParams).

(** What the invariant of the node says about money. *)
Lemma daemon_inv_money (d : Daemon St) : daemon_inv params d -> let c := nd_chain (d_node d) in
  0 <= TotalValue (ch_view c) <= subsidy_sum (Z.to_nat (ch_height c + 1)) /\
  TotalValue (ch_view c) <= Rules.MAX_MONEY /\
  (forall id e, mapTx (d_pool d) !! id = Some e -> id = GetTxID (e_tx e) /\ tx_valid (e_tx e)) /\
  (forall id1 id2 e1 e2 o, mapTx (d_pool d) !! id1 = Some e1 -> mapTx (d_pool d) !! id2 = Some e2 ->
     o ∈ prevouts (e_tx e1) -> o ∈ prevouts (e_tx e2) -> id1 = id2).
Proof.
  intros [Hr Hpool] c. apply reachable_inv in Hr as Hc. fold c in Hc. destruct Hc as [H0 Hl _ Hv Hs _ _ _ _].
  apply pool_reachable_inv in Hpool as Hi. pose proof (supply_nonneg _ Hv). pose proof MAX_MONEY_i64.
  pose proof (subsidy_sum_max (length (ch_byHeight c))). rewrite TotalValue_supply by u_range.
  replace (Z.to_nat (ch_height c + 1)) with (length (ch_byHeight c)) by lia.
  split_and!; [done|done|lia| |].
  - intros id e He. split; [by apply (pi_id _ Hi)|]. by eapply pool_reachable_valid.
  - intros. by eapply pool_no_conflict.
Qed.

(** No sequence of messages inflates the coin supply or corrupts the pool. *)
Theorem network_cannot_inflate (d : Daemon St) :
  params_ok params -> daemon_reach params d -> let c := nd_chain (d_node d) in
  0 <= TotalValue (ch_view c) <= subsidy_sum (Z.to_nat (ch_height c + 1)) /\
  TotalValue (ch_view c) <= Rules.MAX_MONEY /\
  (forall id e, mapTx (d_pool d) !! id = Some e -> id = GetTxID (e_tx e) /\ tx_valid (e_tx e)) /\
  (forall id1 id2 e1 e2 o, mapTx (d_pool d) !! id1 = Some e1 -> mapTx (d_pool d) !! id2 = Some e2 ->
     o ∈ prevouts (e_tx e1) -> o ∈ prevouts (e_tx e2) -> id1 = id2).
Proof. intros Hp Hd. by apply daemon_inv_money, daemon_reach_inv. Qed.

(** C26: Handling a message never has undefined behaviour, except a block on top
    of the tip when the next height is a multiple of the difficulty interval. *)
Theorem message_defined (d : Daemon St) now write msg n :
  params_ok params -> daemon_reach params d -> handle params now write msg (n, d) = Undef ->
  msg_command msg = string_bytes "block" /\ exists blk, ParseBlockPayload (msg_payload msg) = Some blk /\
    hdr_prevBlockHash (blk_header blk) = ch_tipHash (nd_chain (d_node d)) /\
    (ch_height (nd_chain (d_node d)) + 1) mod difficultyInterval params = 0.
Proof.
  intros Hp Hd Hu. apply daemon_reach_inv in Hd; [|done].
  pose proof (handle_inv params now write msg (n, d) Hp Hd) as Hk. unfold wp in Hk. by rewrite Hu in Hk.
Qed.

(** Whatever locator and stop hash a peer asks with, the reply to
    [getheaders] holds the headers of at most 2000 consecutive blocks of the
    active chain, from the block after the first locator hash the node knows
    (from the genesis block if it knows none). *)
Theorem headers_reply_slice (n n' : Node St) locator hashStop out :
  reachable params n -> collect_headers locator hashStop n = Done (Ok out, n') ->
  let start := locate (nd_chain n) locator in
  (length out <= 2000)%nat /\ 0 <= start /\
  map HeaderHash out = take (length out) (drop (Z.to_nat start) (ch_byHeight (nd_chain n))) /\
  nd_chain n' = nd_chain n.
Proof.
  intros Hr H start. apply reachable_inv in Hr as Hc.
  assert (0 <= start) as H0.
  { unfold start. clear H start. induction locator as [|h l IH]; cbn [locate]; [done|]. unfold GetIndex.
    destruct (ch_index (nd_chain n) !! h) as [idx|] eqn:E; [|done]. apply (ci_index _ Hc) in E as (_ & ? & _). lia. }
  unfold collect_headers in H. apply runs_bind_inv in H as [(c & n1 & Hm & H)|(e & Hm & ?)]; [|done].
  apply runs_get in Hm as [E ->]. injection E as ->. cbv zeta in H.
  apply headers_from_slice in H as (new & [= ->] & Hl & Hc' & Hm); [|done|cbn; lia]. done.
Qed.

(** C11: Synchronisation makes progress: when the chain of node [a] is a proper
    prefix of the chain of node [b], and [b] can read its blocks, then the
    locator [a] sends arrives as sent, the reply of [b] is the headers of the
    next (at most 2000) blocks after the tip of [a], and [a] asks for the first
    100 of them that it lacks, which are at least one. *)
Theorem sync_progress (a b : Node St) (P : St -> Prop) :
  reachable params a -> reachable params b ->
  ch_byHeight (nd_chain a) `prefix_of` ch_byHeight (nd_chain b) ->
  ch_height (nd_chain a) < ch_height (nd_chain b) ->
  readable P (ch_byHeight (nd_chain b)) -> P (nd_store b) ->
  let missing := drop (length (ch_byHeight (nd_chain a))) (ch_byHeight (nd_chain b)) in
  Forall (fun h => ch_index (nd_chain a) !! h = None) missing ->
  exists locator out b',
    chain_locator a = Done (Ok locator, a) /\
    ParseGetHeadersPayload (BuildGetHeadersPayload locator zero) = Some (locator, zero) /\
    collect_headers locator zero b = Done (Ok out, b') /\
    map HeaderHash out = take 2000 missing /\
    headers_want (nd_chain a) out [] true = (map inv_block (take 100 missing), false) /\
    take 100 missing <> [].
Proof.
  intros Hra Hrb Hpre Hlt HP Hst missing Hmiss.
  apply reachable_inv in Hra as Ha. apply reachable_inv in Hrb as Hb.
  pose proof (ci_height _ Ha). pose proof (ci_length _ Ha) as Hla. pose proof (ci_length _ Hb) as Hlb.
  destruct (chain_locator_ok a Ha) as (l & El & Hin & Hlen). set (loc := ch_tipHash (nd_chain a) :: l) in *.
  assert (locate (nd_chain b) loc = Z.of_nat (length (ch_byHeight (nd_chain a)))) as Estart.
  { pose proof (prefix_lookup_Some _ _ _ _ (ci_tip _ Ha) Hpre) as Htip.
    apply (ci_active _ Hb) in Htip as (idx & Hidx & Hh). cbn [locate loc]. unfold GetIndex. rewrite Hidx. lia. }
  destruct (headers_from_ok P (nd_chain b) Hb HP (Z.to_nat (ch_height (nd_chain b) - locate (nd_chain b) loc + 1))
    (locate (nd_chain b) loc) [] b) as (out & b' & Eo & Hm); [done|done|lia|lia|cbn; lia|].
  rewrite Estart, Nat2Z.id in Hm. fold missing in Hm. cbn [length] in Hm. rewrite Nat.sub_0_r in Hm.
  assert (missing <> []) as Hne.
  { unfold missing. intros E%(f_equal length). rewrite length_drop in E. cbn in E. lia. }
  exists loc, out, b'. split_and!; [done| |exact Eo|done| |by destruct missing].
  - apply getheaders_roundtrip; [|lia|done]. pose proof (ci_wf _ Ha) as Hwf. rewrite Forall_forall in Hwf.
    eapply Forall_impl; [exact Hin|exact Hwf].
  - rewrite headers_want_ok; [|by apply (Forall_map HeaderHash (fun h => ch_index (nd_chain a) !! h = None)); rewrite Hm; apply Forall_take|cbn; lia].
    cbn [length app]. rewrite Nat.sub_0_r, Hm, take_take. replace (100 `min` 2000)%nat with 100%nat by done.
    f_equal. destruct out; [|done]. by destruct missing.
Qed.

(** The handshake: a [version] message of a supported version completes it;
    the node answers with its own version (on an inbound connection only), a
    [verack] and a [getheaders] whose locator starts at its tip; any other
    [version] payload gets no answer and the peer is dropped. *)
Theorem handshake_reply (d : Daemon St) now (n : CNode) payload :
  params_ok params -> daemon_reach params d ->
  let msg := {| msg_command := string_bytes "version"; msg_payload := payload |} in
  match DeserializeVersion payload with
  | Some v =>
      if v_version v <? MIN_PROTOCOL_VERSION then
        handle params now good_write msg (n, d) = Done (tt, (MarkDisconnected n, d))
      else exists locator,
        handle params now good_write msg (n, d) = Done (tt, (set_version v n,
          after_sends params d (n_fd n)
            ((if n_inbound n then [("version"%string, SerializeVersion (version_at (ch_height (nd_chain (d_node d)))))] else []) ++
             [("verack"%string, []); ("getheaders"%string, BuildGetHeadersPayload locator zero)]))) /\
        head locator = Some (ch_tipHash (nd_chain (d_node d))) /\ (length locator <= 32)%nat
  | None => handle params now good_write msg (n, d) = Done (tt, (MarkDisconnected n, d))
  end.
Proof.
  intros Hp Hd msg. apply daemon_reach_inv in Hd as [Hr _]; [|done]. apply reachable_inv in Hr.
  unfold handle, msg, is_cmd. cbn [msg_command msg_payload]. rewrite bool_decide_true by done. unfold HandleVersion.
  destruct (DeserializeVersion payload) as [v|]; [|done]. destruct (v_version v <? MIN_PROTOCOL_VERSION); [done|].
  destruct (chain_locator_ok _ Hr) as (l & El & _ & Hlen). set (loc := ch_tipHash (nd_chain (d_node d)) :: l) in *.
  exists loc. split_and!; [|done|done]. cbn [length loc] in Hlen.
  pose proof (length_getheaders loc zero) as Hgl. cbn [length loc] in Hgl.
  assert (forall p : bytes, (length p <= 2000)%nat -> Z.of_nat (length p) <= MAX_MESSAGE_SIZE) as Hsz
    by (intros; change MAX_MESSAGE_SIZE with 4194304; lia).
  assert (length (SerializeVersion (version_at (ch_height (nd_chain (d_node d))))) <= 2000)%nat as Hvl.
  { unfold SerializeVersion, WriteU32, WriteU64, WriteU8, version_at. cbn [v_version v_services v_timestamp v_addrMe v_addrYou
      v_nonce v_userAgent v_startHeight v_relay default_version]. rewrite !length_app, !length_le_bytes. vm_compute. lia. }
  unfold mbind, HandlerM_bind, hset, hnode, mret, HandlerM_ret. cbn [fst snd].
  change (n_inbound (set_version v n)) with (n_inbound n). change (n_fd n) with (n_fd (set_version v n)).
  set (nv := set_version v n). clearbody nv.
  assert (forall m1, (match hsend params good_write "verack" [] (nv, after_sends params d (n_fd nv) m1) with
      | Done (_, s') => send_getheaders params good_write s' | Undef => Undef end) =
      Done (tt, (nv, after_sends params d (n_fd nv) (m1 ++ [("verack"%string, []); ("getheaders"%string, BuildGetHeadersPayload loc zero)])))) as Hrest.
  { intros m1. rewrite hsend_good by (done || cbn; lia). unfold send_getheaders, mbind, HandlerM_bind, hrun.
    cbn [snd fst]. change (d_node (after_sends params (after_sends params d (n_fd nv) m1) (n_fd nv) [("verack"%string, [])])) with (d_node d).
    rewrite El. change (with_node ?x (d_node d)) with x. rewrite hsend_good; [|done|apply Hsz; lia].
    rewrite !after_sends_app. by rewrite <- ?app_assoc. }
  destruct (n_inbound n).
  - change (hchain (nv, d)) with (Done (nd_chain (d_node d), (nv, d))). cbv beta iota. rewrite hsend_good; [|done|by apply Hsz]. by rewrite Hrest.
  - rewrite <- (after_sends_nil params d (n_fd nv)) at 1. by rewrite Hrest.
Qed.

(** Misbehaviour is counted but never acted on by the handlers: however
    often a peer sends a block that does not parse, it stays connected, and only
    its score grows (and wraps around). *)
Theorem invalid_blocks_never_disconnect (d : Daemon St) now write (n : CNode) payload k :
  ParseBlockPayload payload = None -> is_i32 (n_misbehaviorScore n) ->
  let handler := node_handler params now write in
  let msg := {| msg_command := string_bytes "block"; msg_payload := payload |} in
  deliver_all (repeat msg k) (n, Some d) =
  (set_score n (i32 (n_misbehaviorScore n + 10 * Z.of_nat k)) (n_disconnected n), Some d).
Proof.
  intros Hb Hs handler msg. revert n Hs. induction k as [|k IH]; intros n Hs.
  - rewrite Z.add_0_r, i32_id by done. by destruct n.
  - change (deliver_all (repeat msg (S k)) (n, Some d)) with (deliver_all (repeat msg k) (OnMessage n msg (Some d))).
    assert (OnMessage n msg (Some d) = (misbehave n 10, Some d)) as ->.
    { unfold OnMessage, handler, node_handler, handle, msg, is_cmd. cbn [msg_command msg_payload].
      do 5 (rewrite bool_decide_false by done). rewrite bool_decide_true by done. unfold HandleBlock. by rewrite Hb. }
    rewrite IH by apply i32_range. unfold misbehave. cbn [n_misbehaviorScore set_score n_disconnected]. rewrite i32_add.
    replace (n_misbehaviorScore n + 10 + 10 * Z.of_nat k) with (n_misbehaviorScore n + 10 * Z.of_nat (S k)) by lia. done.
Qed.

End HandlerProperties.

(** ** Concrete instances: the testnet nodes of [Chain]. *)

#[local] Instance wit_handlers_ossl : OpenSSL := toy_ossl.

Definition wit_daemon (n : Node MemStorage) : Daemon MemStorage :=
  {| d_node := n; d_pool := Clear; d_peers := ∅; d_sent := []; d_history := [] |}.
Definition wit_peer7 : CNode := new_node 7 [49] true.
Definition block_msg (payload : bytes) : CNetMessage := {| msg_command := string_bytes "block"; msg_payload := payload |}.

Lemma wit_daemon_reach : daemon_reach TESTNET (wit_daemon wit_node2).
Proof. apply daemon_start; [exact wit_node2_reachable|reflexivity]. Qed.

Lemma network_cannot_inflate_witness : TotalValue (ch_view (nd_chain wit_node2)) <= Rules.MAX_MONEY.
Proof.
  exact (proj1 (proj2 (network_cannot_inflate TESTNET (wit_daemon wit_node2) (GetParams_ok "testnet") wit_daemon_reach))).
Defined.

Lemma message_defined_witness :
  (ch_height (nd_chain wit_node_1) + 1) mod difficultyInterval TESTNET_1 = 0.
Proof.
  destruct (message_defined TESTNET_1 (wit_daemon wit_node_1) 0 good_write (block_msg (SerializeBlock wit_block1)) wit_peer7)
    as (_ & blk & _ & _ & H).
  - repeat split; vm_compute; first [reflexivity | congruence].
  - apply daemon_start; [exact wit_node_1_reachable|reflexivity].
  - vm_compute. reflexivity.
  - exact H.
Defined.

Definition wit_reply : NodeM MemStorage (list CBlockHeader) := collect_headers [] zero.
Lemma headers_reply_slice_witness :
  (length (run_value [] wit_reply wit_node1) <= 2000)%nat.
Proof.
  refine (proj1 (headers_reply_slice TESTNET wit_node1 (run_state wit_reply wit_node1) [] zero _ wit_node1_reachable _)).
  refine (run_ok_runs [] wit_reply wit_node1 _). vm_compute. reflexivity.
Defined.

Lemma wit_node1_hashes : ch_byHeight (nd_chain wit_node1) = [BlockHash (GetGenesisBlock TESTNET); BlockHash wit_block1].
Proof. vm_compute. reflexivity. Qed.
Lemma wit_node1_readable : readable (fun s => s = nd_store wit_node1) (ch_byHeight (nd_chain wit_node1)).
Proof.
  intros s h -> Hin. rewrite wit_node1_hashes in Hin. apply elem_of_cons in Hin as [->|Hin%list_elem_of_singleton].
  - exists (GetGenesisBlock TESTNET), (nd_store wit_node1). split; [|done]. apply read_pair. vm_compute. reflexivity.
  - subst h. exists wit_block1, (nd_store wit_node1). split; [|done]. apply read_pair. vm_compute. reflexivity.
Qed.

Lemma sync_progress_witness :
  exists locator out b', chain_locator wit_node0 = Done (Ok locator, wit_node0) /\
    collect_headers locator zero wit_node1 = Done (Ok out, b') /\ map HeaderHash out = [BlockHash wit_block1].
Proof.
  destruct (sync_progress TESTNET wit_node0 wit_node1 (fun s => s = nd_store wit_node1)) as (l & out & b' & H1 & _ & H2 & H3 & _).
  - exact wit_node0_reachable.
  - exact wit_node1_reachable.
  - exists [BlockHash wit_block1]. vm_compute. reflexivity.
  - vm_compute. reflexivity.
  - exact wit_node1_readable.
  - reflexivity.
  - rewrite wit_node1_hashes. replace (length (ch_byHeight (nd_chain wit_node0))) with 1%nat by (vm_compute; reflexivity).
    cbn [drop skipn]. apply Forall_singleton. vm_compute. reflexivity.
  - exists l, out, b'. split; [exact H1|]. split; [exact H2|]. rewrite H3, wit_node1_hashes.
    replace (length (ch_byHeight (nd_chain wit_node0))) with 1%nat by (vm_compute; reflexivity). reflexivity.
Defined.

Lemma handshake_reply_witness :
  exists locator, handle TESTNET 0 good_write
      {| msg_command := string_bytes "version"; msg_payload := SerializeVersion default_version |} (wit_peer7, wit_daemon wit_node2) =
    Done (tt, (set_version default_version wit_peer7, after_sends TESTNET (wit_daemon wit_node2) 7
      [("version"%string, SerializeVersion (version_at 1)); ("verack"%string, []); ("getheaders"%string, BuildGetHeadersPayload locator zero)])).
Proof.
  pose proof (handshake_reply TESTNET (wit_daemon wit_node2) 0 wit_peer7 (SerializeVersion default_version)
    (GetParams_ok "testnet") wit_daemon_reach) as H. cbv zeta in H.
  replace (DeserializeVersion (SerializeVersion default_version)) with (Some default_version) in H by (vm_compute; reflexivity).
  replace (ch_height (nd_chain (d_node (wit_daemon wit_node2)))) with 1 in H by (vm_compute; reflexivity).
  destruct H as (l & H & _). exists l. exact H.
Defined.

Lemma invalid_blocks_never_disconnect_witness :
  n_disconnected (fst (deliver_all (handler := node_handler TESTNET 0 good_write) (repeat (block_msg []) 3)
    (wit_peer7, Some (wit_daemon wit_node0)))) = false.
Proof.
  pose proof (invalid_blocks_never_disconnect TESTNET (wit_daemon wit_node0) 0 good_write wit_peer7 [] 3) as H.
  cbv zeta in H. unfold block_msg. rewrite H.
  - reflexivity.
  - reflexivity.
  - unfold is_i32. cbn. lia.
Defined.
