(* ===== verification/Wallet.v ===== *)
(** [wallet/wallet.cpp], [wallet/signer.cpp], [wallet/recovery.cpp]: addresses,
    balance, coin selection, signing, payments, backup and rescan.

    The operations run on the key store ([KsM]); the wallet's other field they
    use, the network's version byte, is an argument.  Random draws and the clock
    are arguments.  [CreateTransaction] may not return when a signature loop
    does not ([Keys.Sign]): its result is [None] when the fuel for signing runs
    out. *)
From Stdlib Require Import Ascii.
From stdpp Require Import sorting.
From S2P Require Import Prelude Config UInt256 Consensus Ripemd160 Crypto Transaction Encoding Value Script Utxo Validation Keys KeyStore Mempool Chain Handlers.
Import uint256 Rules Script Encoding Value.
Open Scope cdx_scope.

(** * Keys and balance *)

Section Wallet.
Context {ossl : OpenSSL} {ec : EcKeys ossl} {cph : Cipher}.
Context (versionByte : Z).

(** The result of [AddKey] is ignored. *)
Definition GenerateNewAddress (rand : nat -> option bytes) (iv : bytes) (now : Z) : KsM CKeyPair :=
  match GenerateKeyPair rand versionByte with
  | Err e => kthrow e
  | Ok kp => _ ← AddKey kp iv now; mret kp
  end.
Definition ImportKey (kp : CKeyPair) (iv : bytes) (now : Z) : KsM bool :=
  if bool_decide (kp_address kp = []) then mret false else AddKey kp iv now.
Definition ImportWIF (wif : list ascii) (iv : bytes) (now : Z) : KsM bool :=
  match WIFToPrivKey wif with
  | None => mret false
  | Some (_, priv) => ImportKey (FromPrivKey priv versionByte) iv now
  end.
Definition HasKey (ks : CKeystore) (address : list ascii) : bool := HasAddress ks address.

(** The hash of an address of this network. *)
Definition own_hash (addr : list ascii) : option bytes :=
  match DecodeAddress addr with
  | None => None
  | Some (v, h) => if negb (v =? versionByte) then None else Some h
  end.

Record Balance := { bl_confirmed : Z; bl_unconfirmed : Z; bl_immature : Z; bl_spendable : Z }.
Definition add_balance (view : CCoinsView) (height : Z) (bal : Balance) (addr : list ascii) : Balance :=
  match own_hash addr with
  | None => bal
  | Some h =>
      let b := snd (GetAddressBalance view h height) in
      {| bl_confirmed := bl_confirmed bal +i bal_confirmed b; bl_unconfirmed := bl_unconfirmed bal +i bal_unconfirmed b;
         bl_immature := bl_immature bal +i bal_immature b; bl_spendable := bl_spendable bal |}
  end.
Definition GetBalance (ks : CKeystore) (view : CCoinsView) (height : Z) : Balance :=
  let bal := foldl (add_balance view height)
    {| bl_confirmed := 0; bl_unconfirmed := 0; bl_immature := 0; bl_spendable := 0 |} (GetAddresses ks) in
  {| bl_confirmed := bl_confirmed bal; bl_unconfirmed := bl_unconfirmed bal;
     bl_immature := bl_immature bal; bl_spendable := bl_confirmed bal |}.

(** * Coin selection *)

Record SelectedInput := { si_outpoint : COutPoint; si_coin : CUTXO; si_address : list ascii }.

(** The coins of one address, in the order of the set's traversal. *)
Definition address_coins (view : CCoinsView) (height : Z) (addr : list ascii) : list SelectedInput :=
  match own_hash addr with
  | None => []
  | Some h =>
      map (fun kv => {| si_outpoint := kv.1; si_coin := kv.2; si_address := addr |})
        (List.filter (fun kv => match ExtractP2PKHHash (coin_scriptPubKey kv.2) with
                                | None => false
                                | Some hh => bool_decide (hh = h) && IsSpendable kv.2 height
                                end) (map_to_list view))
  end.
Definition wallet_coins (ks : CKeystore) (view : CCoinsView) (height : Z) : list SelectedInput :=
  flat_map (address_coins view height) (GetAddresses ks).

Fixpoint pick_coins (entries : list SelectedInput) (amountNeeded total : Z) (selected : list SelectedInput) : bool * list SelectedInput :=
  match entries with
  | [] => (false, selected)
  | e :: r =>
      let selected := selected ++ [e] in
      let total := total +i coin_value (si_coin e) in
      if total >=? amountNeeded then (true, selected) else pick_coins r amountNeeded total selected
  end.
(** [std::sort] by value is the parameter [sort], as in [SelectCoinsGreedy]. *)
Definition SelectCoins (sort : list SelectedInput -> list SelectedInput) (ks : CKeystore) (view : CCoinsView)
    (height amountNeeded : Z) : bool * list SelectedInput :=
  pick_coins (sort (wallet_coins ks view height)) amountNeeded 0 [].

Definition EstimateFee (txSizeBytes : Z) : Z :=
  let fee := i64 (u64 (txSizeBytes * DEFAULT_FEE_RATE) / 1000) in
  if fee <? 100 then 100 else fee.

(** * Signing *)

(** [None]: the fuel for signing ran out. *)
Definition SignInput (fuel : nat) (tx : CTransaction) (inputIndex : nat) (kp : CKeyPair) (scriptPubKey : bytes) : option (res CTransaction) :=
  if (length (tx_vin tx) <=? inputIndex)%nat then Some (Err "input index out of range")
  else
    let hash32 := getBytesLE (SignatureHash tx inputIndex scriptPubKey) in
    match Sign fuel (kp_key kp) hash32 with
    | None => None
    | Some None => Some (Err "signing failed")
    | Some (Some sig) =>
        let scriptSig := u8 (Z.of_nat (length sig) + 1) :: sig ++ 0x01 :: 33 :: take 33 (kp_pubkey kp) in
        Some (Ok {| tx_version := tx_version tx; tx_vin := alter (set_script scriptSig) inputIndex (tx_vin tx);
                    tx_vout := tx_vout tx; tx_lockTime := tx_lockTime tx |})
    end.
(** [for (i = 0; i < vin.size(); ++i) if (!SignInput(tx, i, ...)) return false] *)
Fixpoint sign_inputs (fuel : nat) (l : list (nat * (CKeyPair * bytes))) (tx : CTransaction) : option (res CTransaction) :=
  match l with
  | [] => Some (Ok tx)
  | (i, (kp, spk)) :: r =>
      match SignInput fuel tx i kp spk with
      | Some (Ok tx) => sign_inputs fuel r tx
      | Some (Err e) => Some (Err e)
      | None => None
      end
  end.
Definition SignTransaction (fuel : nat) (tx : CTransaction) (kp : CKeyPair) (scriptPubKeys : list bytes) : option (res CTransaction) :=
  if negb (length scriptPubKeys =? length (tx_vin tx))%nat then Some (Err "scriptPubKey count mismatch")
  else sign_inputs fuel (imap (fun i s => (i, (kp, s))) scriptPubKeys) tx.

(** * Payments *)

(** The key pair rebuilt from a stored key. *)
Definition signing_pair (key : CKey) (address : list ascii) : CKeyPair :=
  let pubkey := default (repeat 0 33) (GetPubKeyCompressed key) in
  {| kp_key := copy_CKey key; kp_pubkey := pubkey; kp_pubkeyLen := 33; kp_address := address; kp_hash160 := HASH160 pubkey |}.
(** The keys of the selected inputs, or the first address without one. *)
Fixpoint signing_pairs (selected : list SelectedInput) : KsM (res (list CKeyPair)) :=
  match selected with
  | [] => mret (Ok [])
  | s :: r =>
      k ← GetKey (si_address s);
      match k with
      | None => mret (Err (String.append "missing private key for " (String.string_of_list_ascii (si_address s))))
      | Some key =>
          rest ← signing_pairs r;
          mret (match rest with Ok kps => Ok (signing_pair key (si_address s) :: kps) | Err e => Err e end)
      end
  end.

Definition pay_to (value : Z) (hash160 : bytes) : CTxOut := {| out_value := value; out_scriptPubKey := BuildP2PKHScript hash160 |}.
Definition spend_of (s : SelectedInput) : CTxIn := {| in_prevout := si_outpoint s; in_scriptSig := []; in_sequence := 0xffffffff |}.

(** What is drawn in one attempt: the candidate private keys of the change key
    and the iv it is stored with. *)
Record change_draw := { cd_rand : nat -> option bytes; cd_iv : bytes }.

(** What one attempt ends with. *)
Inductive attempt_result :=
| AttemptContinue
| AttemptReturn (r : option (res (CTransaction * uint256 * Z))).

(** The change output: none for dust; [None] when its address does not decode. *)
Definition change_output (change : Z) (draw : change_draw) (now : Z) : KsM (option (list CTxOut)) :=
  if change >? 0 then
    if change <? 1000 then mret (Some [])
    else
      changeKp ← GenerateNewAddress (cd_rand draw) (cd_iv draw) now;
      mret (match DecodeAddress (kp_address changeKp) with
            | None => None
            | Some (_, ch) => Some [pay_to change ch]
            end)
  else mret (Some []).

Definition attempt_payment (fuel : nat) (sort : list SelectedInput -> list SelectedInput) (view : CCoinsView) (height : Z)
    (toHash : bytes) (amountBase : Z) (attempt : nat) (draw : change_draw) (now : Z) : KsM attempt_result :=
  let approxSize := 10 + 3 * (32 + 4 + 110 + 4) + 2 * (8 + 25) + 4 in
  let approxSize := if (0 <? attempt)%nat then approxSize + 150 else approxSize in
  let fee := EstimateFee approxSize in
  let amountNeeded := amountBase +i fee in
  ks ← kget;
  match SelectCoins sort ks view height amountNeeded with
  | (false, _) =>
      mret (AttemptReturn (Some (Err (String.append "insufficient funds (need "
        (String.append (String.string_of_list_ascii (FormatValue amountNeeded)) ")")))))
  | (true, selected) =>
      let inSum := i64_sum (map (fun s => coin_value (si_coin s)) selected) in
      let change := inSum -i amountNeeded in
      changeOut ← change_output change draw now;
      match changeOut with
      | None => mret AttemptContinue
      | Some changeOut =>
          let tx := {| tx_version := 1; tx_vin := map spend_of selected;
                       tx_vout := pay_to amountBase toHash :: changeOut; tx_lockTime := 0 |} in
          let outSum := i64_sum (map out_value (tx_vout tx)) in
          let actualFee := inSum -i outSum in
          if actualFee <? 0 then mret (AttemptReturn (Some (Err "internal: negative fee")))
          else
            kps ← signing_pairs selected;
            match kps with
            | Err e => mret (AttemptReturn (Some (Err e)))
            | Ok kps =>
                let work := imap (fun i ks => (i, ks)) (zip kps (map (fun s => coin_scriptPubKey (si_coin s)) selected)) in
                match sign_inputs fuel work tx with
                | None => mret (AttemptReturn None)
                | Some (Err e) => mret (AttemptReturn (Some (Err e)))
                | Some (Ok tx) =>
                    match ValidateTransaction tx view height false with
                    | Err verr => mret (AttemptReturn (Some (Err verr)))
                    | Ok _ => mret (AttemptReturn (Some (Ok (tx, GetTxID tx, actualFee))))
                    end
                end
            end
      end
  end.
Fixpoint attempt_loop (n : nat) (fuel : nat) (sort : list SelectedInput -> list SelectedInput) (view : CCoinsView) (height : Z)
    (toHash : bytes) (amountBase : Z) (attempt : nat) (draws : nat -> change_draw) (now : Z) : KsM (option (res (CTransaction * uint256 * Z))) :=
  match n with
  | O => mret (Some (Err "could not construct transaction"))
  | S n =>
      r ← attempt_payment fuel sort view height toHash amountBase attempt (draws attempt) now;
      match r with
      | AttemptContinue => attempt_loop n fuel sort view height toHash amountBase (S attempt) draws now
      | AttemptReturn r => mret r
      end
  end.
(** The transaction, its id and the fee; [checkCoinbase] has its default [false]. *)
Definition CreateTransaction (fuel : nat) (sort : list SelectedInput -> list SelectedInput) (view : CCoinsView) (height : Z)
    (toAddress : list ascii) (amountBase : Z) (draws : nat -> change_draw) (now : Z) : KsM (option (res (CTransaction * uint256 * Z))) :=
  ks ← kget;
  if ks_locked ks then mret (Some (Err "wallet is locked"))
  else match DecodeAddress toAddress with
       | None => mret (Some (Err "invalid recipient address"))
       | Some (_, toHash) =>
           if amountBase <=? 0 then mret (Some (Err "amount must be positive"))
           else attempt_loop 8 fuel sort view height toHash amountBase 0 draws now
       end.

End Wallet.

(** * Backup *)

Definition BACKUP_MAGIC : bytes := [67; 68; 88; 66].

Section Backup.
Context {ossl : OpenSSL} {ec : EcKeys ossl} {cph : Cipher}.

(** [for (addr : GetAddresses()) { if (!keystore.GetKey(addr, k)) continue; ... }] *)
Fixpoint export_keys (addrs : list (list ascii)) : KsM (list (list ascii * bytes)) :=
  match addrs with
  | [] => mret []
  | a :: r =>
      k ← GetKey a;
      rest ← export_keys r;
      mret (match k with Some k => (a, GetPrivKey k) :: rest | None => rest end)
  end.
Record BackupEntry := { be_address : bytes; be_cipher : bytes; be_iv : bytes; be_tag : bytes }.
Definition SerializeBackupEntry (e : BackupEntry) : bytes :=
  WriteVarStr (be_address e) ++ WriteVarStr (be_cipher e) ++ WriteVarStr (be_iv e) ++ WriteVarStr (be_tag e).
(** The encryption loop; [ivs i] is drawn in round [i]. *)
Fixpoint encrypt_entries (kek : bytes) (keys : list (list ascii * bytes)) (ivs : nat -> bytes) (i : nat) : res (list BackupEntry) :=
  match keys with
  | [] => Ok []
  | (a, priv) :: r =>
      match gcm_encrypt kek (ivs i) priv with
      | None => Err "backup encrypt failed"
      | Some (c, t) =>
          rest ← encrypt_entries kek r ivs (S i);
          Ok ({| be_address := chars_bytes a; be_cipher := c; be_iv := ivs i; be_tag := t |} :: rest)
      end
  end.
Definition backup_file (salt : bytes) (es : list BackupEntry) : bytes :=
  BACKUP_MAGIC ++ WriteU8 1 ++ WriteVarStr salt ++ WriteVarInt (Z.of_nat (length es)) ++ flat_map SerializeBackupEntry es.
Definition Backup (password salt : bytes) (ivs : nat -> bytes) : KsM bytes :=
  ks ← kget;
  keys ← export_keys (GetAddresses ks);
  match PBKDF2 password salt with
  | None => kthrow "KDF failed"
  | Some kek =>
      match encrypt_entries kek keys ivs 0 with
      | Err e => kthrow e
      | Ok es => mret (backup_file salt es)
      end
  end.

Definition ReadBackupEntry : Rd BackupEntry :=
  a ← ReadVarStr; c ← ReadVarStr; iv ← ReadVarStr; t ← ReadVarStr;
  mret {| be_address := a; be_cipher := c; be_iv := iv; be_tag := t |}.

(** [CWallet w]: the version byte of a wallet nobody has configured. *)
Definition wallet_default_version : Z := 0x1E.

(** What [Restore] draws: the salt of the new store, the ivs, the clock. *)
Record restore_draw := { rd_salt : bytes; rd_ivs : nat -> bytes; rd_now : Z }.

(** One entry; [Some e] is an error return. *)
Definition restore_entry (kek password : bytes) (draw : restore_draw) (i : nat) (e : BackupEntry) : KsM (option string) :=
  r ← ktry (AesDecrypt kek (be_cipher e) (be_iv e) (be_tag e));
  match r with
  | Err _ => mret (Some "wrong password or corrupt backup")
  | Ok plain =>
      if negb (length plain =? 32)%nat then mret (Some "corrupt private key in backup")
      else
        let kp := FromPrivKey plain wallet_default_version in
        if kp_IsValid kp && bool_decide (kp_address kp = string_chars (be_address e)) then
          ok ← Unlock password (rd_salt draw);
          _ ← (if negb ok then Unlock password (rd_salt draw) else mret true);
          _ ← ImportKey kp (rd_ivs draw i) (rd_now draw);
          mret None
        else mret None
  end.
(** The loop over the [n] entries of the file. *)
Fixpoint restore_loop (n : nat) (kek password : bytes) (draw : restore_draw) (i : nat) (d : CDeserializer) : KsM (option string) :=
  match n with
  | O => mret None
  | S n =>
      match ReadBackupEntry d with
      | None => mret (Some "corrupt backup entry")
      | Some (e, d) =>
          r ← restore_entry kek password draw i e;
          match r with
          | Some e => mret (Some e)
          | None => restore_loop n kek password draw (S i) d
          end
      end
  end.
(** The error string and, as the final state, the key store of the wallet
    returned; an early return leaves it as it is then, the end locks it. *)
Definition Restore (backup password : bytes) (draw : restore_draw) : KsM (option string) :=
  match ReadBytes 4 {| d_p := backup; d_pos := 0 |} with
  | None => mret (Some "invalid backup file")
  | Some (magic, d) =>
      if negb (bool_decide (magic = BACKUP_MAGIC)) then mret (Some "invalid backup file")
      else match ReadU8 d with
      | None => mret (Some "unsupported backup version")
      | Some (ver, d) =>
          if negb (ver =? 1) then mret (Some "unsupported backup version")
          else match ReadVarStr d with
          | None => mret (Some "corrupt backup")
          | Some (salt, d) =>
              match ReadVarInt d with
              | None => mret (Some "corrupt backup")
              | Some (n, d) =>
                  if n >? 1000000 then mret (Some "corrupt backup")
                  else match PBKDF2 password salt with
                  | None => mret (Some "KDF failed")
                  | Some kek =>
                      r ← restore_loop (Z.to_nat n) kek password draw 0 d;
                      match r with
                      | Some e => mret (Some e)
                      | None => _ ← kput Lock; mret None
                      end
                  end
              end
          end
      end
  end.

(** * Rescan *)

Context {St : Type} {stor : IStorage St}.

(** [isOwn]: the key hashes of all addresses that decode, of any network. *)
Definition own_hashes (ks : CKeystore) : list bytes := omap (fun a => snd <$> DecodeAddress a) (GetAddresses ks).
Definition isOwn (ks : CKeystore) (script : bytes) : bool :=
  match ExtractP2PKHHash script with
  | None => false
  | Some h => existsb (fun o => bool_decide (o = h)) (own_hashes ks)
  end.
(** The value [tx] pays to the wallet, if it pays anything to it. *)
Definition received (ks : CKeystore) (tx : CTransaction) : option Z :=
  let own := List.filter (fun o => isOwn ks (out_scriptPubKey o)) (tx_vout tx) in
  match own with [] => None | _ => Some (i64_sum (map out_value own)) end.
Definition rescan_record (h : Z) (blk : CBlock) (tx : CTransaction) (amount : Z) : WalletTxRecord := {|
  wr_txid := GetTxID tx; wr_height := h; wr_amount := amount; wr_fee := 0; wr_address := [];
  wr_timestamp := hdr_timestamp (blk_header blk); wr_isCoinbase := IsCoinBase tx |}.
Definition block_records (ks : CKeystore) (h : Z) (blk : CBlock) : list WalletTxRecord :=
  omap (fun tx => rescan_record h blk tx <$> received ks tx) (blk_vtx blk).
(** The records added to the history. *)
Fixpoint rescan_loop (ks : CKeystore) (n : nat) (h : Z) : NodeM St (list WalletTxRecord) :=
  match n with
  | O => mret []
  | S n =>
      b ← GetBlockByHeight h;
      rest ← rescan_loop ks n (h + 1);
      mret (match b with Some blk => block_records ks h blk ++ rest | None => rest end)
  end.
Definition WalletRescan (ks : CKeystore) (history : list WalletTxRecord) : NodeM St (Z * list WalletTxRecord) :=
  c ← get_chain;
  recs ← rescan_loop ks (Z.to_nat (ch_height c + 1)) 0;
  mret (Z.of_nat (length recs), history ++ recs).

End Backup.

(** * Lemmas *)

Section WalletFacts.
Context {ossl : OpenSSL} {olaws : OpenSSLLaws ossl} {ec : EcKeys ossl} {ecl : EcKeysLaws ec} {cph : Cipher} {cl : CipherLaws cph}.
Context (versionByte : Z) (Hver : is_u8 versionByte).

(** The compressed public key of a scalar and the address of its hash. *)
Definition pub_of (d : Z) : bytes := point2oct true (EC_POINT_mul d None).
Definition address_of (d : Z) : list ascii := Hash160ToAddress (HASH160 (pub_of d)) versionByte.

(** Every key is filed under its own address of this network. *)
Definition own_keys (m : gmap (list ascii) Z) : Prop := forall a d, m !! a = Some d -> a = address_of d /\ 0 < d < group_order.

Lemma scalar_key_ok d : 0 < d < group_order -> key_ok (scalar_key d).
Proof. done. Qed.

Lemma keypair_pub d : 0 < d < group_order -> GetPubKeyCompressed (scalar_key d) = Some (pub_of d) /\ length (pub_of d) = 33%nat.
Proof. intros Hd. apply (GetPubKeyCompressed_ok (scalar_key d)). done. Qed.

Lemma keypair_address d : 0 < d < group_order -> kp_address (keypair_of (scalar_key d) versionByte) = address_of d.
Proof.
  intros Hd. unfold keypair_of. cbn [kp_address]. change (SetCompressed (scalar_key d) true) with (scalar_key d).
  by rewrite (proj1 (keypair_pub d Hd)).
Qed.

Lemma HASH160_wf m : bytes_wf (HASH160 m) /\ length (HASH160 m) = 20%nat.
Proof. split; [apply Ripemd160.ripemd160_wf|apply length_HASH160]. Qed.

Lemma own_hash_address d : own_hash versionByte (address_of d) = Some (HASH160 (pub_of d)).
Proof.
  unfold own_hash, address_of. destruct (HASH160_wf (pub_of d)). rewrite DecodeAddress_of by done. by rewrite Z.eqb_refl.
Qed.

(** ** The coins of the wallet *)

Definition coin_of (view : CCoinsView) (height : Z) (m : gmap (list ascii) Z) (s : SelectedInput) : Prop :=
  exists d, m !! si_address s = Some d /\ 0 < d < group_order /\ view !! si_outpoint s = Some (si_coin s) /\
    coin_scriptPubKey (si_coin s) = BuildP2PKHScript (HASH160 (pub_of d)) /\ IsSpendable (si_coin s) height = true.

Lemma extract_p2pkh s h : ExtractP2PKHHash s = Some h -> s = BuildP2PKHScript h.
Proof.
  unfold ExtractP2PKHHash. destruct (IsP2PKHScript s) eqn:E; cbn [negb]; [|done]. intros [= <-].
  by apply IsP2PKH_iff in E as [_ E].
Qed.

Lemma address_coins_spec view height d s : s ∈ address_coins versionByte view height (address_of d) <->
  si_address s = address_of d /\ view !! si_outpoint s = Some (si_coin s) /\
  ExtractP2PKHHash (coin_scriptPubKey (si_coin s)) = Some (HASH160 (pub_of d)) /\ IsSpendable (si_coin s) height = true.
Proof.
  unfold address_coins. rewrite own_hash_address, list_elem_of_fmap. setoid_rewrite list_elem_of_In.
  setoid_rewrite filter_In. setoid_rewrite <- list_elem_of_In. split.
  - intros ([o c] & -> & Hin & Hf). apply elem_of_map_to_list in Hin.
    cbn [fst snd si_outpoint si_coin si_address] in *.
    destruct (ExtractP2PKHHash (coin_scriptPubKey c)) as [h|]; [|done].
    apply andb_true_iff in Hf as [->%bool_decide_eq_true Hs]. done.
  - intros (Ha & Hv & He & Hs). exists (si_outpoint s, si_coin s). split; [by destruct s; cbn [si_address] in Ha; rewrite Ha|].
    split; [by apply elem_of_map_to_list|]. cbn [snd]. rewrite He, Hs. by rewrite bool_decide_true.
Qed.

Lemma NoDup_map_filter {A B} (f : A -> B) (p : A -> bool) l : NoDup (map f l) -> NoDup (map f (List.filter p l)).
Proof.
  induction l as [|x l IH]; [done|]. cbn [map]. intros [Hx Hl]%NoDup_cons. cbn [List.filter].
  destruct (p x); [|by apply IH]. cbn [map]. apply NoDup_cons. split; [|by apply IH].
  intros Hin. apply Hx. apply list_elem_of_fmap in Hin as (y & E & Hy). rewrite E. apply list_elem_of_fmap_2.
  apply list_elem_of_In, filter_In in Hy as [Hy _]. by apply list_elem_of_In.
Qed.

Lemma address_coins_NoDup view height a : NoDup (map si_outpoint (address_coins versionByte view height a)).
Proof.
  unfold address_coins. destruct (own_hash versionByte a); [|apply NoDup_nil_2]. rewrite map_map. cbn [si_outpoint].
  apply NoDup_map_filter. apply NoDup_fst_map_to_list.
Qed.

Context (ks : CKeystore) (pw : bytes) (m : gmap (list ascii) Z) (Hholds : holds pw ks m) (Hown : own_keys m).

Lemma addresses_own a : a ∈ GetAddresses ks <-> exists d, m !! a = Some d.
Proof.
  rewrite elem_of_GetAddresses. pose proof (h_keys _ _ _ Hholds a) as Ha. inversion Ha; split.
  - by intros _; eexists.
  - by intros _; eexists.
  - by intros [? ?].
  - by intros [? ?].
Qed.

Lemma wallet_coins_spec view height s : s ∈ wallet_coins versionByte ks view height -> coin_of view height m s.
Proof.
  unfold wallet_coins. rewrite list_elem_of_In, in_flat_map. intros (a & Ha & Hs). apply list_elem_of_In in Ha, Hs.
  apply addresses_own in Ha as [d Hd]. destruct (Hown a d Hd) as [-> Hr]. apply address_coins_spec in Hs as (Ea & Hv & He & Hsp).
  exists d. rewrite Ea. apply extract_p2pkh in He. done.
Qed.

Lemma wallet_coins_NoDup view height : NoDup (map si_outpoint (wallet_coins versionByte ks view height)).
Proof.
  unfold wallet_coins.
  assert (Hnd : NoDup (GetAddresses ks)).
  { unfold GetAddresses. change (NoDup ((sorted_keys (ks_keys ks)).*1)). rewrite sorted_keys_perm. apply NoDup_fst_map_to_list. }
  assert (Hall : Forall (fun a => exists d, a = address_of d) (GetAddresses ks)).
  { apply Forall_forall. intros a [d Hd]%addresses_own. destruct (Hown a d Hd) as [-> _]. by exists d. }
  induction Hnd as [|a l Ha Hl IH]; [apply NoDup_nil_2|]. apply Forall_cons in Hall as [[d ->] Hall]. cbn [flat_map].
  rewrite map_app. apply NoDup_app. split; [apply address_coins_NoDup|]. split; [|by apply IH].
  intros o Ho Ho'. apply list_elem_of_fmap in Ho as (s & -> & Hs). apply list_elem_of_fmap in Ho' as (s' & Eo & Hs').
  apply list_elem_of_In, in_flat_map in Hs' as (a' & Ha' & Hs'). apply list_elem_of_In in Ha', Hs'.
  rewrite Forall_forall in Hall. destruct (Hall a' Ha') as [d' ->].
  apply address_coins_spec in Hs as (_ & Hv & He & _). apply address_coins_spec in Hs' as (_ & Hv' & He' & _).
  rewrite Eo in Hv. rewrite Hv in Hv'. apply (inj Some) in Hv' as Ec. rewrite Ec in He. rewrite He in He'. apply (inj Some) in He' as Eh.
  apply Ha. unfold address_of in *. by rewrite Eh.
Qed.

(** ** Selection *)

Definition coins_value (l : list SelectedInput) : Z := sumZ (map (fun s => coin_value (si_coin s)) l).
Definition wallet_value (ks : CKeystore) (view : CCoinsView) (height : Z) : Z :=
  coins_value (wallet_coins versionByte ks view height).

Lemma coins_value_app l1 l2 : coins_value (l1 ++ l2) = coins_value l1 + coins_value l2.
Proof. unfold coins_value. by rewrite map_app, sumZ_app. Qed.

Lemma coins_value_nonneg l : Forall (fun s => coin_ok (si_coin s)) l -> 0 <= coins_value l.
Proof. intros H. apply sumZ_nonneg, Forall_map. eapply Forall_impl; [exact H|]. unfold coin_ok. cbn. lia. Qed.

(** Distinct coins of the set are worth at most the set. *)
Lemma coins_value_supply view l : view_ok view -> NoDup (map si_outpoint l) ->
  (forall s, s ∈ l -> view !! si_outpoint s = Some (si_coin s)) -> coins_value l <= supply view.
Proof.
  revert view. induction l as [|s l IH]; intros view Hv Hn Hl; [by apply supply_nonneg|].
  cbn [map] in Hn. apply NoDup_cons in Hn as [Hs Hn].
  assert (Es : view !! si_outpoint s = Some (si_coin s)) by (apply Hl; left).
  change (coins_value (s :: l)) with (coin_value (si_coin s) + coins_value l).
  pose proof (supply_delete view _ _ Es). enough (coins_value l <= supply (delete (si_outpoint s) view)) by lia.
  apply IH; [by apply view_ok_delete|done|]. intros s' Hs'. rewrite lookup_delete_ne; [by apply Hl; right|].
  intros E. apply Hs. rewrite E. apply list_elem_of_fmap. by exists s'.
Qed.

(** The loop takes the shortest prefix that reaches the amount. *)
Lemma pick_coins_spec need l : forall total sel, Forall (fun s => coin_ok (si_coin s)) l -> 0 <= total ->
  total + coins_value l <= MAX_MONEY ->
  exists l1 l2 b, l = l1 ++ l2 /\ pick_coins l need total sel = (b, sel ++ l1) /\
    (b = true -> l1 <> [] /\ need <= total + coins_value l1) /\
    (b = false -> l2 = [] /\ (l1 = [] \/ total + coins_value l < need)).
Proof.
  induction l as [|s l IH]; intros total sel Hl H0 Hs.
  { exists [], [], false. cbn [pick_coins]. rewrite (app_nil_r sel). split; [done|]. split; [done|]. split; [done|]. intros _. auto. }
  apply Forall_cons in Hl as [Hc Hl]. pose proof (coins_value_nonneg l Hl) as Hp. pose proof MAX_MONEY_i64.
  change (coins_value (s :: l)) with (coin_value (si_coin s) + coins_value l) in *. unfold coin_ok in Hc.
  cbn [pick_coins]. cbv zeta. unfold i64_add. rewrite i64_id by u_range. rewrite Z.geb_leb.
  destruct (Z.leb_spec need (total + coin_value (si_coin s))) as [Hle|Hgt].
  - exists [s], l, true. split; [done|]. split; [done|]. split; [|done]. intros _. split; [done|].
    change (coins_value [s]) with (coin_value (si_coin s) + 0). lia.
  - destruct (IH (total + coin_value (si_coin s)) (sel ++ [s])) as (l1 & l2 & b & -> & -> & Ht & Hf); [done|lia|lia|].
    exists (s :: l1), l2, b. split; [done|]. split; [by rewrite <- app_assoc|].
    change (coins_value (s :: l1)) with (coin_value (si_coin s) + coins_value l1). split.
    + intros Hb. destruct (Ht Hb). split; [done|lia].
    + intros Hb. destruct (Hf Hb) as [-> [-> | Hlt]]; (split; [done|right]); [|lia].
      rewrite app_nil_r. change (coins_value []) with 0. lia.
Qed.

(** ** Signing *)

(** Two transactions that differ at most in their input scripts. *)
Definition same_skeleton (t1 t2 : CTransaction) : Prop :=
  tx_version t1 = tx_version t2 /\ map clear_script (tx_vin t1) = map clear_script (tx_vin t2) /\
  tx_vout t1 = tx_vout t2 /\ tx_lockTime t1 = tx_lockTime t2.
#[local] Instance same_skeleton_equiv : Equivalence same_skeleton.
Proof.
  split.
  - by intros t.
  - intros t1 t2 (E1 & E2 & E3 & E4). unfold same_skeleton. by rewrite E1, E2, E3, E4.
  - intros t1 t2 t3 (E1 & E2 & E3 & E4) (F1 & F2 & F3 & F4). unfold same_skeleton. by rewrite E1, E2, E3, E4.
Qed.

Lemma skeleton_sighash t1 t2 i s : same_skeleton t1 t2 -> SignatureHash t1 i s = SignatureHash t2 i s.
Proof. intros (E1 & E2 & E3 & E4). unfold SignatureHash. by rewrite E1, E2, E3, E4. Qed.

Lemma skeleton_length t1 t2 : same_skeleton t1 t2 -> length (tx_vin t1) = length (tx_vin t2).
Proof. intros (_ & E & _). apply (f_equal length) in E. by rewrite !length_map in E. Qed.

Lemma skeleton_prevouts t1 t2 : same_skeleton t1 t2 -> map in_prevout (tx_vin t1) = map in_prevout (tx_vin t2).
Proof.
  intros (_ & E & _). apply (f_equal (map in_prevout)) in E. by rewrite !map_map in E.
Qed.

Lemma clear_alter s i vin : map clear_script (alter (set_script s) i vin) = map clear_script vin.
Proof.
  revert i. induction vin as [|x vin IH]; intros [|i]; cbn; [done..|]. f_equal. apply IH.
Qed.

(** The input script of a signature, and that it spends the coin. *)
Definition spend_script (sig pub : bytes) : bytes := sig_script (sig ++ [0x01]) pub.

Lemma SignInput_ok fuel tx i kp spk sig : (i < length (tx_vin tx))%nat -> length (kp_pubkey kp) = 33%nat ->
  (length sig <= 71)%nat ->
  Sign fuel (kp_key kp) (getBytesLE (SignatureHash tx i spk)) = Some (Some sig) ->
  exists tx', SignInput fuel tx i kp spk = Some (Ok tx') /\ same_skeleton tx' tx /\
    tx_vin tx' = alter (set_script (spend_script sig (kp_pubkey kp))) i (tx_vin tx).
Proof.
  intros Hi Hp Hs HS. unfold SignInput. destruct (Nat.leb_spec (length (tx_vin tx)) i); [lia|]. rewrite HS.
  eexists. split; [reflexivity|]. split.
  - split; [done|]. cbn [tx_vin tx_vout tx_lockTime]. split; [apply clear_alter|done].
  - cbn [tx_vin]. unfold spend_script, sig_script. rewrite take_ge by lia. rewrite u8_id by u_range.
    rewrite length_app, Hp. cbn [length]. rewrite <- app_assoc. cbn [app].
    replace (Z.of_nat (length sig) + 1) with (Z.of_nat (length sig + 1)) by lia. done.
Qed.

(** Signing the inputs from [k] on: the skeleton is kept, the inputs before [k]
    are left alone and each of the others gets its script. *)
Lemma sign_inputs_ok fuel tx0 (ws : list (CKeyPair * bytes)) (sigs : list bytes) : forall k tx,
  same_skeleton tx tx0 -> (k + length ws <= length (tx_vin tx0))%nat ->
  (forall j w, ws !! j = Some w -> exists sig, sigs !! j = Some sig /\ (length sig <= 71)%nat /\ length (kp_pubkey w.1) = 33%nat /\
     Sign fuel (kp_key w.1) (getBytesLE (SignatureHash tx0 (k + j) w.2)) = Some (Some sig)) ->
  exists tx', sign_inputs fuel (imap (fun j w => ((k + j)%nat, w)) ws) tx = Some (Ok tx') /\ same_skeleton tx' tx0 /\
    (forall i, (i < k)%nat -> tx_vin tx' !! i = tx_vin tx !! i) /\
    (forall j w sig, ws !! j = Some w -> sigs !! j = Some sig ->
       exists inp, tx_vin tx' !! (k + j)%nat = Some inp /\ in_scriptSig inp = spend_script sig (kp_pubkey w.1)).
Proof.
  revert sigs. induction ws as [|[kp spk] ws IH]; intros sigs k tx Hsk Hlen Hw; [by exists tx|].
  destruct (Hw 0%nat (kp, spk) eq_refl) as (sig & Hsig & Hsl & Hpl & HS). cbn [fst snd] in *.
  destruct sigs as [|sig' sigs]; [done|]. injection Hsig as ->. rewrite Nat.add_0_r in HS.
  cbn [length] in Hlen. pose proof (skeleton_length _ _ Hsk) as Hle.
  rewrite <- (skeleton_sighash _ _ _ _ Hsk) in HS.
  destruct (SignInput_ok fuel tx k kp spk sig) as (tx1 & E1 & Hsk1 & Hv1); [lia|done|done|done|].
  rewrite Hsk in Hsk1. destruct (IH sigs (S k) tx1 Hsk1) as (tx' & E & Hsk' & Hlow & Hhigh); [lia| |].
  { intros j w Hj. destruct (Hw (S j) w Hj) as (sg & ? & ? & ? & ?). exists sg. by rewrite <- Nat.add_succ_comm in *. }
  exists tx'. split.
  { cbn [imap sign_inputs]. rewrite Nat.add_0_r, E1. rewrite <- E. f_equal. apply imap_ext. intros j w _. cbn. f_equal. lia. }
  split; [done|]. split.
  - intros i Hi. rewrite Hlow by lia. rewrite Hv1. apply list_lookup_alter_ne. lia.
  - intros [|j] w sg Hj Hsg.
    + cbn in Hj, Hsg. injection Hj as <-. injection Hsg as <-. rewrite Nat.add_0_r, Hlow by lia. rewrite Hv1, list_lookup_alter_eq.
      destruct (lookup_lt_is_Some_2 (tx_vin tx) k) as [inp Hinp]; [lia|]. rewrite Hinp. by eexists.
    + rewrite <- Nat.add_succ_comm. by apply Hhigh.
Qed.

Lemma spend_script_verifies d h sig : 0 < d < group_order -> length h = 32%nat -> good_signature (scalar_key d) h sig ->
  VerifyScript (spend_script sig (pub_of d)) (BuildP2PKHScript (HASH160 (pub_of d))) (Some h) = Ok tt.
Proof.
  intros Hd Hh (_ & Hl & Hv). destruct (keypair_pub d Hd) as [_ Hp]. apply VerifyScript_p2pkh; [apply length_HASH160|].
  exists (sig ++ [0x01]), (pub_of d), []. split; [|split; [done|apply Hv]].
  apply EvalScript_sig_script; rewrite ?length_app; cbn [length]; lia.
Qed.

(** ** The transaction of a payment *)

Definition payment_tx (selected : list SelectedInput) (amount : Z) (toHash : bytes) (outs : list CTxOut) : CTransaction :=
  {| tx_version := 1; tx_vin := map spend_of selected; tx_vout := pay_to amount toHash :: outs; tx_lockTime := 0 |}.

Lemma payment_prevouts selected amount toHash outs :
  map in_prevout (tx_vin (payment_tx selected amount toHash outs)) = map si_outpoint selected.
Proof. cbn [payment_tx tx_vin]. by rewrite map_map. Qed.

Lemma in_sum_prevouts view tx : in_sum view tx = sumZ (map (fun o => from_option coin_value 0 (view !! o)) (map in_prevout (tx_vin tx))).
Proof. unfold in_sum, in_value. by rewrite map_map. Qed.

Lemma selected_value (view : CCoinsView) selected : (forall s, s ∈ selected -> view !! si_outpoint s = Some (si_coin s)) ->
  sumZ (map (fun o => from_option coin_value 0 (view !! o)) (map si_outpoint selected)) = coins_value selected.
Proof.
  intros H. unfold coins_value. rewrite map_map. f_equal. apply map_ext_in. intros s Hs%list_elem_of_In. by rewrite (H s Hs).
Qed.

Lemma not_coinbase tx : Forall (fun o => isZero (op_hash o) = false) (map in_prevout (tx_vin tx)) -> IsCoinBase tx = false.
Proof.
  unfold IsCoinBase. destruct (tx_vin tx) as [|i [|]]; try done. cbn [map]. intros [-> _]%Forall_cons. done.
Qed.

(** A signed payment is valid, and the pool takes it. *)
Lemma payment_valid view height mk selected amount toHash outs tx fee :
  view_ok view -> supply view <= MAX_MONEY -> (forall o, is_Some (view !! o) -> isZero (op_hash o) = false) ->
  selected <> [] -> Z.of_nat (length selected) <= MAX_TX_COUNT_PER_BLOCK -> NoDup (map si_outpoint selected) ->
  Forall (coin_of view height mk) selected ->
  (length outs <= 1)%nat -> Forall (fun o => money_ok (out_value o)) (pay_to amount toHash :: outs) ->
  100 <= fee -> amount + sumZ (map out_value outs) + fee = coins_value selected ->
  same_skeleton tx (payment_tx selected amount toHash outs) ->
  (forall i s, selected !! i = Some s -> exists inp, tx_vin tx !! i = Some inp /\
     VerifyScript (in_scriptSig inp) (coin_scriptPubKey (si_coin s))
       (Some (getBytesLE (SignatureHash tx i (coin_scriptPubKey (si_coin s))))) = Ok tt) ->
  ValidateTransaction tx view height false = Ok (Some fee) /\
  forall pool, CheckTx pool tx view height = Ok fee <-> Forall (fun s => mapPrevOut pool !! si_outpoint s = None) selected.
Proof.
  intros Hv Hsup Hz Hne Hcnt Hnd Hco Houts Hmoney Hfee Hsum Hsk Hscr.
  pose proof (skeleton_prevouts _ _ Hsk) as Hpre. rewrite payment_prevouts in Hpre.
  pose proof (skeleton_length _ _ Hsk) as Hlen. cbn [payment_tx tx_vin] in Hlen. rewrite length_map in Hlen.
  destruct Hsk as (_ & _ & Hvout & _). cbn [payment_tx tx_vout] in Hvout.
  assert (Hin : forall s, s ∈ selected -> view !! si_outpoint s = Some (si_coin s)).
  { rewrite Forall_forall in Hco. intros s Hs. by destruct (Hco s Hs) as (d & _ & _ & ? & _). }
  assert (Hval : coins_value selected <= supply view) by (by apply coins_value_supply).
  assert (Hinsum : in_sum view tx = coins_value selected) by (rewrite in_sum_prevouts, Hpre; by apply selected_value).
  assert (Hout : out_sum tx = amount + sumZ (map out_value outs)) by (unfold out_sum; by rewrite Hvout).
  assert (Hzero : Forall (fun o => isZero (op_hash o) = false) (map in_prevout (tx_vin tx))).
  { rewrite Hpre. apply Forall_map, Forall_forall. intros s Hs. apply Hz. rewrite (Hin s Hs). by eexists. }
  pose proof (not_coinbase tx Hzero) as Hcb.
  assert (Hvalid : tx_valid tx).
  { unfold tx_valid. rewrite Hcb, Hpre, Hvout, Hlen. rewrite Forall_map in Hzero.
    split; [intros E; apply Hne; apply length_zero_iff_nil; by rewrite <- Hlen, E|]. split; [done|]. split; [done|].
    split; [cbn [length]; unfold MAX_TX_COUNT_PER_BLOCK; lia|]. split; [done|]. split; [done|]. split; [lia|done]. }
  assert (Hchk : CheckTxInputs tx view height = Ok fee).
  { apply CheckTxInputs_spec; [done|done|]. split; [done|]. split; [|lia].
    apply Forall_forall. intros [i inp] Hi. unfold indexed in Hi. apply elem_of_lookup_imap in Hi as (j & inp' & E & Hj).
    injection E as <- <-. destruct (lookup_lt_is_Some_2 selected i) as [s Hs]; [rewrite <- Hlen; by eapply lookup_lt_Some|].
    destruct (Hscr i s Hs) as (inp' & Hinp & Hvs0). rewrite Hj in Hinp. injection Hinp as <-.
    assert (Ho : in_prevout inp = si_outpoint s).
    { pose proof (f_equal (fun l => l !! i) Hpre) as E. cbn beta in E.
      change (map in_prevout (tx_vin tx)) with (in_prevout <$> tx_vin tx) in E.
      change (map si_outpoint selected) with (si_outpoint <$> selected) in E.
      rewrite !list_lookup_fmap, Hj, Hs in E. by injection E. }
    apply list_elem_of_lookup_2 in Hs. rewrite Forall_forall in Hco. destruct (Hco s Hs) as (d & _ & _ & Hvs & _ & Hsp).
    exists (si_coin s). cbn [fst snd]. rewrite Ho. done. }
  apply CheckTransaction_spec in Hvalid as Hct. unfold ValidateTransaction, CheckTx. rewrite Hct, Hchk, Hcb.
  cbn [mbind res_bind andb fail_if]. split; [done|]. intros pool.
  assert (Hno : existsb (fun i => HaveOutpoint pool (in_prevout i)) (tx_vin tx) = false <->
    Forall (fun s => mapPrevOut pool !! si_outpoint s = None) selected).
  { rewrite existsb_false, <- (Forall_map in_prevout (fun o => HaveOutpoint pool o = false)), Hpre, Forall_map.
    apply Forall_iff. intros s. unfold HaveOutpoint. by destruct (mapPrevOut pool !! si_outpoint s). }
  rewrite <- Hno. destruct (existsb _ _); cbn [fail_if mbind res_bind]; [by split|].
  destruct (Z.ltb_spec fee 100); [lia|]. by split.
Qed.

(** ** Change and keys *)

(** The draws of an attempt give a key whose address is new. *)
Definition good_draw (draw : change_draw) : Prop :=
  (forall j b, cd_rand draw j = Some b -> bytes_wf b) /\ length (cd_iv draw) = 12%nat /\
  exists k, GenerateKey (cd_rand draw) = Ok k /\ m !! address_of (ck_priv k) = None.

Lemma compressed_key_scalar k : key_ok k -> ck_compressed k = true -> k = scalar_key (ck_priv k).
Proof. intros [Hv _] Hc. destruct k; cbn in *. unfold scalar_key. by rewrite Hv, Hc. Qed.

Lemma GenerateNewAddress_holds draw now : good_draw draw -> ks_locked ks = false ->
  exists ks' d, GenerateNewAddress versionByte (cd_rand draw) (cd_iv draw) now ks = Done (Ok (keypair_of (scalar_key d) versionByte), ks') /\
    ks_locked ks' = false /\ holds pw ks' (<[address_of d := d]> m) /\ 0 < d < group_order /\ m !! address_of d = None.
Proof.
  intros (Hb & Hiv & k & Hg & Hfresh) Hl. destruct (generate_loop_ok _ _ _ _ Hb Hg) as [Hk Hc].
  pose proof (compressed_key_scalar k Hk Hc) as Ek. destruct Hk as [_ Hr]. rewrite Ek in Hg. set (d := ck_priv k) in *.
  unfold GenerateNewAddress, GenerateKeyPair. rewrite Hg. cbn [mbind res_bind].
  destruct (AddKey_holds pw ks m (keypair_of (scalar_key d) versionByte) (cd_iv draw) now Hholds) as (ks' & Ea & El & _ & Hh); [done|done|].
  rewrite Hl in *. rewrite keypair_address in Hh by done. exists ks', d. unfold mbind, KsM_bind. rewrite Ea. done.
Qed.

Lemma own_keys_insert d : 0 < d < group_order -> own_keys (<[address_of d := d]> m).
Proof.
  intros Hd a d'. destruct (decide (address_of d = a)) as [<-|Hne].
  - rewrite lookup_insert_eq. by intros [= <-].
  - rewrite lookup_insert_ne by done. apply Hown.
Qed.

(** The change output pays a key of the wallet, unless it would be dust. *)
Lemma change_output_holds change draw now : good_draw draw -> ks_locked ks = false ->
  exists ks' m' outs, change_output versionByte change draw now ks = Done (Ok (Some outs), ks') /\
    ks_locked ks' = false /\ holds pw ks' m' /\ own_keys m' /\ m ⊆ m' /\
    ((change < 1000 /\ outs = []) \/
     (1000 <= change /\ exists d, m' !! address_of d = Some d /\ outs = [pay_to change (HASH160 (pub_of d))])).
Proof.
  intros Hd Hl. unfold change_output. rewrite Z.gtb_ltb. destruct (Z.ltb_spec 0 change).
  2: { exists ks, m, []. split; [done|]. split; [done|]. split; [done|]. split; [done|]. split; [done|]. left. split; [lia|done]. }
  destruct (Z.ltb_spec change 1000); [exists ks, m, []; by split_and!; try (left; split; [lia|])|].
  destruct (GenerateNewAddress_holds draw now Hd Hl) as (ks' & d & Eg & Hl' & Hh & Hr & Hfresh).
  exists ks', (<[address_of d := d]> m), [pay_to change (HASH160 (pub_of d))]. unfold mbind, KsM_bind. rewrite Eg, keypair_address by done.
  split.
  { unfold address_of. destruct (HASH160_wf (pub_of d)). by rewrite DecodeAddress_of. }
  split; [done|]. split; [done|]. split; [by apply own_keys_insert|]. split; [by apply insert_subseteq|].
  right. split; [lia|]. exists d. split; [by rewrite lookup_insert_eq|done].
Qed.

Lemma signing_pair_scalar d a : 0 < d < group_order ->
  kp_key (signing_pair (scalar_key d) a) = scalar_key d /\ kp_pubkey (signing_pair (scalar_key d) a) = pub_of d.
Proof.
  intros Hd. unfold signing_pair. cbn [kp_key kp_pubkey]. split; [done|]. by rewrite (proj1 (keypair_pub d Hd)).
Qed.

End WalletFacts.

Lemma signing_pairs_holds {ossl : OpenSSL} {ec : EcKeys ossl} {ecl : EcKeysLaws ec} {cph : Cipher} {cl : CipherLaws cph}
    pw ks m selected :
  holds pw ks m -> ks_locked ks = false -> Forall (fun s => is_Some (m !! si_address s)) selected ->
  signing_pairs selected ks =
    Done (Ok (Ok (map (fun s => signing_pair (scalar_key (default 0 (m !! si_address s))) (si_address s)) selected)), ks).
Proof.
  intros H Hl. induction 1 as [|s selected [d Hd] _ IH]; [done|]. cbn [signing_pairs map]. unfold mbind, KsM_bind in *.
  rewrite (GetKey_holds pw ks m) by done. rewrite Hl, Hd. cbn [fmap option_fmap option_map default]. by rewrite IH.
Qed.

Section Payment.
Context {ossl : OpenSSL} {olaws : OpenSSLLaws ossl} {ec : EcKeys ossl} {ecl : EcKeysLaws ec} {cph : Cipher} {cl : CipherLaws cph}.

Lemma zip_map_map {A B C} (f : A -> B) (g : A -> C) l : zip (map f l) (map g l) = map (fun x => (f x, g x)) l.
Proof. induction l as [|x l IH]; [done|]. cbn. by rewrite IH. Qed.

Lemma length_sighash tx i s : length (getBytesLE (SignatureHash tx i s)) = 32%nat.
Proof. rewrite SignatureHash_bytes. apply length_SHA256d_bytes. Qed.

(** The pair and the script with which input [s] is signed. *)
Definition signing_work (mk : gmap (list ascii) Z) (s : SelectedInput) : CKeyPair * bytes :=
  (signing_pair (scalar_key (default 0 (mk !! si_address s))) (si_address s), coin_scriptPubKey (si_coin s)).
(** Every signature of the unsigned transaction [tx0] comes out. *)
Definition all_sign (fuel : nat) (mk : gmap (list ascii) Z) (selected : list SelectedInput) (tx0 : CTransaction) : Prop :=
  forall i s d, selected !! i = Some s -> mk !! si_address s = Some d -> exists sig,
    Sign fuel (scalar_key d) (getBytesLE (SignatureHash tx0 i (coin_scriptPubKey (si_coin s)))) = Some (Some sig).

Lemma sign_selected fuel view height mk selected amount toHash outs :
  let tx0 := payment_tx selected amount toHash outs in
  Forall (coin_of view height mk) selected -> all_sign fuel mk selected tx0 ->
  exists tx, sign_inputs fuel (imap (fun i w => (i, w)) (map (signing_work mk) selected)) tx0 = Some (Ok tx) /\
    same_skeleton tx tx0 /\
    forall i s, selected !! i = Some s -> exists inp, tx_vin tx !! i = Some inp /\
      VerifyScript (in_scriptSig inp) (coin_scriptPubKey (si_coin s))
        (Some (getBytesLE (SignatureHash tx i (coin_scriptPubKey (si_coin s))))) = Ok tt.
Proof.
  intros tx0 Hco Hall. rewrite Forall_forall in Hco.
  set (h i s := getBytesLE (SignatureHash tx0 i (coin_scriptPubKey (si_coin s)))).
  set (sigs := imap (fun i s => match Sign fuel (scalar_key (default 0 (mk !! si_address s))) (h i s) with
                                | Some (Some g) => g | _ => [] end) selected).
  assert (Hsig : forall i s, selected !! i = Some s -> exists d sig, coin_scriptPubKey (si_coin s) = BuildP2PKHScript (HASH160 (pub_of d)) /\
            0 < d < group_order /\ signing_work mk s = (signing_pair (scalar_key d) (si_address s), coin_scriptPubKey (si_coin s)) /\
            sigs !! i = Some sig /\ Sign fuel (scalar_key d) (h i s) = Some (Some sig) /\ good_signature (scalar_key d) (h i s) sig).
  { intros i s Hs. destruct (Hco s) as (d & Hd & Hr & _ & Hspk & _); [by eapply list_elem_of_lookup_2|].
    destruct (Hall i s d Hs Hd) as [sig HS]. exists d, sig. split; [done|]. split; [done|].
    split; [unfold signing_work; by rewrite Hd|]. split.
    - unfold sigs. rewrite list_lookup_imap, Hs. change (Some (match Sign fuel (scalar_key (default 0 (mk !! si_address s))) (h i s) with
        | Some (Some g) => g | _ => [] end) = Some sig).
      rewrite Hd. change (default 0 (Some d)) with d. unfold h. by rewrite HS.
    - split; [done|]. apply (Sign_good fuel); [done|apply length_sighash|done]. }
  destruct (sign_inputs_ok fuel tx0 (map (signing_work mk) selected) sigs 0 tx0) as (tx & E & Hsk & _ & Hscr).
  - done.
  - unfold tx0. cbn [payment_tx tx_vin]. rewrite !length_map. lia.
  - intros j w Hj. change (map (signing_work mk) selected) with (signing_work mk <$> selected) in Hj.
    rewrite list_lookup_fmap in Hj. destruct (selected !! j) as [s|] eqn:Hs; [|done]. apply (inj Some) in Hj as <-.
    destruct (Hsig j s Hs) as (d & sig & _ & Hr & -> & Hsg & HS & (_ & Hlen & _)). exists sig.
    destruct (signing_pair_scalar d (si_address s) Hr) as [Ek Ep]. cbn [fst snd].
    rewrite Ek, Ep. split; [done|]. split; [lia|]. split; [by apply keypair_pub|done].
  - exists tx. split; [done|]. split; [done|]. intros i s Hs. destruct (Hsig i s Hs) as (d & sig & Hspk & Hr & Hw & Hsg & _ & Hgood).
    destruct (Hscr i (signing_work mk s) sig) as (inp & Hinp & Escr); [|done|].
    { change (map (signing_work mk) selected) with (signing_work mk <$> selected). by rewrite list_lookup_fmap, Hs. }
    exists inp. split; [done|]. rewrite Escr, Hw. cbn [fst]. rewrite (proj2 (signing_pair_scalar d _ Hr)), Hspk.
    apply spend_script_verifies; [done|apply length_sighash|].
    rewrite (skeleton_sighash _ _ _ _ Hsk), <- Hspk. done.
Qed.

Lemma address_nonempty v d : is_u8 v -> address_of v d <> [].
Proof.
  intros Hv E. destruct (HASH160_wf (pub_of d)). pose proof (DecodeAddress_of (HASH160 (pub_of d)) v) as H'.
  unfold address_of in E. rewrite E in H'. by discriminate H'.
Qed.

(** A coin set as the chain keeps it. *)
Definition spendable_view (view : CCoinsView) : Prop :=
  view_ok view /\ supply view <= MAX_MONEY /\ (forall o, is_Some (view !! o) -> isZero (op_hash o) = false).

(** The wallet open under password [pw] with keys [m]. *)
Definition wallet_open (v : Z) (pw : bytes) (ks : CKeystore) (m : gmap (list ascii) Z) : Prop :=
  is_u8 v /\ holds pw ks m /\ own_keys v m /\ ks_locked ks = false.

Lemma wallet_coins_ok v pw ks m view height : wallet_open v pw ks m -> view_ok view ->
  Forall (coin_of view height m) (wallet_coins v ks view height) /\
  Forall (fun s => coin_ok (si_coin s)) (wallet_coins v ks view height) /\
  NoDup (map si_outpoint (wallet_coins v ks view height)) /\ wallet_value v ks view height <= supply view.
Proof.
  intros (Hv & Hh & Ho & _) Hview.
  assert (Hc : Forall (coin_of view height m) (wallet_coins v ks view height)).
  { apply Forall_forall. intros s Hs. by eapply wallet_coins_spec. }
  assert (Hn : NoDup (map si_outpoint (wallet_coins v ks view height))) by by eapply wallet_coins_NoDup.
  split; [done|]. split; [|split; [done|]].
  - eapply Forall_impl; [exact Hc|]. intros s (d & _ & _ & Hs & _). by apply Hview in Hs.
  - apply coins_value_supply; [done|done|]. rewrite Forall_forall in Hc. intros s Hs. by destruct (Hc s Hs) as (d & _ & _ & ? & _).
Qed.

(** Enough funds are found: the coins picked are distinct coins of the wallet. *)
Lemma SelectCoins_enough v pw ks m view height sort need : wallet_open v pw ks m -> spendable_view view ->
  Z.of_nat (length (wallet_coins v ks view height)) <= MAX_TX_COUNT_PER_BLOCK ->
  (forall l, sort l ≡ₚ l) -> 0 < need <= wallet_value v ks view height ->
  exists sel, SelectCoins v sort ks view height need = (true, sel) /\ sel <> [] /\ NoDup (map si_outpoint sel) /\
    Forall (coin_of view height m) sel /\ need <= coins_value sel <= MAX_MONEY /\
    Z.of_nat (length sel) <= MAX_TX_COUNT_PER_BLOCK.
Proof.
  intros Hw (Hview & Hsup & _) Hsize Hsort Hneed.
  destruct (wallet_coins_ok v pw ks m view height Hw Hview) as (Hc & Hok & Hn & Hle). unfold wallet_value in *.
  set (coins := wallet_coins v ks view height) in *.
  assert (Hval : coins_value (sort coins) = coins_value coins) by (unfold coins_value; by rewrite (Hsort coins)).
  rewrite <- (Hsort coins) in Hc, Hok, Hn.
  destruct (pick_coins_spec need (sort coins) 0 [] Hok ltac:(lia) ltac:(lia)) as (l1 & l2 & b & E & Ep & Ht & Hf).
  rewrite E in *. rewrite Forall_app in Hc, Hok. rewrite map_app, NoDup_app in Hn. destruct Hc as [Hc1 _], Hok as [Hok1 Hok2], Hn as [Hn1 _].
  destruct b.
  - exists l1. unfold SelectCoins. fold coins. rewrite E. destruct (Ht eq_refl) as [Hne Hge].
    pose proof (coins_value_nonneg l2 Hok2) as H2. rewrite coins_value_app in Hval.
    split; [done|]. split; [done|]. split; [done|]. split; [done|]. split; [lia|].
    rewrite <- (Hsort coins), E, length_app in Hsize. lia.
  - exfalso. destruct (Hf eq_refl) as [-> [-> | Hlt]]; rewrite ?Hval in *; [cbn in Hval; lia|lia].
Qed.

(** Too few funds are reported as such. *)
Lemma SelectCoins_short v pw ks m view height sort need : wallet_open v pw ks m -> view_ok view -> supply view <= MAX_MONEY ->
  (forall l, sort l ≡ₚ l) -> wallet_value v ks view height < need ->
  (SelectCoins v sort ks view height need).1 = false.
Proof.
  intros Hw Hview Hsup Hsort Hneed.
  destruct (wallet_coins_ok v pw ks m view height Hw Hview) as (_ & Hok & _ & Hle). unfold wallet_value, SelectCoins in *.
  set (coins := wallet_coins v ks view height) in *.
  assert (Hval : coins_value (sort coins) = coins_value coins) by (unfold coins_value; by rewrite (Hsort coins)).
  rewrite <- (Hsort coins) in Hok.
  destruct (pick_coins_spec need (sort coins) 0 [] Hok ltac:(lia) ltac:(lia)) as (l1 & l2 & b & E & -> & Ht & _).
  destruct b; [|done]. destruct (Ht eq_refl) as [_ Hge]. rewrite E, Forall_app in Hok. destruct Hok as [_ Hok].
  pose proof (coins_value_nonneg l2 Hok). rewrite E, coins_value_app in Hval. lia.
Qed.

Lemma coin_of_weaken view height m m' s : m ⊆ m' -> coin_of view height m s -> coin_of view height m' s.
Proof. intros Hm (d & Hd & H). exists d. split; [by eapply lookup_weaken|done]. Qed.

(** The run of a payment whose parts succeed. *)
Lemma CreateTransaction_run v fuel sort view height toAddress tv toHash amount draws now ks sel outs ks' m' tx fee pw :
  ks_locked ks = false -> DecodeAddress toAddress = Some (tv, toHash) -> 0 < amount ->
  SelectCoins v sort ks view height (amount + 530) = (true, sel) -> amount + 530 <= coins_value sel <= MAX_MONEY ->
  change_output v (coins_value sel - (amount + 530)) (draws 0%nat) now ks = Done (Ok (Some outs), ks') ->
  holds pw ks' m' -> ks_locked ks' = false -> Forall (fun s => is_Some (m' !! si_address s)) sel ->
  0 <= sumZ (map out_value outs) -> 0 <= fee -> amount + sumZ (map out_value outs) + fee = coins_value sel ->
  sign_inputs fuel (imap (fun i w => (i, w)) (map (signing_work m') sel)) (payment_tx sel amount toHash outs) = Some (Ok tx) ->
  ValidateTransaction tx view height false = Ok (Some fee) ->
  CreateTransaction v fuel sort view height toAddress amount draws now ks = Done (Ok (Some (Ok (tx, GetTxID tx, fee))), ks').
Proof.
  intros Hl Hto Hamt Esel Hval Eout Hh' Hl' Hkeys Hpos Hfee Hsum Esig Hvt. pose proof MAX_MONEY_i64 as HM.
  unfold CreateTransaction, mbind at 1, KsM_bind, kget. rewrite Hl, Hto. destruct (Z.leb_spec amount 0); [lia|].
  cbn [attempt_loop]. unfold attempt_payment, mbind, KsM_bind, kget.
  change (EstimateFee (if (0 <? 0)%nat then _ else _)) with 530.
  unfold i64_add. rewrite (i64_id (amount + 530)) by u_range. rewrite Esel.
  rewrite i64_sum_eq. fold (coins_value sel). rewrite (i64_id (coins_value sel)) by u_range.
  unfold i64_sub. rewrite (i64_id (coins_value sel - (amount + 530))) by u_range. rewrite Eout.
  fold (payment_tx sel amount toHash outs). cbv zeta.
  assert (Hos : i64_sum (map out_value (tx_vout (payment_tx sel amount toHash outs))) = amount + sumZ (map out_value outs)).
  { rewrite i64_sum_eq. cbn [payment_tx tx_vout map pay_to out_value]. rewrite sumZ_cons. apply i64_id. u_range. }
  rewrite Hos. replace (coins_value sel - (amount + sumZ (map out_value outs))) with fee by lia.
  rewrite (i64_id fee) by u_range. destruct (Z.ltb_spec fee 0); [lia|].
  rewrite (signing_pairs_holds pw ks' m') by done. rewrite zip_map_map. fold (signing_work m'). rewrite Esig.
  rewrite Hvt. done.
Qed.

(** * Properties *)

(** C13: a payment succeeds whenever the wallet can afford it.  An unlocked wallet
    whose keys are filed under their own addresses, with at most 10000 coins it
    can spend, asked to pay a positive amount it holds with the fee of 530
    units: the coins it selects are distinct and its own, the plan pays the
    recipient exactly the amount and the wallet itself the change (none below
    1000 units), leaves a fee of 530 to 1529 units, keeps all its keys and adds
    the change key; and, when the signatures of the plan come out, it returns a
    transaction that differs from the plan in its input scripts only, passes
    validation with exactly that fee, and is accepted by a pool exactly when no
    transaction of the pool spends one of the coins selected: the wallet
    does not look at the pool when it selects them. *)
Theorem payment_succeeds v pw ks m view height toAddress tv toHash amount sort fuel draws now :
  wallet_open v pw ks m -> spendable_view view -> Z.of_nat (length (wallet_coins v ks view height)) <= MAX_TX_COUNT_PER_BLOCK ->
  (forall l, sort l ≡ₚ l) ->
  DecodeAddress toAddress = Some (tv, toHash) -> 0 < amount -> amount + 530 <= wallet_value v ks view height ->
  good_draw v m (draws 0%nat) ->
  exists selected outs ks' m' fee,
    let tx0 := payment_tx selected amount toHash outs in
    SelectCoins v sort ks view height (amount + 530) = (true, selected) /\
    change_output v (coins_value selected - (amount + 530)) (draws 0%nat) now ks = Done (Ok (Some outs), ks') /\
    NoDup (map si_outpoint selected) /\ Forall (coin_of view height m) selected /\
    (outs = [] \/ exists d change, m' !! address_of v d = Some d /\ 1000 <= change /\
       outs = [pay_to change (HASH160 (pub_of d))]) /\
    amount + sumZ (map out_value outs) + fee = coins_value selected /\ 530 <= fee < 1530 /\
    holds pw ks' m' /\ own_keys v m' /\ m ⊆ m' /\
    (all_sign fuel m selected tx0 ->
       exists tx, CreateTransaction v fuel sort view height toAddress amount draws now ks =
           Done (Ok (Some (Ok (tx, GetTxID tx, fee))), ks') /\
         same_skeleton tx tx0 /\ ValidateTransaction tx view height false = Ok (Some fee) /\
         forall pool, CheckTx pool tx view height = Ok fee <->
           Forall (fun s => mapPrevOut pool !! si_outpoint s = None) selected).
Proof.
  intros Hw Hview Hcoins Hsort Hto Hamt Hfunds Hdraw. pose proof MAX_MONEY_i64 as HM.
  destruct Hview as (Hvok & Hsup & Hz). destruct Hw as (Hv & Hh & Ho & Hl).
  assert (Hwo : wallet_open v pw ks m) by done. assert (Hsv : spendable_view view) by done.
  destruct (wallet_coins_ok v pw ks m view height Hwo Hvok) as (_ & _ & _ & Hwv).
  destruct (SelectCoins_enough v pw ks m view height sort (amount + 530) Hwo Hsv Hcoins Hsort ltac:(lia))
    as (sel & Esel & Hne & Hnd & Hco & Hval & Hcnt).
  set (change := coins_value sel - (amount + 530)).
  destruct (change_output_holds v Hv ks pw m Hh Ho change (draws 0%nat) now Hdraw Hl)
    as (ks' & m' & outs & Eout & Hl' & Hh' & Ho' & Hmm & Hcases).
  set (fee := coins_value sel - amount - sumZ (map out_value outs)).
  assert (Houts : (length outs <= 1)%nat /\ Forall (fun o => money_ok (out_value o)) (pay_to amount toHash :: outs) /\
            530 <= fee < 1530 /\ 0 <= sumZ (map out_value outs)).
  { unfold fee, money_ok in *. destruct Hcases as [[Hc ->]|[Hc (d & _ & ->)]].
    - cbn [map length sumZ foldr]. split; [lia|]. split; [|unfold change in *; lia].
      apply Forall_cons. split; [cbn [pay_to out_value]; lia|apply Forall_nil_2].
    - cbn [map length pay_to out_value]. change (sumZ [change]) with (change + 0). unfold change in *.
      split; [lia|]. split; [|lia]. repeat apply Forall_cons_2; try apply Forall_nil_2; cbn [pay_to out_value]; lia. }
  destruct Houts as (Hlen & Hmoney & Hfee & Hpos).
  exists sel, outs, ks', m', fee. cbv zeta. split; [done|]. split; [done|].
  split; [done|]. split; [done|]. split.
  { destruct Hcases as [[_ ->]|[Hc (d & Hd & ->)]]; [by left|right; by exists d, change]. }
  split; [unfold fee; lia|]. split; [done|]. split; [done|]. split; [done|]. split; [done|]. intros Hall.
  assert (Hco' : Forall (coin_of view height m') sel) by (eapply Forall_impl; [exact Hco|]; intros s; by apply coin_of_weaken).
  assert (Hkeys : Forall (fun s => is_Some (m' !! si_address s)) sel).
  { eapply Forall_impl; [exact Hco'|]. intros s (d & -> & _). by eexists. }
  destruct (sign_selected fuel view height m' sel amount toHash outs Hco') as (tx & Esig & Hsk & Hscr).
  { intros i s d Hs Hd. apply (Hall i s d Hs). rewrite Forall_forall in Hco.
    destruct (Hco s) as (d' & Hd' & _); [by eapply list_elem_of_lookup_2|].
    rewrite Hd'. pose proof (lookup_weaken _ _ _ _ Hd' Hmm). congruence. }
  destruct (payment_valid view height m' sel amount toHash outs tx fee) as [Hvt Hpool]; try done; [lia|unfold fee; lia|].
  exists tx. split; [|done].
  apply (CreateTransaction_run v fuel sort view height toAddress tv toHash amount draws now ks sel outs ks' m' tx fee pw); (done || unfold fee; lia).
Qed.

(** A payment the wallet cannot afford, with its fee, is refused as such and
    changes nothing. *)
Theorem payment_refused v pw ks m view height toAddress tv toHash amount sort fuel draws now :
  wallet_open v pw ks m -> view_ok view -> supply view <= MAX_MONEY -> (forall l, sort l ≡ₚ l) ->
  DecodeAddress toAddress = Some (tv, toHash) -> 0 < amount <= MAX_MONEY -> wallet_value v ks view height < amount + 530 ->
  CreateTransaction v fuel sort view height toAddress amount draws now ks =
    Done (Ok (Some (Err (String.append "insufficient funds (need "
      (String.append (String.string_of_list_ascii (FormatValue (amount + 530))) ")")))), ks).
Proof.
  intros Hw Hview Hsup Hsort Hto Hamt Hfunds. pose proof MAX_MONEY_i64.
  pose proof (SelectCoins_short v pw ks m view height sort (amount + 530) Hw Hview Hsup Hsort Hfunds) as Hs.
  destruct Hw as (_ & _ & _ & Hl). unfold CreateTransaction, mbind at 1, KsM_bind, kget. rewrite Hl, Hto.
  destruct (Z.leb_spec amount 0); [lia|]. cbn [attempt_loop]. unfold attempt_payment, mbind, KsM_bind, kget.
  change (EstimateFee (if (0 <? 0)%nat then _ else _)) with 530. unfold i64_add. rewrite (i64_id (amount + 530)) by u_range.
  by destruct (SelectCoins v sort ks view height (amount + 530)) as [[] sel].
Qed.

(** A key exported in WIF, with any version byte, is imported under its address
    of the wallet's network. *)
Theorem wif_import v pw ks m d w iv now : wallet_open v pw ks m -> 0 < d < group_order -> is_u8 w -> length iv = 12%nat ->
  exists ks', ImportWIF v (GetWIF (keypair_of (scalar_key d) v) w) iv now ks = Done (Ok true, ks') /\
    holds pw ks' (<[address_of v d := d]> m).
Proof.
  intros (Hv & Hh & _ & Hl) Hd Hw Hiv. unfold ImportWIF, GetWIF.
  change (kp_key (keypair_of (scalar_key d) v)) with (scalar_key d). destruct (GetPrivKey_wf (scalar_key d)) as [Hlen Hwf].
  rewrite wif_roundtrip by done. rewrite FromPrivKey_GetPrivKey by done. unfold ImportKey.
  rewrite keypair_address, bool_decide_false by (done || by apply address_nonempty).
  destruct (AddKey_holds pw ks m (keypair_of (scalar_key d) v) iv now Hh) as (ks' & E & _ & _ & Hh'); [done|done|].
  rewrite Hl in *. rewrite keypair_address in Hh' by done. by exists ks'.
Qed.

End Payment.

(** ** Backup and restore *)

Section BackupFacts.
Context {ossl : OpenSSL} {olaws : OpenSSLLaws ossl} {ec : EcKeys ossl} {ecl : EcKeysLaws ec} {cph : Cipher} {cl : CipherLaws cph}.

Lemma export_keys_holds pw ks m addrs : holds pw ks m -> ks_locked ks = false -> Forall (fun a => is_Some (m !! a)) addrs ->
  export_keys addrs ks = Done (Ok (map (fun a => (a, GetPrivKey (scalar_key (default 0 (m !! a))))) addrs), ks).
Proof.
  intros H Hl. induction 1 as [|a addrs [d Hd] _ IH]; [done|]. cbn [export_keys map]. unfold mbind, KsM_bind in *.
  rewrite (GetKey_holds pw ks m) by done. rewrite Hl, Hd. cbn [fmap option_fmap option_map]. by rewrite IH.
Qed.

(** The entry holds the private key under the backup key. *)
Definition backs_up (kek : bytes) (ap : list ascii * bytes) (e : BackupEntry) : Prop :=
  be_address e = chars_bytes ap.1 /\ length (be_iv e) = 12%nat /\ length (be_tag e) = 16%nat /\
  length (be_cipher e) = length ap.2 /\ gcm_decrypt kek (be_iv e) (be_tag e) (be_cipher e) = Some ap.2.

Lemma encrypt_entries_ok kek keys ivs : length kek = 32%nat -> (forall i, length (ivs i) = 12%nat) ->
  forall i, exists es, encrypt_entries kek keys ivs i = Ok es /\ Forall2 (backs_up kek) keys es.
Proof.
  intros Hk Hiv. induction keys as [|[a p] keys IH]; intros i; cbn [encrypt_entries]; [by exists []|].
  destruct (gcm_encrypt_ok kek (ivs i) p Hk (Hiv i)) as (c & t & -> & Hc & Ht & Hd).
  destruct (IH (S i)) as (es & -> & Hes). cbn [mbind res_bind]. eexists. split; [done|]. constructor; [|done]. split; [done|]. cbn [be_iv be_tag be_cipher snd]. auto.
Qed.

Lemma reads_backup_entry e : short (be_address e) -> short (be_cipher e) -> short (be_iv e) -> short (be_tag e) ->
  reads ReadBackupEntry (SerializeBackupEntry e) e.
Proof.
  intros Ha Hc Hi Ht. unfold ReadBackupEntry, SerializeBackupEntry.
  eapply reads_bind; [by apply reads_varstr|]. eapply reads_bind; [by apply reads_varstr|].
  eapply reads_bind; [by apply reads_varstr|]. eapply reads_bind_ret; [by apply reads_varstr|]. by destruct e.
Qed.

(** What restoring the entries of the keys [l] adds to the map: the keys whose
    address is the default network's. *)
Definition restored (m : gmap (list ascii) Z) (ad : list ascii * Z) : gmap (list ascii) Z :=
  if bool_decide (address_of wallet_default_version ad.2 = ad.1) then <[ad.1 := ad.2]> m else m.

Lemma default_version_u8 : is_u8 wallet_default_version.
Proof. done. Qed.

Lemma scalar_pair d v : 0 < d < group_order -> FromPrivKey (GetPrivKey (scalar_key d)) v = keypair_of (scalar_key d) v.
Proof. intros. by apply FromPrivKey_GetPrivKey. Qed.

Definition good_restore_draw (draw : restore_draw) : Prop :=
  length (rd_salt draw) = 16%nat /\ forall i, length (rd_ivs draw i) = 12%nat.

Lemma restore_entry_holds kek pw draw i a d e ks m : good_restore_draw draw -> 0 < d < group_order ->
  backs_up kek (a, GetPrivKey (scalar_key d)) e -> holds pw ks m ->
  exists ks', restore_entry kek pw draw i e ks = Done (Ok None, ks') /\ holds pw ks' (restored m (a, d)).
Proof.
  intros [Hsalt Hivs] Hd (Ha & Hi & Ht & _ & Hdec) Hh. unfold restore_entry, mbind, KsM_bind, ktry, AesDecrypt.
  cbn [fst snd] in *. rewrite Hi, Ht. cbn [Nat.ltb Nat.leb orb]. rewrite !take_ge by lia. rewrite Hdec.
  cbn [mret KsM_ret]. rewrite (proj1 (GetPrivKey_wf (scalar_key d))). cbn [Nat.eqb negb].
  rewrite scalar_pair, keypair_address by done. rewrite Ha, string_chars_bytes.
  change (kp_IsValid (keypair_of (scalar_key d) wallet_default_version)) with true. cbn [andb]. unfold restored. cbn [fst snd].
  case_bool_decide as E; [|by exists ks].
  destruct (Unlock_holds pw pw ks m (rd_salt draw) Hh (or_intror eq_refl) Hsalt) as (ks1 & -> & Hl1 & Hh1). cbn [negb mret KsM_ret].
  unfold ImportKey. rewrite keypair_address, bool_decide_false by (done || by apply address_nonempty, default_version_u8).
  destruct (AddKey_holds pw ks1 m (keypair_of (scalar_key d) wallet_default_version) (rd_ivs draw i) (rd_now draw) Hh1)
    as (ks2 & -> & _ & _ & Hh2); [done|apply Hivs|].
  rewrite Hl1 in Hh2. rewrite keypair_address, E in Hh2 by done. by exists ks2.
Qed.

Lemma restore_loop_holds kek pw draw p : good_restore_draw draw -> forall l es i pos ks m rest,
  Forall (fun ad => 0 < ad.2 < group_order /\ Z.of_nat (length ad.1) < 2 ^ 64) l ->
  Forall2 (fun ad e => backs_up kek (ad.1, GetPrivKey (scalar_key ad.2)) e) l es ->
  standing p pos (flat_map SerializeBackupEntry es ++ rest) -> holds pw ks m ->
  exists ks', restore_loop (length es) kek pw draw i {| d_p := p; d_pos := pos |} ks = Done (Ok None, ks') /\
    holds pw ks' (foldl restored m l).
Proof.
  intros Hdraw l. induction l as [|[a d] l IH]; intros es i pos ks m rest Hl Hes Hst Hh; inversion Hes as [|? e ? es' He Hes']; subst.
  { by exists ks. }
  apply Forall_cons in Hl as [[Hd Hla] Hl]. cbn [fst snd] in *. destruct He as (Ha & Hi & Ht & Hc & Hdec).
  cbn [snd] in Hc. rewrite (proj1 (GetPrivKey_wf _)) in Hc.
  cbn [flat_map length restore_loop] in *. rewrite <- app_assoc in Hst.
  assert (Hr : reads ReadBackupEntry (SerializeBackupEntry e) e).
  { apply reads_backup_entry; unfold short; rewrite ?Ha, ?Hi, ?Ht, ?Hc; unfold chars_bytes; cbn [fst]; rewrite ?length_map; done. }
  destruct (standing_read _ _ _ _ _ _ Hr Hst) as [-> Hst'].
  destruct (restore_entry_holds kek pw draw i a d e ks m Hdraw Hd) as (ks1 & E1 & Hh1); [|done|].
  { split; [done|]. split; [done|]. split; [done|]. split; [|done]. cbn [snd]. by rewrite (proj1 (GetPrivKey_wf _)). }
  unfold mbind, KsM_bind. rewrite E1. cbn [foldl]. by apply (IH es' (S i) _ ks1 _ rest).
Qed.

Lemma restored_all l : forall m, Forall (fun ad => address_of wallet_default_version ad.2 = ad.1) l ->
  foldl restored m l = add_all m (map (fun ad => (ad.1, scalar_key ad.2)) l).
Proof.
  induction l as [|[a d] l IH]; intros m Hl; [done|]. apply Forall_cons in Hl as [Ha Hl]. cbn [foldl map fst snd].
  unfold restored at 2. rewrite bool_decide_true by done. by apply IH.
Qed.

Lemma restored_none l : forall m, Forall (fun ad => address_of wallet_default_version ad.2 <> ad.1) l -> foldl restored m l = m.
Proof.
  induction l as [|[a d] l IH]; intros m Hl; [done|]. apply Forall_cons in Hl as [Ha Hl]. cbn [foldl].
  unfold restored at 2. rewrite bool_decide_false by done. by apply IH.
Qed.

Lemma address_version v v' d : is_u8 v -> is_u8 v' -> address_of v d = address_of v' d -> v = v'.
Proof.
  intros Hv Hv' E. destruct (HASH160_wf (pub_of d)). unfold address_of in E.
  pose proof (DecodeAddress_of (HASH160 (pub_of d)) v) as H1. rewrite E, DecodeAddress_of in H1 by done.
  specialize (H1 ltac:(done) ltac:(done) Hv). apply (f_equal (fun o => default 0 (fst <$> o))) in H1. symmetry. exact H1.
Qed.

(** What restoring a whole wallet gives. *)
Lemma restored_wallet v m addrs : is_u8 v -> own_keys v m -> (forall a, a ∈ addrs <-> is_Some (m !! a)) ->
  foldl restored ∅ (map (fun a => (a, default 0 (m !! a))) addrs) = if v =? wallet_default_version then m else ∅.
Proof.
  intros Hv Ho Ha.
  assert (Hl : Forall (fun ad : list ascii * Z => address_of v ad.2 = ad.1) (map (fun a => (a, default 0 (m !! a))) addrs)).
  { apply Forall_map, Forall_forall. intros a Hin. apply Ha in Hin as [d Hd]. cbn [fst snd]. rewrite Hd. by destruct (Ho a d Hd). }
  destruct (Z.eqb_spec v wallet_default_version) as [->|Hne].
  - rewrite restored_all by done. rewrite map_map. cbn [fst snd]. etransitivity; [|apply (add_all_again m addrs Ha)]. f_equal.
    rewrite <- (map_id addrs) at 2. by rewrite zip_map_map.
  - apply restored_none. eapply Forall_impl; [exact Hl|]. intros [a d] <- E. cbn [fst snd] in E.
    by apply address_version in E.
Qed.

(** Restoring a file of the entries of [l]. *)
Lemma Restore_file kek bpw draw l es salt : good_restore_draw draw -> PBKDF2 bpw salt = Some kek -> length salt = 16%nat ->
  (length es <= Z.to_nat 1000000)%nat -> Forall (fun ad => 0 < ad.2 < group_order /\ Z.of_nat (length ad.1) < 2 ^ 64) l ->
  Forall2 (fun ad e => backs_up kek (ad.1, GetPrivKey (scalar_key ad.2)) e) l es ->
  exists ks', Restore (backup_file salt es) bpw draw new_keystore = Done (Ok None, Lock ks') /\ holds bpw ks' (foldl restored ∅ l).
Proof.
  intros Hdraw Hkek Hsalt Hlen Hgood Hes'. set (file := backup_file salt es).
  assert (HS : standing file 0 (file ++ [])) by (split; [lia|by rewrite app_nil_r]).
  unfold file in HS at 2. unfold backup_file in HS. rewrite <- !app_assoc in HS.
  destruct (standing_read _ _ _ _ _ _ (reads_bytes 4 BACKUP_MAGIC eq_refl) HS) as [E1 S1].
  destruct (standing_read _ _ _ _ _ _ (reads_u8 1) S1) as [E2 S2].
  destruct (standing_read _ _ _ _ _ _ (reads_varstr salt ltac:(by rewrite Hsalt)) S2) as [E3 S3].
  assert (H64 : is_u64 (Z.of_nat (length es))) by (unfold is_u64; lia).
  destruct (standing_read _ _ _ _ _ _ (reads_varint _ H64) S3) as [E4 S4].
  destruct (restore_loop_holds kek bpw draw file Hdraw l es 0 _ new_keystore ∅ [] Hgood Hes' S4 (new_keystore_holds bpw))
    as (ks' & Er & Hh').
  exists ks'. split; [|done].
  unfold Restore. rewrite E1, bool_decide_true by done. cbn [negb]. rewrite E2. change (negb (1 =? 1)) with false. cbv iota.
  rewrite E3, E4. destruct (Z.gtb_spec (Z.of_nat (length es)) 1000000); [lia|]. rewrite Hkek, Nat2Z.id.
  unfold mbind, KsM_bind. rewrite Er. done.
Qed.

Lemma backup_restores v pw ks m bpw salt ivs draw :
  wallet_open v pw ks m -> (size m <= Z.to_nat 1000000)%nat -> (forall a, is_Some (m !! a) -> Z.of_nat (length a) < 2 ^ 64) ->
  length salt = 16%nat -> (forall i, length (ivs i) = 12%nat) -> good_restore_draw draw ->
  exists file ks', Backup bpw salt ivs ks = Done (Ok file, ks) /\
    Restore file bpw draw new_keystore = Done (Ok None, ks') /\ ks_locked ks' = true /\
    holds bpw ks' (if v =? wallet_default_version then m else ∅).
Proof.
  intros (Hv & Hh & Ho & Hl) Hsz Hshort Hsalt Hivs Hdraw.
  assert (Hdom : forall a, a ∈ GetAddresses ks <-> is_Some (m !! a)) by (intros a; by apply (addresses_own ks pw)).
  set (l := map (fun a => (a, default 0 (m !! a))) (GetAddresses ks)).
  destruct (PBKDF2_ok bpw salt) as (kek & Hkek & Hklen).
  destruct (encrypt_entries_ok kek (map (fun a => (a, GetPrivKey (scalar_key (default 0 (m !! a))))) (GetAddresses ks)) ivs Hklen Hivs 0)
    as (es & Ees & Hes).
  assert (Hes' : Forall2 (fun ad e => backs_up kek (ad.1, GetPrivKey (scalar_key ad.2)) e) l es).
  { apply Forall2_fmap_l. exact (proj1 (Forall2_fmap_l _ _ (GetAddresses ks) es) Hes). }
  assert (Hlen : (length es <= Z.to_nat 1000000)%nat).
  { rewrite <- (Forall2_length _ _ _ Hes), length_map. etransitivity; [|exact Hsz].
    rewrite <- (length_map_to_list m), <- (length_fmap fst). apply submseteq_length, NoDup_submseteq.
    - unfold GetAddresses. change (NoDup ((sorted_keys (ks_keys ks)).*1)). rewrite sorted_keys_perm. apply NoDup_fst_map_to_list.
    - intros a [d Hd]%Hdom. apply list_elem_of_fmap. exists (a, d). split; [done|]. by apply elem_of_map_to_list. }
  assert (Hgood : Forall (fun ad => 0 < ad.2 < group_order /\ Z.of_nat (length ad.1) < 2 ^ 64) l).
  { apply Forall_map, Forall_forall. intros a Ha. apply Hdom in Ha as Hs. destruct Hs as [d Hd]. cbn [fst snd]. rewrite Hd.
    split; [by apply (Ho a d Hd)|]. apply Hshort. by eexists. }
  destruct (Restore_file kek bpw draw l es salt Hdraw Hkek Hsalt Hlen Hgood Hes') as (ks' & Er & Hh').
  exists (backup_file salt es), (Lock ks'). split.
  { unfold Backup, mbind, KsM_bind, kget. rewrite (export_keys_holds pw ks m) by (done || by apply Forall_forall; intros a; apply Hdom).
    by rewrite Hkek, Ees. }
  split; [exact Er|split; [done|]]. apply Lock_holds. unfold l in Hh'. by rewrite (restored_wallet v) in Hh'.
Qed.

(** A locked store gives no key out: its backup has no entry. *)
Lemma export_keys_locked ks addrs : ks_locked ks = true -> export_keys addrs ks = Done (Ok [], ks).
Proof.
  intros Hl. induction addrs as [|a addrs IH]; [done|]. cbn [export_keys]. unfold mbind, KsM_bind in *.
  unfold GetKey, mbind, KsM_bind, kget. rewrite Hl. unfold mret, KsM_ret in *. by rewrite IH.
Qed.
Lemma locked_backup_restores ks bpw salt ivs draw :
  ks_locked ks = true -> length salt = 16%nat -> good_restore_draw draw ->
  exists file ks', Backup bpw salt ivs ks = Done (Ok file, ks) /\
    Restore file bpw draw new_keystore = Done (Ok None, ks') /\ ks_locked ks' = true /\ holds bpw ks' ∅.
Proof.
  intros Hl Hsalt Hdraw. destruct (PBKDF2_ok bpw salt) as (kek & Hkek & _).
  destruct (Restore_file kek bpw draw [] [] salt Hdraw Hkek Hsalt) as (ks' & Er & Hh); [cbn; lia|done|done|].
  exists (backup_file salt []), (Lock ks'). split.
  { unfold Backup, mbind, KsM_bind, kget. by rewrite export_keys_locked, Hkek. }
  split; [exact Er|split; [done|]]. by apply Lock_holds.
Qed.

(** C33: backup and restore, open or locked.  A wallet whose keys are filed under
    their own addresses: the backup is made without an error, leaves the
    wallet as it is and restores without an error, under the backup
    password, to a locked wallet.  The keys restored are exactly the wallet's
    when it was open and is the default network's.  A locked wallet gives
    none of its keys to the backup, and the keys of another network are
    dropped when the backup is restored: both restore to no keys at all. *)
Theorem backup_restore v pw ks m bpw salt ivs draw :
  is_u8 v -> holds pw ks m -> own_keys v m ->
  (size m <= Z.to_nat 1000000)%nat -> (forall a, is_Some (m !! a) -> Z.of_nat (length a) < 2 ^ 64) ->
  length salt = 16%nat -> (forall i, length (ivs i) = 12%nat) -> good_restore_draw draw ->
  exists file ks', Backup bpw salt ivs ks = Done (Ok file, ks) /\
    Restore file bpw draw new_keystore = Done (Ok None, ks') /\ ks_locked ks' = true /\
    holds bpw ks' (if negb (ks_locked ks) && (v =? wallet_default_version) then m else ∅).
Proof.
  intros Hv Hh Ho Hsz Hshort Hsalt Hivs Hdraw. destruct (ks_locked ks) eqn:Hl.
  - by apply locked_backup_restores.
  - by apply (backup_restores v pw).
Qed.

Lemma own_keys_singleton v d : 0 < d < group_order -> own_keys v {[address_of v d := d]}.
Proof.
  intros Hd a d' Ha. rewrite lookup_singleton_Some in Ha. by destruct Ha as [<- <-].
Qed.

End BackupFacts.

(** ** Concrete instances: a wallet with one key and one coin *)

Section WalletWitnesses.
#[local] Existing Instance mini_ossl.
#[local] Existing Instance mini_ec.
#[local] Existing Instance toy_cipher.

Definition wit_wallet_keys : gmap (list ascii) Z := {[kp_address (wit_kp 42) := 42]}.
Definition wit_coin_view : CCoinsView := {[ {| op_hash := setBytesLE (1 :: repeat 0 31); op_n := 0 |} :=
  {| coin_value := 5000; coin_scriptPubKey := BuildP2PKHScript (HASH160 (pub_of 42)); coin_height := 1; coin_isCoinbase := false |} ]}.
Definition wit_draws (i : nat) : change_draw := {| cd_rand := fun _ => Some (repeat 0 31 ++ [77]); cd_iv := wit_iv |}.
Definition wit_to : list ascii := kp_address (wit_kp 55).

Lemma wit_wallet_open : wallet_open wallet_default_version [1] wit_store wit_wallet_keys.
Proof.
  split; [done|]. split; [exact wit_store_holds|]. split; [|vm_compute; reflexivity].
  assert (H42 : 0 < 42 < group_order) by (split; reflexivity).
  unfold wit_wallet_keys, wit_kp. change 0x1E with wallet_default_version. rewrite keypair_address by exact H42.
  by apply own_keys_singleton.
Qed.

Lemma wit_spendable_view : spendable_view wit_coin_view.
Proof.
  split; [apply map_Forall_singleton; vm_compute; split; discriminate|]. split; [vm_compute; discriminate|].
  intros o [c Hc]. unfold wit_coin_view in Hc. rewrite lookup_singleton_Some in Hc. destruct Hc as [<- _]. reflexivity.
Qed.

Lemma wit_good_draw : good_draw wallet_default_version wit_wallet_keys (wit_draws 0).
Proof.
  split; [|split; [reflexivity|]].
  - intros j b [= <-]. repeat (apply Forall_cons_2; [u_range|]). apply Forall_nil_2.
  - exists (scalar_key 77). split; vm_compute; reflexivity.
Qed.

Lemma payment_succeeds_witness :
  exists tx fee ks' m', CreateTransaction wallet_default_version 9 (fun l => l) wit_coin_view 10 wit_to 2000 wit_draws 7 wit_store =
      Done (Ok (Some (Ok (tx, GetTxID tx, fee))), ks') /\ 530 <= fee < 1530 /\
    ValidateTransaction tx wit_coin_view 10 false = Ok (Some fee) /\ CheckTx Clear tx wit_coin_view 10 = Ok fee /\
    holds [1] ks' m' /\ wit_wallet_keys ⊆ m'.
Proof.
  destruct (DecodeAddress wit_to) as [[tv toHash]|] eqn:Hto; [|vm_compute in Hto; discriminate].
  destruct (payment_succeeds wallet_default_version [1] wit_store wit_wallet_keys wit_coin_view 10 wit_to tv toHash 2000 (fun l => l) 9
    wit_draws 7 wit_wallet_open wit_spendable_view ltac:(vm_compute; discriminate) (fun l => reflexivity l) Hto eq_refl)
    as (sel & outs & ks' & m' & fee & H).
  - vm_compute. discriminate.
  - exact wit_good_draw.
  - cbv zeta in H. destruct H as (Es & Ec & _ & _ & _ & _ & Hf & Hh & _ & Hm & Hsign).
    vm_compute in Es. injection Es as <-. vm_compute in Ec. injection Ec as <- _. vm_compute in Hto. injection Hto as _ <-.
    destruct Hsign as (tx & E & _ & Hv & Hpool).
    + intros i s d Hs Hd. destruct i; [|discriminate Hs]. injection Hs as <-. vm_compute in Hd. injection Hd as <-.
      eexists. vm_compute. reflexivity.
    + exists tx, fee, ks', m'. split; [exact E|]. split; [exact Hf|]. split; [exact Hv|]. split; [|split; [exact Hh|exact Hm]].
      apply Hpool. repeat (apply Forall_cons_2; [reflexivity|]). apply Forall_nil_2.
Defined.

(** The same payment evaluated: it returns, with change to a new key. *)
Lemma payment_example :
  match CreateTransaction wallet_default_version 9 (fun l => l) wit_coin_view 10 wit_to 2000 wit_draws 7 wit_store with
  | Done (Ok (Some (Ok (tx, _, fee))), ks) =>
      fee = 530 /\ map out_value (tx_vout tx) = [2000; 2470] /\ size (ks_keys ks) = 2%nat
  | _ => False
  end.
Proof. vm_compute. auto. Qed.

Lemma payment_refused_witness :
  exists e, CreateTransaction wallet_default_version 9 (fun l => l) wit_coin_view 10 wit_to 4471 wit_draws 7 wit_store = Done (Ok (Some (Err e)), wit_store).
Proof.
  destruct (DecodeAddress wit_to) as [[tv toHash]|] eqn:Hto; [|vm_compute in Hto; discriminate].
  eexists. apply (payment_refused wallet_default_version [1] wit_store wit_wallet_keys wit_coin_view 10 wit_to tv toHash 4471 (fun l => l) 9
    wit_draws 7 wit_wallet_open (proj1 wit_spendable_view) (proj1 (proj2 wit_spendable_view)) (fun l => reflexivity l) Hto).
  - split; [reflexivity|vm_compute; discriminate].
  - vm_compute. reflexivity.
Defined.

Definition wit_restore : restore_draw := {| rd_salt := wit_salt; rd_ivs := fun _ => wit_iv; rd_now := 8 |}.

(** The wallet open, and the same wallet locked. *)
Lemma backup_restore_witness :
  (exists file ks', Backup [5] wit_salt (fun _ => wit_iv) wit_store = Done (Ok file, wit_store) /\
    Restore file [5] wit_restore new_keystore = Done (Ok None, ks') /\ holds [5] ks' wit_wallet_keys) /\
  (exists file ks', Backup [5] wit_salt (fun _ => wit_iv) (Lock wit_store) = Done (Ok file, Lock wit_store) /\
    Restore file [5] wit_restore new_keystore = Done (Ok None, ks') /\ holds [5] ks' ∅).
Proof.
  assert (forall a, is_Some (wit_wallet_keys !! a) -> Z.of_nat (length a) < 2 ^ 64) as Ha.
  { intros a Ha. destruct (decide (a = kp_address (wit_kp 42))) as [->|Hne]; [vm_compute; reflexivity|].
    exfalso. destruct Ha as [d Ha]. unfold wit_wallet_keys in Ha. rewrite lookup_singleton_ne in Ha by congruence. discriminate. }
  assert (size wit_wallet_keys <= Z.to_nat 1000000)%nat as Hsz by (unfold wit_wallet_keys; rewrite map_size_singleton; lia).
  assert (good_restore_draw wit_restore) as Hd by (split; [reflexivity|]; intros i; reflexivity).
  destruct wit_wallet_open as (Hv & Hh & Ho & Hl). split.
  - destruct (backup_restore wallet_default_version [1] wit_store wit_wallet_keys [5] wit_salt (fun _ => wit_iv) wit_restore
      Hv Hh Ho Hsz Ha eq_refl (fun _ => eq_refl) Hd) as (file & ks' & Eb & Er & _ & H).
    exists file, ks'. split; [exact Eb|]. split; [exact Er|]. rewrite Hl in H. exact H.
  - destruct (backup_restore wallet_default_version [1] (Lock wit_store) wit_wallet_keys [5] wit_salt (fun _ => wit_iv) wit_restore
      Hv (Lock_holds _ _ _ Hh) Ho Hsz Ha eq_refl (fun _ => eq_refl) Hd) as (file & ks' & Eb & Er & _ & H).
    exists file, ks'. split; [exact Eb|]. split; [exact Er|exact H].
Defined.
End WalletWitnesses.
