(* ===== verification/Daemon.v ===== *)
(** [bin/cdxd.cpp]: the command line, the ports and the mining thread of the
    node.  The message handlers are in [Handlers]. *)
From Stdlib Require Import Ascii.
From S2P Require Import Prelude Config UInt256 Compact Consensus Crypto Transaction Encoding Script Utxo Block Validation Mempool Chain Mining Protocol Net Handlers.
Import uint256 Rewards Rules Difficulty.
Open Scope cdx_scope.

(** * Options *)

Record NodeOptions := {
  o_network : string; o_dataDir : string; o_rpcUser : string; o_rpcPassword : string; o_port : Z; o_rpcPort : Z;
  o_disableMining : bool; o_connect : list string; o_addnode : list string; o_mongoUri : string; o_mongoEnabled : bool;
  o_externalAddr : string; o_walletPassword : string; o_generate : bool; o_generateBlocks : Z; o_miningAddress : string;
  o_rescan : bool; o_createWallet : bool }.
Definition default_options : NodeOptions := {|
  o_network := "mainnet"; o_dataDir := "data"; o_rpcUser := "cdx"; o_rpcPassword := "cdx"; o_port := 0; o_rpcPort := 0;
  o_disableMining := true; o_connect := []; o_addnode := []; o_mongoUri := ""; o_mongoEnabled := true;
  o_externalAddr := ""; o_walletPassword := "cdx"; o_generate := false; o_generateBlocks := 0; o_miningAddress := "";
  o_rescan := false; o_createWallet := false |}.

Definition is_space (c : ascii) : bool := let n := ascii_Z c in (n =? 32) || ((9 <=? n) && (n <=? 13)).
Definition is_digit (c : ascii) : bool := let n := ascii_Z c in (48 <=? n) && (n <=? 57).
Fixpoint skip_spaces (s : list ascii) : list ascii :=
  match s with c :: r => if is_space c then skip_spaces r else s | [] => [] end.
Fixpoint read_digits (s : list ascii) (acc : Z) : Z :=
  match s with c :: r => if is_digit c then read_digits r (acc * 10 + (ascii_Z c - 48)) else acc | [] => acc end.
(** [strtol]: optional spaces and sign, then digits; saturates. *)
Definition strtol (s : string) : Z :=
  let l := skip_spaces (String.list_ascii_of_string s) in
  let v := match l with
           | "-"%char :: r => - read_digits r 0
           | "+"%char :: r => read_digits r 0
           | r => read_digits r 0
           end in
  Z.max (- 2 ^ 63) (Z.min v (2 ^ 63 - 1)).
(** [atoi] is [(int)strtol] and [atoll] is [strtol] in the C library the node
    is built with. *)
Definition atoi (s : string) : Z := i32 (strtol s).
Definition atoll (s : string) : Z := strtol s.

(** [val(key)] *)
Definition arg_val (a key : string) : string :=
  let pref := String.append "-" (String.append key "=") in
  if String.prefix pref a then String.substring (String.length pref) (String.length a - String.length pref) a else "".

(** The assignments of [ParseArgs] to the members of [o]. *)
Inductive assign :=
| ANetwork (v : string) | ADataDir (v : string) | ARpcUser (v : string) | ARpcPassword (v : string)
| APort (v : Z) | ARpcPort (v : Z) | AConnect (v : string) | AAddnode (v : string) | AMongoUri (v : string) | ANoMongo
| AExternalAddr (v : string) | AWalletPassword (v : string) | AMiningAddress (v : string)
| AGenerateBlocks (n : Z) | AGenerate | ACreateWallet | ARescan | ADisableMining (v : bool).
Definition apply_assign (o : NodeOptions) (a : assign) : NodeOptions := {|
  o_network := match a with ANetwork v => v | _ => o_network o end;
  o_dataDir := match a with ADataDir v => v | _ => o_dataDir o end;
  o_rpcUser := match a with ARpcUser v => v | _ => o_rpcUser o end;
  o_rpcPassword := match a with ARpcPassword v => v | _ => o_rpcPassword o end;
  o_port := match a with APort v => v | _ => o_port o end;
  o_rpcPort := match a with ARpcPort v => v | _ => o_rpcPort o end;
  o_disableMining := match a with ADisableMining v => v | _ => o_disableMining o end;
  o_connect := match a with AConnect v => o_connect o ++ [v] | _ => o_connect o end;
  o_addnode := match a with AAddnode v => o_addnode o ++ [v] | _ => o_addnode o end;
  o_mongoUri := match a with AMongoUri v => v | _ => o_mongoUri o end;
  o_mongoEnabled := match a with ANoMongo => false | _ => o_mongoEnabled o end;
  o_externalAddr := match a with AExternalAddr v => v | _ => o_externalAddr o end;
  o_walletPassword := match a with AWalletPassword v => v | _ => o_walletPassword o end;
  o_generate := match a with AGenerateBlocks _ | AGenerate => true | _ => o_generate o end;
  o_generateBlocks := match a with AGenerateBlocks n => n | _ => o_generateBlocks o end;
  o_miningAddress := match a with AMiningAddress v => v | _ => o_miningAddress o end;
  o_rescan := match a with ARescan => true | _ => o_rescan o end;
  o_createWallet := match a with ACreateWallet => true | _ => o_createWallet o end |}.

(** What one argument does: an assignment, [mining = true], or [exit]. *)
Inductive action :=
| Act (x : option assign) (mining : bool)
| Exit (code : Z).

Definition with_val (a key : string) (f : string -> action) (rest : action) : action :=
  if negb (bool_decide (arg_val a key = "")) then f (arg_val a key) else rest.
Definition flag (a name : string) (x rest : action) : action := if bool_decide (a = name) then x else rest.

Definition arg_action (a : string) : action :=
  flag a "-h" (Exit 0) (flag a "-help" (Exit 0) (flag a "--help" (Exit 0) (
  with_val a "network" (fun v => Act (Some (ANetwork v)) false) (
  with_val a "datadir" (fun v => Act (Some (ADataDir v)) false) (
  with_val a "rpcuser" (fun v => Act (Some (ARpcUser v)) false) (
  with_val a "rpcpassword" (fun v => Act (Some (ARpcPassword v)) false) (
  with_val a "port" (fun v => Act (Some (APort (u16 (atoi v)))) false) (
  with_val a "rpcport" (fun v => Act (Some (ARpcPort (u16 (atoi v)))) false) (
  with_val a "connect" (fun v => Act (Some (AConnect v)) false) (
  with_val a "addnode" (fun v => Act (Some (AAddnode v)) false) (
  with_val a "mongo" (fun v => Act (Some (AMongoUri v)) false) (
  flag a "-nomongo" (Act (Some ANoMongo) false) (
  with_val a "externaladdr" (fun v => Act (Some (AExternalAddr v)) false) (
  with_val a "walletpassword" (fun v => Act (Some (AWalletPassword v)) false) (
  with_val a "miningaddress" (fun v => Act (Some (AMiningAddress v)) true) (
  with_val a "generate" (fun v => Act (Some (AGenerateBlocks (atoll v))) true) (
  flag a "-mining" (Act None true) (
  flag a "-generate" (Act (Some AGenerate) true) (
  flag a "-createwallet" (Act (Some ACreateWallet) false) (
  flag a "-rescan" (Act (Some ARescan) false) (
  flag a "-dnsseed=0" (Act None false) (
  Exit 1)))))))))))))))))))))).

(** The loop over the arguments; [inl] is the exit code of the program. *)
Fixpoint parse_loop (args : list string) (o : NodeOptions) (mining : bool) : Z + (NodeOptions * bool) :=
  match args with
  | [] => inr (o, mining)
  | a :: r =>
      match arg_action a with
      | Exit code => inl code
      | Act x m => parse_loop r (match x with Some x => apply_assign o x | None => o end) (mining || m)
      end
  end.
Definition ParseArgs (args : list string) : Z + NodeOptions :=
  match parse_loop args default_options false with
  | inl code => inl code
  | inr (o, mining) => inr (apply_assign o (ADisableMining (negb mining)))
  end.

(** The parameters [main] runs with: the ports of the command line, and an RPC
    port next to a given P2P port. *)
Definition main_ports (o : NodeOptions) (p : ChainParams) : Z * Z :=
  let defaultPort := if negb (o_port o =? 0) then o_port o else defaultPort p in
  let rpcPort := if negb (o_rpcPort o =? 0) then o_rpcPort o else rpcPort p in
  let rpcPort := if negb (o_port o =? 0) && (o_rpcPort o =? 0) then u16 (o_port o + 10) else rpcPort in
  (defaultPort, rpcPort).

(** * Mining thread *)

Definition with_time_root (h : CBlockHeader) (t : Z) (root : uint256) : CBlockHeader := {|
  hdr_version := hdr_version h; hdr_prevBlockHash := hdr_prevBlockHash h; hdr_merkleRoot := root;
  hdr_timestamp := t; hdr_bits := hdr_bits h; hdr_nonce := hdr_nonce h |}.

Section MinerLoop.
Context {ossl : OpenSSL} {St : Type} {stor : IStorage St} (params : ChainParams).

(** The search for a nonce: the block found, or nothing when asked to stop
    ([stop i] in round [i]), and the number of hashes.  When the nonces are used
    up the time stamp moves on and the search starts over, so only the fuel
    bounds it; [None] when it is used up. *)
Fixpoint hash_loop (fuel : nat) (stop : nat -> bool) (target : uint256) (candidate : CBlock) (hdr : bytes) (nonce : Z)
    (i : nat) : option (option CBlock * nat) :=
  match fuel with
  | O => None
  | S k =>
      if stop i then Some (None, i)
      else
        let hdr := set_nonce_bytes hdr nonce in
        if leb (SHA256d hdr) target then
          Some (Some {| blk_header := with_nonce (blk_header candidate) nonce; blk_vtx := blk_vtx candidate |}, S i)
        else
          let nonce := u32 (nonce + 1) in
          if nonce =? 0 then
            let h := with_time_root (blk_header candidate) (u32 (hdr_timestamp (blk_header candidate) + 1))
                       (default zero (ComputeMerkleRoot (blk_vtx candidate))) in
            let candidate := {| blk_header := h; blk_vtx := blk_vtx candidate |} in
            hash_loop k stop target candidate (SerializeBlockHeader h) nonce (S i)
          else hash_loop k stop target candidate hdr nonce (S i)
  end.

(** The candidate of one iteration, at time [now]: the block, its fees and
    target. *)
Definition mining_candidate (garbage : bytes) (now : Z) (tip : CBlockIndex) (pool : CTxMemPool) (address : list ascii) :
    NodeM St (CBlock * Z) :=
  c ← get_chain;
  let height := idx_height tip + 1 in
  let intervalStart := Z.quot height (difficultyInterval params) * difficultyInterval params in
  firstBlk ← (if intervalStart >? 0 then GetBlockByHeight intervalStart else mret None);
  let firstTime := match firstBlk with Some b => hdr_timestamp (blk_header b) | None => idx_timestamp tip end in
  let bits := GetNextWorkRequired (idx_timestamp tip) (idx_height tip) (idx_bits tip) firstTime params in
  let timestamp := u32 now in
  let timestamp := if timestamp <=? idx_timestamp tip then u32 (idx_timestamp tip + 1) else timestamp in
  match CreateCandidateBlock garbage height bits timestamp (ch_tipHash c) pool (ch_view c) address (addressVersion params) with
  | Done r => mret r
  | Undef => nundef
  end.

(** How an iteration of the [while] loop ends. *)
Inductive round_end :=
| RoundBreak
| RoundNext.

Definition count_hashes (m : CMiner) (n : nat) : CMiner := {|
  m_running := m_running m; m_stopRequested := m_stopRequested m; m_totalHashes := i64 (m_totalHashes m + Z.of_nat n);
  m_blocksFound := m_blocksFound m; m_lastHeightMined := m_lastHeightMined m; m_immatureReward := m_immatureReward m;
  m_maturedReward := m_maturedReward m; m_miningAddress := m_miningAddress m; m_miningVersion := m_miningVersion m |}.
Definition count_block (m : CMiner) (height reward : Z) : CMiner := {|
  m_running := m_running m; m_stopRequested := m_stopRequested m; m_totalHashes := m_totalHashes m;
  m_blocksFound := i64 (m_blocksFound m + 1); m_lastHeightMined := height; m_immatureReward := m_immatureReward m +i reward;
  m_maturedReward := m_maturedReward m; m_miningAddress := m_miningAddress m; m_miningVersion := m_miningVersion m |}.

(** One iteration of [RunMinerLoop] under the chain lock, in a daemon whose
    [d_peers] are all peers.  [None] when the nonce search runs out of fuel. *)
Definition RunMinerLoop_round (fuel : nat) (stop : nat -> bool) (garbage : bytes) (now : Z)
    (write : list (Z * bytes) -> Z -> bytes -> bool * bytes) (generateBlocks : Z) (m : CMiner) (d : Daemon St) :
    option (outcome (round_end * CMiner * Daemon St)) :=
  if m_stopRequested m then Some (Done (RoundBreak, m, d))
  else if negb (m_running m) then Some (Done (RoundBreak, m, d))
  else if bool_decide (m_miningAddress m = []) then Some (Done (RoundNext, m, d))
  else
    match Tip (d_node d) with
    | Done (Ok None, n) => Some (Done (RoundNext, m, with_node d n))
    | Done (Ok (Some tip), n) =>
        match mining_candidate garbage now tip (d_pool d) (m_miningAddress m) n with
        | Done (Ok (candidate, fees), n) =>
            let d := with_node d n in
            match hash_loop fuel stop (TargetFromBits (hdr_bits (blk_header candidate))) candidate
                    (SerializeBlockHeader (blk_header candidate)) 0 0 with
            | None => None
            | Some (None, i) => Some (Done (RoundNext, count_hashes m i, d))
            | Some (Some blk, i) =>
                let m := count_hashes m i in
                match TryAcceptBlock params blk (d_node d) with
                | Done (Ok r, n) =>
                    let d := with_node d n in
                    if rr_ok r then
                      let c := nd_chain n in
                      let '(sv, out) := BroadcastMessage (networkMagic params) (write (d_sent d))
                        {| sv_peers := d_peers d; sv_targets := [] |} (string_bytes "inv")
                        (SerializeInv [{| inv_type := INV_BLOCK; inv_hash := BlockHash blk |}]) (-1) in
                      let d := with_net d (sv_peers sv) out in
                      let m := count_block m (ch_height c) (GetBlockSubsidy (ch_height c) +i fees) in
                      match RemoveSpent (d_pool d) (ch_view c) (ch_height c) with
                      | Done (pool, _) =>
                          Some (Done (if (generateBlocks >? 0) && (ch_height c >=? generateBlocks) then RoundBreak else RoundNext,
                                      m, with_pool pool d))
                      | Undef => Some Undef
                      end
                    else Some (Done (RoundNext, m, d))
                | Done (Err _, _) | Undef => Some Undef
                end
            end
        | Done (Err _, _) | Undef => Some Undef
        end
    | Done (Err _, _) | Undef => Some Undef
    end.

(** [StartMiningThread] and [StopMiningThread] on the flags: [active] is
    [g_minerThreadActive]. *)
Definition StartMiningThread (m : CMiner) (active : bool) : CMiner * bool :=
  if active then (m, active) else (set_flags m true false, true).
Definition StopMiningThread (m : CMiner) (active : bool) : CMiner * bool :=
  if negb active then (m, active) else (set_flags (MinerStop m) false (m_stopRequested (MinerStop m)), false).

End MinerLoop.

(** * Lemmas *)

Section MinerFacts.
Context {ossl : OpenSSL} {laws : OpenSSLLaws ossl}.
Context {St : Type} {stor : IStorage St} {slaws : StorageLaws St}.
Context (params : ChainParams).

(** A block the search returns meets the target, and differs from the candidate
    only in time and nonce. *)
Lemma hash_loop_sound stop target fuel : forall candidate m nonce i blk j,
  hdr_merkleRoot (blk_header candidate) = default zero (ComputeMerkleRoot (blk_vtx candidate)) ->
  hash_loop fuel stop target candidate (SerializeBlockHeader (with_nonce (blk_header candidate) m)) nonce i = Some (Some blk, j) ->
  leb (BlockHash blk) target = true /\ blk_vtx blk = blk_vtx candidate /\
  hdr_prevBlockHash (blk_header blk) = hdr_prevBlockHash (blk_header candidate) /\
  hdr_bits (blk_header blk) = hdr_bits (blk_header candidate) /\
  hdr_merkleRoot (blk_header blk) = hdr_merkleRoot (blk_header candidate).
Proof.
  induction fuel as [|k IH]; intros cand m nonce i blk j Hroot H; cbn [hash_loop] in H; [done|].
  destruct (stop i); [done|]. rewrite set_nonce_header, with_nonce_with_nonce in H.
  destruct (leb _ _) eqn:El; [injection H as <- _; split_and!; [exact El|done..]|]. cbv zeta in H.
  destruct (u32 (nonce + 1) =? 0).
  - apply (IH {| blk_header := with_time_root (blk_header cand) (u32 (hdr_timestamp (blk_header cand) + 1)) _; blk_vtx := blk_vtx cand |}
      (hdr_nonce (blk_header cand))) in H; [|reflexivity].
    cbn [blk_header blk_vtx with_time_root hdr_prevBlockHash hdr_bits hdr_merkleRoot] in H. by rewrite Hroot.
  - by apply IH in H.
Qed.

Lemma next_work_off_boundary lastTime lastHeight lastBits firstTime :
  Z.rem (lastHeight + 1) (difficultyInterval params) <> 0 ->
  GetNextWorkRequired lastTime lastHeight lastBits firstTime params = lastBits.
Proof.
  intros Hr. unfold GetNextWorkRequired. destruct (powNoRetarget params); [done|]. by rewrite (proj2 (Z.eqb_neq _ _) Hr).
Qed.

Lemma off_boundary c : params_ok params -> chain_inv c -> ~ at_boundary params c ->
  Z.rem (ch_height c + 1) (difficultyInterval params) <> 0.
Proof.
  intros (_ & Hp & _) Hc Hb. pose proof (ci_height _ Hc). rewrite Z.rem_mod_nonneg by lia. exact Hb.
Qed.

(** The chain state of a node whose stored blocks can be read. *)
Lemma read_ok (P : St -> Prop) n h : readable P (ch_byHeight (nd_chain n)) -> P (nd_store n) -> h ∈ ch_byHeight (nd_chain n) ->
  exists blk s', read_block h n = Done (Ok (Some blk), {| nd_chain := nd_chain n; nd_store := s' |}) /\ P s' /\
    ReadBlock h (nd_store n) = (Some blk, s').
Proof.
  intros HP Hs Hin. destruct (HP _ _ Hs Hin) as (blk & s' & E & Hs'). exists blk, s'. unfold read_block. by rewrite E.
Qed.

Lemma tip_in_chain c : chain_inv c -> ch_tipHash c ∈ ch_byHeight c.
Proof. intros Hc. by eapply list_elem_of_lookup_2, ci_tip. Qed.

Lemma first_time_ok (P : St -> Prop) n prevIdx prev : params_ok params -> chain_inv (nd_chain n) -> ~ at_boundary params (nd_chain n) ->
  idx_height prevIdx = ch_height (nd_chain n) -> readable P (ch_byHeight (nd_chain n)) -> P (nd_store n) ->
  exists t s', interval_first_time params (nd_chain n) prevIdx prev n = Done (Ok t, {| nd_chain := nd_chain n; nd_store := s' |}).
Proof.
  intros Hp Hc Hb Hh HP Hs. unfold interval_first_time. rewrite Hh, Z.gtb_ltb.
  destruct (Z.ltb_spec 0 (Z.quot (ch_height (nd_chain n) + 1) (difficultyInterval params) * difficultyInterval params)) as [Hpos|];
    [|exists (hdr_timestamp prev), (nd_store n); by destruct n].
  pose proof (interval_start_range _ _ Hc Hp Hb). pose proof (ci_length _ Hc).
  destruct (lookup_lt_is_Some_2 (ch_byHeight (nd_chain n))
    (Z.to_nat (Z.quot (ch_height (nd_chain n) + 1) (difficultyInterval params) * difficultyInterval params))) as [x Hx]; [lia|].
  destruct (read_ok P n x HP Hs) as (blk & s' & E & _ & _); [by eapply list_elem_of_lookup_2|].
  unfold vec_at, mbind, NodeM_bind. rewrite Hx. unfold mret, NodeM_ret. rewrite E. by eexists _, s'.
Qed.

(** A valid block on the tip is appended. *)
Lemma append_ok (P : St -> Prop) n blk tip view fees : params_ok params -> chain_inv (nd_chain n) -> ~ at_boundary params (nd_chain n) ->
  readable P (ch_byHeight (nd_chain n)) -> P (nd_store n) ->
  ch_index (nd_chain n) !! ch_tipHash (nd_chain n) = Some tip ->
  (forall s b s', P s -> ReadBlock (ch_tipHash (nd_chain n)) s = (Some b, s') ->
     hdr_timestamp (blk_header b) = idx_timestamp tip /\ hdr_bits (blk_header b) = idx_bits tip) ->
  ch_index (nd_chain n) !! BlockHash blk = None ->
  hdr_prevBlockHash (blk_header blk) = ch_tipHash (nd_chain n) ->
  CheckProofOfWork (BlockHash blk) (hdr_bits (blk_header blk)) = true ->
  idx_timestamp tip < hdr_timestamp (blk_header blk) -> hdr_bits (blk_header blk) = idx_bits tip ->
  CheckBlock blk (ch_height (nd_chain n) + 1) (ch_view (nd_chain n)) params = Ok (view, fees) ->
  exists n', TryAcceptBlock params blk n = Done (Ok (reorg_ok (-1) [BlockHash blk]), n') /\
    ch_byHeight (nd_chain n') = ch_byHeight (nd_chain n) ++ [BlockHash blk] /\
    ch_height (nd_chain n') = ch_height (nd_chain n) + 1 /\ ch_tipHash (nd_chain n') = BlockHash blk /\ ch_view (nd_chain n') = view.
Proof.
  intros Hp Hc Hb HP Hs Hi Hag Hf Hprev Hpow Ht Hbits Hcb. set (c := nd_chain n) in *.
  assert (idx_height tip = ch_height c) as Hth.
  { destruct (ci_active c Hc _ _ (ci_tip c Hc)) as (idx & Hidx & Hh). rewrite Hi in Hidx. injection Hidx as <-.
    rewrite Hh. pose proof (ci_height c Hc). lia. }
  destruct (read_ok P n (ch_tipHash c) HP Hs (tip_in_chain c Hc)) as (pb & s1 & Er & Hs1 & Erd).
  destruct (Hag _ _ _ Hs Erd) as [Hpt Hpb]. pose proof (ReadBlock_hash _ _ _ _ Erd) as Hph.
  destruct (first_time_ok P {| nd_chain := c; nd_store := s1 |} tip (blk_header pb) Hp Hc Hb Hth HP Hs1) as (t & s2 & Eft).
  assert (CheckBlockHeader (blk_header blk) (Some (blk_header pb)) params = Ok tt) as Hhdr.
  { unfold CheckBlockHeader. fold (BlockHash blk). rewrite Hpow. cbn [negb fail_if mbind res_bind].
    fold (BlockHash pb). rewrite Hprev, Hph, eqb_spec, bool_decide_true by done. cbn [negb fail_if mbind res_bind].
    rewrite Hpt. by rewrite (proj2 (Z.leb_gt _ _) Ht). }
  assert (exists n', AcceptBlock params blk (ch_height c + 1) n = Done (Ok tt, n') /\
    ch_byHeight (nd_chain n') = ch_byHeight c ++ [BlockHash blk] /\ ch_height (nd_chain n') = ch_height c + 1 /\
    ch_tipHash (nd_chain n') = BlockHash blk /\ ch_view (nd_chain n') = view) as (n' & Ea & Hn').
  { unfold AcceptBlock, get_chain. unfold mbind at 1, NodeM_bind at 1. unfold GetIndex. fold c. rewrite Hprev, Hi.
    unfold mbind at 1, NodeM_bind at 1. rewrite Er. fold c. unfold mbind at 1, NodeM_bind at 1, lift_res. rewrite Hhdr.
    unfold mbind at 1, NodeM_bind at 1. cbn [nd_chain] in Eft. rewrite Eft. cbv zeta.
    rewrite Hth, next_work_off_boundary by (by apply off_boundary). rewrite Hpb, Hbits, Z.eqb_refl. cbn [negb fail_if].
    unfold mbind at 1, NodeM_bind at 1. unfold mbind at 1, NodeM_bind at 1. rewrite Hcb.
    eexists. split; [reflexivity|]. done. }
  exists n'. split; [|done]. unfold TryAcceptBlock, get_chain. unfold mbind at 1, NodeM_bind at 1. fold c.
  unfold HaveBlock. rewrite Hf, bool_decide_false by (by intros [? ?]). unfold GetIndex. rewrite Hprev, Hi.
  rewrite eqb_spec, bool_decide_true by done. unfold mbind at 1, NodeM_bind at 1, ntry. by rewrite Hth, Ea.
Qed.

End MinerFacts.

Section MinerRound.
Context {ossl : OpenSSL} {laws : OpenSSLLaws ossl}.
Context {St : Type} {stor : IStorage St} {slaws : StorageLaws St}.
Context (params : ChainParams).

Lemma CheckBlock_ext b b' h view : blk_vtx b = blk_vtx b' -> hdr_merkleRoot (blk_header b) = hdr_merkleRoot (blk_header b') ->
  CheckBlock b h view params = CheckBlock b' h view params.
Proof. intros Hv Hm. unfold CheckBlock, CheckMerkleRoot. by rewrite Hv, Hm. Qed.

Lemma CreateCandidateBlock_header garbage height bits time prev pool view addr ver blk fees :
  CreateCandidateBlock garbage height bits time prev pool view addr ver = Done (blk, fees) ->
  hdr_prevBlockHash (blk_header blk) = prev /\ hdr_bits (blk_header blk) = bits /\ hdr_timestamp (blk_header blk) = time /\
  hdr_merkleRoot (blk_header blk) = default zero (ComputeMerkleRoot (blk_vtx blk)) /\ hdr_nonce (blk_header blk) = 0.
Proof.
  unfold CreateCandidateBlock. destruct (coinbase_script height); [|done]. cbn [mbind outcome_bind].
  destruct (select_txs _ _ _ _ _). by intros [= <- <-].
Qed.

Lemma tip_ok (n : Node St) : chain_inv (nd_chain n) -> exists tip, Tip n = Done (Ok (Some tip), n) /\
  ch_index (nd_chain n) !! ch_tipHash (nd_chain n) = Some tip /\ idx_height tip = ch_height (nd_chain n).
Proof.
  intros Hc. pose proof (ci_height _ Hc). destruct (ci_active _ Hc _ _ (ci_tip _ Hc)) as (idx & Hi & Hh). exists idx.
  split_and!; [|done|lia]. unfold Tip, get_chain, mbind, NodeM_bind. destruct (Z.ltb_spec (ch_height (nd_chain n)) 0); [lia|].
  unfold vec_at. rewrite (ci_tip _ Hc). unfold mret, NodeM_ret, GetIndex. by rewrite Hi.
Qed.

(** [P] is kept by reading. *)
Definition read_closed (P : St -> Prop) : Prop := forall h s b s', P s -> ReadBlock h s = (b, s') -> P s'.

Lemma GetBlockByHeight_store P h (n : Node St) r n' : read_closed P -> P (nd_store n) ->
  GetBlockByHeight h n = Done (r, n') -> P (nd_store n').
Proof.
  intros HP Hs. unfold GetBlockByHeight, get_chain, mbind, NodeM_bind. destruct (_ || _); [by intros [= _ <-]|].
  unfold vec_at. destruct (_ !! _) as [x|]; [|done]. unfold mret, NodeM_ret, read_block.
  destruct (ReadBlock x (nd_store n)) as [b s'] eqn:E. intros [= _ <-]. by eapply HP.
Qed.

(** The candidate of a round exists, whatever the storage does. *)
Lemma mining_candidate_defined garbage now tip pool addr n : reachable params n -> 0 <= idx_height tip < 2 ^ 63 - 1 ->
  exists blk fees n' bits time, mining_candidate params garbage now tip pool addr n = Done (Ok (blk, fees), n') /\
    reachable params n' /\ nd_chain n' = nd_chain n /\
    CreateCandidateBlock garbage (idx_height tip + 1) bits time (ch_tipHash (nd_chain n)) pool (ch_view (nd_chain n)) addr
      (addressVersion params) = Done (blk, fees) /\
    (Z.rem (idx_height tip + 1) (difficultyInterval params) <> 0 -> bits = idx_bits tip) /\
    (forall P, read_closed P -> P (nd_store n) -> P (nd_store n')).
Proof.
  intros Hr Hh. unfold mining_candidate, get_chain. unfold mbind at 1, NodeM_bind at 1. cbv zeta.
  assert (exists ob n', (if Z.quot (idx_height tip + 1) (difficultyInterval params) * difficultyInterval params >? 0
      then GetBlockByHeight (Z.quot (idx_height tip + 1) (difficultyInterval params) * difficultyInterval params) else mret None) n
      = Done (Ok ob, n') /\ reachable params n' /\ nd_chain n' = nd_chain n /\
      (forall P, read_closed P -> P (nd_store n) -> P (nd_store n'))) as (ob & n' & E & Hr' & Hc' & HP).
  { destruct (_ >? _); [|by exists None, n].
    edestruct (reads_only_block params (Z.quot (idx_height tip + 1) (difficultyInterval params) * difficultyInterval params) n Hr) as (ob & n' & E & Hr' & Hc'). exists ob, n'. split_and!; [done..|].
    intros P HP Hs. by eapply GetBlockByHeight_store. }
  unfold mbind at 1, NodeM_bind at 1. rewrite E. cbv zeta.
  set (bits := GetNextWorkRequired _ _ _ _ _). set (time := if u32 now <=? idx_timestamp tip then _ else _).
  destruct (coinbase_script_spec (idx_height tip + 1)) as (m & _ & Es & _); [lia|].
  destruct (CreateCandidateBlock garbage (idx_height tip + 1) bits time (ch_tipHash (nd_chain n)) pool (ch_view (nd_chain n)) addr
      (addressVersion params)) as [[blk fees]|] eqn:Ec; cycle 1.
  { exfalso. unfold CreateCandidateBlock in Ec. rewrite Es in Ec. cbn [mbind outcome_bind] in Ec. by destruct (select_txs _ _ _ _ _). }
  exists blk, fees, n', bits, time. split_and!; [done|done|done|done|by apply next_work_off_boundary|done].
Qed.

(** A round of the mining thread keeps the invariant of the node. *)
Lemma miner_round_inv fuel stop garbage now write gen m (d : Daemon St) : params_ok params -> daemon_inv params d ->
  ch_height (nd_chain (d_node d)) < 2 ^ 63 - 1 ->
  match RunMinerLoop_round params fuel stop garbage now write gen m d with
  | Some (Done (_, _, d')) => daemon_inv params d'
  | Some Undef => at_boundary params (nd_chain (d_node d))
  | None => True
  end.
Proof.
  intros Hp [Hr Hpool] Hmax. unfold RunMinerLoop_round. destruct (m_stopRequested m); [done|]. destruct (negb _); [done|].
  case_bool_decide; [done|]. apply reachable_inv in Hr as Hc. destruct (tip_ok (d_node d) Hc) as (tip & Et & Hi & Hh). rewrite Et.
  pose proof (ci_height _ Hc).
  destruct (mining_candidate_defined garbage now tip (d_pool d) (m_miningAddress m) (d_node d) Hr) as
    (cand & fees & n1 & bits & time & Em & Hr1 & Hc1 & Ecc & _); [lia|]. rewrite Em. cbv zeta.
  destruct (hash_loop _ _ _ _ _ _ _) as [[[blk|] i]|] eqn:El; [|done|done]. cbn [with_node d_node].
  destruct (TryAcceptBlock params blk n1) as [[r n2]|] eqn:Ea.
  - pose proof Ea as Ea'. apply TryAcceptBlock_runs in Ea' as (rr & -> & _); [|by eapply reachable_inv].
    assert (reachable params n2) as Hr2 by (by eapply reach_block). destruct (rr_ok rr); [|done].
    destruct (BroadcastMessage _ _ _ _ _ _) as [sv out]. cbn [with_net with_node d_pool].
    destruct (RemoveSpent_ok (d_pool d) (ch_view (nd_chain n2)) (ch_height (nd_chain n2)) (pool_reachable_inv _ Hpool))
      as (pool & ids & Es & _). rewrite Es. split; [done|by eapply pr_spent].
  - rewrite <- Hc1. destruct (decide ((ch_height (nd_chain n1) + 1) mod difficultyInterval params = 0)) as [?|Hb]; [done|].
    exfalso. by eapply (TryAcceptBlock_defined params blk n1 Hp); [by eapply reachable_inv|..].
Qed.

End MinerRound.

(** * Properties *)

Definition is_mining_arg (a : string) : Prop :=
  arg_val a "miningaddress" <> "" \/ arg_val a "generate" <> "" \/ a = "-mining" \/ a = "-generate".

Lemma arg_action_mining a x m : arg_action a = Act x m -> (m = true -> is_mining_arg a).
Proof.
  unfold arg_action, flag, with_val, is_mining_arg. intros H ->.
  repeat match type of H with (if ?b then _ else _) = _ => destruct b eqn:?E end;
    try discriminate H; rewrite ?negb_true_iff, ?bool_decide_eq_false, ?bool_decide_eq_true in *; tauto.
Qed.

Section DaemonProperties.
Context {ossl : OpenSSL} {laws : OpenSSLLaws ossl}.
Context {St : Type} {stor : IStorage St} {slaws : StorageLaws St}.
Context (params : ChainParams).

(** The mining thread is safe: an iteration of [RunMinerLoop], whatever the
    clock, the sockets and the stop flags do, leaves a reachable chain (so the
    supply cap holds) and a consistent pool; it has undefined behaviour only at
    a retarget boundary. *)
Theorem mining_round_safe fuel stop garbage now write generateBlocks m (d : Daemon St) :
  params_ok params -> reachable params (d_node d) -> pool_reachable (d_pool d) ->
  ch_height (nd_chain (d_node d)) < 2 ^ 63 - 1 ->
  match RunMinerLoop_round params fuel stop garbage now write generateBlocks m d with
  | Some (Done (_, _, d')) => reachable params (d_node d') /\ pool_reachable (d_pool d')
  | Some Undef => (ch_height (nd_chain (d_node d)) + 1) mod difficultyInterval params = 0
  | None => True
  end.
Proof. intros Hp Hr Hpool. by apply miner_round_inv. Qed.

(** C10: Mined blocks extend the chain: away from retarget boundaries, the
    template the mining thread builds on the tip is accepted as soon as the
    search finds a nonce for it.  (The stored tip block is readable and agrees
    with its index entry, no pool transaction has an unspent output under its
    own id, and the time stamp has not wrapped around.) *)
Theorem mined_block_extends_chain (P : St -> Prop) garbage now pool addr (n : Node St) tip :
  params_ok params -> reachable params n -> pool_reachable pool ->
  (ch_height (nd_chain n) + 1) mod difficultyInterval params <> 0 -> ch_height (nd_chain n) < 2 ^ 63 - 1 ->
  ch_index (nd_chain n) !! ch_tipHash (nd_chain n) = Some tip ->
  readable P (ch_byHeight (nd_chain n)) -> read_closed P -> P (nd_store n) ->
  (forall s b s', P s -> ReadBlock (ch_tipHash (nd_chain n)) s = (Some b, s') ->
     hdr_timestamp (blk_header b) = idx_timestamp tip /\ hdr_bits (blk_header b) = idx_bits tip) ->
  (forall o tx, is_Some (ch_view (nd_chain n) !! o) -> tx ∈ GetTxs pool -> op_hash o <> GetTxID tx) ->
  exists candidate fees n1,
    mining_candidate params garbage now tip pool addr n = Done (Ok (candidate, fees), n1) /\
    forall fuel stop blk i,
      hash_loop fuel stop (TargetFromBits (hdr_bits (blk_header candidate))) candidate
        (SerializeBlockHeader (blk_header candidate)) 0 0 = Some (Some blk, i) ->
      idx_timestamp tip < hdr_timestamp (blk_header blk) -> ch_index (nd_chain n) !! BlockHash blk = None ->
      exists n2, TryAcceptBlock params blk n1 = Done (Ok (reorg_ok (-1) [BlockHash blk]), n2) /\
        ch_byHeight (nd_chain n2) = ch_byHeight (nd_chain n) ++ [BlockHash blk] /\
        ch_height (nd_chain n2) = ch_height (nd_chain n) + 1 /\ ch_tipHash (nd_chain n2) = BlockHash blk.
Proof.
  intros Hp Hr Hpool Hb Hmax Hi HP Hstep Hs Hag Hfresh. apply reachable_inv in Hr as Hc. pose proof (ci_height _ Hc) as H0.
  destruct (tip_ok n Hc) as (tip' & _ & Hi' & Hh). rewrite Hi in Hi'. injection Hi' as <-.
  destruct (mining_candidate_defined params garbage now tip pool addr n Hr) as (cand & fees & n1 & bits & time & Em & Hr1 & Hc1 & Ecc & Hbits & Hs1);
    [lia|]. exists cand, fees, n1. split; [exact Em|]. intros fuel stop blk i Hl Ht Hf.
  rewrite Hh in Hbits. specialize (Hbits (off_boundary params _ Hp Hc Hb)). subst bits.
  destruct (CreateCandidateBlock_header _ _ _ _ _ _ _ _ _ _ _ Ecc) as (Hprev & Hcb & _ & Hroot & _).
  apply (hash_loop_sound stop _ fuel cand (hdr_nonce (blk_header cand))) in Hl as (Hle & Hvtx & Hpv & Hbt & Hrt); [|done].
  destruct (candidate_block_ok params garbage (idx_height tip + 1) (idx_bits tip) time (ch_tipHash (nd_chain n)) pool
    (ch_view (nd_chain n)) addr (addressVersion params)) as (b & f & v & cb & txs & Ecc' & Hck & _); [lia|apply ci_view, Hc| |done|done|].
  { pose proof (ci_supply _ Hc). pose proof (ci_length _ Hc). rewrite Hh.
    by replace (Z.to_nat (ch_height (nd_chain n) + 1)) with (length (ch_byHeight (nd_chain n))) by lia. }
  rewrite Ecc in Ecc'. injection Ecc' as <- <-.
  destruct (append_ok params P n1 blk tip v fees) as (n2 & E & H1 & H2 & H3 & _); rewrite ?Hc1; try done.
  - by apply Hs1.
  - congruence.
  - destruct (ci_index _ Hc _ _ Hi) as (_ & _ & Hpow). unfold CheckProofOfWork in *. rewrite Hbt, Hcb in *.
    destruct (isZero (TargetFromBits (idx_bits tip))); [done|exact Hle].
  - congruence.
  - rewrite <- Hh, <- Hck. by apply CheckBlock_ext.
  - exists n2. rewrite Hc1 in *. done.
Qed.

(** Mining is off unless it is asked for: when [ParseArgs] enables it, one of
    [-mining], [-generate], [-generate=n] and [-miningaddress=a] was given. *)
Theorem mining_disabled_by_default args o :
  ParseArgs args = inr o -> o_disableMining o = false -> Exists is_mining_arg args.
Proof.
  unfold ParseArgs. assert (forall o0 m0 o1 m1, parse_loop args o0 m0 = inr (o1, m1) -> m1 = true -> m0 = true \/ Exists is_mining_arg args) as Hl.
  { induction args as [|a r IH]; intros o0 m0 o1 m1 H Hm; cbn [parse_loop] in H; [injection H as <- <-; by left|].
    destruct (arg_action a) as [x m|] eqn:E; [|done]. apply IH in H as [Hor|Hex]; [|by right; right|done].
    apply orb_true_iff in Hor as [-> | ->]; [by left|]. right. left. by eapply arg_action_mining. }
  destruct (parse_loop args default_options false) as [code|[o1 m1]] eqn:E; [done|]. intros [= <-]. cbn [apply_assign o_disableMining].
  intros Hn%negb_false_iff. by destruct (Hl _ _ _ _ E Hn).
Qed.

End DaemonProperties.

(** The option the usage text lists for DNS seeds is rejected, and only
    [-dnsseed=0] is accepted (and ignored). *)
Example dnsseed_rejected : ParseArgs ["-dnsseed"%string] = inl 1 /\ ParseArgs ["-dnsseed=0"%string] = inr default_options.
Proof. split; vm_compute; reflexivity. Qed.

(** ** Concrete instances: mining the first block of the testnet. *)

#[local] Instance wit_daemon_ossl : OpenSSL := toy_ossl.

Definition wit_miner : CMiner := set_flags (SetMiningAddress new_miner ["x"%char] 0x1F) true false.

Lemma mining_round_safe_witness :
  match RunMinerLoop_round TESTNET 3 (fun _ => false) [] 1717200600 good_write 0 wit_miner (wit_daemon wit_node0) with
  | Some (Done (_, _, d')) => reachable TESTNET (d_node d') /\ pool_reachable (d_pool d')
  | Some Undef => (ch_height (nd_chain wit_node0) + 1) mod difficultyInterval TESTNET = 0
  | None => True
  end.
Proof.
  refine (mining_round_safe TESTNET 3 (fun _ => false) [] 1717200600 good_write 0 wit_miner (wit_daemon wit_node0)
    (GetParams_ok "testnet") wit_node0_reachable pr_clear _). vm_compute. reflexivity.
Defined.

Definition wit_tip : CBlockIndex := default default_index (ch_index (nd_chain wit_node0) !! ch_tipHash (nd_chain wit_node0)).
Lemma wit_tip_ok : ch_index (nd_chain wit_node0) !! ch_tipHash (nd_chain wit_node0) = Some wit_tip.
Proof.
  unfold wit_tip. destruct (_ !! _) eqn:E; [done|].
  assert (bool_decide (is_Some (ch_index (nd_chain wit_node0) !! ch_tipHash (nd_chain wit_node0))) = true) as H by (vm_compute; reflexivity).
  apply bool_decide_eq_true in H. rewrite E in H. by destruct H.
Qed.
Lemma wit_node0_hashes : ch_byHeight (nd_chain wit_node0) = [BlockHash (GetGenesisBlock TESTNET)].
Proof. vm_compute. reflexivity. Qed.
Lemma wit_node0_tip : ch_tipHash (nd_chain wit_node0) = BlockHash (GetGenesisBlock TESTNET).
Proof. vm_compute. reflexivity. Qed.
Lemma wit_genesis_read : fst (ReadBlock (BlockHash (GetGenesisBlock TESTNET)) (nd_store wit_node0)) = Some (GetGenesisBlock TESTNET).
Proof. vm_compute. reflexivity. Qed.

Lemma mined_block_extends_chain_witness :
  exists candidate fees n1, mining_candidate TESTNET [] 1717200600 wit_tip Clear ["x"%char] wit_node0 = Done (Ok (candidate, fees), n1).
Proof.
  destruct (mined_block_extends_chain TESTNET (fun s => s = nd_store wit_node0) [] 1717200600 Clear ["x"%char] wit_node0 wit_tip)
    as (cand & fees & n1 & H & _).
  - exact (GetParams_ok "testnet").
  - exact wit_node0_reachable.
  - exact pr_clear.
  - vm_compute. congruence.
  - vm_compute. reflexivity.
  - exact wit_tip_ok.
  - intros s h -> Hin. rewrite wit_node0_hashes in Hin. apply list_elem_of_singleton in Hin as ->.
    exists (GetGenesisBlock TESTNET), (nd_store wit_node0). split; [exact (read_pair _ _ _ wit_genesis_read)|reflexivity].
  - intros h s b s' -> E. apply (f_equal snd) in E. exact (eq_sym E).
  - reflexivity.
  - intros s b s' -> E. rewrite wit_node0_tip, (read_pair _ _ _ wit_genesis_read) in E. apply (f_equal fst) in E. cbn [fst] in E.
    injection E as <-. split; vm_compute; reflexivity.
  - intros o tx _ Htx. apply list_elem_of_fmap in Htx as ([id e] & _ & He). apply elem_of_entries in He. by apply (lookup_empty_Some id e) in He.
  - exists cand, fees, n1. exact H.
Defined.

Lemma mining_disabled_by_default_witness : Exists is_mining_arg ["-mining"%string].
Proof.
  refine (mining_disabled_by_default ["-mining"%string] (apply_assign default_options (ADisableMining false)) _ _); vm_compute; reflexivity.
Defined.
