(* ===== verification/Accounts.v ===== *)
(** What the wallet tells its owner: the balance of [wallet/wallet.cpp] and the
    history that the rescan of [wallet/recovery.cpp] rebuilds, against the coins
    and the blocks of the chain. *)
From Stdlib Require Import Ascii.
From stdpp Require Import sorting.
From S2P Require Import Prelude Config UInt256 Compact Consensus Ripemd160 Crypto Transaction Encoding Value Script Utxo Block Validation Keys KeyStore Mempool Chain Handlers Wallet Daemon.
Import uint256 Rules Script Encoding Value.
Open Scope cdx_scope.

(** * Sums over the addresses *)

(** How the balances count a coin at height [h], whoever owns it. *)
Definition coin_state (h : Z) (c : CUTXO) : coin_class :=
  if negb (IsSpendable c h) then CImmature else if h <? coin_height c then CUnconfirmed else CConfirmed.
(** The value of the coins of the wallet in state [k]. *)
Definition own_sum {ossl : OpenSSL} (ks : CKeystore) (h : Z) (k : coin_class) (l : list CUTXO) : Z :=
  sumZ (map coin_value (List.filter (fun c => isOwn ks (coin_scriptPubKey c) && bool_decide (coin_state h c = k)) l)).
Definition bl_get (b : Balance) (k : coin_class) : Z :=
  match k with CImmature => bl_immature b | CUnconfirmed => bl_unconfirmed b | CConfirmed => bl_confirmed b end.

Section Balance.
Context {ossl : OpenSSL} {olaws : OpenSSLLaws ossl} {ec : EcKeys ossl} {ecl : EcKeysLaws ec} {cph : Cipher} {cl : CipherLaws cph}.

(** A coin counts for one address at most. *)
Lemma class_one (hs : list bytes) h k c : NoDup hs ->
  sumZ (map (fun a => if bool_decide (classify a h c = Some k) then coin_value c else 0) hs) =
  if (match ExtractP2PKHHash (coin_scriptPubKey c) with None => false | Some x => existsb (fun o => bool_decide (o = x)) hs end)
     && bool_decide (coin_state h c = k) then coin_value c else 0.
Proof.
  intros Hn. unfold classify. fold (coin_state h c). destruct (ExtractP2PKHHash (coin_scriptPubKey c)) as [x|]; cycle 1.
  { cbn [andb]. clear Hn. induction hs as [|a hs IH]; [done|]. cbn [map]. rewrite sumZ_cons, IH. by repeat case_bool_decide. }
  induction Hn as [|a hs Ha _ IH]; [done|]. cbn [map existsb]. rewrite sumZ_cons, IH.
  destruct (decide (a = x)) as [->|Hne].
  - rewrite (bool_decide_eq_true_2 (Some x = Some x)), (bool_decide_eq_true_2 (x = x)) by done. cbn [orb andb].
    replace (existsb (fun o => bool_decide (o = x)) hs) with false.
    + cbn [andb]. repeat case_bool_decide; congruence || lia.
    + symmetry. apply not_true_iff_false. rewrite existsb_exists. intros (y & Hy & ->%bool_decide_eq_true). apply Ha. by apply list_elem_of_In.
  - rewrite (bool_decide_eq_false_2 (Some x = Some a)) by congruence. rewrite (bool_decide_eq_false_2 (a = x)) by done.
    cbn [orb]. by rewrite bool_decide_eq_false_2.
Qed.
Lemma sumZ_map_add {A} (f g : A -> Z) l : sumZ (map (fun x => f x + g x) l) = sumZ (map f l) + sumZ (map g l).
Proof. induction l as [|x l IH]; [done|]. cbn [map]. rewrite !sumZ_cons, IH. lia. Qed.
Lemma class_sums_swap (hs : list bytes) h k l : NoDup hs ->
  sumZ (map (fun a => class_sum a h k l) hs) =
  sumZ (map coin_value (List.filter (fun c => match ExtractP2PKHHash (coin_scriptPubKey c) with None => false
    | Some x => existsb (fun o => bool_decide (o = x)) hs end && bool_decide (coin_state h c = k)) l)).
Proof.
  intros Hn. induction l as [|c l IH].
  - unfold class_sum. cbn. clear Hn. induction hs as [|a hs IH]; [done|]. cbn [map]. by rewrite sumZ_cons, IH.
  - replace (sumZ (map (fun a => class_sum a h k (c :: l)) hs)) with
      (sumZ (map (fun a => (if bool_decide (classify a h c = Some k) then coin_value c else 0) + class_sum a h k l) hs)).
    2:{ f_equal. }
    rewrite sumZ_map_add, IH, class_one by done. cbn [List.filter]. destruct (_ && _); cbn [map]; [by rewrite sumZ_cons|lia].
Qed.

(** ** The wallet's addresses *)
Context (v : Z) (pw : bytes) (ks : CKeystore) (m : gmap (list ascii) Z) (Hopen : wallet_open v pw ks m).

Lemma addresses_NoDup : NoDup (GetAddresses ks).
Proof. unfold GetAddresses. change (NoDup ((sorted_keys (ks_keys ks)).*1)). rewrite sorted_keys_perm. apply NoDup_fst_map_to_list. Qed.
Lemma address_form : Forall (fun a => exists d, a = address_of v d) (GetAddresses ks).
Proof.
  destruct Hopen as (_ & Hh & Ho & _). apply Forall_forall. intros a Ha. apply (addresses_own ks pw m Hh) in Ha as [d Hd].
  destruct (Ho a d Hd) as [-> _]. by exists d.
Qed.
Lemma own_hashes_spec : own_hashes ks = omap (own_hash v) (GetAddresses ks) /\ NoDup (own_hashes ks).
Proof.
  destruct Hopen as (Hv & _). unfold own_hashes. pose proof addresses_NoDup as Hn.
  assert (forall l, Forall (fun a => exists d, a = address_of v d) l ->
    omap (fun a => snd <$> DecodeAddress a) l = omap (own_hash v) l /\
    (forall h, h ∈ omap (own_hash v) l -> Hash160ToAddress h v ∈ l)) as H.
  { induction 1 as [|a l [d ->] _ [IH1 IH2]]; [split; [done|by intros h []%not_elem_of_nil]|].
    destruct (HASH160_wf (pub_of d)) as [Hw Hl]. cbn [omap list_omap]. rewrite own_hash_address by done.
    unfold address_of at 1. rewrite DecodeAddress_of by done. cbn [fmap option_fmap option_map snd]. rewrite IH1. split; [done|].
    intros h [->|Hin]%elem_of_cons; [left|right; by apply IH2]. }
  destruct (H _ address_form) as [E _]. split; [done|]. rewrite E. pose proof address_form as Hf.
  induction Hn as [|a l Ha Hl IH]; [apply NoDup_nil_2|]. apply Forall_cons in Hf as [[d ->] Hf].
  cbn [omap list_omap]. rewrite own_hash_address by done. apply NoDup_cons. split; [|apply IH; [|done]; apply (H l Hf)].
  intros Hin. apply Ha. by apply (proj2 (H l Hf)).
Qed.

(** ** The balance *)
Context (view : CCoinsView) (Hview : view_ok view) (Hsupply : supply view <= MAX_MONEY) (h : Z).
Abbreviation coins := (map snd (map_to_list view)).

Lemma address_class a k : bal_get (snd (GetAddressBalance view a h)) k = class_sum a h k coins.
Proof.
  pose proof (address_balance_exact view a h Hview Hsupply) as H. destruct (GetAddressBalance view a h) as [t b]. by apply H.
Qed.
Lemma add_balance_class bal a k : bl_get (add_balance v view h bal a) k =
  match own_hash v a with None => bl_get bal k | Some x => bl_get bal k +i class_sum x h k coins end.
Proof. unfold add_balance. destruct (own_hash v a) as [x|]; [|done]. rewrite <- address_class. by destruct k. Qed.
Lemma balances_fold k l : forall bal, is_i64 (bl_get bal k) ->
  bl_get (foldl (add_balance v view h) bal l) k =
  i64 (bl_get bal k + sumZ (map (fun a => class_sum a h k coins) (omap (own_hash v) l))).
Proof.
  induction l as [|a l IH]; intros bal Hb; cbn [foldl].
  - cbn. by rewrite Z.add_0_r, i64_id.
  - pose proof (add_balance_class bal a k) as E. rewrite IH; rewrite E; cbn [omap list_omap]; destruct (own_hash v a) as [x|]; try done.
    + cbn [map]. rewrite sumZ_cons. unfold i64_add. rewrite i64_add_assoc_i64. f_equal. lia.
    + apply i64_range.
Qed.

Lemma own_sums_le l : Forall coin_ok l ->
  (forall k, 0 <= own_sum ks h k l) /\
  own_sum ks h CConfirmed l + own_sum ks h CUnconfirmed l + own_sum ks h CImmature l <= sumZ (map coin_value l).
Proof.
  unfold own_sum, coin_ok. induction 1 as [|c l Hc _ [IH1 IH2]]; [done|]. cbn [List.filter map]. split.
  - intros k. specialize (IH1 k). destruct (_ && _); cbn [map]; rewrite ?sumZ_cons; lia.
  - rewrite sumZ_cons. destruct (isOwn ks (coin_scriptPubKey c)), (coin_state h c); cbn [andb];
      repeat case_bool_decide; try congruence; cbn [map]; rewrite ?sumZ_cons; lia.
Qed.

Lemma balance_classes k : bl_get (GetBalance v ks view h) k = own_sum ks h k coins.
Proof.
  unfold GetBalance. set (b0 := {| bl_confirmed := 0; bl_unconfirmed := 0; bl_immature := 0; bl_spendable := 0 |}).
  transitivity (bl_get (foldl (add_balance v view h) b0 (GetAddresses ks)) k); [by destruct k|].
  rewrite balances_fold by (by destruct k). replace (bl_get b0 k) with 0 by (by destruct k).
  destruct own_hashes_spec as [E Hn]. rewrite <- E, class_sums_swap by done.
  change (i64 (own_sum ks h k coins) = own_sum ks h k coins). apply i64_id.
  destruct (own_sums_le coins (view_ok_coins _ Hview)) as [Hpos Hle]. rewrite map_values in Hle. fold (supply view) in Hle.
  assert (MAX_MONEY < 2 ^ 63) by done.
  pose proof (Hpos CConfirmed). pose proof (Hpos CUnconfirmed). pose proof (Hpos CImmature). destruct k; u_range.
Qed.

(** What can be spent is what is not immature. *)
Lemma spendable_classes x c :
  (if bool_decide (classify x h c = Some CConfirmed) then coin_value c else 0) +
  (if bool_decide (classify x h c = Some CUnconfirmed) then coin_value c else 0) =
  if match ExtractP2PKHHash (coin_scriptPubKey c) with None => false | Some hh => bool_decide (hh = x) && IsSpendable c h end
  then coin_value c else 0.
Proof.
  unfold classify. destruct (ExtractP2PKHHash (coin_scriptPubKey c)) as [y|]; [|by repeat case_bool_decide].
  destruct (decide (y = x)) as [->|Hne].
  - rewrite (bool_decide_eq_true_2 (Some x = Some x)), (bool_decide_eq_true_2 (x = x)) by done. cbn [andb].
    destruct (IsSpendable c h); cbn [negb]; [|by repeat case_bool_decide].
    destruct (h <? coin_height c); repeat case_bool_decide; try congruence; lia.
  - rewrite (bool_decide_eq_false_2 (y = x)), (bool_decide_eq_false_2 (Some y = Some x)) by congruence. by repeat case_bool_decide.
Qed.
Lemma wallet_value_classes : wallet_value v ks view h = own_sum ks h CConfirmed coins + own_sum ks h CUnconfirmed coins.
Proof.
  destruct own_hashes_spec as [E Hn]. unfold own_sum, isOwn. rewrite <- !class_sums_swap by done. rewrite E, <- sumZ_map_add.
  unfold wallet_value, wallet_coins. generalize (GetAddresses ks). intros l. induction l as [|a l IH]; [done|].
  cbn [flat_map omap list_omap]. rewrite coins_value_app, IH. unfold address_coins. destruct (own_hash v a) as [x|]; [|done].
  cbn [map]. rewrite sumZ_cons. f_equal. unfold coins_value, class_sum. rewrite map_map. clear. cbn [si_coin].
  induction (map_to_list view) as [|[o c] l IH]; [done|]. cbn [map List.filter snd]. rewrite !sumZ_cons.
  pose proof (spendable_classes x c) as Hc. destruct (match ExtractP2PKHHash _ with Some _ => _ | None => _ end); cbn [map snd];
    rewrite ?sumZ_cons, IH; lia.
Qed.

End Balance.

(** * The rescan *)

(** The scripts that pay to an address of the wallet, of any network. *)
Definition own_scripts {ossl : OpenSSL} (ks : CKeystore) : list bytes :=
  omap (fun a => '(_, h) ← DecodeAddress a; Some (BuildP2PKHScript h)) (GetAddresses ks).
Definition pays_wallet {ossl : OpenSSL} (ks : CKeystore) (tx : CTransaction) : bool :=
  existsb (fun o => bool_decide (out_scriptPubKey o ∈ own_scripts ks)) (tx_vout tx).
(** What [tx] pays to the wallet. *)
Definition paid {ossl : OpenSSL} (ks : CKeystore) (tx : CTransaction) : Z :=
  sumZ (map (fun o => if bool_decide (out_scriptPubKey o ∈ own_scripts ks) then out_value o else 0) (tx_vout tx)).
(** The transactions of a chain with their heights and blocks, in order. *)
Definition chain_txs (blks : list CBlock) : list (nat * CBlock * CTransaction) :=
  concat (imap (fun h blk => map (fun tx => (h, blk, tx)) (blk_vtx blk)) blks).
(** What the history says about a payment. *)
Definition tells {ossl : OpenSSL} (ks : CKeystore) (x : nat * CBlock * CTransaction) (r : WalletTxRecord) : Prop :=
  let '(h, blk, tx) := x in
  wr_txid r = GetTxID tx /\ wr_height r = Z.of_nat h /\ wr_amount r = i64 (paid ks tx) /\ wr_fee r = 0 /\
  wr_timestamp r = hdr_timestamp (blk_header blk) /\ wr_isCoinbase r = IsCoinBase tx /\ wr_address r = [].

Lemma DecodeAddress_length {ossl : OpenSSL} a v h : DecodeAddress a = Some (v, h) -> length h = 20%nat.
Proof.
  unfold DecodeAddress. destruct (DecodeBase58Check a) as [p|]; [|done].
  destruct (Z.eqb_spec (Z.of_nat (length p)) 21) as [Hl|]; [|done]. cbn [negb]. intros [= _ <-].
  rewrite length_take, length_drop. lia.
Qed.
Lemma isOwn_scripts {ossl : OpenSSL} ks script : isOwn ks script = bool_decide (script ∈ own_scripts ks).
Proof.
  apply eq_bool_prop_intro. rewrite bool_decide_spec. unfold isOwn, own_scripts, own_hashes. rewrite list_elem_of_omap. split.
  - destruct (ExtractP2PKHHash script) as [h|] eqn:E; [|done]. intros (o & Ho & Hb)%Is_true_true%existsb_exists.
    apply bool_decide_eq_true in Hb as ->. apply list_elem_of_In, list_elem_of_omap in Ho as (a & Ha & Hd). exists a. split; [done|].
    destruct (DecodeAddress a) as [[v h']|]; [|done]. injection Hd as ->. by rewrite (extract_p2pkh script h E).
  - intros (a & Ha & Hd). destruct (DecodeAddress a) as [[v h]|] eqn:Ed; [|done]. injection Hd as <-.
    rewrite (proj2 (p2pkh_template_exact [] h)) by (by eapply DecodeAddress_length). apply Is_true_true, existsb_exists. exists h. split; [|by apply bool_decide_eq_true].
    apply list_elem_of_In, list_elem_of_omap. exists a. split; [done|]. by rewrite Ed.
Qed.
Lemma received_paid {ossl : OpenSSL} ks tx : received ks tx = if pays_wallet ks tx then Some (i64 (paid ks tx)) else None.
Proof.
  unfold received, pays_wallet, paid. rewrite i64_sum_eq.
  assert (sumZ (map out_value (List.filter (fun o => isOwn ks (out_scriptPubKey o)) (tx_vout tx))) =
    sumZ (map (fun o => if bool_decide (out_scriptPubKey o ∈ own_scripts ks) then out_value o else 0) (tx_vout tx)) /\
    (existsb (fun o => bool_decide (out_scriptPubKey o ∈ own_scripts ks)) (tx_vout tx) = false <->
     List.filter (fun o => isOwn ks (out_scriptPubKey o)) (tx_vout tx) = [])) as [<- H].
  { induction (tx_vout tx) as [|o l [IH1 IH2]]; [done|]. cbn [List.filter map existsb]. rewrite isOwn_scripts, sumZ_cons, <- IH1.
    destruct (bool_decide _); cbn [map orb]; rewrite ?sumZ_cons; [done|]. split; [lia|exact IH2]. }
  destruct (existsb _ _), (List.filter _ _) as [|o l]; try done; [by discriminate (proj2 H eq_refl)|by discriminate (proj1 H eq_refl)].
Qed.

Section Rescan.
Context {ossl : OpenSSL} {laws : OpenSSLLaws ossl} {St : Type} {stor : IStorage St} {slaws : StorageLaws St} (ks : CKeystore).

Lemma read_active (P : St -> Prop) h x (n : Node St) : chain_inv (nd_chain n) -> readable P (ch_byHeight (nd_chain n)) -> P (nd_store n) ->
  ch_byHeight (nd_chain n) !! h = Some x ->
  exists blk s', GetBlockByHeight (Z.of_nat h) n = Done (Ok (Some blk), {| nd_chain := nd_chain n; nd_store := s' |}) /\ P s' /\ BlockHash blk = x.
Proof.
  intros Hc HP Hs Hx. pose proof (ci_length _ Hc) as Hlen. apply lookup_lt_Some in Hx as Hlt.
  destruct (HP (nd_store n) x Hs) as (blk & s' & E & Hs'); [by eapply list_elem_of_lookup_2|].
  exists blk, s'. split; [|split; [done|by eapply ReadBlock_hash]].
  unfold GetBlockByHeight, mbind, NodeM_bind, get_chain, vec_at, read_block.
  destruct (Z.ltb_spec (Z.of_nat h) 0); [lia|]. rewrite Z.gtb_ltb. destruct (Z.ltb_spec (ch_height (nd_chain n)) (Z.of_nat h)); [lia|].
  cbn [orb]. rewrite Nat2Z.id, Hx. unfold mret, NodeM_ret. by rewrite E.
Qed.
Lemma rescan_loop_exact (P : St -> Prop) c : chain_inv c -> readable P (ch_byHeight c) ->
  forall l h (n : Node St), nd_chain n = c -> P (nd_store n) -> drop h (ch_byHeight c) = l ->
  exists blks n', rescan_loop ks (length l) (Z.of_nat h) n = Done (Ok (concat (imap (fun i b => block_records ks (Z.of_nat (h + i)) b) blks)), n') /\
    map BlockHash blks = l /\ nd_chain n' = c /\ P (nd_store n').
Proof.
  intros Hc HP. induction l as [|x l IH]; intros h n Hn Hs Hl; [exists [], n; done|].
  assert (ch_byHeight c !! h = Some x) as Hx.
  { rewrite <- (Nat.add_0_r h), <- lookup_drop, Hl. done. }
  rewrite <- Hn in Hx. destruct (read_active P h x n) as (blk & s' & E & Hs' & Hb); [by rewrite Hn|by rewrite Hn|done|done|].
  assert (drop (S h) (ch_byHeight c) = l) as Hl'.
  { replace (S h) with (h + 1)%nat by lia. rewrite <- drop_drop, Hl. done. }
  destruct (IH (S h) {| nd_chain := nd_chain n; nd_store := s' |}) as (blks & n' & E' & Hm & Hn' & Hs2); [done|done|done|].
  exists (blk :: blks), n'. split; [|by cbn; rewrite Hb, Hm].
  cbn [length rescan_loop]. unfold mbind, NodeM_bind. rewrite E.
  replace (Z.of_nat h + 1) with (Z.of_nat (S h)) by lia. rewrite E'. unfold mret, NodeM_ret. do 3 f_equal.
  cbn [imap concat]. rewrite Nat.add_0_r. f_equal. f_equal. apply imap_ext. intros i b _. cbn. f_equal. lia.
Qed.
(** The records of a block, one by one. *)
Lemma block_records_tell h blk :
  Forall2 (tells ks) (List.filter (fun x => pays_wallet ks x.2) (map (fun tx => (h, blk, tx)) (blk_vtx blk))) (block_records ks (Z.of_nat h) blk).
Proof.
  unfold block_records. induction (blk_vtx blk) as [|tx l IH]; [constructor|]. cbn [map List.filter omap list_omap snd].
  rewrite received_paid. destruct (pays_wallet ks tx); cbn [fmap option_fmap option_map]; [|done]. by constructor.
Qed.
Lemma chain_records_tell blks :
  Forall2 (tells ks) (List.filter (fun x => pays_wallet ks x.2) (chain_txs blks)) (concat (imap (fun h b => block_records ks (Z.of_nat h) b) blks)).
Proof.
  unfold chain_txs. induction blks as [|b blks IH] using rev_ind; [constructor|]. rewrite !imap_app, !concat_app, List.filter_app.
  apply Forall2_app; [done|]. cbn [imap concat]. rewrite !app_nil_r. apply block_records_tell.
Qed.
End Rescan.

(** * Properties *)

(** C16: the balance the wallet shows is exact.  For a wallet whose keys are filed
    under their own addresses, and coins of no more than the money there is:
    each of the confirmed, unconfirmed and immature balances is the value of
    the coins locked to the wallet's addresses that are in that state, every
    such coin counted once and none else, without 64-bit overflow; what is
    shown as spendable is the confirmed balance, and together with the
    unconfirmed coins it is what the wallet can pay with. *)
Theorem wallet_balance_exact {ossl : OpenSSL} {olaws : OpenSSLLaws ossl} {ec : EcKeys ossl} {ecl : EcKeysLaws ec}
    {cph : Cipher} {cl : CipherLaws cph} v pw ks m view h :
  wallet_open v pw ks m -> view_ok view -> supply view <= MAX_MONEY ->
  let b := GetBalance v ks view h in let coins := map snd (map_to_list view) in
  (forall k, bl_get b k = own_sum ks h k coins) /\ bl_spendable b = bl_confirmed b /\
  bl_confirmed b + bl_unconfirmed b = wallet_value v ks view h /\
  0 <= bl_confirmed b + bl_unconfirmed b + bl_immature b <= supply view.
Proof.
  intros Hw Hv Hs b coins. pose proof (balance_classes v pw ks m Hw view Hv Hs h) as Hb. fold b coins in Hb.
  pose proof (Hb CConfirmed) as H1. pose proof (Hb CUnconfirmed) as H2. pose proof (Hb CImmature) as H3. cbn [bl_get] in *.
  destruct (own_sums_le ks h coins (view_ok_coins _ Hv)) as [Hpos Hle]. unfold coins in Hle at 4. rewrite map_values in Hle.
  pose proof (Hpos CConfirmed). pose proof (Hpos CUnconfirmed). pose proof (Hpos CImmature).
  split_and!; [done|done| |lia|unfold supply; lia]. rewrite H1, H2. symmetry. by eapply wallet_value_classes.
Qed.

(** C32: a rescan finds exactly the payments to the wallet.  In a node whose
    blocks can be read, the rescan reads the blocks of the active chain from the
    genesis block to the tip; the records it adds to the history are, one for
    one and in chain order, those of the transactions that have an output with
    the P2PKH script of one of the wallet's addresses, and each tells the
    transaction's id, the height of its block, the sum of those outputs in 64
    bits, the time of the block and whether it is a coinbase; the rescan
    returns how many there are, and leaves the chain as it is. *)
Theorem wallet_rescan_exact {ossl : OpenSSL} {laws : OpenSSLLaws ossl} {St : Type} {stor : IStorage St} {slaws : StorageLaws St}
    params (P : St -> Prop) ks history (n : Node St) :
  reachable params n -> readable P (ch_byHeight (nd_chain n)) -> P (nd_store n) ->
  exists blks recs n', WalletRescan ks history n = Done (Ok (Z.of_nat (length recs), history ++ recs), n') /\
    nd_chain n' = nd_chain n /\ map BlockHash blks = ch_byHeight (nd_chain n) /\
    Forall2 (tells ks) (List.filter (fun x => pays_wallet ks x.2) (chain_txs blks)) recs.
Proof.
  intros Hr HP Hs. apply reachable_inv in Hr as Hc.
  destruct (rescan_loop_exact ks P (nd_chain n) Hc HP (ch_byHeight (nd_chain n)) 0 n eq_refl Hs (drop_0 _)) as (blks & n' & E & Hm & Hn & _).
  exists blks, (concat (imap (fun h b => block_records ks (Z.of_nat h) b) blks)), n'. split_and!; [|done|done|by apply chain_records_tell].
  unfold WalletRescan, mbind, NodeM_bind, get_chain. replace (Z.to_nat (ch_height (nd_chain n) + 1)) with (length (ch_byHeight (nd_chain n))).
  - change 0 with (Z.of_nat 0). by rewrite E.
  - pose proof (ci_length _ Hc). lia.
Qed.

(** * Witnesses *)

Section BalanceWitness.
#[local] Existing Instance mini_ossl.
#[local] Existing Instance mini_ec.
#[local] Existing Instance toy_cipher.
Lemma wallet_balance_exact_witness :
  bl_confirmed (GetBalance wallet_default_version wit_store wit_coin_view 10) = supply wit_coin_view /\ 0 < supply wit_coin_view.
Proof.
  split; [|vm_compute; reflexivity].
  pose proof (proj1 (wallet_balance_exact wallet_default_version [1] wit_store wit_wallet_keys wit_coin_view 10 wit_wallet_open
    (proj1 wit_spendable_view) (proj1 (proj2 wit_spendable_view))) CConfirmed) as H. cbn [bl_get] in H. rewrite H. vm_compute. reflexivity.
Defined.
End BalanceWitness.

Section RescanWitness.
#[local] Existing Instance wit_handlers_ossl.
(** A block whose coinbase pays the wallet's one address, and the chain it
    extends. *)
Definition rescan_hash : bytes := repeat 7 20.
Definition rescan_wallet : CKeystore := {|
  ks_locked := true; ks_salt := []; ks_kek := [];
  ks_keys := {[Hash160ToAddress rescan_hash 0x1E := {|
    ke_address := Hash160ToAddress rescan_hash 0x1E; ke_ciphertext := []; ke_iv := []; ke_tag := []; ke_created := 0 |}]} |}.
Definition rescan_block : CBlock :=
  let cb := {| tx_version := 1;
    tx_vin := [{| in_prevout := {| op_hash := zero; op_n := 0xffffffff |}; in_scriptSig := [1; 1]; in_sequence := 0xffffffff |}];
    tx_vout := [{| out_value := 30 * COIN; out_scriptPubKey := BuildP2PKHScript rescan_hash |};
                {| out_value := 20 * COIN; out_scriptPubKey := [0x51] |}]; tx_lockTime := 0 |} in
  {| blk_header := {| hdr_version := 1; hdr_prevBlockHash := BlockHash (GetGenesisBlock TESTNET);
                      hdr_merkleRoot := default zero (ComputeMerkleRoot [cb]);
                      hdr_timestamp := 1717200600; hdr_bits := 0x1d00ffff; hdr_nonce := 0 |};
     blk_vtx := [cb] |}.
Definition rescan_node : Node MemStorage := run_state (TryAcceptBlock TESTNET rescan_block) wit_node0.
Lemma rescan_node_reachable : reachable TESTNET rescan_node.
Proof.
  eapply reach_block; [exact wit_node0_reachable|].
  apply (run_ok_runs (reorg_fail "") (TryAcceptBlock TESTNET rescan_block) wit_node0). vm_compute. reflexivity.
Qed.
Lemma rescan_node_hashes : ch_byHeight (nd_chain rescan_node) = [BlockHash (GetGenesisBlock TESTNET); BlockHash rescan_block].
Proof. vm_compute. reflexivity. Qed.
Lemma rescan_node_readable : readable (fun s => s = nd_store rescan_node) (ch_byHeight (nd_chain rescan_node)).
Proof.
  intros s h -> Hin. rewrite rescan_node_hashes in Hin. apply elem_of_cons in Hin as [->|Hin%list_elem_of_singleton].
  - exists (GetGenesisBlock TESTNET), (nd_store rescan_node). split; [|done]. apply read_pair. vm_compute. reflexivity.
  - subst h. exists rescan_block, (nd_store rescan_node). split; [|done]. apply read_pair. vm_compute. reflexivity.
Qed.
(** The rescan finds the 30 coins of the coinbase at height 1, and no more. *)
Lemma wallet_rescan_exact_witness :
  exists r n', WalletRescan rescan_wallet [] rescan_node = Done (Ok (1, [r]), n') /\
    wr_height r = 1 /\ wr_amount r = 30 * COIN /\ wr_isCoinbase r = true.
Proof.
  destruct (wallet_rescan_exact TESTNET (fun s => s = nd_store rescan_node) rescan_wallet [] rescan_node rescan_node_reachable
    rescan_node_readable eq_refl) as (blks & recs & n' & H & _ & Hb & Hr).
  assert (WalletRescan rescan_wallet [] rescan_node = Done (Ok (1, recs), n') /\ length recs = 1%nat) as [H1 Hl].
  { assert (match WalletRescan rescan_wallet [] rescan_node with Done (Ok (k, _), _) => k =? 1 | _ => false end = true) as E
      by (vm_compute; reflexivity).
    rewrite H in E. apply Z.eqb_eq in E. change ([] ++ recs) with recs in H. rewrite H, E. split; [reflexivity|lia]. }
  destruct recs as [|r [|]]; try discriminate Hl. exists r, n'. split; [exact H1|].
  assert (match WalletRescan rescan_wallet [] rescan_node with
    | Done (Ok (_, [r]), _) => (wr_height r =? 1) && (wr_amount r =? 30 * COIN) && wr_isCoinbase r | _ => false end = true) as E
    by (vm_compute; reflexivity).
  rewrite H1 in E. apply andb_true_iff in E as [[E1%Z.eqb_eq E2%Z.eqb_eq]%andb_true_iff E3]. split; [exact E1|]. split; [exact E2|exact E3].
Defined.
End RescanWitness.
