(* ===== verification/Text.v ===== *)
(** The members of [std::string] and the conversions the RPC server, the
    command line and the peer registry use: [find], [substr],
    [find_first_not_of], [rfind], [std::to_string], [atoi].  A string is the
    list of its characters, a position a natural number and [npos] is [None].

    The lemmas evaluate a search in a string that is put together from
    literal parts and parts that are only known not to contain a character. *)
From Stdlib Require Import Ascii.
From S2P Require Import Prelude Compact Value.
Import Value.

Definition text := list ascii.
(** A literal of the source. *)
Definition lit (s : string) : text := String.list_ascii_of_string s.
Definition DQ : ascii := chr 34.
Definition BSL : ascii := chr 92.
Definition CR : ascii := chr 13.
Definition LF : ascii := chr 10.
Definition TAB : ascii := chr 9.
Definition CRLF : text := [CR; LF].
(** A literal of JSON text: the apostrophe is written for the double quote. *)
Definition json (s : string) : text := map (fun c => if Ascii.eqb c "'" then DQ else c) (lit s).
Definition mem (c : ascii) (set : text) : bool := existsb (Ascii.eqb c) set.

Fixpoint starts_with (sub s : text) : bool :=
  match sub, s with
  | [], _ => true
  | a :: sub', b :: s' => Ascii.eqb a b && starts_with sub' s'
  | _ :: _, [] => false
  end.
(** [s.find(sub)] *)
Fixpoint find (sub s : text) : option nat :=
  if starts_with sub s then Some 0%nat
  else match s with [] => None | _ :: r => S <$> find sub r end.
(** [s.find(sub, pos)] *)
Definition find_from (sub s : text) (pos : nat) : option nat :=
  if (pos <=? length s)%nat then Nat.add pos <$> find sub (drop pos s) else None.
(** The position of the first character that satisfies [p]. *)
Fixpoint find_char (p : ascii -> bool) (s : text) : option nat :=
  match s with
  | [] => None
  | c :: r => if p c then Some 0%nat else S <$> find_char p r
  end.
Definition find_first_of (set s : text) (pos : nat) : option nat :=
  Nat.add pos <$> find_char (fun c => mem c set) (drop pos s).
Definition find_first_not_of (set s : text) (pos : nat) : option nat :=
  Nat.add pos <$> find_char (fun c => negb (mem c set)) (drop pos s).
Definition find_last_not_of (set s : text) : option nat :=
  (fun k => (length s - 1 - k)%nat) <$> find_char (fun c => negb (mem c set)) (rev s).
(** [s.rfind(c)] *)
Definition rfind (c : ascii) (s : text) : option nat :=
  (fun k => (length s - 1 - k)%nat) <$> find_char (Ascii.eqb c) (rev s).
(** [s.substr(pos, n)]: [std::out_of_range] when [pos] is after the end. *)
Definition substr (s : text) (pos n : nat) : option text :=
  if (pos <=? length s)%nat then Some (take n (drop pos s)) else None.
Definition substr_end (s : text) (pos : nat) : option text := substr s pos (length s).
(** [std::to_string] and [operator<<] on a 64-bit integer. *)
Definition to_string (z : Z) : text :=
  if z <? 0 then MINUS :: map digit_char (llu (- z)) else map digit_char (llu z).
(** [a.rfind(pref, 0) == 0 ? a.substr(pref.size())] *)
Definition strip_prefix (pref a : text) : option text :=
  if starts_with pref a then Some (drop (length pref) a) else None.
(** [s.find_first_not_of(set)] to [s.find_last_not_of(set)], the trimming the
    source writes out. *)
Definition trim (front back s : text) : option text :=
  match find_first_not_of front s 0, find_last_not_of back s with
  | Some a, Some e => Some (take (e - a + 1) (drop a s))
  | _, _ => None
  end.

(** * Prefixes *)

Lemma starts_with_spec sub s : starts_with sub s = true <-> exists t, s = sub ++ t.
Proof.
  revert s. induction sub as [|a sub IH]; intros s; cbn; [split; [by exists s|done]|].
  destruct s as [|b s]; [split; [done|by intros [t ?]]|].
  rewrite andb_true_iff, Ascii.eqb_eq, IH. split.
  - intros [-> [t ->]]. by exists t.
  - intros [t Ht]. injection Ht as -> ->. split; [done|by exists t].
Qed.
Lemma starts_with_app sub t : starts_with sub (sub ++ t) = true.
Proof. apply starts_with_spec. by exists t. Qed.
Lemma strip_prefix_app pref a : strip_prefix pref (pref ++ a) = Some a.
Proof. unfold strip_prefix. by rewrite starts_with_app, drop_app_length. Qed.
Lemma strip_prefix_spec pref a b : strip_prefix pref a = Some b <-> a = pref ++ b.
Proof.
  split; [|intros ->; apply strip_prefix_app].
  unfold strip_prefix. destruct (starts_with pref a) eqn:E; [|done].
  apply starts_with_spec in E as [t ->]. rewrite drop_app_length. by intros [= ->].
Qed.

(** * Searching *)

Lemma find_here sub t : find sub (sub ++ t) = Some 0%nat.
Proof. destruct (sub ++ t) eqn:E; cbn; rewrite <- E, starts_with_app; done. Qed.

(** What [find] returns: the first occurrence. *)
Lemma find_spec sub s i :
  find sub s = Some i <->
  starts_with sub (drop i s) = true /\ (i <= length s)%nat /\ forall j, (j < i)%nat -> starts_with sub (drop j s) = false.
Proof.
  revert i. induction s as [|c s IH]; intros i.
  - cbn. destruct (starts_with sub []) eqn:E.
    + split; [intros [= <-]; repeat split; [done|lia..]|]. intros (_ & Hl & _). f_equal. lia.
    + split; [done|]. intros (H & _). rewrite drop_nil in H. congruence.
  - cbn [find]. destruct (starts_with sub (c :: s)) eqn:E.
    + split.
      * intros [= <-]. repeat split; [done|lia..].
      * intros (_ & _ & H). destruct i as [|i]; [done|]. specialize (H 0%nat ltac:(lia)). cbn in H. congruence.
    + destruct i as [|i].
      * split; [by destruct (find sub s)|]. intros (H & _). cbn in H. congruence.
      * transitivity (find sub s = Some i); [destruct (find sub s); cbn; [|done]; split; [by intros [= ->]|by intros [= ->]]|].
        rewrite IH. cbn [drop length]. split; intros (H1 & H2 & H3); (split; [done|split; [lia|]]).
        -- intros [|j] Hj; [done|]. apply H3. lia.
        -- intros j Hj. apply (H3 (S j)). lia.
Qed.

(** No occurrence of [sub] starts in [a], whatever follows. *)
Definition clash (sub t : text) : bool := negb (starts_with sub t) && negb (starts_with t sub).
Fixpoint never (sub a : text) : bool :=
  match a with [] => true | _ :: r => clash sub a && never sub r end.

Lemma clash_app sub t x : clash sub t = true -> starts_with sub (t ++ x) = false.
Proof.
  unfold clash. revert t. induction sub as [|a sub IH]; intros [|b t]; cbn; [done..|].
  destruct (Ascii.eqb_spec a b) as [->|Hn]; [|done].
  rewrite Ascii.eqb_refl. cbn. apply IH.
Qed.
Lemma find_never sub a x : never sub a = true -> find sub (a ++ x) = Nat.add (length a) <$> find sub x.
Proof.
  induction a as [|c a IH]; cbn [never app length].
  - intros _. by destruct (find sub x).
  - intros [H1 H2]%andb_true_iff. cbn [find].
    pose proof (clash_app sub (c :: a) x H1) as Hc. cbn [app] in Hc. rewrite Hc, IH by done.
    by destruct (find sub x).
Qed.
Lemma clash_app_r sub t x : clash sub t = true -> clash sub (t ++ x) = true.
Proof.
  unfold clash. revert t. induction sub as [|a sub IH]; intros [|b t]; cbn; [done..|].
  rewrite (Ascii.eqb_sym b a). destruct (Ascii.eqb_spec a b) as [->|Hn]; cbn; [apply IH|done].
Qed.
Lemma never_app sub a b : never sub a = true -> never sub b = true -> never sub (a ++ b) = true.
Proof.
  intros Ha Hb. induction a as [|c a IH]; [done|]. cbn [never app] in *.
  apply andb_true_iff in Ha as [H1 H2]. pose proof (clash_app_r sub (c :: a) b H1) as Hc. cbn [app] in Hc.
  by rewrite Hc, IH.
Qed.
Lemma never_fresh c sub a : c ∉ a -> never (c :: sub) a = true.
Proof.
  induction a as [|d a IH]; [done|]. intros [Hd Ha]%not_elem_of_cons. cbn [never].
  rewrite IH by done. unfold clash. cbn. rewrite (Ascii.eqb_sym d c).
  by destruct (Ascii.eqb_spec c d).
Qed.

(** A search that succeeds inside a known part does not depend on the rest. *)
Lemma starts_with_extend sub a x : starts_with sub a = true -> starts_with sub (a ++ x) = true.
Proof. intros [t ->]%starts_with_spec. rewrite <- (assoc_L (++)). apply starts_with_app. Qed.
Lemma starts_with_length sub a : starts_with sub a = true -> (length sub <= length a)%nat.
Proof. intros [t ->]%starts_with_spec. rewrite length_app. lia. Qed.
Lemma starts_with_shrink sub a x :
  (length sub <= length a)%nat -> starts_with sub (a ++ x) = true -> starts_with sub a = true.
Proof.
  revert a. induction sub as [|s sub IH]; intros [|b a] Hl; cbn in *; [done..|lia|].
  intros [H1 H2]%andb_true_iff. rewrite H1. apply (IH a); [lia|done].
Qed.
Lemma find_inside sub a x i : find sub a = Some i -> find sub (a ++ x) = Some i.
Proof.
  rewrite !find_spec. intros (H1 & H2 & H3).
  pose proof (starts_with_length _ _ H1) as Hl. rewrite length_drop in Hl.
  rewrite drop_app_le by done. split; [by apply starts_with_extend|]. split; [rewrite length_app; lia|].
  intros j Hj. rewrite drop_app_le by lia. destruct (starts_with sub (drop j a ++ x)) eqn:E; [|done].
  rewrite <- (H3 j Hj). symmetry. eapply starts_with_shrink; [|done]. rewrite length_drop. lia.
Qed.

Lemma find_from_app sub p s : find_from sub (p ++ s) (length p) = Nat.add (length p) <$> find sub s.
Proof.
  unfold find_from. rewrite length_app. destruct (Nat.leb_spec (length p) (length p + length s)); [|lia].
  by rewrite drop_app_length.
Qed.
Lemma find_from_at sub p a s :
  never sub a = true -> find_from sub (p ++ a ++ sub ++ s) (length p) = Some (length p + length a)%nat.
Proof. intros H. rewrite find_from_app, find_never, find_here by done. cbn. f_equal. lia. Qed.

Lemma substr_app p a s : substr (p ++ a ++ s) (length p) (length a) = Some a.
Proof.
  unfold substr. rewrite length_app. destruct (Nat.leb_spec (length p) (length p + length (a ++ s))); [|lia].
  by rewrite drop_app_length, take_app_length.
Qed.
Lemma substr_end_app p s : substr_end (p ++ s) (length p) = Some s.
Proof.
  unfold substr_end, substr. rewrite length_app. destruct (Nat.leb_spec (length p) (length p + length s)); [|lia].
  rewrite drop_app_length. f_equal. apply take_ge. lia.
Qed.

(** * Trimming and numbers *)

Lemma find_char_head p c s : p c = true -> find_char p (c :: s) = Some 0%nat.
Proof. intros H. cbn. by rewrite H. Qed.

Lemma mem_spec c set : mem c set = true <-> c ∈ set.
Proof.
  unfold mem. rewrite existsb_exists. split.
  - intros (x & Hin & ->%Ascii.eqb_eq). by apply list_elem_of_In.
  - intros H. exists c. rewrite Ascii.eqb_refl. split; [by apply list_elem_of_In|done].
Qed.

(** Trimming leaves a text alone that starts and ends with other characters. *)
Lemma find_char_skip p pre s :
  Forall (fun c => p c = false) pre -> find_char p (pre ++ s) = Nat.add (length pre) <$> find_char p s.
Proof.
  induction 1 as [|c pre H _ IH]; cbn; [by destruct (find_char p s)|].
  rewrite H, IH. by destruct (find_char p s).
Qed.
Lemma trim_core front back pre c s d :
  Forall (fun x => mem x front = true) pre -> mem c front = false -> mem d back = false ->
  trim front back (pre ++ c :: s ++ [d]) = Some (c :: s ++ [d]).
Proof.
  intros Hp Hc Hd. unfold trim, find_first_not_of, find_last_not_of. rewrite drop_0.
  rewrite find_char_skip by (eapply Forall_impl; [done|]; intros x Hx; cbn; by rewrite Hx).
  rewrite find_char_head by (cbn; by rewrite Hc).
  replace (rev (pre ++ c :: s ++ [d])) with (d :: rev (pre ++ c :: s)) by (rewrite !rev_app_distr; cbn; rewrite rev_app_distr; cbn; rewrite <- (assoc_L (++)); done).
  rewrite find_char_head by (cbn; by rewrite Hd). cbn [fmap option_fmap option_map].
  f_equal. rewrite Nat.add_0_r, Nat.add_0_l, drop_app_length. apply take_ge. rewrite length_app. lia.
Qed.

Lemma dec_digits_range fuel n : 0 <= n -> Forall (fun d => 0 <= d < 10) (dec_digits fuel n).
Proof.
  revert n. induction fuel as [|k IH]; intros n Hn; cbn; [constructor|].
  assert (0 <= n mod 10 < 10) by (apply Z.mod_pos_bound; lia).
  destruct (n / 10 =? 0); [by apply Forall_singleton|].
  apply Forall_app. split; [apply IH; apply Z.div_pos; lia|by apply Forall_singleton].
Qed.
Lemma to_string_digits z : Forall (fun c => c = MINUS \/ exists d, 0 <= d < 10 /\ c = digit_char d) (to_string z).
Proof.
  assert (forall n, 0 <= n -> Forall (fun c => c = MINUS \/ exists d, 0 <= d < 10 /\ c = digit_char d) (map digit_char (llu n))) as H.
  { intros n Hn. apply Forall_fmap. eapply Forall_impl; [by apply dec_digits_range|]. intros d Hd. right. by exists d. }
  unfold to_string. destruct (Z.ltb_spec z 0); [constructor; [by left|]|]; apply H; lia.
Qed.
(** A number contains no character other than digits and the minus sign. *)
Lemma to_string_no c z :
  c <> MINUS -> existsb (fun d => Ascii.eqb (digit_char d) c) [0;1;2;3;4;5;6;7;8;9] = false -> c ∉ to_string z.
Proof.
  intros Hm Hd Hin. pose proof (to_string_digits z) as H. rewrite Forall_forall in H.
  destruct (H c Hin) as [|(d & Hr & ->)]; [done|].
  assert (d = 0 \/ d = 1 \/ d = 2 \/ d = 3 \/ d = 4 \/ d = 5 \/ d = 6 \/ d = 7 \/ d = 8 \/ d = 9) as Hc by lia.
  revert Hd. repeat (destruct Hc as [->|Hc]; [vm_compute; done|]). subst. by vm_compute.
Qed.

(** Searches that end inside a known prefix. *)
Lemma find_from_inside sub a x pos i : find_from sub a pos = Some i -> find_from sub (a ++ x) pos = Some i.
Proof.
  unfold find_from. rewrite length_app. destruct (Nat.leb_spec pos (length a)); [|done].
  destruct (Nat.leb_spec pos (length a + length x)); [|lia]. rewrite drop_app_le by done.
  destruct (find sub (drop pos a)) as [k|] eqn:E; [|done]. by rewrite (find_inside _ _ x _ E).
Qed.
Lemma find_char_inside p a x i : find_char p a = Some i -> find_char p (a ++ x) = Some i.
Proof.
  revert i. induction a as [|c a IH]; intros i; [done|]. cbn. destruct (p c); [done|].
  destruct (find_char p a) as [k|]; [|done]. by rewrite (IH k).
Qed.
Lemma find_first_of_inside set a x pos i :
  (pos <= length a)%nat -> find_first_of set a pos = Some i -> find_first_of set (a ++ x) pos = Some i.
Proof.
  intros Hp. unfold find_first_of. rewrite drop_app_le by done.
  destruct (find_char _ (drop pos a)) as [k|] eqn:E; [|done]. by rewrite (find_char_inside _ _ x _ E).
Qed.
Lemma find_first_not_of_inside set a x pos i :
  (pos <= length a)%nat -> find_first_not_of set a pos = Some i -> find_first_not_of set (a ++ x) pos = Some i.
Proof.
  intros Hp. unfold find_first_not_of. rewrite drop_app_le by done.
  destruct (find_char _ (drop pos a)) as [k|] eqn:E; [|done]. by rewrite (find_char_inside _ _ x _ E).
Qed.
