(* ===== verification/Connect.v ===== *)
(** Outgoing connections: [ConnectTo], [AddTarget] and the redial loop of
    [p2p/server.cpp], and the [host:port] strings the node, its command line
    and its RPC interface pass around.

    The name lookup and the [connect] call are a parameter: the socket they
    give, if any. *)
From Stdlib Require Import Ascii.
From S2P Require Import Prelude Config UInt256 Compact Crypto Transaction Value KeyStore Block Protocol Net Daemon Text.
Import Value.
Open Scope cdx_scope.

Definition of_text (t : text) : string := String.string_of_list_ascii t.
Definition host_port (host : text) (port : Z) : text := host ++ lit ":" ++ to_string port.
(** [colon = t.rfind(':')]; the host before it and [(uint16_t)atoi] of what
    follows, [None] without a colon. *)
Definition split_host_port (t : text) : option (text * Z) :=
  colon ← rfind ":"%char t;
  Some (take colon t, u16 (atoi (of_text (drop (colon + 1) t)))).

Section Connect.
Context {ossl : OpenSSL} (magic : Z).
Context (write : Z -> bytes -> bool * bytes).
(** The socket a connection to a host and port gets. *)
Context (dial : text -> Z -> option Z).
Context (now localNonce : Z).

Definition outbound_version : CVersionMessage := {|
  v_version := v_version default_version; v_services := v_services default_version; v_timestamp := now;
  v_addrMe := v_addrMe default_version; v_addrYou := v_addrYou default_version; v_nonce := localNonce;
  v_userAgent := v_userAgent default_version; v_startHeight := v_startHeight default_version; v_relay := v_relay default_version |}.

Definition ConnectTo (s : CNetServer) (host : text) (port : Z) : CNetServer * bool * list (Z * bytes) :=
  match dial host port with
  | None => (s, false, [])
  | Some fd =>
      match add_peer s (new_node fd (chars_bytes (host_port host port)) false) with
      | None => (s, false, [])
      | Some s =>
          let '(s, _, out) := SendTo magic write s fd (string_bytes "version") (SerializeVersion outbound_version) in
          (s, true, out)
      end
  end.

Definition AddTarget (s : CNetServer) (host : text) (port : Z) : CNetServer * list (Z * bytes) :=
  let t := chars_bytes (host_port host port) in
  if existsb (fun x => bool_decide (x = t)) (sv_targets s) then (s, [])
  else
    let s := {| sv_peers := sv_peers s; sv_targets := sv_targets s ++ [t] |} in
    let '(s, _, out) := ConnectTo s host port in (s, out).

(** One round of [ConnectLoop] over the copied targets. *)
Fixpoint redial (todo : list bytes) (s : CNetServer) : CNetServer * list (Z * bytes) :=
  match todo with
  | [] => (s, [])
  | t :: r =>
      if HasTargetConnection s t then redial r s
      else match split_host_port (string_chars t) with
           | None => redial r s
           | Some (host, port) =>
               let '(s, _, out) := ConnectTo s host port in
               let '(s, out') := redial r s in (s, out ++ out')
           end
  end.
Definition ConnectLoop_round (s : CNetServer) : CNetServer * list (Z * bytes) := redial (sv_targets s) s.

End Connect.

(** * Decimal strings *)

Lemma skip_spaces_head c s : is_space c = false -> skip_spaces (c :: s) = c :: s.
Proof. intros H. cbn. by rewrite H. Qed.
Lemma digit_facts d : is_dec d -> is_digit (digit_char d) = true /\ is_space (digit_char d) = false.
Proof.
  intros Hd. unfold is_digit, is_space. rewrite (ascii_Z_digit d Hd). unfold is_dec in Hd. split.
  - apply andb_true_iff. split; apply Z.leb_le; lia.
  - apply orb_false_iff. split; [apply Z.eqb_neq; lia|]. apply andb_false_iff. right. apply Z.leb_gt. lia.
Qed.
Lemma read_digits_all ds acc : Forall is_dec ds -> read_digits (map digit_char ds) acc = dval_from acc ds.
Proof.
  intros H. revert acc. induction H as [|d ds Hd _ IH]; intros acc; [done|]. cbn [map read_digits].
  destruct (digit_facts d Hd) as [-> _]. rewrite IH, (ascii_Z_digit d Hd).
  by replace (acc * 10 + (48 + d - 48)) with (10 * acc + d) by lia.
Qed.
Lemma strtol_to_string z : is_i64 z -> strtol (of_text (to_string z)) = z.
Proof.
  intros Hz. unfold is_i64 in Hz. unfold strtol, of_text, to_string. rewrite String.list_ascii_of_string_of_list_ascii.
  destruct (Z.ltb_spec z 0).
  - destruct (llu_spec (- z)) as (Hd & Hv & Hn); [unfold is_u64; lia|].
    rewrite skip_spaces_head by done. change MINUS with "-"%char. cbv beta zeta iota.
    rewrite read_digits_all by done. change (dval_from 0 (llu (- z))) with (dval (llu (- z))). rewrite Hv. lia.
  - destruct (llu_spec z) as (Hd & Hv & Hn); [unfold is_u64; lia|].
    pose proof (read_digits_all (llu z) 0 Hd) as Hr. change (dval_from 0 (llu z)) with (dval (llu z)) in Hr. rewrite Hv in Hr.
    destruct (llu z) as [|d ds]; [done|]. apply Forall_cons in Hd as [Hd0 _]. cbn [map] in *.
    rewrite skip_spaces_head by apply digit_facts, Hd0.
    destruct (digit_char_special d Hd0) as (_ & Hm & Hp).
    set (c := digit_char d) in *. set (r := map digit_char ds) in *. clearbody c r.
    revert Hm Hp Hr. clear - Hz H. change MINUS with "-"%char. change PLUS with "+"%char.
    destruct c as [[] [] [] [] [] [] [] []]; cbv beta zeta iota; intros Hm Hp Hr; (congruence || (rewrite Hr; lia)).
Qed.
Lemma atoi_to_string z : is_i32 z -> atoi (of_text (to_string z)) = z.
Proof.
  intros Hz. unfold atoi. rewrite strtol_to_string by (unfold is_i32, is_i64 in *; lia).
  unfold i32, is_i32 in *. rewrite Z.mod_small; lia.
Qed.

(** * Hosts and ports *)

Lemma rfind_last c p s : c ∉ s -> rfind c (p ++ c :: s) = Some (length p).
Proof.
  intros Hs. unfold rfind. rewrite rev_app_distr. cbn [rev]. rewrite <- (assoc_L (++)).
  rewrite find_char_skip.
  - cbn [app find_char]. rewrite Ascii.eqb_refl. cbn. f_equal. rewrite length_rev, length_app. cbn [length]. lia.
  - apply Forall_forall. intros x Hx. apply list_elem_of_In, in_rev, list_elem_of_In in Hx.
    destruct (Ascii.eqb_spec c x); [by subst|done].
Qed.
Lemma to_string_no_colon z : ":"%char ∉ to_string z.
Proof. by apply to_string_no; vm_compute. Qed.
(** A target is taken apart into the host and port it was made of, whatever
    colons the host has. *)
Lemma split_join host port : is_u16 port -> split_host_port (host_port host port) = Some (host, port).
Proof.
  intros Hp. unfold split_host_port, host_port. cbn [lit String.list_ascii_of_string app].
  rewrite rfind_last by apply to_string_no_colon. cbn [mbind option_bind].
  replace (host ++ ":"%char :: to_string port) with ((host ++ lit ":") ++ to_string port) by (by rewrite <- (assoc_L (++))).
  replace (drop (length host + 1) _) with (to_string port).
  2:{ replace (length host + 1)%nat with (length (host ++ lit ":")) by (by rewrite length_app). by rewrite drop_app_length. }
  rewrite <- (assoc_L (++)), take_app_length. rewrite atoi_to_string by (unfold is_i32, is_u16 in *; lia).
  unfold u16. rewrite Z.mod_small by done. done.
Qed.

(** * Connections *)

Section ConnectFacts.
Context {ossl : OpenSSL} (magic : Z).
Context (write : Z -> bytes -> bool * bytes) (dial : text -> Z -> option Z) (now localNonce : Z).
Abbreviation connect := (ConnectTo magic write dial now localNonce).
Abbreviation round := (ConnectLoop_round magic write dial now localNonce).
Abbreviation redials := (redial magic write dial now localNonce).

Lemma HasTargetConnection_spec s t :
  HasTargetConnection s t = true <->
  exists fd n, sv_peers s !! fd = Some n /\ n_inbound n = false /\ n_addr n = t /\ n_disconnected n = false.
Proof.
  unfold HasTargetConnection. rewrite existsb_exists. split.
  - intros (n & Hin & [[H1 H2%bool_decide_eq_true]%andb_true_iff H3]%andb_true_iff).
    apply in_map_iff in Hin as ([fd n'] & <- & Hin). apply list_elem_of_In, elem_of_map_to_list in Hin.
    exists fd, n'. apply negb_true_iff in H1, H3. done.
  - intros (fd & n & Hl & H1 & H2 & H3). exists n. split.
    + apply in_map_iff. exists (fd, n). split; [done|]. by apply list_elem_of_In, elem_of_map_to_list.
    + rewrite H1, H3. by rewrite bool_decide_eq_true_2.
Qed.

(** The table after a connection was made and the version message went out. *)
Definition connected (s : CNetServer) (fd : Z) (t : bytes) : CNetServer :=
  {| sv_peers := <[fd := new_node fd t false]> (sv_peers s); sv_targets := sv_targets s |}.
Lemma ConnectTo_ok s host port fd :
  dial host port = Some fd -> (size (sv_peers s) < 32)%nat -> (forall f, (write fd f).1 = true) ->
  exists out, connect s host port = (connected s fd (chars_bytes (host_port host port)), true, out).
Proof.
  intros Hd Hs Hw. unfold ConnectTo, add_peer. rewrite Hd. destruct (Nat.leb_spec 32 (size (sv_peers s))); [lia|].
  unfold SendTo. destruct (BuildMessage _ _ _) as [f|]; [|by eexists].
  cbn [sv_peers]. change (n_fd (new_node fd (chars_bytes (host_port host port)) false)) with fd. rewrite lookup_insert_eq.
  specialize (Hw f). destruct (write fd f) as [ok out]. cbn in Hw. subst ok. by eexists.
Qed.
Lemma connected_has s fd t : HasTargetConnection (connected s fd t) t = true.
Proof. apply HasTargetConnection_spec. exists fd, (new_node fd t false). cbn [connected sv_peers]. by rewrite lookup_insert_eq. Qed.
Lemma connected_keeps s fd t t' :
  sv_peers s !! fd = None -> HasTargetConnection s t' = true -> HasTargetConnection (connected s fd t) t' = true.
Proof.
  intros Hf (fd' & n & Hl & H)%HasTargetConnection_spec. apply HasTargetConnection_spec. exists fd', n.
  cbn [connected sv_peers]. rewrite lookup_insert_ne by congruence. done.
Qed.
Lemma redial_idle todo s : Forall (fun t => HasTargetConnection s t = true) todo -> redials todo s = (s, []).
Proof. induction 1 as [|t todo Ht _ IH]; [done|]. cbn [redial]. by rewrite Ht. Qed.

(** A target is dialled until it is connected and then left alone.  When
    every other target is connected, the name lookup and [connect] give an
    unused socket and there is room in the peer table, one round of the redial
    loop connects to the host and port the target was added with (whatever
    colons the host has), tells the peer its version, and keeps every other
    connection; the next round does nothing. *)
Theorem target_redialled s host port fd :
  is_u16 port -> chars_bytes (host_port host port) ∈ sv_targets s ->
  HasTargetConnection s (chars_bytes (host_port host port)) = false ->
  (forall t, t ∈ sv_targets s -> t <> chars_bytes (host_port host port) -> HasTargetConnection s t = true) ->
  dial host port = Some fd -> sv_peers s !! fd = None -> (size (sv_peers s) < 32)%nat -> (forall f, (write fd f).1 = true) ->
  exists out, round s = (connected s fd (chars_bytes (host_port host port)), out) /\
    round (connected s fd (chars_bytes (host_port host port))) = (connected s fd (chars_bytes (host_port host port)), []).
Proof.
  intros Hp Hin Hnot Hoth Hd Hf Hs Hw. set (t := chars_bytes (host_port host port)) in *.
  assert (Forall (fun t' => HasTargetConnection (connected s fd t) t' = true) (sv_targets s)) as Hall.
  { apply Forall_forall. intros t' Ht'. destruct (decide (t' = t)) as [->|Hne]; [apply connected_has|].
    apply connected_keeps; [done|by apply Hoth]. }
  unfold ConnectLoop_round. change (sv_targets (connected s fd t)) with (sv_targets s).
  destruct (ConnectTo_ok s host port fd Hd Hs Hw) as [out Hc]. fold t in Hc.
  exists out. split; [|by apply redial_idle]. clear Hs.
  induction (sv_targets s) as [|t' todo IH]; [by apply not_elem_of_nil in Hin|].
  apply Forall_cons in Hall as [_ Hall]. cbn [redial]. destruct (decide (t' = t)) as [->|Hne].
  - rewrite Hnot. unfold t at 1. rewrite string_chars_bytes, split_join by done.
    rewrite Hc, redial_idle by done. by rewrite app_nil_r.
  - rewrite (Hoth t') by (done || left). apply elem_of_cons in Hin as [?|Hin]; [congruence|]. apply IH; [done| |done].
    intros x Hx. apply Hoth. by right.
Qed.
End ConnectFacts.

(** * Witnesses *)

Lemma target_redialled_witness :
  let t := chars_bytes (host_port (lit "fd::1") 19333) in
  let s := {| sv_peers := ∅; sv_targets := [t] |} in
  exists out, ConnectLoop_round (ossl := toy_ossl) 0xCDA1CD01 (fun _ f => (true, f)) (fun _ _ => Some 7) 0 1 s = (connected s 7 t, out) /\
    ConnectLoop_round (ossl := toy_ossl) 0xCDA1CD01 (fun _ f => (true, f)) (fun _ _ => Some 7) 0 1 (connected s 7 t) = (connected s 7 t, []).
Proof.
  intros t s. apply (target_redialled (ossl := toy_ossl) 0xCDA1CD01 (fun _ f => (true, f)) (fun _ _ => Some 7) 0 1 s (lit "fd::1") 19333 7).
  - unfold is_u16. lia.
  - left.
  - reflexivity.
  - intros x Hx Hne. apply elem_of_cons in Hx as [->|Hx]; [contradiction|]. apply elem_of_nil in Hx. contradiction.
  - reflexivity.
  - reflexivity.
  - vm_compute. lia.
  - reflexivity.
Defined.
