(* ===== verification/NetThreads.v ===== *)
(** The threads of the P2P server and the descriptors they own:
    [Start], [Stop], [AcceptLoop], [ConnectLoop], [ConnectTo] and [ReadLoop] of
    [p2p/server.cpp].  [Net] and [Connect] model what these functions do with
    the bytes and the peer table; here they are threads that run at the same
    time on shared [CNode] objects, the peer table and the process's
    descriptors.

    A step is what a thread does up to its next access to shared data: a
    section under [peersMutex], one system call, or one access to
    [node->fd], [listenFd] or [running].  The system chooses the results of the
    calls; a new descriptor is any number that is not open.  Other parts of the
    process open and close descriptors of their own at any time. *)
From S2P Require Import Prelude Config Crypto Value Protocol Net Daemon Text Connect.
Import Value.

(** * State *)

(** Who opened a descriptor. *)
Inductive owner := OwEnv | OwListen | OwConn (k : nat).

(** Where the thread that serves a connection is.  [KDial] and [KSock]: the
    descriptor is a local variable of [ConnectTo] or [AcceptLoop], before and
    after the connection is made; [KReg]: the node is in the table and its
    reader is not started; then the places of [ReadLoop]: the loop test, the
    call of [recv] on a descriptor already read, after the loop, after the
    erasure, after the test of [node->fd >= 0], after [close]. *)
Inductive kpc := KDial | KSock | KReg | KLoop | KRecv (v : Z) | KLeft | KErased | KTest | KClosed | KDone.

(** A connection: the [CNode] that the table and its reader share. *)
Record Conn := { k_fd : Z; k_disc : bool; k_pc : kpc }.

(** A thread that makes connections: the accepting thread, the connecting
    thread, and any caller of [ConnectTo] or [AddTarget].  [OReady]: it has seen
    [running]; [ODial n]: [n] addresses left to try; [OHold k n]: it is making
    connection [k]. *)
Inductive opener := OIdle | OReady | ODial (n : nat) | OHold (k n : nat) | ODone.
Definition acceptThread : nat := 0.
Definition connectThread : nat := 1.

(** [Stop]: not called; [running] cleared; listening descriptor closed; set to
    -1; connecting thread joined; table cleared; accepting thread joined. *)
Inductive stop_pc := SIdle | SFlag | SClosing | SListen | SJoined | SCleared | SDone.

Record Threads := {
  t_open : gmap Z owner;
  t_running : bool;
  t_listenFd : Z;
  t_peers : gmap Z nat;
  t_conns : list Conn;
  t_openers : list opener;
  t_stop : stop_pc
}.

(** ** Updates *)
Definition set_open (f : gmap Z owner -> gmap Z owner) (s : Threads) : Threads := {|
  t_open := f (t_open s); t_running := t_running s; t_listenFd := t_listenFd s; t_peers := t_peers s;
  t_conns := t_conns s; t_openers := t_openers s; t_stop := t_stop s |}.
Definition set_peers (f : gmap Z nat -> gmap Z nat) (s : Threads) : Threads := {|
  t_open := t_open s; t_running := t_running s; t_listenFd := t_listenFd s; t_peers := f (t_peers s);
  t_conns := t_conns s; t_openers := t_openers s; t_stop := t_stop s |}.
Definition set_conns (f : list Conn -> list Conn) (s : Threads) : Threads := {|
  t_open := t_open s; t_running := t_running s; t_listenFd := t_listenFd s; t_peers := t_peers s;
  t_conns := f (t_conns s); t_openers := t_openers s; t_stop := t_stop s |}.
Definition set_opener (i : nat) (o : opener) (s : Threads) : Threads := {|
  t_open := t_open s; t_running := t_running s; t_listenFd := t_listenFd s; t_peers := t_peers s;
  t_conns := t_conns s; t_openers := <[i := o]> (t_openers s); t_stop := t_stop s |}.
Definition set_stop (running : bool) (listenFd : Z) (p : stop_pc) (s : Threads) : Threads := {|
  t_open := t_open s; t_running := running; t_listenFd := listenFd; t_peers := t_peers s;
  t_conns := t_conns s; t_openers := t_openers s; t_stop := p |}.
Definition set_conn (k : nat) (c : Conn) : Threads -> Threads := set_conns (<[k := c]>).
Definition at_pc (c : Conn) (p : kpc) : Conn := {| k_fd := k_fd c; k_disc := k_disc c; k_pc := p |}.
Definition mark (c : Conn) (p : kpc) : Conn := {| k_fd := k_fd c; k_disc := true; k_pc := p |}.
Definition no_fd (c : Conn) (p : kpc) : Conn := {| k_fd := -1; k_disc := k_disc c; k_pc := p |}.

(** A number the system may give to a new descriptor. *)
Definition fresh (fd : Z) (s : Threads) : Prop := 0 <= fd /\ t_open s !! fd = None.
(** The system call that makes connection [k], numbered as they come. *)
Definition new_conn (fd : Z) (p : kpc) (i n : nat) (s : Threads) : Threads :=
  set_opener i (OHold (length (t_conns s)) n)
    (set_open (<[fd := OwConn (length (t_conns s))]>) (set_conns (fun l => l ++ [{| k_fd := fd; k_disc := false; k_pc := p |}]) s)).

(** The calls of [close] of a step: on whose behalf, and which number. *)
Definition closes := list (owner * Z).
Definition close (fd : Z) : Threads -> Threads := set_open (delete fd).

(** * Start *)

(** A server before [Start], in a process with the descriptors [env]. *)
Definition new_server (callers : nat) (env : gmap Z owner) : Threads := {|
  t_open := env; t_running := false; t_listenFd := -1; t_peers := ∅; t_conns := [];
  t_openers := ODone :: ODone :: replicate callers OIdle; t_stop := SIdle |}.
(** [Start], with the results of [socket], [bind] and [listen]; on success the
    two threads run. *)
Definition Start (port : Z) (sock : option Z) (bindOk listenOk : bool) (s : Threads) : res unit * Threads :=
  if t_running s then (Ok (), s)
  else match sock with
  | None => (Err "cannot create socket", set_stop false (-1) (t_stop s) s)
  | Some fd =>
      let opened := set_open (<[fd := OwListen]>) s in
      if negb bindOk then
        (Err (String.append "cannot bind to port " (of_text (to_string port))), set_stop false (-1) (t_stop s) (close fd opened))
      else if negb listenOk then (Err "cannot listen", set_stop false (-1) (t_stop s) (close fd opened))
      else (Ok (), set_opener connectThread OIdle (set_opener acceptThread OIdle (set_stop true fd (t_stop s) opened)))
  end.

(** * The threads *)

(** [AcceptLoop] up to the node: the loop test, a failed [accept], a new
    connection.  [accept] gives one only on the listening socket: once that is
    closed, its number can only become one that does not listen. *)
Inductive accept_step (s : Threads) : Threads -> Prop :=
| accept_test : t_openers s !! acceptThread = Some OIdle ->
    accept_step s (set_opener acceptThread (if t_running s then OReady else ODone) s)
| accept_none : t_openers s !! acceptThread = Some OReady ->
    accept_step s (set_opener acceptThread OIdle s)
| accept_conn fd : t_openers s !! acceptThread = Some OReady -> t_open s !! t_listenFd s = Some OwListen -> fresh fd s ->
    accept_step s (new_conn fd KSock acceptThread 0 s).

(** [ConnectLoop]: the test before each target that has no connection; [n] is
    the number of addresses [getaddrinfo] gives.  A caller of [AddTarget] dials
    without it. *)
Inductive connect_step (s : Threads) : Threads -> Prop :=
| connect_test n : t_openers s !! connectThread = Some OIdle ->
    connect_step s (set_opener connectThread (if t_running s then ODial n else ODone) s).
Inductive call_step (s : Threads) : Threads -> Prop :=
| call_dial i n : (connectThread < i)%nat -> t_openers s !! i = Some OIdle -> call_step s (set_opener i (ODial n) s).

(** The address loop of [ConnectTo]: [socket] fails or gives a descriptor; the
    connection fails, by error or timeout, and the descriptor is closed, or it
    is made; no address is left. *)
Inductive dial_step (s : Threads) : closes -> Threads -> Prop :=
| dial_nosock i n : i <> acceptThread -> t_openers s !! i = Some (ODial (S n)) -> dial_step s [] (set_opener i (ODial n) s)
| dial_sock i n fd : i <> acceptThread -> t_openers s !! i = Some (ODial (S n)) -> fresh fd s ->
    dial_step s [] (new_conn fd KDial i n s)
| dial_fail i k n c : i <> acceptThread -> t_openers s !! i = Some (OHold k n) -> t_conns s !! k = Some c -> k_pc c = KDial ->
    dial_step s [(OwConn k, k_fd c)] (set_opener i (ODial n) (set_conn k (at_pc c KDone) (close (k_fd c) s)))
| dial_done i k n c : t_openers s !! i = Some (OHold k n) -> t_conns s !! k = Some c -> k_pc c = KDial ->
    dial_step s [] (set_conn k (at_pc c KSock) s)
| dial_none i : i <> acceptThread -> t_openers s !! i = Some (ODial 0) -> dial_step s [] (set_opener i OIdle s).

(** What [AcceptLoop] and [ConnectTo] do with a connection: under the lock it is
    closed when there are 32 peers, otherwise put into the table; then its
    reader is started. *)
Inductive register_step (s : Threads) : closes -> Threads -> Prop :=
| register_full i k n c : t_openers s !! i = Some (OHold k n) -> t_conns s !! k = Some c -> k_pc c = KSock ->
    (32 <= size (t_peers s))%nat ->
    register_step s [(OwConn k, k_fd c)] (set_opener i OIdle (set_conn k (at_pc c KDone) (close (k_fd c) s)))
| register_peer i k n c : t_openers s !! i = Some (OHold k n) -> t_conns s !! k = Some c -> k_pc c = KSock ->
    (size (t_peers s) < 32)%nat ->
    register_step s [] (set_peers (<[k_fd c := k]>) (set_conn k (at_pc c KReg) s))
| register_spawn i k n c : t_openers s !! i = Some (OHold k n) -> t_conns s !! k = Some c -> k_pc c = KReg ->
    register_step s [] (set_opener i OIdle (set_conn k (at_pc c KLoop) s)).

(** [ReadLoop]: the loop test; [recv] and what follows, which goes on ([disc]:
    [ProcessBuffer] marked the node) or leaves the loop; the erasure; the test
    of [node->fd]; [close]; the assignment.  The descriptor passed to [recv] is
    read with the test, the earliest it can be: a later read gives it or -1,
    and the call on -1 is one that leaves the loop. *)
Inductive read_step (s : Threads) : closes -> Threads -> Prop :=
| read_test k c : t_conns s !! k = Some c -> k_pc c = KLoop ->
    read_step s [] (set_conn k (if t_running s && negb (k_disc c) then at_pc c (KRecv (k_fd c)) else mark c KLeft) s)
| read_more k c v (disc : bool) : t_conns s !! k = Some c -> k_pc c = KRecv v ->
    read_step s [] (set_conn k (if disc then mark c KLoop else at_pc c KLoop) s)
| read_break k c v : t_conns s !! k = Some c -> k_pc c = KRecv v -> read_step s [] (set_conn k (mark c KLeft) s)
| read_erase k c : t_conns s !! k = Some c -> k_pc c = KLeft ->
    read_step s [] (set_conn k (at_pc c KErased) (set_peers (delete (k_fd c)) s))
| read_checkfd k c : t_conns s !! k = Some c -> k_pc c = KErased ->
    read_step s [] (set_conn k (at_pc c (if 0 <=? k_fd c then KTest else KDone)) s)
| read_close k c : t_conns s !! k = Some c -> k_pc c = KTest ->
    read_step s [(OwConn k, k_fd c)] (set_conn k (at_pc c KClosed) (close (k_fd c) s))
| read_clear k c : t_conns s !! k = Some c -> k_pc c = KClosed -> read_step s [] (set_conn k (no_fd c KDone) s).

(** A failed [SendTo] or [BroadcastMessage], under the lock, marks a node of the
    table. *)
Inductive send_step (s : Threads) : Threads -> Prop :=
| send_mark fd k c : t_peers s !! fd = Some k -> t_conns s !! k = Some c -> k_disc c = false ->
    send_step s (set_conn k (mark c (k_pc c)) s).

(** The loop of [Stop] over the table: every node with a descriptor is closed,
    and has none any more. *)
Definition stop_closes (s : Threads) : closes :=
  omap (fun '(_, k) => c ← t_conns s !! k; if 0 <=? k_fd c then Some (OwConn k, k_fd c) else None) (map_to_list (t_peers s)).
Definition in_table (s : Threads) (k : nat) : bool := existsb (fun '(_, k') => Nat.eqb k' k) (map_to_list (t_peers s)).
Definition stop_peers (s : Threads) : Threads :=
  set_peers (fun _ => ∅)
    (set_conns (imap (fun k c => if in_table s k then no_fd c (k_pc c) else c))
      (set_open (fun open => foldr (fun '(_, fd) m => delete fd m) open (stop_closes s)) s)).
(** [Stop]. *)
Inductive stop_step (s : Threads) : closes -> Threads -> Prop :=
| stop_flag : t_stop s = SIdle -> stop_step s [] (set_stop false (t_listenFd s) SFlag s)
| stop_close : t_stop s = SFlag ->
    stop_step s (if 0 <=? t_listenFd s then [(OwListen, t_listenFd s)] else [])
      (set_stop (t_running s) (t_listenFd s) SClosing (if 0 <=? t_listenFd s then close (t_listenFd s) s else s))
| stop_unset : t_stop s = SClosing ->
    stop_step s [] (set_stop (t_running s) (if 0 <=? t_listenFd s then -1 else t_listenFd s) SListen s)
| stop_join : t_stop s = SListen -> t_openers s !! connectThread = Some ODone ->
    stop_step s [] (set_stop (t_running s) (t_listenFd s) SJoined s)
| stop_clear : t_stop s = SJoined -> stop_step s (stop_closes s) (set_stop (t_running s) (t_listenFd s) SCleared (stop_peers s))
| stop_last : t_stop s = SCleared -> t_openers s !! acceptThread = Some ODone ->
    stop_step s [] (set_stop (t_running s) (t_listenFd s) SDone s).

(** The rest of the process. *)
Inductive env_step (s : Threads) : Threads -> Prop :=
| env_open fd : fresh fd s -> env_step s (set_open (<[fd := OwEnv]>) s)
| env_close fd : t_open s !! fd = Some OwEnv -> env_step s (close fd s).

(** A step of the server's own threads, once a call has begun. *)
Inductive thread_step (s : Threads) : closes -> Threads -> Prop :=
| thread_accept s' : accept_step s s' -> thread_step s [] s'
| thread_connect s' : connect_step s s' -> thread_step s [] s'
| thread_dial ls s' : dial_step s ls s' -> thread_step s ls s'
| thread_register ls s' : register_step s ls s' -> thread_step s ls s'
| thread_read ls s' : read_step s ls s' -> thread_step s ls s'
| thread_send s' : send_step s s' -> thread_step s [] s'
| thread_stop ls s' : stop_step s ls s' -> thread_step s ls s'.
Inductive step (s : Threads) : closes -> Threads -> Prop :=
| step_thread ls s' : thread_step s ls s' -> step s ls s'
| step_call s' : call_step s s' -> step s [] s'
| step_env s' : env_step s s' -> step s [] s'.

(** The states a started server gets to, in any order of the threads' steps. *)
Inductive server_run : Threads -> Prop :=
| run_start port fd callers env s : 0 <= fd -> env !! fd = None -> map_Forall (fun _ o => o = OwEnv) env ->
    Start port (Some fd) true true (new_server callers env) = (Ok (), s) -> server_run s
| run_step s ls s' : server_run s -> step s ls s' -> server_run s'.

(** * The invariant *)

(** The node's descriptor is open and the node's. *)
Definition owns (c : Conn) : bool := match k_pc c with KClosed | KDone => false | _ => 0 <=? k_fd c end.
(** Its places while it is in the table, unless [Stop] took it out. *)
Definition listed (c : Conn) : bool := match k_pc c with KReg | KLoop | KRecv _ | KLeft => 0 <=? k_fd c | _ => false end.
(** Its places while a thread is making it. *)
Definition held (c : Conn) : bool := match k_pc c with KDial | KSock | KReg => true | _ => false end.
Definition has_fd (c : Conn) : Prop := match k_pc c with KDial | KSock | KTest => 0 <= k_fd c | _ => True end.

(** The connections with property [P], by descriptor. *)
Definition where_is (P : Conn -> bool) (l : list Conn) (fd : Z) (k : nat) : Prop :=
  exists c, l !! k = Some c /\ P c = true /\ k_fd c = fd.

(** Only the accepting thread accepts, and it never dials. *)
Definition role_ok (i : nat) (o : opener) : Prop :=
  match o with OReady => i = acceptThread | ODial _ => i <> acceptThread | _ => True end.

Record inv (s : Threads) : Prop := {
  i_open fd k : t_open s !! fd = Some (OwConn k) <-> where_is owns (t_conns s) fd k;
  i_peers fd k : t_peers s !! fd = Some k <-> where_is listed (t_conns s) fd k;
  i_fd : Forall has_fd (t_conns s);
  i_held k c : t_conns s !! k = Some c -> held c = true -> exists i n, t_openers s !! i = Some (OHold k n);
  i_hold i k n : t_openers s !! i = Some (OHold k n) -> exists c, t_conns s !! k = Some c /\ held c = true;
  i_one i j k n m : t_openers s !! i = Some (OHold k n) -> t_openers s !! j = Some (OHold k m) -> i = j;
  i_listen fd : t_open s !! fd = Some OwListen <-> fd = t_listenFd s /\ (t_stop s = SIdle \/ t_stop s = SFlag);
  i_listenFd : t_stop s = SIdle \/ t_stop s = SFlag -> 0 <= t_listenFd s;
  i_size : (size (t_peers s) <= 32)%nat;
  i_running : t_running s = true <-> t_stop s = SIdle;
  i_threads : (2 <= length (t_openers s))%nat;
  i_role i o : t_openers s !! i = Some o -> role_ok i o
}.

(** ** Changing one connection *)
Lemma where_is_alter P l k c c' fd j : l !! k = Some c ->
  where_is P (<[k := c']> l) fd j <-> (if decide (j = k) then P c' = true /\ k_fd c' = fd else where_is P l fd j).
Proof.
  intros Hk. unfold where_is. case_decide as E; [subst j|].
  - rewrite list_lookup_insert_eq by (by eapply lookup_lt_Some). split; [by intros (? & [= <-] & ?)|by eexists].
  - by rewrite list_lookup_insert_ne by done.
Qed.
Lemma where_is_keep P l k c c' fd j : l !! k = Some c -> P c' = P c -> k_fd c' = k_fd c ->
  where_is P (<[k := c']> l) fd j <-> where_is P l fd j.
Proof.
  intros Hk HP Hf. rewrite (where_is_alter P l k c) by done. case_decide as E; [subst j|done].
  rewrite HP, Hf. unfold where_is. rewrite Hk. split; [by exists c|by intros (? & [= <-] & ?)].
Qed.
(** A table that follows [P] still does when the node leaves it. *)
Lemma where_is_drop {A} P (m : gmap Z A) (f : nat -> A) l k c c' : Inj (=) (=) f ->
  (forall fd j, m !! fd = Some (f j) <-> where_is P l fd j) -> l !! k = Some c -> P c = true -> P c' = false ->
  forall fd j, delete (k_fd c) m !! fd = Some (f j) <-> where_is P (<[k := c']> l) fd j.
Proof.
  intros Hinj Hm Hk Hc Hc' fd j. rewrite (where_is_alter P l k c) by done.
  assert (m !! k_fd c = Some (f k)) as Hkc by (apply Hm; by exists c).
  rewrite lookup_delete_Some, Hm. case_decide as E; [subst j|].
  - split; [|by intros [? _]; congruence]. intros [Hne (c0 & Hc0 & _ & Hfd)]. congruence.
  - split; [by intros [_ ?]|]. intros Hw. split; [|done]. intros <-. apply Hm in Hw.
    apply E. rewrite Hkc in Hw. by injection Hw as ?%Hinj.
Qed.
(** ... and when it enters it under a number that is not used. *)
Lemma where_is_enter {A} P (m : gmap Z A) (f : nat -> A) l k c c' : Inj (=) (=) f ->
  (forall fd j, m !! fd = Some (f j) <-> where_is P l fd j) -> l !! k = Some c -> P c = false -> P c' = true ->
  (forall j, m !! k_fd c' <> Some (f j)) ->
  forall fd j, <[k_fd c' := f k]> m !! fd = Some (f j) <-> where_is P (<[k := c']> l) fd j.
Proof.
  intros Hinj Hm Hk Hc Hc' Hfree fd j. rewrite (where_is_alter P l k c) by done.
  rewrite lookup_insert_Some, Hm. case_decide as E; [subst j|].
  - split; [|by intros [_ <-]; left]. intros [[<- _]|[_ (c0 & Hc0 & Hp & _)]]; [done|congruence].
  - split; [by intros [[_ ?%Hinj]|[_ ?]]|]. intros Hw. right. split; [|done]. intros <-. by apply (Hfree j), Hm.
Qed.
Lemma where_is_app P l c fd j : where_is P (l ++ [c]) fd j <->
  where_is P l fd j \/ (j = length l /\ P c = true /\ k_fd c = fd).
Proof.
  unfold where_is. split.
  - intros (c0 & Hl & HP & Hf). apply lookup_app_Some in Hl as [Hl|[Hge Hl]]; [left; by exists c0|].
    right. apply list_lookup_singleton_Some in Hl as [? <-]. split_and!; [lia|done|done].
  - intros [(c0 & Hl & ?)|(-> & ?)]; [exists c0|exists c]; (split; [|done]).
    + by apply lookup_app_l_Some.
    + by apply list_lookup_middle.
Qed.
Lemma where_is_lt P l fd : ~ where_is P l fd (length l).
Proof. intros (c & Hl & _). apply lookup_lt_Some in Hl. lia. Qed.

#[export] Instance OwConn_inj : Inj (=) (=) OwConn.
Proof. by intros ?? [= ->]. Qed.
Lemma where_is_out P l k c c' fd j : l !! k = Some c -> P c = false -> P c' = false ->
  where_is P (<[k := c']> l) fd j <-> where_is P l fd j.
Proof.
  intros Hk HP HP'. rewrite (where_is_alter P l k c) by done. case_decide as E; [subst j|done].
  unfold where_is. rewrite Hk. split; [by intros [? _]; congruence|by intros (? & [= <-] & ? & _); congruence].
Qed.

(** The thread that makes a connection keeps it, or passes it on. *)
Definition holds_ok (conns : list Conn) (openers : list opener) : Prop :=
  (forall k c, conns !! k = Some c -> held c = true -> exists i n, openers !! i = Some (OHold k n)) /\
  (forall i k n, openers !! i = Some (OHold k n) -> exists c, conns !! k = Some c /\ held c = true) /\
  (forall i j k n m, openers !! i = Some (OHold k n) -> openers !! j = Some (OHold k m) -> i = j).
Definition not_hold (o : opener) : Prop := forall k n, o <> OHold k n.

Lemma holds_keep conns os k c c' : conns !! k = Some c -> held c' = held c -> holds_ok conns os -> holds_ok (<[k := c']> conns) os.
Proof.
  intros Hk Hh (H1 & H2 & H3). split_and!; [| |done].
  - intros j d [(<- & -> & _)|[_ Hd]]%list_lookup_insert_Some Hp; [apply (H1 k c); congruence|by eapply H1].
  - intros i j n Hi. destruct (H2 i j n Hi) as (d & Hd & Hp). destruct (decide (j = k)) as [->|Hne].
    + exists c'. rewrite list_lookup_insert_eq by (by eapply lookup_lt_Some). split; [done|congruence].
    + exists d. by rewrite list_lookup_insert_ne by done.
Qed.
Lemma holds_opener conns os i o o' : os !! i = Some o -> not_hold o -> not_hold o' -> holds_ok conns os -> holds_ok conns (<[i := o']> os).
Proof.
  intros Hi Ho Ho' (H1 & H2 & H3). split_and!.
  - intros k c Hk Hp. destruct (H1 k c Hk Hp) as (j & n & Hj). exists j, n.
    rewrite list_lookup_insert_ne; [done|]. intros ->. rewrite Hi in Hj. by injection Hj as ?%Ho.
  - intros j k n [(_ & ?%Ho' & _)|[_ Hj]]%list_lookup_insert_Some; [done|by eapply H2].
  - intros j j' k n m [(_ & ?%Ho' & _)|[_ Hj]]%list_lookup_insert_Some; [done|].
    intros [(_ & ?%Ho' & _)|[_ Hj']]%list_lookup_insert_Some; [done|by eapply H3].
Qed.
Lemma holds_release conns os i k n c c' o' : os !! i = Some (OHold k n) -> conns !! k = Some c -> held c' = false -> not_hold o' ->
  holds_ok conns os -> holds_ok (<[k := c']> conns) (<[i := o']> os).
Proof.
  intros Hi Hk Hc' Ho' (H1 & H2 & H3). split_and!.
  - intros j d [(<- & -> & _)|[Hne Hd]]%list_lookup_insert_Some Hp; [congruence|].
    destruct (H1 j d Hd Hp) as (i' & m & Hj). exists i', m. rewrite list_lookup_insert_ne; [done|]. intros ->. congruence.
  - intros i' j m [(_ & ?%Ho' & _)|[Hne Hj]]%list_lookup_insert_Some; [done|].
    destruct (H2 i' j m Hj) as (d & Hd & Hp). exists d. rewrite list_lookup_insert_ne; [done|]. intros ->. apply Hne. by eapply H3.
  - intros j j' k' a b [(_ & ?%Ho' & _)|[_ Hj]]%list_lookup_insert_Some; [done|].
    intros [(_ & ?%Ho' & _)|[_ Hj']]%list_lookup_insert_Some; [done|by eapply H3].
Qed.
Lemma holds_new conns os i o n c : os !! i = Some o -> not_hold o -> held c = true -> holds_ok conns os ->
  holds_ok (conns ++ [c]) (<[i := OHold (length conns) n]> os).
Proof.
  intros Hi Ho Hc (H1 & H2 & H3). pose proof (lookup_lt_Some _ _ _ Hi) as Hlt.
  assert (forall j k m, os !! j = Some (OHold k m) -> (k < length conns)%nat) as Hb.
  { intros j k m (d & Hd & _)%H2. by eapply lookup_lt_Some. }
  split_and!.
  - intros k d [Hk|[Hge [? <-]%list_lookup_singleton_Some]]%lookup_app_Some Hp.
    + destruct (H1 k d Hk Hp) as (j & m & Hj). exists j, m. rewrite list_lookup_insert_ne; [done|]. intros ->.
      rewrite Hi in Hj. by injection Hj as ?%Ho.
    + exists i, n. rewrite list_lookup_insert_eq by done. do 2 f_equal. lia.
  - intros j k m [(_ & [= <- <-] & _)|[_ Hj]]%list_lookup_insert_Some.
    + exists c. split; [by apply list_lookup_middle|done].
    + destruct (H2 j k m Hj) as (d & Hd & Hp). exists d. split; [by apply lookup_app_l_Some|done].
  - intros j j' k a b [(<- & [= <- <-] & _)|[_ Hj]]%list_lookup_insert_Some [(<- & Hb' & _)|[_ Hj']]%list_lookup_insert_Some; [done| | |].
    + apply Hb in Hj'. lia.
    + injection Hb' as <- _. apply Hb in Hj. lia.
    + by eapply H3.
Qed.
Lemma inv_holds s : inv s -> holds_ok (t_conns s) (t_openers s).
Proof. intros H. split_and!; [apply (i_held _ H)|apply (i_hold _ H)|apply (i_one _ H)]. Qed.

Lemma roles_insert (os : list opener) i o : (forall j p, os !! j = Some p -> role_ok j p) -> role_ok i o ->
  forall j p, <[i := o]> os !! j = Some p -> role_ok j p.
Proof. intros H Ho j p [(<- & <- & _)|[_ Hj]]%list_lookup_insert_Some; [done|by apply H]. Qed.

(** ** Preservation *)

(** What the descriptor table, the peer table and the rest are after a step. *)
Lemma inv_change s s' : inv s ->
  t_running s' = t_running s -> t_listenFd s' = t_listenFd s -> t_stop s' = t_stop s ->
  (forall fd k, t_open s' !! fd = Some (OwConn k) <-> where_is owns (t_conns s') fd k) ->
  (forall fd, t_open s' !! fd = Some OwListen <-> t_open s !! fd = Some OwListen) ->
  (forall fd k, t_peers s' !! fd = Some k <-> where_is listed (t_conns s') fd k) ->
  (size (t_peers s') <= 32)%nat -> Forall has_fd (t_conns s') ->
  length (t_openers s') = length (t_openers s) -> (forall i o, t_openers s' !! i = Some o -> role_ok i o) ->
  holds_ok (t_conns s') (t_openers s') -> inv s'.
Proof.
  intros H Er El Es Ho Hl Hp Hz Hf Hn Ha (H1 & H2 & H3). split; try done.
  - intros fd. rewrite Hl, El, Es. apply (i_listen _ H).
  - rewrite El, Es. apply (i_listenFd _ H).
  - rewrite Er, Es. apply (i_running _ H).
  - rewrite Hn. apply (i_threads _ H).
Qed.

Lemma inv_opener s i o o' : inv s -> t_openers s !! i = Some o -> not_hold o -> not_hold o' ->
  role_ok i o' -> inv (set_opener i o' s).
Proof.
  intros H Hi Ho Ho' Ha. apply (inv_change s); cbn; try done; try apply H.
  - apply length_insert.
  - by apply roles_insert; [apply H|].
  - eapply holds_opener; eauto using inv_holds.
Qed.
Lemma inv_conn s k c c' : inv s -> t_conns s !! k = Some c -> owns c' = owns c -> listed c' = listed c -> held c' = held c ->
  (owns c' = true -> k_fd c' = k_fd c) -> (listed c' = true -> k_fd c' = k_fd c) -> has_fd c' -> inv (set_conn k c' s).
Proof.
  intros H Hk Ho Hl Hh Fo Fl Hf. apply (inv_change s); cbn; try done; try apply H.
  - intros fd j. destruct (owns c') eqn:E; [rewrite (where_is_keep _ _ k c) by (auto; congruence)|rewrite (where_is_out _ _ k c) by congruence]; apply H.
  - intros fd j. destruct (listed c') eqn:E; [rewrite (where_is_keep _ _ k c) by (auto; congruence)|rewrite (where_is_out _ _ k c) by congruence]; apply H.
  - apply Forall_insert; [apply H|done].
  - eapply holds_keep; eauto using inv_holds.
Qed.
(** A connection whose descriptor is closed. *)
Lemma delete_other s k c fd o : inv s -> t_conns s !! k = Some c -> owns c = true -> (forall j, o <> OwConn j) ->
  delete (k_fd c) (t_open s) !! fd = Some o <-> t_open s !! fd = Some o.
Proof.
  intros H Hk Hc Ho. rewrite lookup_delete_Some. split; [by intros [_ ?]|]. intros He. split; [|done]. intros <-.
  assert (t_open s !! k_fd c = Some (OwConn k)) as E by (apply (i_open _ H); by exists c). apply (Ho k). congruence.
Qed.
Lemma owns_listed c : listed c = true -> owns c = true.
Proof. unfold listed, owns. by destruct (k_pc c). Qed.
Lemma inv_new s fd p i o n : inv s -> fresh fd s -> t_openers s !! i = Some o -> not_hold o -> p = KDial \/ p = KSock ->
  inv (new_conn fd p i n s).
Proof.
  intros H [Hfd Hnone] Hi Ho Hp. set (c := {| k_fd := fd; k_disc := false; k_pc := p |}).
  assert (owns c = true /\ listed c = false /\ held c = true /\ has_fd c) as (Hc & Hcl & Hch & Hcf).
  { unfold owns, listed, held, has_fd. apply Z.leb_le in Hfd as Hb. by destruct Hp; subst p; cbn. }
  apply (inv_change s); cbn; fold c; try done; try apply H.
  - intros fd' j. rewrite lookup_insert_Some, where_is_app, <- (i_open _ H). split.
    + intros [[<- [= <-]]|[_ ?]]; [by right|by left].
    + intros [Hj|(-> & _ & <-)]; [right; split; [congruence|done]|by left].
  - intros fd'. rewrite lookup_insert_Some. split; [by intros [[_ ?]|[_ ?]]|]. intros Hl. right. split; [congruence|done].
  - intros fd' j. rewrite where_is_app, <- (i_peers _ H). split; [by left|]. intros [?|(_ & ? & _)]; [done|congruence].
  - apply Forall_app. split; [apply H|by constructor].
  - apply length_insert.
  - by apply roles_insert; [apply H|].
  - eapply holds_new; eauto using inv_holds.
Qed.
(** The connection gives its descriptor back. *)
Lemma inv_close s k c c' : inv s -> t_conns s !! k = Some c -> owns c = true -> listed c = false ->
  owns c' = false -> listed c' = false -> held c' = held c -> has_fd c' -> inv (set_conn k c' (close (k_fd c) s)).
Proof.
  intros H Hk Hc Hl Hc' Hl' Hh Hf. apply (inv_change s); cbn; try done; try apply H.
  - eapply (where_is_drop owns _ OwConn); [apply _|apply H|done..].
  - intros fd. by eapply delete_other.
  - intros fd j. rewrite (where_is_out _ _ k c) by done. apply H.
  - apply Forall_insert; [apply H|done].
  - eapply holds_keep; eauto using inv_holds.
Qed.
Lemma inv_abandon s i k n c o' : inv s -> t_openers s !! i = Some (OHold k n) -> t_conns s !! k = Some c ->
  k_pc c = KDial \/ k_pc c = KSock -> not_hold o' -> role_ok i o' ->
  inv (set_opener i o' (set_conn k (at_pc c KDone) (close (k_fd c) s))).
Proof.
  intros H Hi Hk Hp Ho' Ha.
  assert (owns c = true /\ listed c = false) as [Hc Hl].
  { pose proof (Forall_lookup_1 _ _ _ _ (i_fd _ H) Hk) as Hf. unfold owns, listed, has_fd in *.
    destruct Hp as [E|E]; rewrite E in *; by apply Z.leb_le in Hf. }
  apply (inv_change s); cbn; try done; try apply H.
  - eapply (where_is_drop owns _ OwConn); [apply _|apply H|done..].
  - intros fd. by eapply delete_other.
  - intros fd j. rewrite (where_is_out _ _ k c) by done. apply H.
  - apply Forall_insert; [apply H|done].
  - apply length_insert.
  - by apply roles_insert; [apply H|].
  - eapply holds_release; eauto using inv_holds.
Qed.
Lemma inv_enlist s k c : inv s -> t_conns s !! k = Some c -> k_pc c = KSock -> (size (t_peers s) < 32)%nat ->
  inv (set_peers (<[k_fd c := k]>) (set_conn k (at_pc c KReg) s)).
Proof.
  intros H Hk Hp Hz. pose proof (Forall_lookup_1 _ _ _ _ (i_fd _ H) Hk) as Hf.
  unfold has_fd in Hf. rewrite Hp in Hf. apply Z.leb_le in Hf.
  assert (owns c = true) as Hc by (unfold owns; by rewrite Hp).
  assert (t_open s !! k_fd c = Some (OwConn k)) as E by (apply (i_open _ H); by exists c).
  apply (inv_change s); cbn; try done; try apply H.
  - intros fd j. rewrite (where_is_keep _ _ k c); [apply H|done| |done]. unfold owns. by rewrite Hp.
  - eapply (where_is_enter listed (t_peers s) id _ k c (at_pc c KReg)); [apply _|apply H|done| |done|].
    + unfold listed. by rewrite Hp.
    + unfold id. intros j (d & Hd & Hld & Hfd)%(i_peers _ H). cbn in Hfd.
      assert (t_open s !! k_fd c = Some (OwConn j)) as E' by (apply (i_open _ H); exists d; eauto using owns_listed).
      rewrite E in E'. injection E' as <-. rewrite Hk in Hd. injection Hd as <-. unfold listed in Hld. by rewrite Hp in Hld.
  - rewrite map_size_insert. destruct (t_peers s !! k_fd c); unfold id; lia.
  - apply Forall_insert; [apply H|done].
  - apply (holds_keep _ _ k c); [done| |by apply inv_holds]. unfold held. by rewrite Hp.
Qed.
Lemma inv_spawn s i k n c : inv s -> t_openers s !! i = Some (OHold k n) -> t_conns s !! k = Some c -> k_pc c = KReg ->
  inv (set_opener i OIdle (set_conn k (at_pc c KLoop) s)).
Proof.
  intros H Hi Hk Hp. apply (inv_change s); cbn; try done; try apply H.
  - intros fd j. rewrite (where_is_keep _ _ k c); [apply H|done| |done]. unfold owns. by rewrite Hp.
  - intros fd j. rewrite (where_is_keep _ _ k c); [apply H|done| |done]. unfold listed. by rewrite Hp.
  - apply Forall_insert; [apply H|done].
  - apply length_insert.
  - by apply roles_insert; [apply H|].
  - eapply holds_release; eauto using inv_holds. done.
Qed.
Lemma inv_erase s k c : inv s -> t_conns s !! k = Some c -> k_pc c = KLeft ->
  inv (set_conn k (at_pc c KErased) (set_peers (delete (k_fd c)) s)).
Proof.
  intros H Hk Hp. apply (inv_change s); cbn; try done; try apply H.
  - intros fd j. rewrite (where_is_keep _ _ k c); [apply H|done| |done]. unfold owns. by rewrite Hp.
  - destruct (listed c) eqn:Hl.
    + eapply (where_is_drop listed (t_peers s) id); [apply _|apply H|done..].
    + intros fd j. rewrite (where_is_out _ _ k c) by done. rewrite lookup_delete_Some, (i_peers _ H).
      split; [by intros [_ ?]|]. intros Hw. split; [|done]. intros <-. destruct Hw as (d & _ & Hd & Hf).
      unfold listed in Hl, Hd. rewrite Hp in Hl. rewrite Hf, Hl in Hd. by destruct (k_pc d).
  - rewrite map_size_delete. pose proof (i_size _ H). destruct (t_peers s !! k_fd c); unfold id; lia.
  - apply Forall_insert; [apply H|done].
  - apply (holds_keep _ _ k c); [done| |by apply inv_holds]. unfold held. by rewrite Hp.
Qed.
(** ** [Stop] *)
Lemma lookup_closed (l : closes) (m : gmap Z owner) fd :
  foldr (fun '(_, fd) m => delete fd m) m l !! fd = if decide (fd ∈ l.*2) then None else m !! fd.
Proof.
  induction l as [|[w v] l IH]; cbn; [done|]. destruct (decide (v = fd)) as [->|Hne].
  - rewrite lookup_delete_eq, decide_True; [done|by left].
  - rewrite lookup_delete_ne, IH by done. apply decide_ext. rewrite elem_of_cons. naive_solver.
Qed.
Lemma stop_closes_peers s : inv s -> stop_closes s = map (fun '(fd, k) => (OwConn k, fd)) (map_to_list (t_peers s)).
Proof.
  intros H. unfold stop_closes.
  assert (Forall (fun '(fd, k) => where_is listed (t_conns s) fd k) (map_to_list (t_peers s))) as Hf.
  { apply Forall_forall. intros [fd k] Hin. apply (i_peers _ H). by apply elem_of_map_to_list. }
  induction Hf as [|[fd k] l (c & Hc & Hl & <-) _ IH]; [done|]. cbn. rewrite Hc. cbn.
  assert ((0 <=? k_fd c) = true) as -> by (unfold listed in Hl; by destruct (k_pc c)). by rewrite IH.
Qed.
Lemma in_table_spec s k : in_table s k = true <-> exists fd, t_peers s !! fd = Some k.
Proof.
  unfold in_table. rewrite existsb_exists. split.
  - intros ([fd k'] & Hin%list_elem_of_In%elem_of_map_to_list & ->%Nat.eqb_eq). by exists fd.
  - intros [fd Hfd]. exists (fd, k). split; [by apply list_elem_of_In, elem_of_map_to_list|apply Nat.eqb_refl].
Qed.
Lemma stop_open s fd : inv s ->
  t_open (stop_peers s) !! fd = if decide (is_Some (t_peers s !! fd)) then None else t_open s !! fd.
Proof.
  intros H. cbn. rewrite lookup_closed, stop_closes_peers by done.
  assert (fd ∈ (map (fun '(fd, k) => (OwConn k, fd)) (map_to_list (t_peers s))).*2 <-> is_Some (t_peers s !! fd)) as E.
  { rewrite list_elem_of_fmap. split.
    - intros ([w v] & -> & Hin). apply list_elem_of_fmap in Hin as ([v' k] & [= -> ->] & Hin%elem_of_map_to_list). by exists k.
    - intros [k Hk]. exists (OwConn k, fd). split; [done|]. apply list_elem_of_fmap. exists (fd, k). by rewrite elem_of_map_to_list. }
  repeat case_decide; tauto.
Qed.
Lemma stop_conns s k c : t_conns (stop_peers s) !! k = Some c <->
  exists d, t_conns s !! k = Some d /\ c = if in_table s k then no_fd d (k_pc d) else d.
Proof. cbn. rewrite list_lookup_imap, fmap_Some. naive_solver. Qed.
Lemma stop_where P s fd k : inv s -> (forall c, P (no_fd c (k_pc c)) = false) ->
  where_is P (t_conns (stop_peers s)) fd k <-> where_is P (t_conns s) fd k /\ in_table s k = false.
Proof.
  intros H HP. unfold where_is. setoid_rewrite stop_conns. split.
  - intros (c & (d & Hd & ->) & Hc & Hf). destruct (in_table s k); [by rewrite HP in Hc|]. split; [by exists d|done].
  - intros [(d & Hd & Hp & Hf) Ht]. exists d. split_and!; [|done|done]. exists d. by rewrite Ht.
Qed.
Lemma not_owns_no_fd c : owns (no_fd c (k_pc c)) = false.
Proof. unfold owns. cbn. by destruct (k_pc c). Qed.
Lemma not_listed_no_fd c : listed (no_fd c (k_pc c)) = false.
Proof. unfold listed. cbn. by destruct (k_pc c). Qed.
Lemma table_owned s fd k : inv s -> t_peers s !! fd = Some k -> t_open s !! fd = Some (OwConn k).
Proof.
  intros H (c & Hc & Hl & Hf)%(i_peers _ H). apply (i_open _ H). exists c. eauto using owns_listed.
Qed.
Lemma inv_stop_clear s : inv s -> t_stop s = SJoined -> inv (set_stop (t_running s) (t_listenFd s) SCleared (stop_peers s)).
Proof.
  intros H Hs. split; cbn -[stop_closes stop_peers]; try apply H.
  - intros fd k. change (t_open (stop_peers s) !! fd = Some (OwConn k) <-> where_is owns (t_conns (stop_peers s)) fd k).
    rewrite stop_where by (done || apply not_owns_no_fd). rewrite stop_open, <- (i_open _ H) by done.
    rewrite <- not_true_iff_false, in_table_spec. case_decide as E; [destruct E as [k' Hk']|].
    + split; [done|]. intros [Ho Hn]. exfalso. apply Hn. exists fd. pose proof (table_owned s fd k' H Hk'). congruence.
    + split; [|by intros [? _]]. intros Ho. split; [done|]. intros [fd' Hfd']. apply E.
      pose proof (table_owned s fd' k H Hfd') as Ho'. apply (i_open _ H) in Ho as (c & Hc & _ & <-).
      apply (i_open _ H) in Ho' as (c' & Hc' & _ & <-). assert (c' = c) as -> by congruence. by exists k.
  - intros fd k. change ((∅ : gmap Z nat) !! fd = Some k <-> where_is listed (t_conns (stop_peers s)) fd k).
    rewrite stop_where by (done || apply not_listed_no_fd). rewrite <- (i_peers _ H), <- not_true_iff_false, in_table_spec.
    split; [done|]. intros [Hp Hn]. exfalso. apply Hn. by exists fd.
  - apply Forall_lookup_2. intros k c (d & Hd & ->)%stop_conns.
    pose proof (Forall_lookup_1 _ _ _ _ (i_fd _ H) Hd) as Hf. destruct (in_table s k) eqn:E; [|done].
    apply in_table_spec in E as [fd (c & Hc & Hl & _)%(i_peers _ H)]. assert (c = d) as -> by congruence.
    unfold listed in Hl. unfold has_fd. cbn. by destruct (k_pc d).
  - intros k c (d & Hd & ->)%stop_conns Hh. apply (i_held _ H k d); [done|]. by destruct (in_table s k).
  - intros i k n (d & Hd & Hh)%(i_hold _ H). eexists. split; [apply stop_conns; by exists d|]. by destruct (in_table s k).
  - intros fd. change (t_open (stop_peers s) !! fd = Some OwListen <-> fd = t_listenFd s /\ (SCleared = SIdle \/ SCleared = SFlag)).
    rewrite stop_open by done. split; [|naive_solver]. case_decide; [done|]. intros Ho%(i_listen _ H). rewrite Hs in Ho. naive_solver.
  - naive_solver.
  - change ((size (∅ : gmap Z nat) <= 32)%nat). rewrite map_size_empty. lia.
  - rewrite (i_running _ H), Hs. done.
Qed.
Lemma inv_stop s ls s' : inv s -> stop_step s ls s' -> inv s'.
Proof.
  intros H [Hs|Hs|Hs|Hs _|Hs|Hs _]; [| | | |by apply inv_stop_clear|].
  - split; cbn; try apply H; [|intros _; apply (i_listenFd _ H); by left|done].
    intros fd. rewrite (i_listen _ H), Hs. naive_solver.
  - assert (0 <= t_listenFd s) as Hl by (apply (i_listenFd _ H); by right). apply Z.leb_le in Hl. rewrite Hl.
    assert (t_open s !! t_listenFd s = Some OwListen) as E by (apply (i_listen _ H); naive_solver).
    split; cbn; try apply H; [| |naive_solver|rewrite (i_running _ H), Hs; done].
    + intros fd k. rewrite lookup_delete_Some, (i_open _ H). split; [by intros [_ ?]|]. intros Hw. split; [|done].
      intros <-. apply (i_open _ H) in Hw. congruence.
    + intros fd. rewrite lookup_delete_Some, (i_listen _ H). naive_solver.
  - split; cbn; try apply H; [|naive_solver|rewrite (i_running _ H), Hs; done].
    intros fd. rewrite (i_listen _ H), Hs. naive_solver.
  - split; cbn; try apply H; [|naive_solver|rewrite (i_running _ H), Hs; done].
    intros fd. rewrite (i_listen _ H), Hs. naive_solver.
  - split; cbn; try apply H; [|naive_solver|rewrite (i_running _ H), Hs; done].
    intros fd. rewrite (i_listen _ H), Hs. naive_solver.
Qed.
Lemma inv_env s s' : inv s -> env_step s s' -> inv s'.
Proof.
  intros H [fd [Hfd Hn]|fd Ho]; apply (inv_change s); cbn; try done; try apply H; try by apply inv_holds.
  - intros v k. rewrite lookup_insert_Some, <- (i_open _ H). split; [by intros [[_ ?]|[_ ?]]|]. intros Hk. right. split; [congruence|done].
  - intros v. rewrite lookup_insert_Some. split; [by intros [[_ ?]|[_ ?]]|]. intros Hk. right. split; [congruence|done].
  - intros v k. rewrite lookup_delete_Some, <- (i_open _ H). split; [by intros [_ ?]|]. intros Hk. split; [congruence|done].
  - intros v. rewrite lookup_delete_Some. split; [by intros [_ ?]|]. intros Hk. split; [congruence|done].
Qed.

(** ** Every step *)
Lemma inv_accept s s' : inv s -> accept_step s s' -> inv s'.
Proof.
  intros H [Ho|Ho|fd Ho Hl Hf].
  - eapply inv_opener; eauto; [done| |]; by destruct (t_running s).
  - by eapply inv_opener; eauto.
  - eapply inv_new; eauto; done.
Qed.
Lemma inv_dial s ls s' : inv s -> dial_step s ls s' -> inv s'.
Proof.
  intros H [i n Hi Ho|i n fd Hi Ho Hf|i k n c Hi Ho Hk Hp|i k n c Ho Hk Hp|i Hi Ho].
  - by eapply inv_opener; eauto.
  - eapply inv_new; eauto; done.
  - by eapply inv_abandon; eauto.
  - apply (inv_conn s k c); unfold owns, listed, held, has_fd; cbn; rewrite ?Hp; try done.
    pose proof (Forall_lookup_1 _ _ _ _ (i_fd _ H) Hk) as Hf. unfold has_fd in Hf. by rewrite Hp in Hf.
  - by eapply inv_opener; eauto.
Qed.
Lemma inv_register s ls s' : inv s -> register_step s ls s' -> inv s'.
Proof.
  intros H [i k n c Ho Hk Hp Hz|i k n c Ho Hk Hp Hz|i k n c Ho Hk Hp].
  - eapply inv_abandon; eauto; done.
  - by apply inv_enlist.
  - by eapply inv_spawn.
Qed.
(** The steps of a reader that change neither table. *)
Lemma inv_reader s k c c' : inv s -> t_conns s !! k = Some c -> k_fd c' = k_fd c ->
  owns c' = owns c -> listed c' = listed c -> held c = false -> held c' = false -> has_fd c' -> inv (set_conn k c' s).
Proof. intros. apply (inv_conn s k c); congruence || done. Qed.
Lemma inv_read s ls s' : inv s -> read_step s ls s' -> inv s'.
Proof.
  intros H [k c Hk Hp|k c v [] Hk Hp|k c v Hk Hp|k c Hk Hp|k c Hk Hp|k c Hk Hp|k c Hk Hp];
    [destruct (_ && _)| | | |by apply inv_erase|destruct (Z.leb_spec 0 (k_fd c)) as [Hf|Hf]| | ];
    try (apply (inv_reader s k c); unfold owns, listed, held, has_fd; cbn; rewrite ?Hp; done || (symmetry; by apply Z.leb_gt)).
  - apply inv_close; unfold owns, listed, held, has_fd; cbn; rewrite ?Hp; try done.
    pose proof (Forall_lookup_1 _ _ _ _ (i_fd _ H) Hk) as Hf. unfold has_fd in Hf. rewrite Hp in Hf. by apply Z.leb_le.
  - apply (inv_conn s k c); unfold owns, listed, held, has_fd; cbn; by rewrite ?Hp.
Qed.
Lemma inv_thread s ls s' : inv s -> thread_step s ls s' -> inv s'.
Proof.
  intros H [s1 Hs|s1 Hs|l s1 Hs|l s1 Hs|l s1 Hs|s1 Hs|l s1 Hs];
    eauto using inv_accept, inv_dial, inv_register, inv_read, inv_stop.
  - destruct Hs as [n Ho]. eapply inv_opener; eauto; by destruct (t_running s).
  - destruct Hs as [fd k c Hf Hk Hd]. by apply (inv_conn s k c); try done; apply (Forall_lookup_1 _ _ _ _ (i_fd _ H) Hk).
Qed.
Lemma inv_step s ls s' : inv s -> step s ls s' -> inv s'.
Proof.
  intros H [l s1 Hs|s1 [i n Hi Ho]|s1 Hs]; eauto using inv_thread, inv_env.
  eapply inv_opener; eauto; try done. cbn. intros ->. cbv in Hi. lia.
Qed.
Lemma run_inv s : server_run s -> inv s.
Proof.
  induction 1 as [port fd callers env s Hfd Hn He E|s ls s' _ IH Hs]; [|by eapply inv_step].
  injection E as <-. assert (forall i, (OIdle :: OIdle :: replicate callers OIdle) !! i = Some OIdle \/ (OIdle :: OIdle :: replicate callers OIdle) !! i = None) as Ho.
  { intros [|[|i]]; [by left..|]. cbn. destruct (replicate callers OIdle !! i) eqn:E; [|by right].
    apply lookup_replicate in E as [-> _]. by left. }
  split; cbn; try done; try (intros i k n Hk; destruct (Ho i); congruence).
  - intros v k. rewrite lookup_insert_Some. split; [|by intros (? & ? & _)]. intros [[_ ?]|[_ Hv]]; [done|]. by apply He in Hv.
  - intros v k. rewrite lookup_empty. split; [done|]. by intros (? & ? & _).
  - intros v. rewrite lookup_insert_Some. split; [|by intros [-> _]; left]. intros [[<- _]|[_ Hv]]; [by auto|]. by apply He in Hv.
  - rewrite map_size_empty. lia.
  - cbn. lia.
  - intros i o Hi. destruct (Ho i) as [E|E]; rewrite E in Hi; [by injection Hi as <-|done].
Qed.

(** Whoever closes a descriptor in a step opened it. *)
Lemma thread_closes s ls s' w fd : inv s -> thread_step s ls s' -> (w, fd) ∈ ls -> t_open s !! fd = Some w.
Proof.
  intros H Hs Hin.
  assert (forall k c, t_conns s !! k = Some c -> k_pc c = KDial \/ k_pc c = KSock \/ k_pc c = KTest -> t_open s !! k_fd c = Some (OwConn k)) as Hc.
  { intros k c Hk Hp. apply (i_open _ H). exists c. split_and!; [done| |done].
    pose proof (Forall_lookup_1 _ _ _ _ (i_fd _ H) Hk) as Hf. unfold has_fd, owns in *.
    destruct Hp as [E|[E|E]]; rewrite E in *; by apply Z.leb_le. }
  destruct Hs as [s1 Hs|s1 Hs|l s1 Hs|l s1 Hs|l s1 Hs|s1 Hs|l s1 Hs]; try by apply not_elem_of_nil in Hin.
  - destruct Hs; try by apply not_elem_of_nil in Hin. apply list_elem_of_singleton in Hin as [= -> ->]. eauto.
  - destruct Hs; try by apply not_elem_of_nil in Hin. apply list_elem_of_singleton in Hin as [= -> ->]. eauto.
  - destruct Hs; try by apply not_elem_of_nil in Hin. apply list_elem_of_singleton in Hin as [= -> ->]. eauto.
  - destruct Hs as [|Hs| | |Hs|]; try by apply not_elem_of_nil in Hin.
    + destruct (0 <=? t_listenFd s); [|by apply not_elem_of_nil in Hin].
      apply list_elem_of_singleton in Hin as [= -> ->]. apply (i_listen _ H). auto.
    + rewrite stop_closes_peers in Hin by done. apply list_elem_of_fmap in Hin as ([v k] & [= -> ->] & Hin%elem_of_map_to_list).
      by apply table_owned.
Qed.
Lemma thread_closes_once s ls s' : inv s -> thread_step s ls s' -> NoDup ls.*2.
Proof.
  intros H [s1 Hs|s1 Hs|l s1 [ | | | | ]|l s1 [ | | ]|l s1 [ | | | | | | ]|s1 Hs|l s1 [ | | | | | ]];
    try apply NoDup_nil_2; try apply NoDup_singleton.
  - destruct (0 <=? _); [apply NoDup_singleton|apply NoDup_nil_2].
  - rewrite stop_closes_peers by done. replace ((map _ _).*2) with (map_to_list (t_peers s)).*1; [apply NoDup_fst_map_to_list|].
    induction (map_to_list (t_peers s)) as [|[] ps IH]; cbn; [done|by rewrite IH].
Qed.

(** * Shutdown *)

(** The steps a thread still has to take once [running] is cleared, at most. *)
Definition pc_weight (p : kpc) : nat :=
  match p with
  | KDial => 10 | KSock => 9 | KReg => 8 | KRecv _ => 7 | KLoop => 6 | KLeft => 5 | KErased => 4 | KTest => 3 | KClosed => 2 | KDone => 0
  end.
Definition conn_weight (c : Conn) : nat := pc_weight (k_pc c) + if k_disc c then 0 else 1.
Definition opener_weight (o : opener) : nat :=
  match o with OIdle => 1 | OReady => 20 | ODial n => 2 + 20 * n | OHold _ n => 3 + 20 * n | ODone => 0 end.
Definition stop_weight (p : stop_pc) : nat :=
  match p with SIdle => 6 | SFlag => 5 | SClosing => 4 | SListen => 3 | SJoined => 2 | SCleared => 1 | SDone => 0 end.
Definition weight (s : Threads) : nat :=
  sum_list_with conn_weight (t_conns s) + sum_list_with opener_weight (t_openers s) + stop_weight (t_stop s).

Lemma sum_insert {A} (f : A -> nat) l i x y : l !! i = Some x -> (sum_list_with f (<[i := y]> l) + f x = sum_list_with f l + f y)%nat.
Proof.
  revert i. induction l as [|a l IH]; intros [|i] Hi; [done|done| |].
  - injection Hi as ->. change (<[0%nat := y]> (x :: l)) with (y :: l). cbn. lia.
  - change (<[S i := y]> (a :: l)) with (a :: <[i := y]> l). specialize (IH i Hi). cbn. lia.
Qed.
Lemma sum_imap {A} (f : A -> nat) (g : nat -> A -> A) l : (forall i x, f (g i x) = f x) -> sum_list_with f (imap g l) = sum_list_with f l.
Proof. revert g. induction l as [|a l IH]; intros g Hg; [done|]. cbn. rewrite Hg. f_equal. apply IH. intros. apply Hg. Qed.

Ltac weigh :=
  unfold weight; cbn -[Nat.mul]; rewrite ?sum_list_with_app;
  repeat match goal with
  | Hk : ?l !! ?i = Some ?x |- context [sum_list_with ?f (<[?i := ?y]> ?l)] =>
      pose proof (sum_insert f l i x y Hk); clear Hk
  end;
  unfold conn_weight in *; cbn -[Nat.mul] in *;
  repeat match goal with
  | Hp : k_pc ?c = _ |- _ => rewrite Hp in *; cbn -[Nat.mul] in *; clear Hp
  | Hp : k_disc ?c = _ |- _ => rewrite Hp in *; clear Hp
  | Hp : t_stop ?c = _ |- _ => rewrite Hp in *; cbn -[Nat.mul] in *; clear Hp
  | |- context [k_disc ?c] => destruct (k_disc c)
  | Hc : context [k_disc ?c] |- _ => destruct (k_disc c)
  end.
Lemma stopping_decreases s ls s' : inv s -> t_running s = false -> thread_step s ls s' ->
  t_running s' = false /\ (weight s' < weight s)%nat.
Proof.
  intros H Hr Hs. assert (t_stop s <> SIdle) as Hne by (intros E%(i_running _ H); congruence).
  destruct Hs as [s1 Hs|s1 Hs|l s1 Hs|l s1 Hs|l s1 Hs|s1 Hs|l s1 Hs]; destruct Hs; (split; [done|]); rewrite ?Hr in *;
    repeat match goal with b : bool |- _ => destruct b | |- context [0 <=? ?z] => destruct (0 <=? z) end; weigh.
  all: try lia.
  rewrite sum_imap; [lia|]. intros i c. by destruct (in_table s i).
Qed.

Lemma stopped_clean s : inv s -> t_running s = false -> (forall ls s', ~ thread_step s ls s') ->
  t_stop s = SDone /\ t_peers s = ∅ /\ Forall (fun c => k_pc c = KDone) (t_conns s) /\
  map_Forall (fun _ o => o = OwEnv) (t_open s).
Proof.
  intros H Hr Hno.
  assert (Forall (fun c => k_pc c = KDone) (t_conns s)) as Hk.
  { apply Forall_lookup_2. intros k c Hk.
    assert (held c = true -> exists i n, t_openers s !! i = Some (OHold k n)) as Hh by (by apply (i_held _ H)).
    unfold held in Hh. destruct (k_pc c) eqn:Hp; try done; exfalso; try destruct (Hh eq_refl) as (i & n & Hi).
    - eapply Hno. eapply thread_dial, dial_done; eauto.
    - destruct (le_lt_dec 32 (size (t_peers s))); eapply Hno; [eapply thread_register, register_full|eapply thread_register, register_peer]; eauto.
    - eapply Hno. eapply thread_register, register_spawn; eauto.
    - eapply Hno. eapply thread_read, read_test; eauto.
    - eapply Hno. eapply thread_read, read_break; eauto.
    - eapply Hno. eapply thread_read, read_erase; eauto.
    - eapply Hno. eapply thread_read, read_checkfd; eauto.
    - eapply Hno. eapply thread_read, read_close; eauto.
    - eapply Hno. eapply thread_read, read_clear; eauto. }
  assert (forall i k n, t_openers s !! i <> Some (OHold k n)) as Hhold.
  { intros i k n (c & Hc & Hh)%(i_hold _ H). unfold held in Hh. by rewrite (Forall_lookup_1 _ _ _ _ Hk Hc) in Hh. }
  assert (forall i, (i < 2)%nat -> t_openers s !! i = Some ODone) as Hdone.
  { intros i Hi. destruct (lookup_lt_is_Some_2 (t_openers s) i) as [o Ho]; [pose proof (i_threads _ H); lia|].
    pose proof (i_role _ H i o Ho) as Hrole. destruct o as [| |n|k n|]; cbn in Hrole; [| | |by apply Hhold in Ho|done]; exfalso.
    - destruct i as [|[|i]]; [| |lia]; eapply Hno; [by eapply thread_accept, accept_test|by eapply thread_connect, (connect_test s 0)].
    - subst i. by eapply Hno, thread_accept, accept_none.
    - destruct n; eapply Hno; eapply thread_dial; [by apply (dial_none s i)|by eapply dial_nosock]. }
  assert (t_stop s = SDone) as Hs.
  { destruct (t_stop s) eqn:E; [|exfalso; eapply Hno, thread_stop..|done].
    - apply (i_running _ H) in E. congruence.
    - by apply stop_close.
    - by apply stop_unset.
    - apply stop_join; [done|]. apply Hdone. unfold connectThread. lia.
    - by apply stop_clear.
    - apply stop_last; [done|]. apply Hdone. unfold acceptThread. lia. }
  split_and!; [done| |done|].
  - apply map_empty. intros fd. destruct (t_peers s !! fd) as [k|] eqn:E; [|done].
    apply (i_peers _ H) in E as (c & Hc & Hl & _). unfold listed in Hl. by rewrite (Forall_lookup_1 _ _ _ _ Hk Hc) in Hl.
  - intros fd [| |k] Ho; [done| |].
    + apply (i_listen _ H) in Ho. rewrite Hs in Ho. naive_solver.
    + apply (i_open _ H) in Ho as (c & Hc & Hl & _). unfold owns in Hl. by rewrite (Forall_lookup_1 _ _ _ _ Hk Hc) in Hl.
Qed.

(** ** Reading *)

(** Before [Stop] clears the table a reader calls [recv] on its own descriptor. *)
Definition reads_own (c : Conn) : Prop :=
  match k_pc c with KReg | KLoop | KLeft => 0 <= k_fd c | KRecv v => v = k_fd c /\ 0 <= k_fd c | _ => True end.
Definition table_kept (s : Threads) : Prop := t_stop s <> SCleared /\ t_stop s <> SDone.
Lemma reads_own_set (l : list Conn) k c c' : Forall reads_own l -> l !! k = Some c ->
  (reads_own c -> reads_own c') -> Forall reads_own (<[k := c']> l).
Proof. intros H Hk Hc. apply Forall_insert; [done|]. apply Hc. by eapply Forall_lookup_1. Qed.
Lemma reads_own_step s ls s' : inv s -> (table_kept s -> Forall reads_own (t_conns s)) -> step s ls s' ->
  table_kept s' -> Forall reads_own (t_conns s').
Proof.
  intros Hi H Hs. destruct Hs as [ls s' Hs|s' [ ]|s' [ ]]; [|exact H..].
  destruct Hs as [s' [ ]|s' [ ]|ls s' [ ]|ls s' [ ]|ls s' [ ]|s' [ ]|ls s' [ ]];
    try exact H; try (intros [He1 He2]; apply H; cbn in *; split; congruence); intros He; try specialize (H He);
    try (by destruct He); try (apply Forall_app; split; [done|by constructor]);
    try (eapply reads_own_set; eauto; unfold reads_own; cbn;
         repeat match goal with Hp : k_pc _ = _ |- _ => rewrite Hp; clear Hp end;
         repeat match goal with |- context [if ?b then _ else _] => destruct b end; cbn; naive_solver).
  - apply Forall_insert; [done|]. pose proof (Forall_lookup_1 _ _ _ _ (i_fd _ Hi) H1) as Hf.
    unfold has_fd in Hf. rewrite H2 in Hf. unfold reads_own. cbn. done.
  - destruct (0 <=? _); apply H; split; congruence.
Qed.
Lemma run_reads_own s : server_run s -> table_kept s -> Forall reads_own (t_conns s).
Proof.
  induction 1 as [port fd callers env s Hfd Hn He E|s ls s' Hs IH Hst]; [injection E as <-; by constructor|].
  eapply reads_own_step; eauto using run_inv.
Qed.

(** * Properties *)

(** C14: the descriptors of the P2P server.  Whatever the order of the steps of the
    accepting, connecting and reading threads, of callers that add targets, of
    [Stop] and of the rest of the process: whoever closes a descriptor opened
    it and has not closed it before, even when the system gives numbers out
    again; no descriptor is closed twice in a step; the table never has more
    than 32 peers, and each of them has its own open descriptor, so a message
    is never sent to another peer's; and until [Stop] clears the table every
    reader receives from its own. *)
Theorem server_descriptors s ls s' : server_run s -> step s ls s' ->
  (forall w fd, (w, fd) ∈ ls -> t_open s !! fd = Some w) /\ NoDup ls.*2 /\
  (size (t_peers s) <= 32)%nat /\
  (forall fd k, t_peers s !! fd = Some k -> t_open s !! fd = Some (OwConn k)) /\
  (table_kept s -> forall k c v, t_conns s !! k = Some c -> k_pc c = KRecv v -> t_open s !! v = Some (OwConn k)).
Proof.
  intros Hr Hs. pose proof (run_inv s Hr) as H. split_and!.
  - destruct Hs as [ls s' Hs|s' Hs|s' Hs]; [by eauto using thread_closes|by intros ?? ?%not_elem_of_nil..].
  - destruct Hs as [ls s' Hs|s' Hs|s' Hs]; [by eauto using thread_closes_once|constructor..].
  - apply H.
  - intros fd k. by apply table_owned.
  - intros He k c v Hk Hp. pose proof (Forall_lookup_1 _ _ _ _ (run_reads_own s Hr He) Hk) as Hc.
    unfold reads_own in Hc. rewrite Hp in Hc. destruct Hc as [-> Hf]. apply (i_open _ H). exists c. split_and!; [done| |done].
    unfold owns. rewrite Hp. by apply Z.leb_le.
Qed.

(** C15: shutdown.  Once [Stop] has begun, the server's threads take at most
    [weight] more steps, whatever their order (calls of [ConnectTo] that begin
    later apart); and when none of them can take another, [Stop] has returned,
    every connection's thread has ended, the table is empty, and every
    descriptor the server opened is closed. *)
Theorem server_shutdown s : server_run s -> t_running s = false ->
  (forall n s', nsteps (fun a b => exists ls, thread_step a ls b) n s s' -> (n + weight s' <= weight s)%nat) /\
  (forall s', rtc (fun a b => exists ls, thread_step a ls b) s s' -> (forall ls s'', ~ thread_step s' ls s'') ->
    t_stop s' = SDone /\ t_peers s' = ∅ /\ Forall (fun c => k_pc c = KDone) (t_conns s') /\
    map_Forall (fun _ o => o = OwEnv) (t_open s')).
Proof.
  intros Hrun%run_inv Hr. split.
  - intros n s' Hn. induction Hn as [s|n s s1 s' [ls Hs] _ IH]; [lia|].
    destruct (stopping_decreases s ls s1 Hrun Hr Hs) as [Hr1 Hw]. specialize (IH (inv_thread _ _ _ Hrun Hs) Hr1). lia.
  - intros s' Hs. induction Hs as [s|s s1 s' [ls Hs] _ IH]; [by apply stopped_clean|].
    apply IH; [by eapply inv_thread|by eapply stopping_decreases].
Qed.

(** A failed [Start] leaves no descriptor behind. *)
Theorem start_failed port sock bindOk listenOk callers env e s :
  (forall fd, sock = Some fd -> env !! fd = None) ->
  Start port sock bindOk listenOk (new_server callers env) = (Err e, s) -> t_open s = env /\ t_listenFd s = -1 /\ t_running s = false.
Proof.
  intros Hf. unfold Start. cbn. destruct sock as [fd|]; [specialize (Hf fd eq_refl)|by intros [= _ <-]].
  destruct bindOk; [destruct listenOk; [done|]|]; cbn; intros [= _ <-]; (split; [by apply delete_insert_id|done]).
Qed.

(** ** A run *)

(** One peer connects and its reader waits in [recv]; then the server is
    stopped up to the moment before it closes the peers. *)
Definition wit_conn (p : kpc) : Conn := {| k_fd := 4; k_disc := false; k_pc := p |}.
Definition wit_started : Threads := (Start 9333 (Some 3) true true (new_server 0 ∅)).2.
Definition wit_reading : Threads :=
  set_conn 0 (wit_conn (KRecv 4)) (set_opener acceptThread OIdle (set_conn 0 (wit_conn KLoop)
    (set_peers (<[4 := 0%nat]>) (set_conn 0 (wit_conn KReg) (new_conn 4 KSock acceptThread 0 (set_opener acceptThread OReady wit_started)))))).
Definition wit_stopping : Threads := set_stop false 3 SFlag wit_reading.
Definition wit_joined : Threads :=
  set_stop false (-1) SJoined (set_opener connectThread ODone (set_stop false (-1) SListen (set_stop false 3 SClosing (close 3 wit_stopping)))).

Ltac next H tac :=
  match type of H with
  | server_run ?s =>
      let H' := fresh in
      eassert (thread_step s _ _) as H' by tac; apply (fun h => run_step _ _ _ H (step_thread _ _ _ h)) in H'; clear H; rename H' into H
  end.
Lemma wit_reading_run : server_run wit_reading.
Proof.
  assert (server_run wit_started) as H by (by eapply (run_start 9333 3 0 ∅)).
  next H ltac:(apply thread_accept, accept_test; reflexivity).
  next H ltac:(apply thread_accept, (accept_conn _ 4); [reflexivity..|split; [lia|reflexivity]]).
  next H ltac:(apply thread_register, (register_peer _ acceptThread 0 0 (wit_conn KSock)); [reflexivity..|apply Nat.lt_0_succ]).
  next H ltac:(apply thread_register, (register_spawn _ acceptThread 0 0 (wit_conn KReg)); reflexivity).
  next H ltac:(apply thread_read, (read_test _ 0 (wit_conn KLoop)); reflexivity).
  exact H.
Qed.
Lemma wit_stopping_run : server_run wit_stopping.
Proof. eapply run_step; [apply wit_reading_run|]. by apply step_thread, thread_stop, stop_flag. Qed.
Lemma wit_joined_run : server_run wit_joined.
Proof.
  pose proof wit_stopping_run as H.
  next H ltac:(apply thread_stop, stop_close; reflexivity).
  next H ltac:(apply thread_stop, stop_unset; reflexivity).
  next H ltac:(apply thread_connect, (connect_test _ 0); reflexivity).
  next H ltac:(apply thread_stop, stop_join; reflexivity).
  exact H.
Qed.
Lemma server_descriptors_witness :
  stop_closes wit_joined = [(OwConn 0, 4)] /\ t_open wit_joined !! 4 = Some (OwConn 0).
Proof.
  assert (stop_closes wit_joined = [(OwConn 0, 4)]) as E by reflexivity. split; [exact E|].
  destruct (server_descriptors wit_joined (stop_closes wit_joined) (set_stop false (-1) SCleared (stop_peers wit_joined)) wit_joined_run) as [H _].
  { apply step_thread, thread_stop. exact (stop_clear wit_joined eq_refl). }
  apply H. rewrite E. apply list_elem_of_here.
Defined.
Lemma server_shutdown_witness :
  t_running wit_stopping = false /\
  (forall n s', nsteps (fun a b => exists ls, thread_step a ls b) n wit_stopping s' -> (n <= 15)%nat).
Proof.
  split; [reflexivity|]. intros n s' Hn.
  destruct (server_shutdown wit_stopping wit_stopping_run eq_refl) as [H _]. specialize (H n s' Hn).
  assert (weight wit_stopping = 15%nat) as E by reflexivity. lia.
Defined.

(** A reader that has fetched [node->fd] before [Stop] closed it calls [recv] on
    a number that can by then be another part's descriptor. *)
Example reader_on_foreign_descriptor :
  exists s k c v, server_run s /\ t_conns s !! k = Some c /\ k_pc c = KRecv v /\ t_open s !! v = Some OwEnv.
Proof.
  exists (set_open (<[4 := OwEnv]>) (set_stop false (-1) SCleared (stop_peers wit_joined))), 0%nat, (no_fd (wit_conn (KRecv 4)) (KRecv 4)), 4.
  split; [|by vm_compute]. eapply run_step; [eapply run_step; [apply wit_joined_run|]|].
  - apply step_thread, thread_stop. exact (stop_clear wit_joined eq_refl).
  - apply step_env, env_open. split; [lia|by vm_compute].
Qed.
