(* ===== verification/Rpc.v ===== *)
(** The JSON-RPC text layer: [rpc/server.cpp] (the request reader, the
    authentication, the hand-written JSON scanner and the dispatcher), the
    client side of [cli/commands.cpp] ([Base64Encode], [RpcCall],
    [PrintRpcResult], [RunCliCommand]) and [bin/cdx-cli.cpp].  The method
    bodies are in [RpcMethods].

    Sockets are lists of events: what each [poll] and [recv] of the loop saw
    before the deadline.  A C++ exception that leaves the accepting thread is
    the outcome [Undef]: the process is terminated. *)
From Stdlib Require Import Ascii.
From S2P Require Import Prelude Config Compact Value Daemon Text.
Import Value.
Open Scope cdx_scope.

(** * Base64 *)

Module Base64.

Definition tbl : text := lit "ABCDEFGHIJKLMNOPQRSTUVWXYZabcdefghijklmnopqrstuvwxyz0123456789+/".
Definition tbl_at (i : Z) : ascii := nth (Z.to_nat i) tbl Ascii.zero.

(** The inner [while (bits >= 0)] of [Base64Encode]: after eight new bits it
    writes at most two characters. *)
Fixpoint emit (fuel : nat) (val bits : Z) (out : text) : Z * text :=
  match fuel with
  | O => (bits, out)
  | S k => if 0 <=? bits then emit k val (bits - 6) (out ++ [tbl_at (Z.land (Z.shiftr val bits) 0x3f)]) else (bits, out)
  end.
Definition encode_step (st : Z * Z * text) (c : ascii) : Z * Z * text :=
  let '(val, bits, out) := st in
  let val := u32 (u32 (Z.shiftl val 8) + ascii_Z c) in
  let bits := bits + 8 in
  let '(bits, out) := emit 3 val bits out in (val, bits, out).
(** [while (out.size() % 4) out.push_back('=');] *)
Definition pad4 (out : text) : text := out ++ repeat "="%char ((4 - length out mod 4) mod 4).
(** [if (bits > -6)]: the last, incomplete group. *)
Definition encode_finish (st : Z * Z * text) : text :=
  let '(val, bits, out) := st in
  if -6 <? bits then out ++ [tbl_at (Z.land (Z.shiftr (u32 (Z.shiftl val 8)) (bits + 8)) 0x3f)] else out.
Definition Base64Encode (inp : text) : text := pad4 (encode_finish (foldl encode_step (0, -6, []) inp)).

(** [val[(uint8_t)c]] of the table [CheckAuth] builds: the index of the
    character, [-1] when it has none. *)
Definition val_of (c : ascii) : Z :=
  match find_char (Ascii.eqb c) tbl with Some i => Z.of_nat i | None => -1 end.
(** The [decode] lambda of [CheckAuth]. *)
Fixpoint decode_loop (inp : text) (acc nbits : Z) : text :=
  match inp with
  | [] => []
  | c :: r =>
      if Ascii.eqb c "="%char then []
      else if val_of c <? 0 then decode_loop r acc nbits
      else
        let acc := Z.lor (u32 (Z.shiftl acc 6)) (val_of c) in
        let nbits := nbits + 6 in
        if 8 <=? nbits
        then chr (Z.land (Z.shiftr acc (nbits - 8)) 0xff) :: decode_loop r acc (nbits - 8)
        else decode_loop r acc nbits
  end.
Definition decode (inp : text) : text := decode_loop inp 0 0.

End Base64.
Import Base64.

(** * The server *)

(** [snprintf("%04x")] of a character below 32. *)
Definition hex4 (n : Z) : text := [digit_char 0; digit_char 0; hex_digit (n / 16); hex_digit (n mod 16)].
Definition escape_char (c : ascii) : text :=
  if Ascii.eqb c DQ then [BSL; DQ]
  else if Ascii.eqb c BSL then [BSL; BSL]
  else if Ascii.eqb c LF then BSL :: lit "n"
  else if Ascii.eqb c CR then BSL :: lit "r"
  else if Ascii.eqb c TAB then BSL :: lit "t"
  else if ascii_Z c <? 0x20 then BSL :: lit "u" ++ hex4 (ascii_Z c)
  else [c].
Definition JsonEscape (s : text) : text := flat_map escape_char s.

(** What one turn of the reading loop sees: nothing to read, a chunk, the end
    of the connection, [EAGAIN], another error.  The list of events ends at
    the deadline. *)
Inductive rpc_event := Idle | Chunk (s : text) | Closed | Again | Failed.

Definition BLANKS : text := [" "%char; TAB].
Definition AUTH : text := lit "Authorization:".
(** The [Authorization] value of the first chunk. *)
Definition auth_of (chunk : text) : outcome text :=
  match find AUTH chunk with
  | None => Done []
  | Some authPos =>
      match (match find_from CRLF chunk authPos with Some nl => Some nl | None => find_from [LF] chunk authPos end) with
      | None => Done []
      | Some nl =>
          match substr chunk (authPos + 14) (nl - authPos - 14) with
          | None => Undef
          | Some h => Done (default [] (trim BLANKS (BLANKS ++ [CR]) h))
          end
      end
  end.
Definition END_OF_HEADER : text := CRLF ++ CRLF.
Definition body_start (chunk : text) : option nat :=
  match find END_OF_HEADER chunk with Some p => Some p | None => find [LF; LF] chunk end.

(** The tests that leave the loop once a chunk was appended.  The literal
    ["\0"] passed to [request.find] is the empty C string. *)
Definition request_complete (first : bool) (request chunk : text) : bool :=
  (1024 * 1024 <? Z.of_nat (length request))
  || bool_decide (is_Some (find_from [] request 0))
  || (bool_decide (is_Some (find (lit "}") request))
      && (bool_decide (is_Some (find END_OF_HEADER request)) || bool_decide (is_Some (find END_OF_HEADER chunk)) || negb first)).

(** The reading loop of [AcceptLoop]: the body and the authorization value. *)
Fixpoint read_loop (evs : list rpc_event) (first : bool) (request authHeader : text) : outcome (text * text) :=
  match evs with
  | [] => Done (request, authHeader)
  | Idle :: r | Again :: r => read_loop r first request authHeader
  | Closed :: _ | Failed :: _ => Done (request, authHeader)
  | Chunk chunk :: r =>
      if first then
        match auth_of chunk with
        | Undef => Undef
        | Done authHeader =>
            match body_start chunk with
            | None => read_loop r false chunk authHeader
            | Some p =>
                match substr_end chunk (p + 4) with
                | None => Undef
                | Some request =>
                    if request_complete false request chunk then Done (request, authHeader)
                    else read_loop r false request authHeader
                end
            end
        end
      else
        let request := request ++ chunk in
        if request_complete false request chunk then Done (request, authHeader)
        else read_loop r false request authHeader
  end.

Section server.
Context {St : Type}.

(** A computation of a method on the node: [None] when it does not return,
    undefined behaviour, or a value or exception with the state reached. *)
Definition RpcM (A : Type) : Type := St -> option (outcome (res A * St)).
#[global] Instance RpcM_ret : MRet RpcM := fun A a st => Some (Done (Ok a, st)).
#[global] Instance RpcM_bind : MBind RpcM := fun A B f m st =>
  match m st with
  | Some (Done (Ok a, st')) => f a st'
  | Some (Done (Err e, st')) => Some (Done (Err e, st'))
  | Some Undef => Some Undef
  | None => None
  end.
Definition RpcMethodFn := list text -> RpcM text.
Definition method_table := list (text * RpcMethodFn).
(** [methods[name] = fn] on a [std::map], as the list of assignments. *)
Definition Register (methods : method_table) (name : text) (fn : RpcMethodFn) : method_table := (name, fn) :: methods.
Fixpoint find_method (methods : method_table) (name : text) : option RpcMethodFn :=
  match methods with
  | [] => None
  | (k, fn) :: r => if bool_decide (k = name) then Some fn else find_method r name
  end.

Record CRpcServer := { rs_user : text; rs_password : text; rs_methods : method_table }.

Definition CheckAuth (s : CRpcServer) (authHeader : text) : bool :=
  if bool_decide (rs_user s = []) then true
  else match strip_prefix (lit "Basic ") authHeader with
       | None => false
       | Some b64 => bool_decide (decode b64 = rs_user s ++ lit ":" ++ rs_password s)
       end.

(** The unescaping loop of [findJsonStr]. *)
Fixpoint unescape (v : text) : text :=
  match v with
  | c :: ((d :: r) as v') =>
      if Ascii.eqb c BSL then
        (if Ascii.eqb d "n"%char then LF else if Ascii.eqb d "t"%char then TAB else d) :: unescape r
      else c :: unescape v'
  | _ => v
  end.
Definition findJsonStr (body key : text) : text :=
  match find ([DQ] ++ key ++ [DQ]) body with
  | None => []
  | Some pos =>
      match find_from (lit ":") body (pos + length key + 2) with
      | None => []
      | Some colon =>
          match find_from [DQ] body (colon + 1) with
          | None => []
          | Some start =>
              match find_from [DQ] body (start + 1) with
              | None => []
              | Some fin => unescape (take (fin - start - 1) (drop (start + 1) body))
              end
          end
      end
  end.

(** The scanner of the [params] array, a character at a time. *)
Definition push_param (params : list text) (cur : text) : list text :=
  match cur with [] => params | _ => params ++ [cur] end.
Fixpoint scan_params (s : text) (depth : nat) (inStr : bool) (cur : text) (params : list text) : list text :=
  match s with
  | [] => push_param params cur
  | c :: r =>
      if Ascii.eqb c DQ then scan_params r depth (negb inStr) cur params
      else if inStr then scan_params r depth inStr (cur ++ [c]) params
      else if Ascii.eqb c "["%char then scan_params r (S depth) inStr (cur ++ [c]) params
      else if Ascii.eqb c "]"%char then
        (if (depth =? 1)%nat then push_param params cur else scan_params r (depth - 1) inStr (cur ++ [c]) params)
      else if Ascii.eqb c ","%char then scan_params r depth inStr [] (push_param params cur)
      else scan_params r depth inStr (cur ++ [c]) params
  end.
Definition params_of (body : text) : list text :=
  match find (json "'params'") body with
  | None => []
  | Some pos =>
      match find_from (lit ":") body (pos + 7) with
      | None => []
      | Some colon =>
          match find_from (lit "[") body colon with
          | None => []
          | Some start => scan_params (drop (start + 1) body) 1 false [] []
          end
      end
  end.

Definition id_of (body : text) : text :=
  match find (json "'id'") body with
  | None => lit "null"
  | Some pos =>
      match find_from (lit ":") body (pos + 3) with
      | None => lit "null"
      | Some colon =>
          match find_first_not_of BLANKS body (colon + 1) with
          | None => lit "null"
          | Some start =>
              match find_first_of (lit ",}") body start with
              | None => lit "null"
              | Some fin =>
                  let id := take (fin - start) (drop start body) in
                  default id (trim BLANKS BLANKS id)
              end
          end
      end
  end.
(** An identifier of one digit, [null], or one that starts as a string, an
    object or an array is sent back as it came, any other is quoted. *)
Definition quote_id (id : text) : text :=
  match id with
  | [] => id
  | c :: _ =>
      if bool_decide (id = lit "null") || bool_decide (id ∈ map (fun d => [digit_char d]) [0;1;2;3;4;5;6;7;8;9]) then id
      else if Ascii.eqb c DQ || Ascii.eqb c "{"%char || Ascii.eqb c "["%char then id
      else [DQ] ++ JsonEscape id ++ [DQ]
  end.

Definition not_found_response (method id : text) : text :=
  json "{'result':null,'error':{'code':-32601,'message':'method not found: " ++ JsonEscape method ++ json "'},'id':" ++ id ++ lit "}".
Definition exception_response (what id : text) : text :=
  json "{'result':null,'error':{'code':-32603,'message':'" ++ JsonEscape what ++ json "'},'id':" ++ id ++ lit "}".
Definition result_response (result id : text) : text :=
  json "{'result':" ++ result ++ json ",'error':null,'id':" ++ id ++ lit "}".
Definition unauthorized_response : text := json "{'error':{'code':-32600,'message':'unauthorized'},'id':null}".

Definition HandleRequestInner (s : CRpcServer) (body : text) (st : St) : option (outcome (text * St)) :=
  let method := findJsonStr body (lit "method") in
  let params := params_of body in
  let id := quote_id (id_of body) in
  match find_method (rs_methods s) method with
  | None => Some (Done (not_found_response method id, st))
  | Some fn =>
      match fn params st with
      | Some (Done (Err what, st)) => Some (Done (exception_response (lit what) id, st))
      | Some (Done (Ok result, st)) => Some (Done (result_response result id, st))
      | Some Undef => Some Undef
      | None => None
      end
  end.
Definition HandleRequest (s : CRpcServer) (body authHeader : text) (st : St) : option (outcome (text * St)) :=
  if CheckAuth s authHeader then HandleRequestInner s body st else Some (Done (unauthorized_response, st)).

(** One turn of [AcceptLoop]: what is sent on the connection, [None] when the
    request was empty. *)
Definition http_response (response : text) : text :=
  lit "HTTP/1.1 200 OK" ++ CRLF ++ lit "Content-Type: application/json" ++ CRLF ++ lit "Content-Length: "
  ++ to_string (Z.of_nat (length response)) ++ CRLF ++ lit "Connection: close" ++ CRLF ++ CRLF ++ response.
Definition send_response (r : option (outcome (text * St))) : option (outcome (option text * St)) :=
  match r with
  | Some (Done (response, st)) => Some (Done (Some (http_response response), st))
  | Some Undef => Some Undef
  | None => None
  end.
Definition serve_connection (s : CRpcServer) (evs : list rpc_event) (st : St) : option (outcome (option text * St)) :=
  match read_loop evs true [] [] with
  | Undef => Some Undef
  | Done ([], _) => Some (Done (None, st))
  | Done (request, authHeader) => send_response (HandleRequest s request authHeader st)
  end.

End server.

(** * The client *)

Record CliConfig := { cc_network : string; cc_rpcUser : text; cc_rpcPassword : text; cc_rpcPort : text; cc_dataDir : text }.

(** [std::stoi]: [None] is [std::invalid_argument] (no digit) or
    [std::out_of_range]. *)
Definition stoi (s : text) : option Z :=
  let l := skip_spaces s in
  let '(sign, ds) := match l with
                     | "-"%char :: r => (-1, r)
                     | "+"%char :: r => (1, r)
                     | r => (1, r)
                     end in
  match ds with
  | c :: _ =>
      if is_digit c then
        let v := sign * read_digits ds 0 in
        if (- 2 ^ 31 <=? v) && (v <? 2 ^ 31) then Some v else None
      else None
  | [] => None
  end.
(** The port [RpcCall] connects to. *)
Definition cli_port (cfg : CliConfig) : option Z :=
  match cc_rpcPort cfg with
  | [] => Some (rpcPort (GetParams (cc_network cfg)))
  | p => u16 <$> stoi p
  end.

Fixpoint join_params (params : list text) : text :=
  match params with
  | [] => []
  | [p] => [DQ] ++ p ++ [DQ]
  | p :: r => [DQ] ++ p ++ [DQ] ++ lit "," ++ join_params r
  end.
Definition request_body (method : text) (params : list text) : text :=
  json "{'jsonrpc':'2.0','id':1,'method':'" ++ method ++ json "','params':[" ++ join_params params ++ lit "]}".
Definition http_request (cfg : CliConfig) (body : text) : text :=
  lit "POST / HTTP/1.1" ++ CRLF ++ lit "Host: localhost" ++ CRLF
  ++ lit "Authorization: Basic " ++ Base64Encode (cc_rpcUser cfg ++ lit ":" ++ cc_rpcPassword cfg) ++ CRLF
  ++ lit "Content-Type: application/json" ++ CRLF ++ lit "Content-Length: " ++ to_string (Z.of_nat (length body))
  ++ CRLF ++ lit "Connection: close" ++ CRLF ++ CRLF ++ body.

(** The receiving loop: the chunks [recv] returns before it returns zero or an
    error; the loop stops at the first chunk after which a header end and a
    closing brace were seen. *)
Fixpoint recv_loop (chunks : list text) (resp : text) : text :=
  match chunks with
  | [] => resp
  | c :: r =>
      let resp := resp ++ c in
      if bool_decide (is_Some (find END_OF_HEADER resp)) && bool_decide (is_Some (find (lit "}") resp)) then resp
      else recv_loop r resp
  end.
(** [RpcCall] against a peer: [net] gives, for a port and the bytes sent, the
    chunks that come back, [None] when the connection is refused. *)
Definition RpcCall (net : Z -> text -> option (list text)) (cfg : CliConfig) (method : text) (params : list text) : res text :=
  match cli_port cfg with
  | None => Err "invalid -rpcport"
  | Some port =>
      match net port (http_request cfg (request_body method params)) with
      | None => Err "cannot connect to cdxd RPC (is the node running?)"
      | Some chunks =>
          match recv_loop chunks [] with
          | [] => Err "no response from node"
          | resp => Ok (match find END_OF_HEADER resp with Some p => drop (p + 4) resp | None => resp end)
          end
      end
  end.

(** [while (pos < size && (json[pos] == ' ' || json[pos] == '\t')) ++pos;] *)
Fixpoint skip_blanks (s : text) : text :=
  match s with c :: r => if mem c BLANKS then skip_blanks r else s | [] => [] end.
(** [result.substr(1, result.size() - 2)] of a quoted result. *)
Definition unquote (r : text) : text :=
  match r with
  | c :: r' => if Ascii.eqb c DQ && (2 <=? length r)%nat && bool_decide (last r = Some DQ) then take (length r - 2) r' else r
  | [] => []
  end.
(** The line [PrintRpcResult] writes.  Without an [error] member the result
    goes to [json.size() - 1], computed on [size_t]: when the position is
    already there the length wraps and the rest of the text is taken. *)
Definition PrintRpcResult (js : text) : text :=
  match find (json "'result':") js with
  | None => js
  | Some pos =>
      let rest := skip_blanks (drop (pos + 9) js) in
      let result := match find (json ",'error'") rest with
                    | Some fin => take fin rest
                    | None => if (0 <? length rest)%nat then take (length rest - 1) rest else rest
                    end in
      unquote result
  end.

(** [RunCliCommand]: the calls it makes, in the order of its tests. *)
Inductive cli_action :=
| CliUsage
| CliCall (method : string) (params : list text)
| CliUnknown.
Definition RunCliCommand (args : list text) : outcome cli_action :=
  let n := length args in
  let arg k (s : string) := bool_decide (args !! k = Some (lit s)) in
  let sub cmd s := arg 0%nat cmd && (1 <? n)%nat && arg 1%nat s in
  match args with
  | [] => Done CliUsage
  | _ =>
      if sub "blockchain" "info" then Done (CliCall "getblockchaininfo" [])
      else if sub "blockchain" "height" then Done (CliCall "getblockcount" [])
      else if sub "blockchain" "sync" then Done (CliCall "getblockchaininfo" [])
      else if (2 <? n)%nat && sub "blockchain" "getblock" then Done (CliCall "getblock" [default [] (args !! 2%nat)])
      else if sub "wallet" "getnewaddress" then Done (CliCall "getnewaddress" [])
      else if sub "wallet" "balance" then Done (CliCall "getbalance" [])
      else if sub "wallet" "history" then Done (CliCall "listtransactions" [])
      else if sub "wallet" "listaddresses" then Done (CliCall "getaddresses" [])
      else if arg 0%nat "send" && (3 <=? n)%nat then Done (CliCall "sendtoaddress" [default [] (args !! 1%nat); default [] (args !! 2%nat)])
      else if sub "mining" "status" then Done (CliCall "getmininginfo" [])
      else if sub "mining" "start" then Done (CliCall "startmining" [])
      else if sub "mining" "stop" then Done (CliCall "stopmining" [])
      else if (2 <? n)%nat && sub "mining" "setaddress" then Done (CliCall "setminingaddress" [default [] (args !! 2%nat)])
      else if sub "mining" "getaddress" then Done (CliCall "getminingaddress" [])
      else if sub "network" "peers" then Done (CliCall "getpeerinfo" [])
      else if sub "network" "info" then Done (CliCall "getnetworkinfo" [])
      else if sub "network" "connect" then
        match args !! 2%nat with Some a => Done (CliCall "addnode" [a]) | None => Undef end
      else if arg 0%nat "mempool" then Done (CliCall "getmempoolinfo" [])
      else Done CliUnknown
  end.
(** What a command prints and the exit status. *)
Definition cli_run (net : Z -> text -> option (list text)) (cfg : CliConfig) (args : list text) : outcome (text * Z) :=
  a ← RunCliCommand args;
  Done (match a with
        | CliUsage => (lit "Usage: cdx-cli <command> [args...]", 1)
        | CliCall m ps =>
            match RpcCall net cfg (lit m) ps with
            | Ok r => (PrintRpcResult r, 0)
            | Err e => (lit e, 1)
            end
        | CliUnknown => (lit "Unknown command: " ++ default [] (head args), 1)
        end).

(** * [bin/cdx-cli.cpp] *)

Definition default_cli : CliConfig :=
  {| cc_network := "mainnet"; cc_rpcUser := lit "cdx"; cc_rpcPassword := lit "cdx"; cc_rpcPort := []; cc_dataDir := lit "data" |}.
(** An option that sets a member of the configuration. *)
Definition cli_option (cfg : CliConfig) (a : text) : option CliConfig :=
  match strip_prefix (lit "-network=") a with
  | Some v => Some {| cc_network := String.string_of_list_ascii v; cc_rpcUser := cc_rpcUser cfg; cc_rpcPassword := cc_rpcPassword cfg; cc_rpcPort := cc_rpcPort cfg; cc_dataDir := cc_dataDir cfg |}
  | None =>
  match strip_prefix (lit "-rpcuser=") a with
  | Some v => Some {| cc_network := cc_network cfg; cc_rpcUser := v; cc_rpcPassword := cc_rpcPassword cfg; cc_rpcPort := cc_rpcPort cfg; cc_dataDir := cc_dataDir cfg |}
  | None =>
  match strip_prefix (lit "-rpcpassword=") a with
  | Some v => Some {| cc_network := cc_network cfg; cc_rpcUser := cc_rpcUser cfg; cc_rpcPassword := v; cc_rpcPort := cc_rpcPort cfg; cc_dataDir := cc_dataDir cfg |}
  | None =>
  match strip_prefix (lit "-rpcport=") a with
  | Some v => Some {| cc_network := cc_network cfg; cc_rpcUser := cc_rpcUser cfg; cc_rpcPassword := cc_rpcPassword cfg; cc_rpcPort := v; cc_dataDir := cc_dataDir cfg |}
  | None =>
  match strip_prefix (lit "-datadir=") a with
  | Some v => Some {| cc_network := cc_network cfg; cc_rpcUser := cc_rpcUser cfg; cc_rpcPassword := cc_rpcPassword cfg; cc_rpcPort := cc_rpcPort cfg; cc_dataDir := v |}
  | None => None
  end end end end end.
(** The argument loop of [main]: [None] when a help option ends the program. *)
Fixpoint cli_args (argv : list text) (cfg : CliConfig) (args : list text) : option (CliConfig * list text) :=
  match argv with
  | [] => Some (cfg, args)
  | a :: r =>
      match cli_option cfg a with
      | Some cfg => cli_args r cfg args
      | None => if bool_decide (a ∈ map lit ["-h"; "-help"; "--help"]) then None else cli_args r cfg (args ++ [a])
      end
  end.
(** The usage text stands for what [PrintUsage] writes. *)
Inductive cli_result := CliHelp (status : Z) | CliRan (output : text) (status : Z).
Definition cli_main (net : Z -> text -> option (list text)) (argv : list text) : outcome cli_result :=
  match cli_args argv default_cli [] with
  | None => Done (CliHelp 0)
  | Some (_, []) => Done (CliHelp 1)
  | Some (cfg, args) => r ← cli_run net cfg args; Done (CliRan r.1 r.2)
  end.

(** * Base64: lemmas *)

Lemma ascii_Z_bound c : 0 <= ascii_Z c < 256.
Proof. unfold ascii_Z. pose proof (nat_ascii_bounded c). lia. Qed.
Lemma chr_of_ascii c : chr (ascii_Z c) = c.
Proof. unfold chr, ascii_Z. by rewrite Nat2Z.id, ascii_nat_embedding. Qed.

(** The six-bit groups of a byte string: [k] is the number of bytes since the
    last whole group and [r] the bits left over from them. *)
Fixpoint sextets (k : nat) (r : Z) (l : text) : list Z :=
  match l with
  | [] => match k with O => [] | 1%nat => [r * 16] | _ => [r * 4] end
  | c :: l =>
      let b := ascii_Z c in
      match k with
      | O => b / 4 :: sextets 1 (b mod 4) l
      | 1%nat => r * 16 + b / 16 :: sextets 2 (b mod 16) l
      | _ => r * 4 + b / 64 :: b mod 64 :: sextets 0 0 l
      end
  end.
Definition encode_bits (k : nat) : Z := match k with O => -6 | 1%nat => -4 | _ => -2 end.
Definition encode_mod (k : nat) : Z := match k with O => 1 | 1%nat => 4 | _ => 16 end.

Lemma land63 z : Z.land z 0x3f = z mod 64.
Proof. change 0x3f with (Z.ones 6). by rewrite Z.land_ones. Qed.
Lemma shifted_byte v b :
  0 <= b < 256 -> exists q, u32 (u32 (Z.shiftl v 8) + b) = (v mod 2 ^ 24) * 256 + b /\ v = q * 2 ^ 24 + v mod 2 ^ 24.
Proof.
  intros Hb. exists (v / 2 ^ 24). rewrite Z.shiftl_mul_pow2 by done. unfold u32.
  pose proof (Z.div_mod v (2 ^ 24) ltac:(lia)). pose proof (Z.mod_pos_bound v (2 ^ 24) ltac:(lia)).
  split; [|lia]. set (m := v mod 2 ^ 24) in *.
  replace ((v * 2 ^ 8) mod 2 ^ 32) with (m * 256).
  - apply Z.mod_small. lia.
  - apply (Z.mod_unique _ _ (v / 2 ^ 24)); lia.
Qed.

Lemma emit_2 v out : emit 3 v 2 out = (-4, out ++ [tbl_at ((v / 4) mod 64)]).
Proof. transitivity (-4, out ++ [tbl_at (Z.land (Z.shiftr v 2) 0x3f)]); [done|]. by rewrite land63, Z.shiftr_div_pow2. Qed.
Lemma emit_4 v out : emit 3 v 4 out = (-2, out ++ [tbl_at ((v / 16) mod 64)]).
Proof. transitivity (-2, out ++ [tbl_at (Z.land (Z.shiftr v 4) 0x3f)]); [done|]. by rewrite land63, Z.shiftr_div_pow2. Qed.
Lemma emit_6 v out : emit 3 v 6 out = (-6, out ++ [tbl_at ((v / 64) mod 64); tbl_at (v mod 64)]).
Proof.
  transitivity (-6, (out ++ [tbl_at (Z.land (Z.shiftr v 6) 0x3f)]) ++ [tbl_at (Z.land (Z.shiftr v 0) 0x3f)]); [done|].
  by rewrite !land63, Z.shiftr_0_r, Z.shiftr_div_pow2, <- (assoc_L (++)).
Qed.

Lemma encode_step_out k v r out c :
  (k < 3)%nat -> v mod encode_mod k = r ->
  exists v', encode_step (v, encode_bits k, out) c = (v', encode_bits ((k + 1) mod 3), out ++ map tbl_at (match k with
      | O => [ascii_Z c / 4] | 1%nat => [r * 16 + ascii_Z c / 16] | _ => [r * 4 + ascii_Z c / 64; ascii_Z c mod 64] end)) /\
    v' mod encode_mod ((k + 1) mod 3) = match k with O => ascii_Z c mod 4 | 1%nat => ascii_Z c mod 16 | _ => 0 end.
Proof.
  intros Hk Hr. pose proof (ascii_Z_bound c) as Hb. destruct (shifted_byte v (ascii_Z c) Hb) as (q & Hv & Hq).
  pose proof (Z.mod_pos_bound v (2 ^ 24) ltac:(lia)) as Hm.
  unfold encode_step. rewrite Hv. set (b := ascii_Z c) in *. set (m := v mod 2 ^ 24) in *. clearbody m b. clear Hv.
  exists (m * 256 + b).
  destruct k as [|[|[|k]]]; [..|lia]; cbn [encode_bits encode_mod] in *.
  - change (-6 + 8) with 2. rewrite emit_2. split; [cbn [map]; do 4 f_equal|]; clear - Hb Hm.
    + Z.to_euclidean_division_equations. lia.
    + cbn. Z.to_euclidean_division_equations. lia.
  - change (-4 + 8) with 4. rewrite emit_4. split; [cbn [map]; do 4 f_equal|]; clear - Hb Hm Hq Hr.
    + Z.to_euclidean_division_equations. lia.
    + cbn. Z.to_euclidean_division_equations. lia.
  - change (-2 + 8) with 6. rewrite emit_6. split; [cbn [map]; do 3 f_equal; [|f_equal]|apply Z.mod_1_r]; f_equal; clear - Hb Hm Hq Hr.
    + Z.to_euclidean_division_equations. lia.
    + Z.to_euclidean_division_equations. lia.
Qed.

Lemma sextets_cons k r c l :
  (k < 3)%nat ->
  sextets k r (c :: l) = match k with
      | O => [ascii_Z c / 4] | 1%nat => [r * 16 + ascii_Z c / 16] | _ => [r * 4 + ascii_Z c / 64; ascii_Z c mod 64] end
    ++ sextets ((k + 1) mod 3) (match k with O => ascii_Z c mod 4 | 1%nat => ascii_Z c mod 16 | _ => 0 end) l.
Proof. intros Hk. by destruct k as [|[|[|k]]]; [..|lia]. Qed.

Lemma encode_fold k v r out l :
  (k < 3)%nat -> v mod encode_mod k = r ->
  encode_finish (foldl encode_step (v, encode_bits k, out) l)
  = out ++ map tbl_at (sextets k r l).
Proof.
  revert k v r out. induction l as [|c l IH]; intros k v r out Hk Hr.
  - cbn [foldl encode_finish]. destruct k as [|[|[|k]]]; [..|lia]; cbn [encode_bits encode_mod sextets map] in *.
    + by rewrite app_nil_r.
    + change (-6 <? -4) with true. change (-4 + 8) with 4. cbn iota. do 2 f_equal. f_equal. rewrite land63, Z.shiftr_div_pow2, Z.shiftl_mul_pow2 by lia.
      unfold u32. change (2 ^ 4) with 16. change (2 ^ 8) with 256. change (2 ^ 32) with 4294967296.
      clear - Hr. Z.to_euclidean_division_equations. lia.
    + change (-6 <? -2) with true. change (-2 + 8) with 6. cbn iota. do 2 f_equal. f_equal. rewrite land63, Z.shiftr_div_pow2, Z.shiftl_mul_pow2 by lia.
      unfold u32. change (2 ^ 6) with 64. change (2 ^ 8) with 256. change (2 ^ 32) with 4294967296.
      clear - Hr. Z.to_euclidean_division_equations. lia.
  - cbn [foldl]. destruct (encode_step_out k v r out c Hk Hr) as (v' & -> & Hv').
    rewrite (IH _ _ _ _ (Nat.mod_upper_bound _ 3 ltac:(lia)) Hv'), <- (assoc_L (++)), <- map_app, <- sextets_cons by done.
    done.
Qed.

(** [Base64Encode] writes the six-bit groups and pads to a multiple of four. *)
Lemma base64_groups l : Base64Encode l = pad4 (map tbl_at (sextets 0 0 l)).
Proof.
  unfold Base64Encode. f_equal. by apply (encode_fold 0 0 0 []); [lia|].
Qed.

Lemma tbl_at_val i : 0 <= i < 64 -> val_of (tbl_at i) = i /\ Ascii.eqb (tbl_at i) "=" = false.
Proof.
  intros Hi.
  assert (forallb (fun j => (val_of (tbl_at (Z.of_nat j)) =? Z.of_nat j) && negb (Ascii.eqb (tbl_at (Z.of_nat j)) "=")) (seq 0 64) = true) as H
    by (vm_compute; done).
  rewrite forallb_forall in H. specialize (H (Z.to_nat i)). rewrite in_seq, Z2Nat.id in H by lia.
  specialize (H ltac:(lia)). apply andb_true_iff in H as [H1 H2]. split; [by apply Z.eqb_eq|by apply negb_true_iff].
Qed.

Lemma land255 z : Z.land z 0xff = z mod 256.
Proof. change 0xff with (Z.ones 8). by rewrite Z.land_ones. Qed.
Lemma shifted_sextet acc i : 0 <= i < 64 -> Z.lor (u32 (Z.shiftl acc 6)) i = (acc mod 2 ^ 26) * 64 + i.
Proof.
  intros Hi. rewrite Z.shiftl_mul_pow2, Z.lor_comm by done. unfold u32.
  replace ((acc * 2 ^ 6) mod 2 ^ 32) with ((acc mod 2 ^ 26) * 2 ^ 6).
  - rewrite lor_disjoint_add by lia. lia.
  - change (2 ^ 6) with 64. change (2 ^ 26) with 67108864. change (2 ^ 32) with 4294967296.
    Z.to_euclidean_division_equations. lia.
Qed.

(** One character of the decoder, in each of its four states. *)
Lemma decode_char i rest acc nbits :
  0 <= i < 64 -> 0 <= nbits < 8 ->
  decode_loop (tbl_at i :: rest) acc nbits =
    let acc' := (acc mod 2 ^ 26) * 64 + i in
    if 2 <=? nbits then chr ((acc' / 2 ^ (nbits - 2)) mod 256) :: decode_loop rest acc' (nbits - 2)
    else decode_loop rest acc' (nbits + 6).
Proof.
  intros Hi Hn. destruct (tbl_at_val i Hi) as [Hv He]. cbn [decode_loop]. rewrite He, Hv.
  destruct (Z.ltb_spec i 0); [lia|]. rewrite shifted_sextet by done. cbn zeta.
  replace (nbits + 6 - 8) with (nbits - 2) by lia.
  destruct (Z.leb_spec 8 (nbits + 6)), (Z.leb_spec 2 nbits); try lia; [|done].
  by rewrite land255, Z.shiftr_div_pow2 by lia.
Qed.

(** The bits of the byte in progress the decoder holds when the encoder is in
    state [k]. *)
Definition decode_nbits (k : nat) : Z := match k with O => 0 | 1%nat => 6 | _ => 4 end.
Definition pending (k : nat) (acc r : Z) : text :=
  match k with O => [] | 1%nat => [chr ((acc mod 64) * 4 + r)] | _ => [chr ((acc mod 16) * 16 + r)] end.
Lemma decode_pad n acc nbits : decode_loop (repeat "="%char n) acc nbits = [].
Proof. by destruct n. Qed.

Lemma decode_sextets k r l acc n :
  (k < 3)%nat -> 0 <= r < encode_mod k ->
  decode_loop (map tbl_at (sextets k r l) ++ repeat "="%char n) acc (decode_nbits k) = pending k acc r ++ l.
Proof.
  revert k r acc. induction l as [|c l IH]; intros k r acc Hk Hr.
  - destruct k as [|[|[|k]]]; [..|lia]; cbn [sextets map app decode_nbits pending encode_mod] in *; [apply decode_pad|..];
      rewrite decode_char by lia; cbn -[Z.mul Z.div Z.modulo Z.pow decode_loop tbl_at]; rewrite decode_pad; do 2 f_equal.
    + change (2 ^ 4) with 16. change (2 ^ 26) with 67108864. Z.to_euclidean_division_equations. lia.
    + change (2 ^ 2) with 4. change (2 ^ 26) with 67108864. Z.to_euclidean_division_equations. lia.
  - pose proof (ascii_Z_bound c) as Hb. rewrite <- (chr_of_ascii c) at 2.
    destruct k as [|[|[|k]]]; [..|lia]; cbn [sextets map app decode_nbits pending encode_mod] in *.
    + rewrite decode_char by (lia || (Z.to_euclidean_division_equations; lia)). cbn -[Z.mul Z.div Z.modulo Z.pow decode_loop tbl_at].
      rewrite (IH 1%nat) by (cbn; lia || (apply Z.mod_pos_bound; lia)). cbn [pending app]. do 2 f_equal.
      change (2 ^ 26) with 67108864. Z.to_euclidean_division_equations. lia.
    + rewrite decode_char by (lia || (Z.to_euclidean_division_equations; lia)). cbn -[Z.mul Z.div Z.modulo Z.pow decode_loop tbl_at].
      rewrite (IH 2%nat) by (cbn; lia || (apply Z.mod_pos_bound; lia)). cbn [pending app]. f_equal; [f_equal|do 2 f_equal];
      change (2 ^ 26) with 67108864; change (2 ^ (6 - 2)) with 16; Z.to_euclidean_division_equations; lia.
    + rewrite decode_char by (lia || (Z.to_euclidean_division_equations; lia)). cbn -[Z.mul Z.div Z.modulo Z.pow decode_loop tbl_at].
      change (4 - 2) with 2. rewrite (decode_char _ _ _ 2) by (lia || (Z.to_euclidean_division_equations; lia)). cbn -[Z.mul Z.div Z.modulo Z.pow decode_loop tbl_at].
      rewrite (IH 0%nat) by (cbn; lia). cbn [pending app]. f_equal; [|f_equal]; f_equal;
      change (2 ^ 26) with 67108864; change (2 ^ (4 - 2)) with 4; change (2 ^ (2 - 2)) with 1; Z.to_euclidean_division_equations; lia.
Qed.

(** The decoder of the server undoes the encoder of the client. *)
Lemma decode_encode l : decode (Base64Encode l) = l.
Proof. rewrite base64_groups. unfold pad4, decode. by rewrite (decode_sextets 0 0) by (cbn; lia). Qed.

(** * The request of the client as the server reads it *)

(** A character the encoder writes. *)
Definition b64_char (c : ascii) : bool := mem c (tbl ++ ["="%char]).
Lemma tbl_at_in i : b64_char (tbl_at i) = true \/ tbl_at i = Ascii.zero.
Proof.
  unfold tbl_at. destruct (decide (Z.to_nat i < length tbl)%nat) as [H|H].
  - left. apply mem_spec, elem_of_app. left. apply list_elem_of_In, nth_In. done.
  - right. apply nth_overflow. lia.
Qed.
Lemma b64_char_text l : Forall (fun c => b64_char c = true \/ c = Ascii.zero) (Base64Encode l).
Proof.
  rewrite base64_groups. unfold pad4. apply Forall_app. split.
  - apply Forall_fmap, Forall_forall. intros i _. apply tbl_at_in.
  - apply Forall_forall. intros c Hc. apply list_elem_of_In, repeat_spec in Hc as ->. left. by vm_compute.
Qed.
Lemma b64_fresh c l : b64_char c = false -> c <> Ascii.zero -> c ∉ Base64Encode l.
Proof.
  intros H1 H2 Hin. pose proof (b64_char_text l) as H. rewrite Forall_forall in H.
  destruct (H c Hin); [congruence|done].
Qed.
Lemma b64_nonempty l : l <> [] -> exists x d, Base64Encode l = x ++ [d].
Proof.
  intros Hl. destruct (exists_last (l := Base64Encode l)) as (x & d & ->); [|by exists x, d].
  intros H. apply Hl. by rewrite <- (decode_encode l), H.
Qed.

(** The request in the parts the searches meet. *)
Definition REQ_HEAD : text := lit "POST / HTTP/1.1" ++ CRLF ++ lit "Host: localhost" ++ CRLF.
Definition REQ_MID : text := CRLF ++ lit "Content-Type: application/json" ++ CRLF ++ lit "Content-Length: ".
Definition REQ_END : text := CRLF ++ lit "Connection: close".
Definition credentials (cfg : CliConfig) : text := Base64Encode (cc_rpcUser cfg ++ lit ":" ++ cc_rpcPassword cfg).
Lemma http_request_parts cfg body :
  http_request cfg body =
  REQ_HEAD ++ AUTH ++ (lit " Basic " ++ credentials cfg) ++ REQ_MID ++ to_string (Z.of_nat (length body)) ++ REQ_END ++ END_OF_HEADER ++ body.
Proof. unfold http_request, credentials. by rewrite <- !(assoc_L (++)). Qed.

Lemma auth_of_request cfg body : auth_of (http_request cfg body) = Done (lit "Basic " ++ credentials cfg).
Proof.
  rewrite http_request_parts. set (rest := REQ_MID ++ _). set (v := lit " Basic " ++ credentials cfg).
  unfold auth_of. rewrite find_never by (by vm_compute). rewrite find_here. cbn [fmap option_fmap option_map].
  rewrite Nat.add_0_r.
  replace (REQ_HEAD ++ AUTH ++ v ++ rest) with (REQ_HEAD ++ (AUTH ++ v) ++ CRLF ++ drop 2 rest) at 1 by (rewrite <- !(assoc_L (++)); done).
  rewrite find_from_at.
  2:{ apply never_fresh. unfold v. rewrite !elem_of_app. intros [H|[H|H]].
      - revert H. apply (bool_decide_unpack _). by vm_compute.
      - revert H. apply (bool_decide_unpack _). by vm_compute.
      - revert H. apply b64_fresh; by vm_compute. }
  replace (length REQ_HEAD + length (AUTH ++ v) - length REQ_HEAD - 14)%nat with (length v) by (rewrite length_app; change (length AUTH) with 14%nat; lia).
  replace (REQ_HEAD ++ AUTH ++ v ++ rest) with ((REQ_HEAD ++ AUTH) ++ v ++ rest) by (by rewrite <- !(assoc_L (++))).
  change (length REQ_HEAD + 14)%nat with (length (REQ_HEAD ++ AUTH)). rewrite substr_app. do 2 f_equal.
  unfold v. destruct (b64_nonempty (cc_rpcUser cfg ++ lit ":" ++ cc_rpcPassword cfg)) as (x & d & Hx); [by destruct (cc_rpcUser cfg)|].
  unfold credentials. rewrite Hx.
  change (trim BLANKS (BLANKS ++ [CR]) (lit " Basic " ++ x ++ [d])) with (trim BLANKS (BLANKS ++ [CR]) ([" "%char] ++ "B"%char :: (lit "asic " ++ x) ++ [d])).
  rewrite trim_core; [done|by repeat constructor|done|].
  destruct (mem d (BLANKS ++ [CR])) eqn:E; [|done]. exfalso.
  apply mem_spec in E. assert (d ∈ Base64Encode (cc_rpcUser cfg ++ lit ":" ++ cc_rpcPassword cfg)) as Hd by (rewrite Hx; apply elem_of_app; right; left).
  revert Hd. apply b64_fresh; revert E; unfold BLANKS; cbn [app]; rewrite !elem_of_cons, elem_of_nil; intros [->|[->|[->|[]]]]; by vm_compute.
Qed.

Lemma body_start_request cfg body :
  exists h, http_request cfg body = h ++ END_OF_HEADER ++ body /\ body_start (http_request cfg body) = Some (length h).
Proof.
  exists (REQ_HEAD ++ AUTH ++ (lit " Basic " ++ credentials cfg) ++ REQ_MID ++ to_string (Z.of_nat (length body)) ++ REQ_END).
  rewrite http_request_parts. split; [by rewrite <- !(assoc_L (++))|]. unfold body_start.
  rewrite <- !(assoc_L (++)). set (tl := credentials cfg ++ _).
  replace (REQ_HEAD ++ AUTH ++ lit " Basic " ++ tl) with ((REQ_HEAD ++ AUTH ++ lit " Basic ") ++ tl) by (by rewrite <- !(assoc_L (++))).
  unfold tl.
  assert (never END_OF_HEADER (credentials cfg) = true) as Hb by (apply never_fresh, b64_fresh; by vm_compute).
  assert (never END_OF_HEADER (to_string (Z.of_nat (length body))) = true) as Hn.
  { apply never_fresh, to_string_no; by vm_compute. }
  rewrite 5!find_never by (done || by vm_compute). rewrite find_here. cbn [fmap option_fmap option_map].
  f_equal. rewrite !length_app. lia.
Qed.
(** A request that arrives in one piece is read as its body and its
    credentials. *)
Lemma read_request cfg body evs :
  read_loop (Chunk (http_request cfg body) :: evs) true [] [] = Done (body, lit "Basic " ++ credentials cfg).
Proof.
  cbn [read_loop]. rewrite auth_of_request. destruct (body_start_request cfg body) as (h & Hh & ->).
  rewrite Hh. change 4%nat with (length END_OF_HEADER). rewrite <- length_app, (assoc_L (++)), substr_end_app.
  replace (request_complete _ _ _) with true; [done|].
  unfold request_complete, find_from. cbn [Nat.leb]. rewrite drop_0, (find_here [] body : find [] body = Some 0%nat).
  by rewrite orb_true_r.
Qed.

(** A method name or a parameter that needs no escaping. *)
Definition plain (s : text) : Prop := (DQ ∉ s) /\ (BSL ∉ s).
Definition plain_param (p : text) : Prop := (DQ ∉ p) /\ p <> [].

Definition BODY_HEAD : text := json "{'jsonrpc':'2.0','id':1,'method':'".
Lemma request_body_parts m ps :
  request_body m ps = BODY_HEAD ++ m ++ [DQ] ++ json ",'params':[" ++ join_params ps ++ lit "]}".
Proof. done. Qed.

Lemma unescape_plain s : BSL ∉ s -> unescape s = s.
Proof.
  induction s as [|c s IH]; [done|]. intros [Hc Hs]%not_elem_of_cons. destruct s as [|d s]; [done|].
  cbn [unescape]. destruct (Ascii.eqb_spec c BSL); [by subst|]. f_equal. by apply IH.
Qed.

Lemma method_of_request m ps : plain m -> findJsonStr (request_body m ps) (lit "method") = m.
Proof.
  intros [Hq Hb]. rewrite request_body_parts. set (tl := json ",'params':[" ++ _). unfold findJsonStr.
  rewrite (find_inside _ BODY_HEAD _ 24) by (by vm_compute).
  rewrite (find_from_inside _ BODY_HEAD _ (24 + length (lit "method") + 2) 32) by (by vm_compute).
  rewrite (find_from_inside _ BODY_HEAD _ (32 + 1) 33) by (by vm_compute).
  change (33 + 1)%nat with (length BODY_HEAD). rewrite find_from_at by (by apply never_fresh).
  replace (length BODY_HEAD + length m - 33 - 1)%nat with (length m) by (change (length BODY_HEAD) with 34%nat; lia).
  rewrite drop_app_length, take_app_length. by apply unescape_plain.
Qed.

(** Two different quoted names do not match. *)
Lemma quoted_clash k m x :
  DQ ∉ k -> DQ ∉ m -> k <> m -> x <> [] -> clash (k ++ [DQ]) (m ++ DQ :: x) = true.
Proof.
  intros Hk Hm Hne Hx. revert m Hm Hne. unfold clash.
  induction k as [|a k IH]; intros m Hm Hne.
  - destruct m as [|b m]; [done|]. apply not_elem_of_cons in Hm as [Hb _]. cbn.
    destruct (Ascii.eqb_spec DQ b); [done|]. destruct (Ascii.eqb_spec b DQ); [by subst|]. done.
  - apply not_elem_of_cons in Hk as [Ha Hk]. destruct m as [|b m]; cbn.
    + destruct (Ascii.eqb_spec a DQ); [by subst|]. destruct (Ascii.eqb_spec DQ a); [by subst|]. done.
    + apply not_elem_of_cons in Hm as [Hb Hm]. rewrite (Ascii.eqb_sym b a).
      destruct (Ascii.eqb_spec a b) as [->|]; [|done]. cbn. apply IH; [done|done|congruence].
Qed.
Lemma clash_cons c s t : clash (c :: s) (c :: t) = clash s t.
Proof. unfold clash. cbn. by rewrite Ascii.eqb_refl. Qed.

Lemma scan_string p r depth cur params :
  DQ ∉ p -> scan_params (p ++ DQ :: r) depth true cur params = scan_params r depth false (cur ++ p) params.
Proof.
  revert cur. induction p as [|c p IH]; intros cur; [by rewrite app_nil_r|].
  intros [Hc Hp]%not_elem_of_cons. cbn [app scan_params]. destruct (Ascii.eqb_spec c DQ); [by subst|].
  rewrite IH by done. by rewrite <- (assoc_L (++)).
Qed.
Lemma scan_join ps params tl :
  Forall plain_param ps -> scan_params (join_params ps ++ "]"%char :: tl) 1 false [] params = params ++ ps.
Proof.
  intros Hps. revert params. induction Hps as [|p ps [Hq Hn] Hps IH]; intros params; [by cbn; rewrite app_nil_r|].
  assert (forall r, scan_params (([DQ] ++ p ++ [DQ]) ++ r) 1 false [] params = scan_params r 1 false p params) as Hs.
  { intros r. rewrite <- !(assoc_L (++)). cbn [app scan_params]. rewrite Ascii.eqb_refl. cbn [negb]. by rewrite scan_string. }
  destruct ps as [|p2 ps].
  - cbn [join_params]. rewrite Hs. by destruct p.
  - replace (join_params (p :: p2 :: ps)) with (([DQ] ++ p ++ [DQ]) ++ lit "," ++ join_params (p2 :: ps)) by (by rewrite <- !(assoc_L (++))).
    rewrite <- (assoc_L (++)), Hs, <- (assoc_L (++)). cbn [lit app String.list_ascii_of_string scan_params Ascii.eqb].
    change (Ascii.eqb "," DQ) with false. cbn iota. change (Ascii.eqb "," "[") with false. change (Ascii.eqb "," "]") with false.
    change (Ascii.eqb "," ",") with true. cbn iota. rewrite IH. destruct p; [done|]. cbn [push_param]. by rewrite <- (assoc_L (++)).
Qed.

Lemma params_of_request m ps :
  plain m -> m <> lit "params" -> Forall plain_param ps -> params_of (request_body m ps) = ps.
Proof.
  intros [Hq Hb] Hne Hps. rewrite request_body_parts. unfold params_of.
  set (A := take 33 BODY_HEAD).
  assert (BODY_HEAD ++ m ++ [DQ] ++ json ",'params':[" ++ join_params ps ++ lit "]}" =
          (A ++ DQ :: m ++ [DQ; ","%char]) ++ json "'params'" ++ lit ":[" ++ join_params ps ++ lit "]}") as ->.
  { change BODY_HEAD with (A ++ [DQ]). change (json ",'params':[") with ([","%char] ++ json "'params'" ++ lit ":["). rewrite <- !(assoc_L (++)). cbn [app]. by rewrite <- !(assoc_L (++)). }
  set (P := A ++ DQ :: m ++ [DQ; ","%char]).
  assert (never (json "'params'") P = true) as Hnv.
  { apply never_app; [by vm_compute|]. cbn [never].
    change (json "'params'") with (DQ :: lit "params" ++ [DQ]). rewrite clash_cons, quoted_clash; [cbn [andb]| |done|done|done].
    - apply never_app; [by apply never_fresh|by vm_compute].
    - apply (bool_decide_unpack _). by vm_compute. }
  rewrite find_never, find_here by done. cbn [fmap option_fmap option_map]. rewrite Nat.add_0_r.
  replace (P ++ json "'params'" ++ lit ":[" ++ join_params ps ++ lit "]}")
    with ((P ++ DQ :: lit "params") ++ [DQ] ++ lit ":" ++ lit "[" ++ join_params ps ++ lit "]}") by (rewrite <- !(assoc_L (++)); done).
  replace (length P + 7)%nat with (length (P ++ DQ :: lit "params")) by (by rewrite length_app).
  rewrite find_from_at by (by vm_compute). cbn [length]. set (Q := P ++ _ :: _).
  replace (Q ++ [DQ] ++ lit ":" ++ lit "[" ++ join_params ps ++ lit "]}")
    with ((Q ++ [DQ]) ++ lit ":" ++ lit "[" ++ join_params ps ++ lit "]}") by (by rewrite <- !(assoc_L (++))).
  replace (length Q + 1)%nat with (length (Q ++ [DQ])) by (by rewrite length_app).
  rewrite find_from_at by (by vm_compute).
  replace ((Q ++ [DQ]) ++ lit ":" ++ lit "[" ++ join_params ps ++ lit "]}")
    with (((Q ++ [DQ]) ++ lit ":[") ++ join_params ps ++ lit "]}") by (by rewrite <- !(assoc_L (++))).
  replace (length (Q ++ [DQ]) + length (lit ":") + 1)%nat with (length ((Q ++ [DQ]) ++ lit ":[")) by (rewrite (length_app (Q ++ [DQ])); cbn; lia).
  rewrite drop_app_length. change (lit "]}") with ("]"%char :: lit "}"). by rewrite scan_join.
Qed.

Lemma id_of_request m ps : quote_id (id_of (request_body m ps)) = lit "1".
Proof.
  rewrite request_body_parts. unfold id_of. set (tl := m ++ _).
  rewrite (find_inside _ BODY_HEAD _ 17) by (by vm_compute).
  rewrite (find_from_inside _ BODY_HEAD _ (17 + 3) 21) by (by vm_compute).
  rewrite (find_first_not_of_inside _ BODY_HEAD _ (21 + 1) 22) by (apply Nat.leb_le || idtac; by vm_compute).
  rewrite (find_first_of_inside _ BODY_HEAD _ 22 23) by (apply Nat.leb_le || idtac; by vm_compute).
  rewrite drop_app_le, take_app_le by (apply Nat.leb_le || idtac; by vm_compute). by vm_compute.
Qed.

(** * A call from the client to a method and back *)

(** A byte stream as [recv] with a buffer of [n] bytes returns it. *)
Fixpoint pieces (fuel n : nat) (s : text) : list text :=
  match fuel, s with
  | S k, _ :: _ => take n s :: pieces k n (drop n s)
  | _, _ => []
  end.
Definition SERVER_BUF : nat := Z.to_nat 4096.
Definition CLIENT_BUF : nat := Z.to_nat 8192.
Definition server_events (req : text) : list rpc_event := map Chunk (pieces (length req) SERVER_BUF req).
Lemma pieces_one s n : s <> [] -> (length s <= n)%nat -> pieces (length s) n s = [s].
Proof.
  intros Hs Hl. destruct s as [|c s]; [done|]. cbn [pieces length]. rewrite (take_ge (c :: s)), (drop_ge (c :: s)) by done.
  by destruct (length s).
Qed.

Section calls.
Context {St : Type}.
Implicit Types (s : @CRpcServer St) (st : St).

(** The client and the server on one machine: the request goes out in one
    [send] and is read in pieces of 4096 bytes, the response in pieces of
    8192. *)
Definition loopback (port : Z) s st : Z -> text -> option (list text) := fun p req =>
  if p =? port then
    match serve_connection s (server_events req) st with
    | Some (Done (Some h, _)) => Some (pieces (length h) CLIENT_BUF h)
    | _ => Some []
    end
  else None.

Lemma basic_prefix b : strip_prefix (lit "Basic ") (lit "Basic " ++ b) = Some b.
Proof. apply strip_prefix_app. Qed.
Lemma check_auth_client s cfg :
  CheckAuth s (lit "Basic " ++ credentials cfg) =
  bool_decide (rs_user s = [] \/ cc_rpcUser cfg ++ lit ":" ++ cc_rpcPassword cfg = rs_user s ++ lit ":" ++ rs_password s).
Proof.
  unfold CheckAuth. rewrite basic_prefix. unfold credentials. rewrite decode_encode.
  case_bool_decide; [symmetry; apply bool_decide_eq_true; by left|]. apply bool_decide_ext. split; [by right|by intros [?|]].
Qed.
Lemma colon_split (u u' p p' : text) :
  ":"%char ∉ u -> ":"%char ∉ u' -> u ++ lit ":" ++ p = u' ++ lit ":" ++ p' -> u = u' /\ p = p'.
Proof.
  revert u'. induction u as [|c u IH]; intros [|c' u']; cbn.
  - by intros _ _ [= ->].
  - intros _ [Hc _]%not_elem_of_cons [= <- _]. done.
  - intros [Hc _]%not_elem_of_cons _ [= -> _]. done.
  - intros [_ Hu]%not_elem_of_cons [_ Hu']%not_elem_of_cons [= -> E]. destruct (IH u' Hu Hu' E) as [-> ->]. done.
Qed.

(** A client request in one piece, up to the handler. *)
Lemma serve_client s cfg body evs st :
  body <> [] ->
  serve_connection s (Chunk (http_request cfg body) :: evs) st =
  send_response (HandleRequest s body (lit "Basic " ++ credentials cfg) st).
Proof. intros Hb. unfold serve_connection. rewrite read_request. by destruct body. Qed.
Lemma request_body_nonempty m ps : request_body m ps <> [].
Proof. done. Qed.
Lemma http_request_nonempty cfg body : http_request cfg body <> [].
Proof. done. Qed.

Lemma handle_client s m ps fn st :
  find_method (rs_methods s) m = Some fn -> plain m -> m <> lit "params" -> Forall plain_param ps ->
  HandleRequestInner s (request_body m ps) st =
  match fn ps st with
  | Some (Done (Ok r, st')) => Some (Done (result_response r (lit "1"), st'))
  | Some (Done (Err e, st')) => Some (Done (exception_response (lit e) (lit "1"), st'))
  | Some Undef => Some Undef
  | None => None
  end.
Proof.
  intros Hf Hm Hne Hps. unfold HandleRequestInner.
  rewrite method_of_request, params_of_request, id_of_request, Hf by done.
  by destruct (fn ps st) as [[[[r|e] st']|]|].
Qed.

Definition RESP_HEAD : text :=
  lit "HTTP/1.1 200 OK" ++ CRLF ++ lit "Content-Type: application/json" ++ CRLF ++ lit "Content-Length: ".
Lemma response_body response :
  exists h, http_response response = h ++ END_OF_HEADER ++ response /\ find END_OF_HEADER (http_response response) = Some (length h).
Proof.
  exists (RESP_HEAD ++ to_string (Z.of_nat (length response)) ++ REQ_END).
  assert (http_response response = RESP_HEAD ++ to_string (Z.of_nat (length response)) ++ REQ_END ++ END_OF_HEADER ++ response) as ->.
  { unfold http_response, RESP_HEAD, REQ_END, END_OF_HEADER. by rewrite <- !(assoc_L (++)). }
  split; [by rewrite <- !(assoc_L (++))|].
  assert (never END_OF_HEADER (to_string (Z.of_nat (length response))) = true) as Hn.
  { apply never_fresh, to_string_no; by vm_compute. }
  rewrite 3!find_never by (done || by vm_compute). rewrite find_here. cbn [fmap option_fmap option_map].
  f_equal. rewrite !length_app. lia.
Qed.
Lemma recv_one c : recv_loop [c] [] = c.
Proof. cbn. by destruct (_ && _). Qed.
Lemma client_body net cfg m ps port response :
  cli_port cfg = Some port -> (length (http_response response) <= CLIENT_BUF)%nat ->
  net port (http_request cfg (request_body m ps)) = Some (pieces (length (http_response response)) CLIENT_BUF (http_response response)) ->
  RpcCall net cfg m ps = Ok response.
Proof.
  intros Hp Hl Hn. unfold RpcCall. rewrite Hp, Hn, pieces_one by done.
  destruct (response_body response) as (h & Hh & Hf). destruct (http_response response) as [|c x] eqn:E; [done|].
  rewrite recv_one. cbv iota. rewrite Hf, Hh. change 4%nat with (length END_OF_HEADER).
  by rewrite <- length_app, (assoc_L (++)), drop_app_length.
Qed.

(** A result that [PrintRpcResult] finds the end of. *)
Definition plain_result (r : text) : Prop :=
  match r with c :: _ => mem c BLANKS = false | [] => False end /\ never (json ",'error'") r = true.
Lemma print_result r id : plain_result r -> PrintRpcResult (result_response r id) = unquote r.
Proof.
  intros [Hh Hn]. unfold PrintRpcResult, result_response. set (tl := r ++ _).
  rewrite (find_inside _ (json "{'result':") _ 1) by (by vm_compute).
  change (1 + 9)%nat with (length (json "{'result':")). rewrite drop_app_length. unfold tl.
  replace (skip_blanks (r ++ json ",'error':null,'id':" ++ id ++ lit "}")) with (r ++ json ",'error':null,'id':" ++ id ++ lit "}").
  - rewrite find_never by done.
    change (json ",'error':null,'id':" ++ id ++ lit "}") with (json ",'error'" ++ json ":null,'id':" ++ id ++ lit "}").
    rewrite find_here. cbn [fmap option_fmap option_map]. by rewrite Nat.add_0_r, take_app_length.
  - destruct r as [|c r]; [done|]. cbn [skip_blanks app]. by rewrite Hh.
Qed.

End calls.

(** * Escaping *)

Definition hex_value (c : ascii) : option Z :=
  find_char (Ascii.eqb c) (lit "0123456789abcdef") ≫= fun k => Some (Z.of_nat k).
(** The character after the backslash of a short escape. *)
Definition short_escape (e : ascii) : option ascii :=
  if mem e [DQ; BSL; "/"%char] then Some e
  else if Ascii.eqb e "b"%char then Some (chr 8)
  else if Ascii.eqb e "f"%char then Some (chr 12)
  else if Ascii.eqb e "n"%char then Some LF
  else if Ascii.eqb e "r"%char then Some CR
  else if Ascii.eqb e "t"%char then Some TAB
  else None.
(** The contents of a JSON string as RFC 8259 reads them (escapes beyond the
    first 256 code points aside): no bare quote, no control character. *)
Fixpoint json_decode (s : text) : option text :=
  match s with
  | [] => Some []
  | c :: r =>
      if Ascii.eqb c DQ || (ascii_Z c <? 32) then None
      else if Ascii.eqb c BSL then
        match r with
        | e :: r1 =>
            if Ascii.eqb e "u"%char then
              match r1 with
              | a :: b :: x :: y :: r2 =>
                  match hex_value a, hex_value b, hex_value x, hex_value y with
                  | Some 0, Some 0, Some h, Some l => cons (chr (16 * h + l)) <$> json_decode r2
                  | _, _, _, _ => None
                  end
              | _ => None
              end
            else
              match short_escape e with
              | Some d => cons d <$> json_decode r1
              | None => None
              end
        | [] => None
        end
      else cons c <$> json_decode r
  end.

Lemma decode_escape_char c r : json_decode (escape_char c ++ r) = cons c <$> json_decode r.
Proof. destruct c as [[] [] [] [] [] [] [] []]; reflexivity. Qed.
(** Whatever the method name or the exception text, [JsonEscape] turns it
    into the contents of a JSON string that a conforming reader decodes back
    to the original: no byte of a request can break out of the error message
    it is quoted in. *)
Theorem json_escape_roundtrip (s : text) : json_decode (JsonEscape s) = Some s.
Proof.
  unfold JsonEscape. induction s as [|c s IH]; [done|]. cbn [flat_map]. by rewrite decode_escape_char, IH.
Qed.

(** * Theorems *)

Section theorems.
Context {St : Type}.
Implicit Types (s : @CRpcServer St) (st : St).

Lemma rpc_call_runs s cfg port m ps fn st r st' :
  cc_rpcUser cfg = rs_user s -> cc_rpcPassword cfg = rs_password s -> cli_port cfg = Some port ->
  find_method (rs_methods s) m = Some fn -> plain m -> m <> lit "params" -> Forall plain_param ps ->
  (length (http_request cfg (request_body m ps)) <= SERVER_BUF)%nat ->
  fn ps st = Some (Done (Ok r, st')) ->
  (length (http_response (result_response r (lit "1"))) <= CLIENT_BUF)%nat -> plain_result r ->
  serve_connection s (server_events (http_request cfg (request_body m ps))) st
    = Some (Done (Some (http_response (result_response r (lit "1"))), st')) /\
  RpcCall (loopback port s st) cfg m ps = Ok (result_response r (lit "1")) /\
  PrintRpcResult (result_response r (lit "1")) = unquote r.
Proof.
  intros Hu Hp Hport Hf Hm Hne Hps Hl Hr Hl' Hpr.
  assert (serve_connection s (server_events (http_request cfg (request_body m ps))) st
          = Some (Done (Some (http_response (result_response r (lit "1"))), st'))) as Hs.
  { unfold server_events. rewrite pieces_one by done. cbn [map]. rewrite serve_client by done.
    unfold HandleRequest. rewrite check_auth_client, bool_decide_eq_true_2 by (right; congruence).
    by rewrite (handle_client s m ps fn), Hr. }
  split; [done|]. split; [|by apply print_result].
  apply (client_body _ _ _ _ port); [done..|]. unfold loopback. by rewrite Z.eqb_refl, Hs.
Qed.

(** C18: a command-line client and the node agree on the protocol, for calls both
    can read.  The conditions are: the client has the node's credentials and
    reaches its port; the method is registered, is not [params], and has no
    double quote and no backslash; no parameter has a double quote or is
    empty; the request has at most the 4096 bytes of one [recv] of the server
    and the response at most the 8192 bytes of one [recv] of the client; the
    method returns a result that is not empty, does not begin with a blank and
    does not contain the text of the [error] member.  Then the node runs exactly
    that method on exactly those parameters, once, in the state it is in,
    answers with its result, and the client gets that response and prints the
    result itself.  Outside these conditions the two do not agree: see
    the findings on quotes, empty parameters and long messages. *)
Theorem rpc_call_end_to_end s cfg port m ps fn st r st' :
  cc_rpcUser cfg = rs_user s -> cc_rpcPassword cfg = rs_password s -> cli_port cfg = Some port ->
  find_method (rs_methods s) m = Some fn -> plain m -> m <> lit "params" -> Forall plain_param ps ->
  (length (http_request cfg (request_body m ps)) <= SERVER_BUF)%nat ->
  fn ps st = Some (Done (Ok r, st')) ->
  (length (http_response (result_response r (lit "1"))) <= CLIENT_BUF)%nat -> plain_result r ->
  serve_connection s (server_events (http_request cfg (request_body m ps))) st
    = Some (Done (Some (http_response (result_response r (lit "1"))), st')) /\
  RpcCall (loopback port s st) cfg m ps = Ok (result_response r (lit "1")) /\
  PrintRpcResult (result_response r (lit "1")) = unquote r.
Proof. intros. by apply (rpc_call_runs s cfg port m ps fn). Qed.

(** C31: authentication.  For user names without a colon, a request that the
    client sends with some credentials is handled when they are the node's
    and otherwise answered [unauthorized]; in that case no method runs and
    the node's state is what it was, whatever the body of the request. *)
Theorem rpc_authentication s cfg body evs st :
  rs_user s <> [] -> ":"%char ∉ rs_user s -> ":"%char ∉ cc_rpcUser cfg -> body <> [] ->
  serve_connection s (Chunk (http_request cfg body) :: evs) st =
  if bool_decide (cc_rpcUser cfg = rs_user s /\ cc_rpcPassword cfg = rs_password s)
  then send_response (HandleRequestInner s body st)
  else Some (Done (Some (http_response unauthorized_response), st)).
Proof.
  intros Hn Hc Hc' Hb. rewrite serve_client by done. unfold HandleRequest. rewrite check_auth_client.
  destruct (decide (cc_rpcUser cfg = rs_user s /\ cc_rpcPassword cfg = rs_password s)) as [[E1 E2]|Hne].
  - rewrite !bool_decide_eq_true_2; [done|done|right; congruence].
  - rewrite !bool_decide_eq_false_2; [done|done|]. intros [?|E]; [done|]. apply Hne. by apply colon_split.
Qed.

(** The first chunk the loop receives. *)
Fixpoint first_chunk (evs : list rpc_event) : option text :=
  match evs with
  | Chunk c :: _ => Some c
  | Idle :: r | Again :: r => first_chunk r
  | _ => None
  end.
Lemma find_end sub c p : find sub c = Some p -> (p + length sub <= length c)%nat.
Proof. rewrite find_spec. intros (H & Hp & _). apply starts_with_length in H. rewrite length_drop in H. lia. Qed.
Lemma auth_of_defined c : auth_of c <> Undef.
Proof.
  unfold auth_of. destruct (find AUTH c) as [a|] eqn:E; [|done]. apply find_end in E. change (length AUTH) with 14%nat in E.
  destruct (match find_from CRLF c a with Some nl => Some nl | None => find_from [LF] c a end) as [nl|]; [|done].
  unfold substr. by destruct (Nat.leb_spec (a + 14) (length c)); [|lia].
Qed.
Lemma complete_always request chunk first : request_complete first request chunk = true.
Proof.
  unfold request_complete, find_from. cbn [Nat.leb]. rewrite drop_0, (find_here [] request : find [] request = Some 0%nat).
  by rewrite orb_true_r.
Qed.
Lemma read_loop_later evs request h : read_loop evs false request h <> Undef.
Proof. induction evs as [|[|c| | |] evs IH]; cbn [read_loop]; [done|done|by rewrite complete_always|done..]. Qed.
Lemma substr_end_none c p : substr_end c p = None <-> (length c < p)%nat.
Proof. unfold substr_end, substr. destruct (Nat.leb_spec p (length c)); split; (done || lia). Qed.
Lemma read_chunk_undef c evs :
  read_loop (Chunk c :: evs) true [] [] = Undef <->
  find END_OF_HEADER c = None /\ exists p, find [LF; LF] c = Some p /\ (length c < p + 4)%nat.
Proof.
  cbn [read_loop]. destruct (auth_of c) as [h|] eqn:Ea; [|by apply auth_of_defined in Ea]. unfold body_start.
  destruct (find END_OF_HEADER c) as [p|] eqn:E.
  - apply find_end in E. change (length END_OF_HEADER) with 4%nat in E.
    destruct (substr_end c (p + 4)) eqn:Es; [|apply substr_end_none in Es; lia].
    rewrite complete_always. split; [done|]. by intros [? _].
  - destruct (find [LF; LF] c) as [p|] eqn:E2.
    + destruct (substr_end c (p + 4)) eqn:Es.
      * rewrite complete_always. split; [done|]. intros (_ & p' & [= <-] & Hp). apply substr_end_none in Hp. congruence.
      * apply substr_end_none in Es. split; [|done]. intros _. split; [done|]. by exists p.
    + split; [|by intros (_ & p & ? & _)]. intros H. exfalso. by eapply read_loop_later.
Qed.

(** What the reading loop makes of a connection.  An exception leaves the
    accepting thread, and with it ends the node, exactly when the first chunk
    has no CRLF CRLF and its first LF LF is followed by fewer than two bytes
    (the separator is skipped as if it had four).  And once a chunk holds the
    end of the header, what arrives after it is never read: the test for a
    zero byte searches the empty string, which is always found, so a request
    longer than the buffer is cut. *)
Theorem rpc_reader_exact s evs st :
  (read_loop evs true [] [] = Undef <->
     exists c p, first_chunk evs = Some c /\ find END_OF_HEADER c = None /\ find [LF; LF] c = Some p /\ (length c < p + 4)%nat) /\
  (forall c more, is_Some (body_start c) ->
     serve_connection s (Chunk c :: more) st = serve_connection s [Chunk c] st).
Proof.
  split.
  - induction evs as [|[|c| | |] evs IH]; cbn [first_chunk];
      [split; [done|by intros (? & ? & ? & _)]|exact IH| |split; [done|by intros (? & ? & ? & _)]|exact IH|split; [done|by intros (? & ? & ? & _)]].
    rewrite read_chunk_undef. split.
    + intros (H1 & p & H2 & H3). by exists c, p.
    + intros (c' & p & [= <-] & H1 & H2 & H3). split; [done|]. by exists p.
  - intros c more [p Hp]. unfold serve_connection. cbn [read_loop]. rewrite Hp.
    destruct (auth_of c) as [h|]; [|done]. destruct (substr_end c (p + 4)); [|done]. by rewrite complete_always.
Qed.
End theorems.

(** [network connect] without an address reads past the end of the arguments;
    every other command line is handled. *)
Theorem cli_defined (args : list text) :
  RunCliCommand args = Undef <-> args = [lit "network"; lit "connect"].
Proof.
  split; [|by intros ->]. destruct args as [|a [|b [|c args]]]; unfold RunCliCommand; cbn [length lookup list_lookup default];
    repeat match goal with |- context [if ?x then _ else _] => let E := fresh "E" in destruct x eqn:E end; try done.
  all: match goal with H : context [lit "connect"] |- _ => revert H end;
    rewrite !andb_true_iff, !bool_decide_eq_true; intros [[Ha Hl] Hb] _; first [by vm_compute in Hl|congruence].
Qed.

(** * Witnesses *)

(** A method that counts its calls and answers with a string. *)
Definition wit_rpc : @CRpcServer Z :=
  {| rs_user := lit "cdx"; rs_password := lit "cdx";
     rs_methods := Register [] (lit "getbalance") (fun ps st => Some (Done (Ok (json "'7'"), st + Z.of_nat (length ps)))) |}.
Lemma rpc_call_end_to_end_witness :
  serve_connection wit_rpc (server_events (http_request default_cli (request_body (lit "getbalance") [lit "a"; lit "b c"]))) 5
    = Some (Done (Some (http_response (result_response (json "'7'") (lit "1"))), 7)) /\
  RpcCall (loopback 19343 wit_rpc 5) default_cli (lit "getbalance") [lit "a"; lit "b c"]
    = Ok (result_response (json "'7'") (lit "1")) /\
  PrintRpcResult (result_response (json "'7'") (lit "1")) = unquote (json "'7'").
Proof.
  apply (rpc_call_end_to_end wit_rpc default_cli 19343 (lit "getbalance") [lit "a"; lit "b c"]
           (fun ps st => Some (Done (Ok (json "'7'"), st + Z.of_nat (length ps))))); try reflexivity; try discriminate.
  - split; apply (bool_decide_unpack _); vm_compute; exact I.
  - repeat apply Forall_cons_2; try apply Forall_nil_2; (split; [apply (bool_decide_unpack _); vm_compute; exact I|discriminate]).
  - apply Nat.leb_le. vm_compute. reflexivity.
  - apply Nat.leb_le. vm_compute. reflexivity.
  - split; reflexivity.
Defined.
Lemma rpc_authentication_witness :
  serve_connection wit_rpc [Chunk (http_request {| cc_network := "mainnet"; cc_rpcUser := lit "cdx"; cc_rpcPassword := lit "no"; cc_rpcPort := []; cc_dataDir := [] |} (lit "{}"))] 5
    = Some (Done (Some (http_response unauthorized_response), 5)).
Proof.
  refine (eq_trans (rpc_authentication wit_rpc _ (lit "{}") [] 5 _ _ _ _) _); try discriminate; try reflexivity;
    apply (bool_decide_unpack _); vm_compute; exact I.
Defined.
(** The request [GET /] with bare line feeds ends the node. *)
Example rpc_bare_newlines : serve_connection wit_rpc [Chunk (lit "GET /" ++ [LF; LF])] 5 = Some Undef.
Proof. by vm_compute. Qed.
