(* ===== verification/RpcMethods.v ===== *)
(** The methods the node answers: [rpc/methods.cpp] and the ones [main] of
    [bin/cdxd.cpp] registers, over the chain, the pool, the wallet, the miner
    and the connections, with the JSON text they return.

    [cdxd] passes non-null pointers for the wallet, the miner and the server,
    so the null branches are not written.  The texts of two doubles (the
    difficulty and the fee rate) are parameters, and so are the clock, the
    random draws of a new key and the sockets.  The blockchain mutex is held
    through a method: methods run one after the other. *)
From Stdlib Require Import Ascii.
From stdpp Require Import sorting.
From S2P Require Import Prelude Config UInt256 Compact Consensus Ripemd160 Crypto Transaction Encoding Value Script Utxo Block Validation Keys KeyStore Mempool Chain Storage Mining Protocol Net Handlers Wallet Daemon Text Connect Rpc.
Import uint256 Rules Script Encoding Value.
Open Scope cdx_scope.

Definition json_char (c : ascii) : text :=
  if Ascii.eqb c DQ then [BSL; DQ]
  else if Ascii.eqb c BSL then [BSL; BSL]
  else if Ascii.eqb c LF then BSL :: lit "n"
  else if Ascii.eqb c CR then BSL :: lit "r"
  else [c].
Definition JsonString (s : text) : text := [DQ] ++ flat_map json_char s ++ [DQ].
Definition JsonInt (v : Z) : text := to_string v.
Definition JsonBool (b : bool) : text := if b then lit "true" else lit "false".
Definition hex_text (u : uint256) : text := lit (getHex u).
(** [toHex] of bytes. *)
Definition toHex (v : bytes) : text := flat_map (fun b => [hex_digit (Z.shiftr b 4); hex_digit (Z.land b 0xf)]) v.
(** [if (i) o << ",";] before every element but the first. *)
Fixpoint comma_list (l : list text) : text :=
  match l with
  | [] => []
  | [x] => x
  | x :: r => x ++ lit "," ++ comma_list r
  end.
Definition JsonArray (l : list text) : text := lit "[" ++ comma_list l ++ lit "]".

Section Methods.
Context {ossl : OpenSSL} {ec : EcKeys ossl} {cph : Cipher} {St : Type} {stor : IStorage St} (params : ChainParams).
Context (now localNonce : Z) (write : list (Z * bytes) -> Z -> bytes -> bool * bytes) (dial : text -> Z -> option Z).
(** [operator<<] of [GetDifficultyFromBits(bits)] and of a fee rate. *)
Context (difficulty_text feerate_text : Z -> text).
(** The draws of [GenerateNewAddress] and of a payment; the order
    [std::sort] gives equal coins; the fuel of the signing loops. *)
Context (rand : nat -> option bytes) (iv : bytes) (draws : nat -> change_draw).
Context (sort : list SelectedInput -> list SelectedInput) (fuel : nat).

(** What the methods share. *)
Record RpcState := { r_d : Daemon St; r_targets : list bytes; r_ks : CKeystore; r_miner : CMiner; r_active : bool }.
Abbreviation M := (@RpcM RpcState).
Definition with_d (s : RpcState) (d : Daemon St) : RpcState :=
  {| r_d := d; r_targets := r_targets s; r_ks := r_ks s; r_miner := r_miner s; r_active := r_active s |}.
Definition with_ks (s : RpcState) (ks : CKeystore) : RpcState :=
  {| r_d := r_d s; r_targets := r_targets s; r_ks := ks; r_miner := r_miner s; r_active := r_active s |}.
Definition with_miner (s : RpcState) (m : CMiner) (active : bool) : RpcState :=
  {| r_d := r_d s; r_targets := r_targets s; r_ks := r_ks s; r_miner := m; r_active := active |}.
Definition with_server (s : RpcState) (sv : CNetServer) (out : list (Z * bytes)) : RpcState :=
  {| r_d := with_net (r_d s) (sv_peers sv) out; r_targets := sv_targets sv; r_ks := r_ks s; r_miner := r_miner s; r_active := r_active s |}.
Definition net_of (s : RpcState) : CNetServer := {| sv_peers := d_peers (r_d s); sv_targets := r_targets s |}.

Definition rget : M RpcState := fun s => Some (Done (Ok s, s)).
Definition rput (f : RpcState -> RpcState) : M unit := fun s => Some (Done (Ok tt, f s)).
Definition rthrow {A} (e : string) : M A := fun s => Some (Done (Err e, s)).
(** An operation of the chain manager and one of the key store. *)
Definition rnode {A} (m : NodeM St A) : M A := fun s =>
  match m (d_node (r_d s)) with
  | Done (r, n) => Some (Done (r, with_d s (with_node (r_d s) n)))
  | Undef => Some Undef
  end.
Definition rkeys {A} (m : KsM A) : M A := fun s =>
  match m (r_ks s) with
  | Done (r, ks) => Some (Done (r, with_ks s ks))
  | Undef => Some Undef
  end.
Definition rchain : M CChain := rnode get_chain.
Definition rview : M CCoinsView := c ← rchain; mret (ch_view c).
(** [net.BroadcastMessage(command, payload)] *)
Definition rbroadcast (command : string) (payload : bytes) : M unit := rput (fun s =>
  let '(sv, out) := BroadcastMessage (networkMagic params) (write (d_sent (r_d s))) (net_of s) (string_bytes command) payload (-1) in
  with_server s sv out).
Definition rpool (f : CTxMemPool -> CTxMemPool) : M unit := rput (fun s => with_d s (with_pool (f (d_pool (r_d s))) (r_d s))).

(** * The chain *)

Definition getblockchaininfo (_ : list text) : M text :=
  c ← rchain; tip ← rnode Tip;
  mret (json "{'chain':" ++ JsonString (lit (Config.name params)) ++ json ",'blocks':" ++ to_string (ch_height c)
    ++ json ",'bestblockhash':" ++ JsonString (hex_text (ch_tipHash c)) ++ json ",'chainwork':" ++ JsonString (hex_text (ch_chainWork c))
    ++ json ",'difficulty':" ++ difficulty_text (match tip with Some i => idx_bits i | None => 0 end)
    ++ json ",'networkmagic':" ++ to_string (networkMagic params) ++ json ",'size_on_disk':0}").
Definition getblockcount (_ : list text) : M text := c ← rchain; mret (JsonInt (ch_height c)).
Definition getblockhash (p : list text) : M text :=
  match p with
  | [] => mret (lit "null")
  | p0 :: _ =>
      b ← rnode (GetBlockByHeight (atoll (of_text p0)));
      mret (match b with None => lit "null" | Some blk => JsonString (hex_text (BlockHash blk)) end)
  end.
(** The members [getblock] and [getblockheader] share. *)
Definition header_json (hdr : CBlockHeader) : text :=
  json ",'version':" ++ to_string (hdr_version hdr) ++ json ",'merkleroot':" ++ JsonString (hex_text (hdr_merkleRoot hdr))
  ++ json ",'time':" ++ to_string (hdr_timestamp hdr) ++ json ",'nonce':" ++ to_string (hdr_nonce hdr)
  ++ json ",'bits':" ++ to_string (hdr_bits hdr) ++ json ",'previousblockhash':" ++ JsonString (hex_text (hdr_prevBlockHash hdr)).
Definition index_height (c : CChain) (h : uint256) (d : Z) : Z := match GetIndex c h with Some i => idx_height i | None => d end.
Definition block_json (c : CChain) (hash : uint256) (blk : CBlock) : text :=
  json "{'hash':" ++ JsonString (hex_text hash) ++ json ",'height':" ++ to_string (index_height c hash (-1))
  ++ header_json (blk_header blk) ++ json ",'tx':" ++ JsonArray (map (fun tx => JsonString (hex_text (GetTxID tx))) (blk_vtx blk)) ++ lit "}".
Definition getblock (p : list text) : M text :=
  match p with
  | [] => mret (lit "null")
  | p0 :: _ =>
      let hash := fromHexReversed (of_text p0) in
      b ← rnode (GetBlock hash); c ← rchain;
      mret (match b with None => lit "null" | Some blk => block_json c hash blk end)
  end.
Definition getblockheader (p : list text) : M text :=
  match p with
  | [] => mret (lit "null")
  | p0 :: _ =>
      let hash := fromHexReversed (of_text p0) in
      b ← rnode (GetBlockHeader hash); c ← rchain;
      mret (match b with
            | None => lit "null"
            | Some hdr =>
                json "{'hash':" ++ JsonString (hex_text hash)
                ++ json ",'confirmations':" ++ to_string (ch_height c - index_height c hash 0 + 1)
                ++ json ",'height':" ++ to_string (index_height c hash (-1)) ++ header_json hdr ++ lit "}"
            end)
  end.
(** [for (h = 0; h <= GetHeight(); ++h) { if (!GetBlockByHeight(h, blk)) continue; ... }]:
    the blocks that can be read, with their heights. *)
Fixpoint read_chain (n : nat) (h : Z) : NodeM St (list (Z * CBlock)) :=
  match n with
  | O => mret []
  | S k =>
      b ← GetBlockByHeight h; r ← read_chain k (h + 1);
      mret (match b with None => r | Some blk => (h, blk) :: r end)
  end.
Definition chain_blocks : M (list (Z * CBlock)) := c ← rchain; rnode (read_chain (Z.to_nat (ch_height c + 1)) 0).
(** The search of [getrawtransaction], which stops at the first match. *)
Fixpoint find_tx (n : nat) (h : Z) (txid : uint256) : NodeM St (option CTransaction) :=
  match n with
  | O => mret None
  | S k =>
      b ← GetBlockByHeight h;
      match List.find (fun tx => bool_decide (GetTxID tx = txid)) (match b with Some blk => blk_vtx blk | None => [] end) with
      | Some tx => mret (Some tx)
      | None => find_tx k (h + 1) txid
      end
  end.
Definition getrawtransaction (p : list text) : M text :=
  match p with
  | [] => mret (lit "null")
  | p0 :: _ =>
      let txid := fromHexReversed (of_text p0) in
      s ← rget;
      match mapTx (d_pool (r_d s)) !! txid with
      | Some e => mret (JsonString (toHex (SerializeTransaction (e_tx e))))
      | None =>
          c ← rchain; r ← rnode (find_tx (Z.to_nat (ch_height c + 1)) 0 txid);
          mret (match r with Some tx => JsonString (toHex (SerializeTransaction tx)) | None => lit "null" end)
      end
  end.

(** * Coins and addresses *)

(** The coins in the order of the [std::map]. *)
Definition view_coins (view : CCoinsView) : list (COutPoint * CUTXO) := merge_sort utxo_order (map_to_list view).
Definition pays_hash (hash160 : bytes) (coin : CUTXO) : bool :=
  match ExtractP2PKHHash (coin_scriptPubKey coin) with Some h => bool_decide (h = hash160) | None => false end.
Definition unspent_json (height : Z) (kv : COutPoint * CUTXO) : text :=
  json "{'txid':" ++ JsonString (hex_text (op_hash kv.1)) ++ json ",'vout':" ++ to_string (op_n kv.1)
  ++ json ",'value':" ++ to_string (coin_value kv.2) ++ json ",'height':" ++ to_string (coin_height kv.2)
  ++ json ",'coinbase':" ++ JsonBool (coin_isCoinbase kv.2) ++ json ",'spendable':" ++ JsonBool (IsSpendable kv.2 height) ++ lit "}".
Definition listunspent (p : list text) : M text :=
  match p with
  | [] => mret (lit "[]")
  | p0 :: _ =>
      match DecodeAddress p0 with
      | None => mret (lit "[]")
      | Some (_, hash160) =>
          c ← rchain;
          mret (JsonArray (map (unspent_json (ch_height c)) (List.filter (fun kv => pays_hash hash160 kv.2) (view_coins (ch_view c)))))
      end
  end.
Definition touches (hash160 : bytes) (tx : CTransaction) : bool :=
  existsb (fun o => bool_decide (out_scriptPubKey o = BuildP2PKHScript hash160)) (tx_vout tx)
  || existsb (fun i => let pub := GetScriptSigPubKey (in_scriptSig i) in
                       negb (bool_decide (pub = [])) && bool_decide (HASH160 pub = hash160)) (tx_vin tx).
Definition getaddresstxs (p : list text) : M text :=
  match p with
  | [] => mret (lit "[]")
  | p0 :: _ =>
      match DecodeAddress p0 with
      | None => mret (lit "[]")
      | Some (_, hash160) =>
          blocks ← chain_blocks; s ← rget;
          let confirmed := flat_map (fun hb => map (fun tx =>
            json "{'txid':" ++ JsonString (hex_text (GetTxID tx)) ++ json ",'height':" ++ to_string hb.1
            ++ json ",'blockhash':" ++ JsonString (hex_text (BlockHash hb.2)) ++ json ",'iscoinbase':" ++ JsonBool (IsCoinBase tx) ++ lit "}")
            (List.filter (touches hash160) (blk_vtx hb.2))) blocks in
          let pending := map (fun kv => json "{'txid':" ++ JsonString (hex_text kv.1) ++ json ",'height':-1,'blockhash':'','iscoinbase':false}")
            (List.filter (fun kv => touches hash160 (e_tx kv.2)) (entries (d_pool (r_d s)))) in
          mret (JsonArray (confirmed ++ pending))
      end
  end.
Definition gettxout (p : list text) : M text :=
  match p with
  | p0 :: p1 :: _ =>
      view ← rview;
      mret (match GetCoin view {| op_hash := fromHexReversed (of_text p0); op_n := u32 (atoll (of_text p1)) |} with
            | None => lit "null"
            | Some coin => json "{'value':" ++ to_string (coin_value coin) ++ json ",'height':" ++ to_string (coin_height coin)
                ++ json ",'coinbase':" ++ JsonBool (coin_isCoinbase coin) ++ lit "}"
            end)
  | _ => mret (lit "null")
  end.
Definition gettxoutsetinfo (_ : list text) : M text :=
  c ← rchain;
  mret (json "{'height':" ++ to_string (ch_height c) ++ json ",'transactions':" ++ to_string (Z.of_nat (size (ch_view c)))
    ++ json ",'total_amount':" ++ to_string (TotalValue (ch_view c)) ++ lit "}").
Definition validateaddress (p : list text) : M text :=
  match p with
  | [] => mret (json "{'isvalid':false}")
  | p0 :: _ => mret (json "{'isvalid':" ++ JsonBool (IsValidAddress p0) ++ json ",'address':" ++ JsonString p0 ++ lit "}")
  end.

(** * Transactions and the wallet *)

Definition error_text (e : string) : text := json "'error: " ++ lit e ++ [DQ].
(** [AddUnchecked] with the fee of [CheckTx], then the broadcast. *)
Definition take_tx (tx : CTransaction) (fee height : Z) : M unit :=
  _ ← rpool (fun pool => snd (AddUnchecked pool tx fee height now));
  rbroadcast "tx" (SerializeTransaction tx).
Definition sendrawtransaction (p : list text) : M text :=
  match p with
  | [] => mret (error_text "missing hex")
  | p0 :: _ =>
      match DecodeHex p0 with
      | None => mret (error_text "invalid hex")
      | Some bs =>
          match DeserializeTransaction bs with
          | None => mret (error_text "invalid transaction")
          | Some tx =>
              c ← rchain; s ← rget;
              match CheckTx (d_pool (r_d s)) tx (ch_view c) (ch_height c) with
              | Err e => mret (error_text e)
              | Ok fee => _ ← take_tx tx fee (ch_height c); mret (JsonString (hex_text (GetTxID tx)))
              end
          end
      end
  end.
Definition getbalance (_ : list text) : M text :=
  c ← rchain; s ← rget;
  let bal := GetBalance (addressVersion params) (r_ks s) (ch_view c) (ch_height c) in
  mret (json "{'confirmed':" ++ to_string (bl_confirmed bal) ++ json ",'unconfirmed':" ++ to_string (bl_unconfirmed bal)
    ++ json ",'immature':" ++ to_string (bl_immature bal) ++ json ",'spendable':" ++ to_string (bl_spendable bal) ++ lit "}").
Definition getnewaddress (_ : list text) : M text :=
  kp ← rkeys (GenerateNewAddress (addressVersion params) rand iv now); mret (JsonString (kp_address kp)).
Definition record_json (r : WalletTxRecord) : text :=
  json "{'txid':" ++ JsonString (hex_text (wr_txid r)) ++ json ",'height':" ++ to_string (wr_height r)
  ++ json ",'amount':" ++ to_string (wr_amount r) ++ json ",'fee':" ++ to_string (wr_fee r)
  ++ json ",'address':" ++ JsonString (wr_address r)
  ++ json ",'category':" ++ (if 0 <=? wr_amount r then JsonString (lit "receive") else JsonString (lit "send")) ++ lit "}".
Definition listtransactions (_ : list text) : M text :=
  s ← rget; mret (JsonArray (map record_json (d_history (r_d s)))).

(** * The network and the miner *)

Definition getnetworkinfo (_ : list text) : M text :=
  s ← rget;
  mret (json "{'version':'0.1.0','subversion':'/CDX:0.1.0/','protocolversion':" ++ to_string PROTOCOL_VERSION
    ++ json ",'connections':" ++ to_string (GetPeerCount (net_of s)) ++ json ",'networkactive':true}").
Definition getpeerinfo (_ : list text) : M text :=
  s ← rget;
  mret (JsonArray (map (fun p => json "{'addr':" ++ JsonString (string_chars p.1) ++ json ",'handshake':" ++ JsonBool p.2 ++ lit "}")
                       (GetPeerList (net_of s)))).
Definition getmininginfo (_ : list text) : M text :=
  c ← rchain; tip ← rnode Tip; s ← rget;
  let st := GetStatus (r_miner s) in
  mret (json "{'blocks':" ++ to_string (ch_height c)
    ++ json ",'difficulty':" ++ (match tip with Some i => difficulty_text (idx_bits i) | None => lit "0" end)
    ++ json ",'networkhashps':0,'mining':" ++ JsonBool (ms_mining st) ++ json ",'miningaddress':" ++ JsonString (ms_miningAddress st)
    ++ json ",'blocksfound':" ++ to_string (ms_blocksFound st) ++ json ",'immaturereward':" ++ to_string (ms_immatureReward st)
    ++ json ",'maturedreward':" ++ to_string (ms_maturedReward st) ++ lit "}").
Definition getmempoolinfo (_ : list text) : M text :=
  s ← rget;
  mret (json "{'size':" ++ to_string (Z.of_nat (Size (d_pool (r_d s)))) ++ json ",'bytes':0,'fees':"
    ++ to_string (GetTotalFees (d_pool (r_d s))) ++ lit "}").
Definition estimatesmartfee (_ : list text) : M text :=
  mret (json "{'feerate':" ++ feerate_text Policy.EstimateSmartFee ++ json ",'blocks':6}").

(** * The methods of [main] *)

Definition getaddresses (_ : list text) : M text :=
  s ← rget; mret (JsonArray (map (fun a => [DQ] ++ a ++ [DQ]) (GetAddresses (r_ks s)))).
(** The computation of the wallet that may not return. *)
Definition rcreate (view : CCoinsView) (height : Z) (to : text) (amount : Z) : M (res (CTransaction * uint256 * Z)) := fun s =>
  match CreateTransaction (addressVersion params) fuel sort view height to amount draws now (r_ks s) with
  | Undef => Some Undef
  | Done (Err e, ks) => Some (Done (Err e, with_ks s ks))
  | Done (Ok None, ks) => None
  | Done (Ok (Some r), ks) => Some (Done (Ok r, with_ks s ks))
  end.
Definition sendtoaddress (p : list text) : M text :=
  match p with
  | p0 :: p1 :: _ =>
      match ParseValue p1 with
      | Err e => rthrow e
      | Ok amount =>
          c ← rchain;
          r ← rcreate (ch_view c) (ch_height c) p0 amount;
          match r with
          | Err e => mret (error_text e)
          | Ok (tx, txid, _) =>
              s ← rget;
              _ ← (match CheckTx (d_pool (r_d s)) tx (ch_view c) (ch_height c) with
                   | Ok fee => take_tx tx fee (ch_height c)
                   | Err _ => mret tt
                   end : M unit);
              mret ([DQ] ++ hex_text txid ++ [DQ])
          end
      end
  | _ => mret (error_text "usage sendtoaddress <addr> <amount>")
  end.
Definition rstart : M unit := rput (fun s => let '(m, a) := StartMiningThread (r_miner s) (r_active s) in with_miner s m a).
Definition startmining (_ : list text) : M text :=
  s ← rget;
  match m_miningAddress (r_miner s), GetAddresses (r_ks s) with
  | [], [] => mret (error_text "no mining address")
  | [], a :: _ =>
      _ ← rput (fun s => with_miner s (SetMiningAddress (r_miner s) a (addressVersion params)) (r_active s));
      _ ← rstart; mret (json "'mining started'")
  | _, _ => _ ← rstart; mret (json "'mining started'")
  end.
Definition stopmining (_ : list text) : M text :=
  _ ← rput (fun s => let '(m, a) := StopMiningThread (r_miner s) (r_active s) in with_miner s m a); mret (json "'mining stopped'").
Definition setminingaddress (p : list text) : M text :=
  match p with
  | [] => mret (error_text "missing address")
  | p0 :: _ =>
      _ ← rput (fun s => with_miner s (SetMiningAddress (r_miner s) p0 (addressVersion params)) (r_active s));
      mret (json "'mining address set'")
  end.
Definition getminingaddress (_ : list text) : M text := s ← rget; mret ([DQ] ++ m_miningAddress (r_miner s) ++ [DQ]).
Definition addnode (p : list text) : M text :=
  match p with
  | [] => mret (error_text "missing node")
  | p0 :: _ =>
      let '(host, port) := default (p0, defaultPort params) (split_host_port p0) in
      _ ← rput (fun s =>
        let '(sv, out) := AddTarget (networkMagic params) (write (d_sent (r_d s))) dial now localNonce (net_of s) host port in
        with_server s sv out);
      mret (json "'connecting'")
  end.

(** [RegisterRpcMethods], then the registrations of [main]. *)
Definition node_methods : list (string * (list text -> M text)) := [
  ("getblockchaininfo", getblockchaininfo); ("getblockcount", getblockcount); ("getblockhash", getblockhash);
  ("getblock", getblock); ("getrawtransaction", getrawtransaction); ("listunspent", listunspent);
  ("getaddresstxs", getaddresstxs); ("sendrawtransaction", sendrawtransaction); ("getbalance", getbalance);
  ("getnewaddress", getnewaddress); ("listtransactions", listtransactions); ("getnetworkinfo", getnetworkinfo);
  ("getpeerinfo", getpeerinfo); ("getmininginfo", getmininginfo); ("getmempoolinfo", getmempoolinfo);
  ("validateaddress", validateaddress); ("estimatesmartfee", estimatesmartfee); ("getblockheader", getblockheader);
  ("gettxoutsetinfo", gettxoutsetinfo); ("gettxout", gettxout);
  ("getaddresses", getaddresses); ("sendtoaddress", sendtoaddress); ("startmining", startmining); ("stopmining", stopmining);
  ("setminingaddress", setminingaddress); ("getminingaddress", getminingaddress); ("addnode", addnode) ].
Definition RegisterRpcMethods : @method_table RpcState :=
  foldl (fun t nf => Register t (lit nf.1) nf.2) [] node_methods.

End Methods.

(** * What the methods do to the node *)

(** ** Key store operations only add addresses *)

Section Grows.
Context {ossl : OpenSSL} {ec : EcKeys ossl} {cph : Cipher}.

Definition grows {A} (m : KsM A) : Prop := forall ks r ks', m ks = Done (r, ks') -> dom (ks_keys ks) ⊆ dom (ks_keys ks').
Lemma grows_ret {A} (a : A) : grows (mret a).
Proof. intros ks r ks' [= _ <-]. done. Qed.
Lemma grows_throw {A} e : grows (@kthrow A e).
Proof. intros ks r ks' [= _ <-]. done. Qed.
Lemma grows_get : grows kget.
Proof. intros ks r ks' [= _ <-]. done. Qed.
Lemma grows_bind {A B} (m : KsM A) (f : A -> KsM B) : grows m -> (forall a, grows (f a)) -> grows (m ≫= f).
Proof.
  intros Hm Hf ks r ks'. unfold mbind, KsM_bind. destruct (m ks) as [[[a|e] k1]|] eqn:E; [|intros [= _ <-]|done].
  - intros H. transitivity (dom (ks_keys k1)); [by eapply Hm|by eapply Hf].
  - by eapply Hm.
Qed.
Lemma grows_try {A} (m : KsM A) : grows m -> grows (ktry m).
Proof. intros Hm ks r ks'. unfold ktry. destruct (m ks) as [[r' k1]|] eqn:E; [|done]. intros [= _ <-]. by eapply Hm. Qed.
Lemma grows_decrypt k c v t : grows (AesDecrypt k c v t).
Proof.
  intros ks r ks'. unfold AesDecrypt. destruct (_ || _); [done|]. destruct (gcm_decrypt _ _ _ _); intros [= _ <-]; done.
Qed.
Lemma grows_encrypt k p v : grows (AesEncrypt k p v).
Proof. unfold AesEncrypt. destruct (gcm_encrypt k v p); [apply grows_ret|apply grows_throw]. Qed.
Lemma grows_add kp v now : grows (AddKey kp v now).
Proof.
  unfold AddKey. apply grows_bind; [apply grows_get|]. intros ks0. destruct (ks_locked ks0); [apply grows_ret|].
  apply grows_bind; [apply grows_encrypt|]. intros ct. apply grows_bind; [|intros; apply grows_ret].
  intros ks r ks' [= _ <-]. cbn. rewrite dom_insert_L. set_solver.
Qed.
Create HintDb grows.
#[local] Hint Resolve grows_ret grows_throw grows_get grows_decrypt grows_encrypt grows_add : grows.
(** Walks through the binds and the case distinctions of an operation. *)
Local Ltac grow :=
  repeat first
    [ solve [eauto with grows]
    | apply grows_bind; [|intros]
    | match goal with |- grows (match ?x with _ => _ end) => destruct x end ].
Lemma grows_new ver rand v now : grows (GenerateNewAddress ver rand v now).
Proof. unfold GenerateNewAddress. grow. Qed.
Lemma grows_key a : grows (GetKey a).
Proof. unfold GetKey. grow. Qed.
#[local] Hint Resolve grows_new grows_key : grows.
Lemma grows_pairs sel : grows (signing_pairs sel).
Proof. induction sel as [|x r IH]; cbn [signing_pairs]; grow. Qed.
#[local] Hint Resolve grows_pairs : grows.
Lemma grows_change ver c d now : grows (change_output ver c d now).
Proof. unfold change_output. grow. Qed.
#[local] Hint Resolve grows_change : grows.
Lemma grows_attempt ver fuel sort view h to amt i d now : grows (attempt_payment ver fuel sort view h to amt i d now).
Proof. unfold attempt_payment. grow. Qed.
#[local] Hint Resolve grows_attempt : grows.
Lemma grows_attempts n ver fuel sort view h to amt d now : forall i, grows (attempt_loop ver n fuel sort view h to amt i d now).
Proof. induction n as [|n IH]; intros i; cbn [attempt_loop]; grow. Qed.
#[local] Hint Resolve grows_attempts : grows.
Lemma grows_create ver fuel sort view h to amt d now : grows (CreateTransaction ver fuel sort view h to amt d now).
Proof. unfold CreateTransaction. grow. Qed.
End Grows.

(** ** The chain, the pool and the keys *)

Section Safety.
Context {ossl : OpenSSL} {laws : OpenSSLLaws ossl} {ec : EcKeys ossl} {cph : Cipher}.
Context {St : Type} {stor : IStorage St} {slaws : StorageLaws St} (params : ChainParams).
Context (now localNonce : Z) (write : list (Z * bytes) -> Z -> bytes -> bool * bytes) (dial : text -> Z -> option Z).
Context (difficulty_text feerate_text : Z -> text).
Context (rand : nat -> option bytes) (iv : bytes) (draws : nat -> change_draw).
Context (sort : list SelectedInput -> list SelectedInput) (fuel : nat).
Abbreviation state := (RpcState (St := St)).

(** What a method may do: the chain is the same, the node stays one that
    blocks can lead to, the pool one that transactions can lead to, and no
    wallet address is lost. *)
Definition rpc_inv (s : state) : Prop := daemon_inv params (r_d s).
Definition rpc_step (s s' : state) : Prop :=
  rpc_inv s' /\ nd_chain (d_node (r_d s')) = nd_chain (d_node (r_d s)) /\ dom (ks_keys (r_ks s)) ⊆ dom (ks_keys (r_ks s')).
Definition rwp {A} (ub : Prop) (m : @RpcM state A) (s : state) : Prop :=
  rpc_inv s -> match m s with Some (Done (_, s')) => rpc_step s s' | _ => ub end.

Lemma step_refl s : rpc_inv s -> rpc_step s s.
Proof. done. Qed.
Lemma step_trans s1 s2 s3 : rpc_step s1 s2 -> rpc_step s2 s3 -> rpc_step s1 s3.
Proof. intros (_ & E1 & D1) (H & E2 & D2). split_and!; [done|congruence|by etransitivity]. Qed.
Lemma rwp_ret {A} ub (a : A) s : rwp ub (mret a) s.
Proof. intros H. by apply step_refl. Qed.
Lemma rwp_throw {A} ub e s : rwp ub (rthrow e : RpcM A) s.
Proof. intros H. by apply step_refl. Qed.
Lemma rwp_bind {A B} ub (m : RpcM A) (f : A -> RpcM B) s :
  rwp ub m s -> (forall a s', m s = Some (Done (Ok a, s')) -> rwp ub (f a) s') -> rwp ub (m ≫= f) s.
Proof.
  intros Hm Hf Hs. specialize (Hm Hs). unfold mbind, RpcM_bind.
  destruct (m s) as [[[[a|e] s1]|]|] eqn:E; [|done..]. specialize (Hf a s1 eq_refl (proj1 Hm)).
  destruct (f a s1) as [[[r s2]|]|]; [|done..]. by eapply step_trans.
Qed.
(** Reading the state gives the state. *)
Lemma rwp_get {B} ub (f : state -> RpcM B) s : rwp ub (f s) s -> rwp ub (rget ≫= f) s.
Proof. done. Qed.
Lemma rwp_chain {B} ub (f : CChain -> RpcM B) s :
  rwp ub (f (nd_chain (d_node (r_d s)))) s -> rwp ub (rchain ≫= f) s.
Proof.
  intros Hf Hs. specialize (Hf Hs).
  assert (rchain s = Some (Done (Ok (nd_chain (d_node (r_d s))), s))) as E by (by destruct s as [[] ? ? ? ?]).
  unfold mbind, RpcM_bind. by rewrite E.
Qed.
Lemma rwp_reads {A} ub (m : NodeM St A) s : reads_only params m -> rwp ub (rnode m) s.
Proof.
  intros Hm [Hr Hp]. destruct (Hm _ Hr) as (a & n' & E & Hr' & Hc). unfold runs in E. unfold rnode. rewrite E.
  split_and!; [by split|done|done].
Qed.
Lemma rwp_keys {A} ub (m : KsM A) s : grows m -> (m (r_ks s) = Undef -> ub) -> rwp ub (rkeys m) s.
Proof.
  intros Hg Hu Hs. unfold rkeys. destruct (m (r_ks s)) as [[r ks]|] eqn:E; [|by apply Hu].
  split_and!; [done|done|]. by eapply Hg.
Qed.
(** A change of the miner or of the connections only. *)
Lemma rwp_put ub f s :
  d_node (r_d (f s)) = d_node (r_d s) -> d_pool (r_d (f s)) = d_pool (r_d s) -> r_ks (f s) = r_ks s -> rwp ub (rput f) s.
Proof.
  intros En Ep Ek Hs. unfold rput. split_and!; [|congruence|by rewrite Ek].
  by eapply (daemon_inv_stable params); [..|exact Hs].
Qed.
Lemma rwp_broadcast ub cmd p s : rwp ub (rbroadcast params write cmd p) s.
Proof. apply rwp_put; destruct (BroadcastMessage _ _ _ _ _ _); done. Qed.
Lemma rwp_take ub tx fee s :
  let c := nd_chain (d_node (r_d s)) in
  CheckTx (d_pool (r_d s)) tx (ch_view c) (ch_height c) = Ok fee -> rwp ub (take_tx params now write tx fee (ch_height c)) s.
Proof.
  intros c Hc. unfold take_tx. apply rwp_bind; [|intros; apply rwp_broadcast].
  intros [Hr Hp]. unfold rpool, rput. split_and!; [|done|done]. split; [done|].
  eapply pr_accept; [apply ci_view, (reachable_inv _ _ Hr)|exact Hp|]. unfold accept_tx. fold c. by rewrite Hc.
Qed.

(** Reading operations of the methods. *)
Lemma reads_only_chain : reads_only params (@get_chain St).
Proof. intros n Hn. by exists (nd_chain n), n. Qed.
Lemma reads_only_tip : reads_only params (@Tip St).
Proof.
  apply reads_only_get_bind. intros c Hc n Hn E. destruct (ch_height c <? 0) eqn:Eh; [by exists None, n|].
  exists (GetIndex c (ch_tipHash c)), n. split_and!; [|done|done].
  unfold runs, mbind, NodeM_bind, vec_at. by rewrite (ci_tip _ Hc).
Qed.
Lemma reads_only_header h : reads_only params (GetBlockHeader h).
Proof. apply reads_only_bind; [apply reads_only_read|]. intros b. apply reads_only_ret. Qed.
Lemma reads_only_read_chain n : forall h, reads_only params (read_chain n h).
Proof.
  induction n as [|n IH]; intros h; cbn [read_chain]; [apply reads_only_ret|].
  apply reads_only_bind; [apply reads_only_block|]. intros b. apply reads_only_bind; [apply IH|]. intros r. apply reads_only_ret.
Qed.
Lemma reads_only_find_tx n txid : forall h, reads_only params (find_tx n h txid).
Proof.
  induction n as [|n IH]; intros h; cbn [find_tx]; [apply reads_only_ret|].
  apply reads_only_bind; [apply reads_only_block|]. intros b. destruct (List.find _ _); [apply reads_only_ret|apply IH].
Qed.

End Safety.

Create HintDb rpc.
#[export] Hint Resolve rwp_ret rwp_throw rwp_broadcast rwp_reads reads_only_chain reads_only_tip reads_only_read reads_only_block
  reads_only_header reads_only_read_chain reads_only_find_tx : rpc.
(** Walks through a method. *)
Ltac rpc_walk :=
  repeat first
    [ solve [eauto with rpc]
    | match goal with
      | |- rwp _ _ (rget ≫= _) _ => apply rwp_get
      | |- rwp _ _ (rchain ≫= _) _ => apply rwp_chain
      | |- rwp _ _ (_ ≫= _) _ => apply rwp_bind; [|intros]
      end
    | match goal with |- rwp _ _ (match ?x with _ => _ end) _ => destruct x eqn:? end ].

Section RpcTheorems.
Context {ossl : OpenSSL} {laws : OpenSSLLaws ossl} {ec : EcKeys ossl} {cph : Cipher}.
Context {St : Type} {stor : IStorage St} {slaws : StorageLaws St} (params : ChainParams).
Context (now localNonce : Z) (write : list (Z * bytes) -> Z -> bytes -> bool * bytes) (dial : text -> Z -> option Z).
Context (difficulty_text feerate_text : Z -> text).
Context (rand : nat -> option bytes) (iv : bytes) (draws : nat -> change_draw).
Context (sort : list SelectedInput -> list SelectedInput) (fuel : nat).
Abbreviation methods := (node_methods params now localNonce write dial difficulty_text feerate_text rand iv draws sort fuel).
Abbreviation state := (RpcState (St := St)).

Lemma new_address_defined ver ks : GenerateNewAddress ver rand iv now ks <> Undef.
Proof.
  unfold GenerateNewAddress. destruct (GenerateKeyPair rand ver); [|done].
  unfold AddKey, AesEncrypt, mbind, KsM_bind, kget, kput, mret, KsM_ret, kthrow.
  destruct (ks_locked ks); [done|]. by destruct (gcm_encrypt _ _ _).
Qed.
Lemma rwp_create (ub : Prop) view h to amt (s : state) : ub -> rwp params ub (rcreate params now draws sort fuel view h to amt) s.
Proof.
  intros Hub Hs. unfold rcreate.
  destruct (CreateTransaction _ _ _ _ _ _ _ _ _ _) as [[[[r|]|e] ks]|] eqn:E; [|done| |done];
    (split_and!; [done|done|by eapply grows_create]).
Qed.
Lemma rwp_sendtoaddress (ub : Prop) p (s : state) : ub -> rwp params ub (sendtoaddress params now write draws sort fuel p) s.
Proof.
  intros Hub. unfold sendtoaddress. destruct p as [|p0 [|p1 p]]; [apply rwp_ret..|].
  destruct (ParseValue p1); [|apply rwp_throw]. apply rwp_chain. apply rwp_bind; [by apply rwp_create|].
  intros [[[tx txid] fee]|e] s' Hr; [|apply rwp_ret]. apply rwp_get. apply rwp_bind; [|intros; apply rwp_ret].
  assert (nd_chain (d_node (r_d s)) = nd_chain (d_node (r_d s'))) as ->.
  { revert Hr. unfold rcreate. destruct (CreateTransaction _ _ _ _ _ _ _ _ _ _) as [[[[r|]|e] ks]|]; [|done..].
    by intros [= _ <-]. }
  destruct (CheckTx _ _ _ _) eqn:Ec; [by apply rwp_take|apply rwp_ret].
Qed.

(** No RPC call can change the chain, drop a key of the wallet or put into
    the pool what validation does not accept.  For every registered method and
    any parameters, in a node that blocks and transactions can lead to: the
    method returns (a payment may be undefined or not return, in the wallet's
    cipher and signing loop); the chain, its coins and its supply are what
    they were, the pool is again one that accepted transactions lead to, and
    every address of the wallet is still there, whether the method ends
    normally or with an exception. *)
Theorem rpc_methods_safe name fn p (s : state) :
  (name, fn) ∈ node_methods params now localNonce write dial difficulty_text feerate_text rand iv draws sort fuel ->
  daemon_inv params (r_d s) ->
  match fn p s with
  | Some (Done (_, s')) =>
      daemon_inv params (r_d s') /\ nd_chain (d_node (r_d s')) = nd_chain (d_node (r_d s)) /\
      dom (ks_keys (r_ks s)) ⊆ dom (ks_keys (r_ks s'))
  | _ => name = "sendtoaddress"
  end.
Proof.
  intros Hin Hs. enough (rwp params (name = "sendtoaddress") (fn p) s) as H by exact (H Hs). clear Hs.
  unfold node_methods in Hin.
  repeat (apply elem_of_cons in Hin as [[= -> ->]|Hin]); [..|by apply not_elem_of_nil in Hin];
    try (by apply rwp_sendtoaddress);
    try (unfold getnewaddress; apply rwp_bind; [apply rwp_keys; [apply grows_new|by intros ?%new_address_defined]|intros; apply rwp_ret]).
  all: try solve [unfold getblockchaininfo, getblockcount, getblockhash, getblock, getrawtransaction, listunspent, getaddresstxs,
    chain_blocks, getbalance, listtransactions, getnetworkinfo, getpeerinfo, getmininginfo, getmempoolinfo, validateaddress,
    estimatesmartfee, getblockheader, gettxoutsetinfo, gettxout, rview, getaddresses, getminingaddress; rpc_walk].
  - unfold sendrawtransaction. rpc_walk. by apply rwp_take.
  - unfold startmining, rstart. rpc_walk; apply rwp_put; try done; by destruct (StartMiningThread _ _).
  - unfold stopmining. rpc_walk. apply rwp_put; by destruct (StopMiningThread _ _).
  - unfold setminingaddress. rpc_walk. by apply rwp_put.
  - unfold addnode. rpc_walk. apply rwp_put; by destruct (AddTarget _ _ _ _ _ _ _ _).
Qed.
End RpcTheorems.

Section RpcAnswers.
Context {ossl : OpenSSL} {laws : OpenSSLLaws ossl} {ec : EcKeys ossl} {cph : Cipher}.
Context {St : Type} {stor : IStorage St} {slaws : StorageLaws St} (params : ChainParams).
Context (now localNonce : Z) (write : list (Z * bytes) -> Z -> bytes -> bool * bytes) (dial : text -> Z -> option Z).
Context (difficulty_text feerate_text : Z -> text).
Context (rand : nat -> option bytes) (iv : bytes) (draws : nat -> change_draw).
Context (sort : list SelectedInput -> list SelectedInput) (fuel : nat).
Abbreviation table := (RegisterRpcMethods params now localNonce write dial difficulty_text feerate_text rand iv draws sort fuel).
Abbreviation state := (RpcState (St := St)).

(** ** The command line *)

(** Every method the command line calls is registered under a name that needs
    no escaping. *)
Lemma cli_method_registered args m ps :
  RunCliCommand args = Done (CliCall m ps) ->
  is_Some (find_method table (lit m)) /\ plain (lit m) /\ lit m <> lit "params".
Proof.
  intros H.
  assert (m ∈ ["getblockchaininfo"; "getblockcount"; "getblock"; "getnewaddress"; "getbalance"; "listtransactions"; "getaddresses";
    "sendtoaddress"; "getmininginfo"; "startmining"; "stopmining"; "setminingaddress"; "getminingaddress"; "getpeerinfo";
    "getnetworkinfo"; "addnode"; "getmempoolinfo"]) as Hin.
  { revert H. unfold RunCliCommand. destruct args as [|a args]; [done|].
    repeat match goal with |- context [if ?x then _ else _] => destruct x end;
      try (destruct ((a :: args) !! 2%nat)); intros [= <- _] || done; apply (bool_decide_unpack _); by vm_compute. }
  clear H. repeat (apply elem_of_cons in Hin as [->|Hin]); [..|by apply not_elem_of_nil in Hin];
    (split; [by eexists|split; [split; apply (bool_decide_unpack _); by vm_compute|discriminate]]).
Qed.

(** The commands of the command line reach the node.  A command that makes
    an RPC call makes it to a method the node has registered, and, with the
    node's credentials and port, with parameters the scanner can read and a
    request and an answer that fit their buffers, prints what that method
    returns in the node's state and exits with 0. *)
Theorem cli_command_answered (s : state) user pass cfg port args m ps fn r s' :
  RunCliCommand args = Done (CliCall m ps) -> cli_port cfg = Some port ->
  cc_rpcUser cfg = user -> cc_rpcPassword cfg = pass -> Forall plain_param ps ->
  find_method table (lit m) = Some fn -> fn ps s = Some (Done (Ok r, s')) ->
  (length (http_request cfg (request_body (lit m) ps)) <= SERVER_BUF)%nat ->
  (length (http_response (result_response r (lit "1"))) <= CLIENT_BUF)%nat -> plain_result r ->
  cli_run (loopback port {| rs_user := user; rs_password := pass; rs_methods := table |} s) cfg args = Done (unquote r, 0).
Proof.
  intros Ha Hport Hu Hp Hps Hf Hr Hl Hl' Hpr. destruct (cli_method_registered _ _ _ Ha) as (_ & Hm & Hne).
  destruct (rpc_call_runs {| rs_user := user; rs_password := pass; rs_methods := table |} cfg port (lit m) ps fn s r s')
    as (_ & E & Ep); [done..|].
  unfold cli_run. rewrite Ha. cbn [mbind outcome_bind]. by rewrite E, Ep.
Qed.

(** ** Queries *)

Lemma atoll_text z : is_i64 z -> atoll (of_text (to_string z)) = z.
Proof. apply strtol_to_string. Qed.
Lemma of_hex_text u : of_text (hex_text u) = getHex u.
Proof. apply String.string_of_list_ascii_of_string. Qed.
Lemma rchain_run (s : state) : rchain s = Some (Done (Ok (nd_chain (d_node (r_d s))), s)).
Proof. by destruct s as [[] ? ? ? ?]. Qed.

(** The answers of the query methods fit together.  A transaction id and an
    output number, printed as the node prints them, name exactly that coin in
    [gettxout]: its value, height and kind, or [null] when it is not unspent.
    And for a height of the active chain whose block is on disk,
    [getblockhash] answers the hash of the chain at that height, and
    [getblock] of that hash answers that block with that height. *)
Theorem rpc_queries_exact (s : state) txid n k hash blk st' :
  wf txid -> is_u32 n -> reachable params (d_node (r_d s)) ->
  ch_byHeight (nd_chain (d_node (r_d s))) !! k = Some hash -> (Z.of_nat k < 2 ^ 63) ->
  ReadBlock hash (nd_store (d_node (r_d s))) = (Some blk, st') ->
  let c := nd_chain (d_node (r_d s)) in
  let s' := with_d s (with_node (r_d s) {| nd_chain := c; nd_store := st' |}) in
  gettxout [hex_text txid; to_string n] s =
    Some (Done (Ok (match ch_view c !! {| op_hash := txid; op_n := n |} with
                    | None => lit "null"
                    | Some coin => json "{'value':" ++ to_string (coin_value coin) ++ json ",'height':" ++ to_string (coin_height coin)
                        ++ json ",'coinbase':" ++ JsonBool (coin_isCoinbase coin) ++ lit "}"
                    end), s)) /\
  getblockhash [to_string (Z.of_nat k)] s = Some (Done (Ok (JsonString (hex_text hash)), s')) /\
  getblock [hex_text hash] s = Some (Done (Ok (block_json c hash blk), s')) /\
  index_height c hash (-1) = Z.of_nat k.
Proof.
  intros Htx Hn Hr Hk Hk63 Hread c s'. pose proof (reachable_inv _ _ Hr) as Hinv. fold c in Hk, Hinv.
  assert (Z.of_nat k <= ch_height c) as Hle.
  { pose proof (lookup_lt_Some _ _ _ Hk). pose proof (ci_length _ Hinv). lia. }
  assert (wf hash) as Hwf by (eapply Forall_lookup_1; [apply (ci_wf _ Hinv)|exact Hk]).
  split_and!.
  - unfold gettxout, rview, mbind, RpcM_bind. rewrite rchain_run. cbn [mret RpcM_ret]. fold c. unfold GetCoin.
    rewrite of_hex_text, fromHexReversed_getHex, atoll_text by (done || unfold is_u32, is_i64 in *; lia).
    unfold u32. by rewrite Z.mod_small.
  - unfold getblockhash, mbind, RpcM_bind, rnode. rewrite atoll_text by (unfold is_i64; lia).
    unfold GetBlockByHeight, mbind, NodeM_bind, get_chain. fold c.
    rewrite (proj2 (Z.ltb_ge _ _)), (proj2 (gtb_false _ _)) by lia. cbn [orb].
    unfold vec_at. rewrite Nat2Z.id, Hk. cbn [mret NodeM_ret]. unfold read_block. rewrite Hread. cbn [mret RpcM_ret].
    by rewrite (ReadBlock_hash _ _ _ _ Hread).
  - unfold getblock, mbind, RpcM_bind, rnode, GetBlock, read_block.
    rewrite of_hex_text, fromHexReversed_getHex, Hread by done. cbn [mret RpcM_ret]. by rewrite rchain_run.
  - unfold index_height, GetIndex. by destruct (ci_active _ Hinv k hash Hk) as (idx & -> & ?).
Qed.

(** ** Payments *)

Lemma CheckTx_conflict pool tx view h :
  existsb (fun i => HaveOutpoint pool (in_prevout i)) (tx_vin tx) = true -> exists e, CheckTx pool tx view h = Err e.
Proof.
  intros H. unfold CheckTx. destruct (fail_if (IsCoinBase tx) _); [|by eexists]. cbn [mbind res_bind].
  destruct (CheckTransaction tx); [|by eexists]. cbn [mbind res_bind]. rewrite H. by eexists.
Qed.
(** The id is the transaction's, which passes validation. *)
Lemma CreateTransaction_result v fuel' sort' view h to amount draws' now' ks tx txid fee0 ks' :
  CreateTransaction v fuel' sort' view h to amount draws' now' ks = Done (Ok (Some (Ok (tx, txid, fee0))), ks') ->
  txid = GetTxID tx /\ exists fee, ValidateTransaction tx view h false = Ok (Some fee).
Proof.
  unfold CreateTransaction, mbind at 1, KsM_bind, kget. destruct (ks_locked ks); [discriminate|].
  destruct (DecodeAddress to) as [[tv toHash]|]; [|discriminate]. destruct (amount <=? 0); [discriminate|].
  generalize 8%nat. intros rounds. generalize 0%nat. revert ks. induction rounds as [|rounds IH]; intros ks attempt H; [discriminate H|].
  cbn [attempt_loop] in H. unfold mbind at 1, KsM_bind in H.
  destruct (attempt_payment _ _ _ _ _ _ _ _ _ _ ks) as [[[[|r]|e] ks1]|] eqn:E; [exact (IH _ _ H)| |discriminate H..].
  unfold mret, KsM_ret in H. injection H as -> ->. clear IH. revert E.
  unfold attempt_payment, mbind, KsM_bind, kget, mret, KsM_ret.
  destruct (SelectCoins _ _ _ _ _ _) as [[|] sel]; [|discriminate].
  destruct (change_output _ _ _ _ _) as [[[[outs|]|e] ks2]|]; [|discriminate..].
  destruct (_ <? 0); [discriminate|]. destruct (signing_pairs _ _) as [[[[kps|e]|e] ks3]|]; [|discriminate..].
  destruct (sign_inputs _ _ _) as [[tx'|e]|]; [|discriminate..].
  destruct (ValidateTransaction tx' view h false) as [o|e] eqn:Ev; [|discriminate]. intros [= -> <- _ _]. split; [done|].
  destruct o as [fee|]; [by exists fee|]. revert Ev. unfold ValidateTransaction. destruct (CheckTransaction tx); [|done].
  cbn [mbind res_bind andb]. destruct (IsCoinBase tx); [done|]. by destruct (CheckTxInputs tx view h).
Qed.
(** For a transaction that is valid, the pool looks at its own outpoints and at
    the fee. *)
Lemma CheckTx_valid pool tx view h fee : ValidateTransaction tx view h false = Ok (Some fee) ->
  CheckTx pool tx view h = Ok fee /\ Forall (fun o => mapPrevOut pool !! o = None) (prevouts tx) /\ 100 <= fee \/
  (exists e, CheckTx pool tx view h = Err e) /\ ~ (Forall (fun o => mapPrevOut pool !! o = None) (prevouts tx) /\ 100 <= fee).
Proof.
  unfold ValidateTransaction, CheckTx. destruct (CheckTransaction tx); [|done]. cbn [mbind res_bind andb].
  destruct (IsCoinBase tx); [done|]. destruct (CheckTxInputs tx view h) as [f|]; [|done]. intros [= ->].
  assert (existsb (fun i => HaveOutpoint pool (in_prevout i)) (tx_vin tx) = false <->
    Forall (fun o => mapPrevOut pool !! o = None) (prevouts tx)) as Ho.
  { rewrite existsb_false. unfold prevouts. rewrite Forall_map. apply Forall_iff. intros i.
    unfold HaveOutpoint. rewrite bool_decide_eq_false. symmetry. apply eq_None_not_Some. }
  rewrite <- Ho. destruct (existsb _ _); cbn [fail_if mbind res_bind]; [right; split; [by eexists|by intros [? _]]|].
  destruct (Z.ltb_spec fee 100); cbn [fail_if mbind res_bind]; [right; split; [by eexists|lia]|by left].
Qed.
(** Everyone a broadcast is sent to is sent to once. *)
Lemma broadcast_once magic wr (sv : CNetServer) cmd payload excl : map_Forall (fun fd n => n_fd n = fd) (sv_peers sv) ->
  NoDup (snd (BroadcastMessage magic wr sv cmd payload excl)).*1.
Proof.
  intros Hfd. unfold BroadcastMessage. destruct (BuildMessage magic cmd payload) as [frame|]; [|constructor]. cbn [snd].
  eapply sublist_NoDup; [apply (NoDup_fst_map_to_list (sv_peers sv))|].
  assert (Forall (fun kv : Z * CNode => n_fd kv.2 = kv.1) (map_to_list (sv_peers sv))) as H.
  { apply Forall_forall. intros [k n] Hin%elem_of_map_to_list. exact (Hfd k n Hin). }
  induction H as [|[k n] l Hk _ IH]; [constructor|]. cbn [omap list_omap fmap list_fmap fst snd] in *.
  destruct (broadcast_to excl n); [|by apply sublist_cons]. cbn [fst]. rewrite Hk. by apply sublist_skip.
Qed.
(** Adding to the pool touches the transaction's own entry and outpoints. *)
Lemma AddUnchecked_effect pool tx fee h now' : let pool' := snd (AddUnchecked pool tx fee h now') in let txid := GetTxID tx in
  (forall id, id <> txid -> mapTx pool' !! id = mapTx pool !! id) /\ is_Some (mapTx pool' !! txid) /\
  (mapTx pool !! txid = None ->
     (exists e, mapTx pool' !! txid = Some e /\ e_tx e = tx /\ e_fee e = fee /\ Mempool.e_height e = h /\ e_time e = now') /\
     forall o, mapPrevOut pool' !! o = if bool_decide (o ∈ prevouts tx) then Some txid else mapPrevOut pool !! o).
Proof.
  cbn zeta. unfold AddUnchecked, Exists_. case_bool_decide as Hex; cbn [snd].
  - split; [done|]. split; [done|]. intros E. rewrite E in Hex. by destruct Hex.
  - cbn [mapTx mapPrevOut]. split; [intros id Hne; by rewrite lookup_insert_ne|]. rewrite lookup_insert_eq. split; [done|].
    intros _. split; [by eexists|]. intros o. by rewrite lookup_insert_all.
Qed.

(** C40: what [sendtoaddress] answers and what it does.  When the wallet builds
    the transaction, the answer is its id, whatever becomes of it.  It is
    accepted exactly when no transaction in the pool spends one of its coins and
    its fee is at least 100.  An accepted transaction is then in the pool under
    its id, with its fee and the height, its coins are the pool's and nothing
    else there changes; and every peer that finished the handshake is sent
    exactly one frame, with the serialized transaction.  Otherwise, as when one
    of its coins is already spent in the pool (the wallet does not look at the
    pool when it picks coins), the pool and the peers stay as they are and
    nothing is sent.  The chain is untouched, and the wallet is the one the
    transaction left.  (The peers are filed under their own descriptors, and
    the serialized transaction has at most the 4 MB of a message.) *)
Theorem sendtoaddress_exact (s : state) to amt amount tx txid fee0 ks' :
  let c := nd_chain (d_node (r_d s)) in
  ParseValue amt = Ok amount ->
  CreateTransaction (addressVersion params) fuel sort (ch_view c) (ch_height c) to amount draws now (r_ks s)
    = Done (Ok (Some (Ok (tx, txid, fee0))), ks') ->
  map_Forall (fun fd n => n_fd n = fd) (d_peers (r_d s)) -> Z.of_nat (length (SerializeTransaction tx)) <= MAX_MESSAGE_SIZE ->
  let frame := frame_header (networkMagic params) (string_bytes "tx") (SerializeTransaction tx) ++ SerializeTransaction tx in
  exists fee sent s', sendtoaddress params now write draws sort fuel [to; amt] s = Some (Done (Ok ([DQ] ++ hex_text txid ++ [DQ]), s')) /\
    txid = GetTxID tx /\ ValidateTransaction tx (ch_view c) (ch_height c) false = Ok (Some fee) /\
    r_ks s' = ks' /\ d_node (r_d s') = d_node (r_d s) /\ d_sent (r_d s') = d_sent (r_d s) ++ sent /\
    let pool := d_pool (r_d s) in let pool' := d_pool (r_d s') in
    let accepted := Forall (fun o => mapPrevOut pool !! o = None) (prevouts tx) /\ 100 <= fee in
    (forall id, id <> txid -> mapTx pool' !! id = mapTx pool !! id) /\
    (is_Some (mapTx pool' !! txid) <-> is_Some (mapTx pool !! txid) \/ accepted) /\
    (accepted -> mapTx pool !! txid = None ->
       (exists e, mapTx pool' !! txid = Some e /\ e_tx e = tx /\ e_fee e = fee /\ Mempool.e_height e = ch_height c /\ e_time e = now) /\
       forall o, mapPrevOut pool' !! o = if bool_decide (o ∈ prevouts tx) then Some txid else mapPrevOut pool !! o) /\
    (forall fd out, (fd, out) ∈ sent <-> accepted /\ exists n, d_peers (r_d s) !! fd = Some n /\ n_handshakeDone n = true /\
       fd <> -1 /\ out = snd (write (d_sent (r_d s)) fd frame)) /\ NoDup sent.*1 /\
    (~ accepted -> pool' = pool /\ d_peers (r_d s') = d_peers (r_d s)).
Proof.
  intros c Hp Hc Hfd Hsz frame. destruct (CreateTransaction_result _ _ _ _ _ _ _ _ _ _ _ _ _ _ Hc) as (-> & fee & Hv).
  set (pool := d_pool (r_d s)). pose proof (CheckTx_valid pool tx _ _ _ Hv) as Hcase. exists fee.
  assert (BuildMessage (networkMagic params) (string_bytes "tx") (SerializeTransaction tx) = Some frame) as Hb
    by (by apply BuildMessage_frame).
  pose proof (broadcast_exact (networkMagic params) (write (d_sent (r_d s))) (net_of s) (string_bytes "tx") (SerializeTransaction tx) frame (-1)
    Hb Hfd) as Hsent.
  pose proof (broadcast_once (networkMagic params) (write (d_sent (r_d s))) (net_of s) (string_bytes "tx") (SerializeTransaction tx) (-1) Hfd) as Hnd.
  destruct (BroadcastMessage (networkMagic params) (write (d_sent (r_d s))) (net_of s) (string_bytes "tx") (SerializeTransaction tx) (-1))
    as [sv out] eqn:Eb. destruct Hsent as [Hsent _]. cbn [snd] in Hnd.
  unfold sendtoaddress. rewrite Hp. unfold mbind, RpcM_bind. rewrite rchain_run. fold c.
  unfold rcreate. cbv beta iota. rewrite Hc. cbn [rget]. change (d_pool (r_d (with_ks s ks'))) with pool.
  destruct Hcase as [[-> Ha]|[[e ->] Ha]].
  - unfold take_tx, rpool, rbroadcast, rput, mbind, RpcM_bind, mret, RpcM_ret.
    exists out, (with_server (with_d (with_ks s ks') (with_pool (snd (AddUnchecked pool tx fee (ch_height c) now)) (r_d s))) sv out).
    split.
    { match goal with |- context [BroadcastMessage ?a ?b ?sv ?d ?e ?f] => change (BroadcastMessage a b sv d e f)
        with (BroadcastMessage (networkMagic params) (write (d_sent (r_d s))) (net_of s) (string_bytes "tx") (SerializeTransaction tx) (-1)) end.
      by rewrite Eb. }
    do 5 (split; [done|]). cbn zeta. fold pool.
    destruct (AddUnchecked_effect pool tx fee (ch_height c) now) as (H1 & H2 & H3).
    split; [exact H1|]. split; [split; [by right|by intros _]|]. split; [by intros _|]. split; [|split; [exact Hnd|done]].
    intros fd o. rewrite (Hsent fd o). split; [by intros H|by intros [_ ?]].
  - exists [], (with_ks s ks'). split; [done|]. split; [done|]. split; [done|]. split; [done|]. split; [done|]. split; [by rewrite app_nil_r|].
    cbn zeta. fold pool. split; [done|]. split; [by split; [left|intros [?|?]]|]. split; [done|].
    split; [|split; [constructor|done]]. intros fd o. split; [by intros []%not_elem_of_nil|by intros [? _]].
Qed.
End RpcAnswers.

(** * Witnesses *)

Section RpcWitnesses.
#[local] Existing Instance mini_ossl.
#[local] Existing Instance mini_ec.
#[local] Existing Instance toy_cipher.

Definition rw_node : Node MemStorage := run_state (Init TESTNET) wit_start.
Lemma rw_node_reachable : reachable TESTNET rw_node.
Proof. eapply (reach_init TESTNET (nd_store wit_start)); [reflexivity|]. apply run_ok_unit. vm_compute. reflexivity. Qed.
(** A node that has its genesis block and an open wallet with one key. *)
Definition rw_state (n : Node MemStorage) : RpcState :=
  {| r_d := wit_daemon n; r_targets := []; r_ks := wit_store; r_miner := new_miner; r_active := false |}.
Abbreviation rw_methods params := (node_methods (St := MemStorage) params 7 1 good_write (fun _ _ => None) to_string to_string
  (fun _ => None) wit_iv wit_draws (fun l => l) 9).

Lemma rw_inv n : reachable TESTNET n -> daemon_inv TESTNET (r_d (rw_state n)).
Proof. intros H. split; [exact H|apply pr_clear]. Qed.
Lemma rpc_methods_safe_witness :
  match getblockcount [] (rw_state rw_node) with
  | Some (Done (_, s')) => daemon_inv TESTNET (r_d s')
  | _ => False
  end.
Proof.
  assert (("getblockcount", getblockcount) ∈ rw_methods TESTNET) as Hin by (do 1 right; left).
  pose proof (rpc_methods_safe TESTNET 7 1 good_write (fun _ _ => None) to_string to_string (fun _ => None) wit_iv wit_draws (fun l => l) 9
    "getblockcount" getblockcount [] (rw_state rw_node)) as H.
  assert (daemon_inv TESTNET (r_d (rw_state rw_node))) as Hi by exact (rw_inv rw_node rw_node_reachable).
  specialize (H Hin Hi). revert H. generalize (getblockcount [] (rw_state rw_node)). intros x H. destruct x as [[[r s']|]|]; [exact (proj1 H)|discriminate H..].
Defined.

Abbreviation rw_table := (RegisterRpcMethods (St := MemStorage) TESTNET 7 1 good_write (fun _ _ => None) to_string to_string
  (fun _ => None) wit_iv wit_draws (fun l => l) 9).
Lemma cli_command_answered_witness :
  cli_run (loopback 19343 {| rs_user := lit "cdx"; rs_password := lit "cdx"; rs_methods := rw_table |} (rw_state rw_node))
    default_cli [lit "blockchain"; lit "height"] = Done (unquote (lit "0"), 0).
Proof.
  apply (cli_command_answered TESTNET 7 1 good_write (fun _ _ => None) to_string to_string (fun _ => None) wit_iv wit_draws (fun l => l) 9
    (rw_state rw_node) (lit "cdx") (lit "cdx") default_cli 19343 [lit "blockchain"; lit "height"] "getblockcount" [] getblockcount (lit "0") (rw_state rw_node)).
  - vm_compute. reflexivity.
  - vm_compute. reflexivity.
  - reflexivity.
  - reflexivity.
  - apply Forall_nil_2.
  - reflexivity.
  - vm_compute. reflexivity.
  - apply Nat.leb_le. vm_compute. reflexivity.
  - apply Nat.leb_le. vm_compute. reflexivity.
  - split; reflexivity.
Defined.

Definition rw_genesis : uint256 := ch_tipHash (nd_chain rw_node).
Lemma rpc_queries_exact_witness :
  exists blk st', getblock [hex_text rw_genesis] (rw_state rw_node) =
    Some (Done (Ok (block_json (nd_chain rw_node) rw_genesis blk),
      with_d (rw_state rw_node) (with_node (wit_daemon rw_node) {| nd_chain := nd_chain rw_node; nd_store := st' |}))).
Proof.
  destruct (ReadBlock rw_genesis (nd_store rw_node)) as [[blk|] st'] eqn:E; [|vm_compute in E; discriminate E].
  exists blk, st'. apply (rpc_queries_exact TESTNET (rw_state rw_node) zero 0 0 rw_genesis blk st').
  - vm_compute. repeat split; discriminate.
  - vm_compute. split; [discriminate|reflexivity].
  - exact (proj1 (rw_inv rw_node rw_node_reachable)).
  - vm_compute. reflexivity.
  - reflexivity.
  - exact E.
Defined.

(** The wallet's coins on a chain of height ten. *)
Definition rw_funded : Node MemStorage :=
  {| nd_chain := {| ch_view := wit_coin_view; ch_index := ∅; ch_byHeight := []; ch_height := 10; ch_tipHash := zero; ch_chainWork := zero |};
     nd_store := nd_store wit_start |}.
Abbreviation rw_send p := (sendtoaddress MAINNET 7 good_write wit_draws (fun l => l) 9 p).
(** The node with a peer that has finished the handshake. *)
Definition rw_peered : RpcState :=
  let s := rw_state rw_funded in with_server s {| sv_peers := {[7 := set_version default_version wit_peer7]}; sv_targets := [] |} [].
Lemma sendtoaddress_exact_witness :
  exists txid s' out, rw_send [wit_to; lit "0.00002"] rw_peered = Some (Done (Ok ([DQ] ++ hex_text txid ++ [DQ]), s')) /\
    is_Some (mapTx (d_pool (r_d s')) !! txid) /\ (7, out) ∈ d_sent (r_d s').
Proof.
  assert (match CreateTransaction wallet_default_version 9 (fun l => l) wit_coin_view 10 wit_to 2000 wit_draws 7 wit_store with
    | Done (Ok (Some (Ok (tx, _, _))), _) => (length (SerializeTransaction tx) <=? 1000)%nat &&
        match ValidateTransaction tx wit_coin_view 10 false with Ok (Some fee) => 100 <=? fee | _ => false end
    | _ => false end = true) as Hp by (vm_compute; reflexivity).
  destruct (CreateTransaction wallet_default_version 9 (fun l => l) wit_coin_view 10 wit_to 2000 wit_draws 7 wit_store)
    as [[[[[[[tx txid] fee]|e]|]|e] ks']|] eqn:E; try discriminate Hp.
  apply andb_true_iff in Hp as [Hl Hfee]. apply Nat.leb_le in Hl.
  destruct (sendtoaddress_exact MAINNET 7 good_write wit_draws (fun l => l) 9 rw_peered wit_to (lit "0.00002") 2000 tx txid fee ks')
    as (fee' & sent & s' & H & _ & Hv & _ & _ & Hs & _ & Hin & _ & Hsent & _).
  - vm_compute. reflexivity.
  - exact E.
  - apply map_Forall_singleton. reflexivity.
  - change MAX_MESSAGE_SIZE with 4194304. lia.
  - change (ValidateTransaction tx wit_coin_view 10 false = Ok (Some fee')) in Hv. rewrite Hv in Hfee. apply Z.leb_le in Hfee.
    assert (Forall (fun o => mapPrevOut (d_pool (r_d rw_peered)) !! o = None) (prevouts tx) /\ 100 <= fee') as Ha.
    { split; [apply Forall_forall; intros; apply lookup_empty|exact Hfee]. }
    exists txid, s'. eexists. split; [exact H|]. split; [apply Hin; right; exact Ha|].
    rewrite Hs. apply elem_of_app. right. apply Hsent. split; [exact Ha|]. eexists. split; [apply lookup_singleton_eq|].
    split; [reflexivity|]. split; [discriminate|reflexivity].
Defined.
(** Two payments before a block confirms the first: both answer a transaction
    id, and only the first is in the pool, which pays 2000 with change. *)
Example second_payment_unsent :
  match rw_send [wit_to; lit "0.00002"] (rw_state rw_funded) with
  | Some (Done (Ok id1, s1)) =>
      match rw_send [wit_to; lit "0.00001"] s1 with
      | Some (Done (Ok id2, s2)) =>
          length id1 = 66%nat /\ length id2 = 66%nat /\
          map (fun tx => map out_value (tx_vout tx)) (GetTxs (d_pool (r_d s1))) = [[2000; 2470]] /\
          map (fun tx => map out_value (tx_vout tx)) (GetTxs (d_pool (r_d s2))) = [[2000; 2470]]
      | _ => False
      end
  | _ => False
  end.
Proof. vm_compute. repeat split. Qed.
End RpcWitnesses.
