(* ===== verification/RpcServer.v ===== *)
(** The RPC server as it runs: [Start], [Stop] and [AcceptLoop] of
    [rpc/server.cpp].  [Rpc] models how one request is read and answered; here
    are the listening socket, the loop that sends an answer, and the loop that
    serves one client after the other on a single thread.

    The results of the socket calls are events.  The methods a client reaches
    depend on the clock, on random draws and on other sockets at that time: the
    server of the [i]-th client is [srv i]. *)
From Stdlib Require Import Ascii.
From S2P Require Import Prelude Config UInt256 Compact Consensus Ripemd160 Crypto Transaction Encoding Value Script Utxo Block Validation Keys KeyStore Mempool Chain Storage Mining Protocol Net Handlers Wallet Daemon Text Connect Rpc RpcMethods.
Import Value.
Open Scope cdx_scope.

(** * The listening socket *)

(** [running], [listenFd] and the descriptors the server has open. *)
Record RpcListener := { rl_running : bool; rl_listenFd : Z; rl_open : list Z }.
Definition new_listener : RpcListener := {| rl_running := false; rl_listenFd := -1; rl_open := [] |}.
Definition rl_close (fd : Z) (open : list Z) : list Z := filter (fun x => x <> fd) open.
(** [Start], with the results of [socket], [bind] and [listen]. *)
Definition RpcStart (port : Z) (sock : option Z) (bindOk listenOk : bool) (l : RpcListener) : res unit * RpcListener :=
  if rl_running l then (Ok (), l)
  else match sock with
  | None => (Err "rpc: socket failed", {| rl_running := false; rl_listenFd := -1; rl_open := rl_open l |})
  | Some fd =>
      let open := fd :: rl_open l in
      if negb bindOk then
        (Err (String.append "rpc: cannot bind port " (of_text (to_string port))),
         {| rl_running := false; rl_listenFd := -1; rl_open := rl_close fd open |})
      else if negb listenOk then
        (Err "rpc: cannot listen", {| rl_running := false; rl_listenFd := -1; rl_open := rl_close fd open |})
      else (Ok (), {| rl_running := true; rl_listenFd := fd; rl_open := open |})
  end.
(** [Stop]; the thread is joined when its loop has seen the flag. *)
Definition RpcStop (l : RpcListener) : RpcListener :=
  if 0 <=? rl_listenFd l then {| rl_running := false; rl_listenFd := -1; rl_open := rl_close (rl_listenFd l) (rl_open l) |}
  else {| rl_running := false; rl_listenFd := rl_listenFd l; rl_open := rl_open l |}.

(** * Serving clients *)

(** A call of [send]: [n + 1] bytes were taken, [EAGAIN], another error. *)
Inductive send_result := Sent (n : nat) | SendAgain | SendError.
(** The loop that sends the answer: what the client was sent.  After [EAGAIN] it
    polls and tries again without a limit: [None] when the calls are used up. *)
Fixpoint send_loop (evs : list send_result) (http : text) : option text :=
  match http with
  | [] => Some []
  | _ =>
      match evs with
      | [] => None
      | Sent n :: r => rest ← send_loop r (drop (S n) http); Some (take (S n) http ++ rest)
      | SendAgain :: r => send_loop r http
      | SendError :: _ => Some []
      end
  end.

(** A call of [accept]: no client, or one with the events of its connection. *)
Inductive accept_result := NoClient | Client (fd : Z) (evs : list rpc_event) (sends : list send_result).

Section AcceptLoop.
Context {S : Type}.

Definition serve_client (srv : CRpcServer (St := S)) (evs : list rpc_event) (sends : list send_result) (st : S) :
    option (outcome (text * S)) :=
  match serve_connection srv evs st with
  | Some (Done (None, st)) => Some (Done ([], st))
  | Some (Done (Some http, st)) => out ← send_loop sends http; Some (Done (out, st))
  | Some Undef => Some Undef
  | None => None
  end.
(** The loop while [running] is set: every client's descriptor, closed after
    what it was sent. *)
Fixpoint AcceptLoop (srv : nat -> CRpcServer (St := S)) (i : nat) (evs : list accept_result) (st : S) :
    option (outcome (list (Z * text) * S)) :=
  match evs with
  | [] => Some (Done ([], st))
  | NoClient :: r => AcceptLoop srv i r st
  | Client fd evs sends :: r =>
      match serve_client (srv i) evs sends st with
      | Some (Done (out, st)) =>
          match AcceptLoop srv (Datatypes.S i) r st with
          | Some (Done (log, st)) => Some (Done ((fd, out) :: log, st))
          | Some Undef => Some Undef
          | None => None
          end
      | Some Undef => Some Undef
      | None => None
      end
  end.

(** ** Lemmas *)

Lemma send_loop_prefix evs : forall http out, send_loop evs http = Some out -> exists rest, http = out ++ rest.
Proof.
  induction evs as [|e evs IH]; intros [|c http] out H; cbn [send_loop] in H; try (injection H as <-; by eexists); [done|].
  destruct e as [n| |]; [|by apply IH|injection H as <-; by eexists].
  destruct (send_loop evs (drop (Datatypes.S n) (c :: http))) as [r|] eqn:E; [|done]. injection H as <-.
  apply IH in E as [rest E]. exists rest.
  transitivity (take (Datatypes.S n) (c :: http) ++ drop (Datatypes.S n) (c :: http)); [by rewrite take_drop|].
  rewrite E. cbn. by rewrite <- (assoc_L (++)).
Qed.
(** Without an error the whole answer is sent. *)
Lemma send_loop_all evs : forall http out, SendError ∉ evs -> send_loop evs http = Some out -> out = http.
Proof.
  induction evs as [|e evs IH]; intros [|c http] out He H; cbn [send_loop] in H; try (by injection H as <-); [done|].
  apply not_elem_of_cons in He as [He Hes]. destruct e as [n| |]; [|by apply IH|done].
  destruct (send_loop evs (drop (Datatypes.S n) (c :: http))) as [r|] eqn:E; [|done]. injection H as <-.
  apply IH in E as ->; [|done]. cbn. by rewrite take_drop.
Qed.
(** A client that never reads holds the server for ever. *)
Lemma send_loop_waits n http : http <> [] -> send_loop (replicate n SendAgain) http = None.
Proof. intros Hh. induction n as [|n IH]; [by destruct http|]. destruct http; [done|]. exact IH. Qed.

Definition clients (evs : list accept_result) : list Z := omap (fun e => match e with Client fd _ _ => Some fd | NoClient => None end) evs.

(** The bytes the calls of [send] take. *)
Definition taken (evs : list send_result) : nat := list_sum (map (fun e => match e with Sent n => Datatypes.S n | _ => 0%nat end) evs).
(** The loop goes on only for a client that takes less than the answer, without
    an error that would end the connection. *)
Lemma send_loop_stuck evs : forall http, send_loop evs http = None -> (SendError ∉ evs) /\ (taken evs < length http)%nat.
Proof.
  induction evs as [|e evs IH]; intros [|c http] H; cbn [send_loop] in H; try done.
  - split; [apply not_elem_of_nil|cbn; lia].
  - destruct e as [n| |]; [| |done].
    + destruct (send_loop evs (drop (Datatypes.S n) (c :: http))) eqn:E; [done|]. apply IH in E as [He Ht]. split; [by apply not_elem_of_cons|].
      rewrite length_drop in Ht. change (taken (Sent n :: evs)) with (Datatypes.S n + taken evs)%nat. cbn [length] in Ht |- *. lia.
    + apply IH in H as [He Ht]. split; [by apply not_elem_of_cons|exact Ht].
Qed.

(** What holds of a client holds of the loop; otherwise there is a first client,
    [j] clients on, in the state that those before it lead to, that the loop does
    not come back from. *)
Lemma accept_loop_rule (I : S -> Prop) (R : S -> S -> Prop) (bad : nat -> list rpc_event -> list send_result -> S -> Prop) srv evs :
  (forall s, I s -> R s s) -> (forall a b c, R a b -> R b c -> R a c) -> (forall a b, R a b -> I b) ->
  (forall i cevs sends s, I s -> match serve_client (srv i) cevs sends s with Some (Done (_, s')) => R s s' | _ => bad i cevs sends s end) ->
  forall i s, I s ->
  match AcceptLoop srv i evs s with
  | Some (Done (log, s')) => R s s' /\ log.*1 = clients evs
  | _ => exists before fd cevs sends rest log s1, evs = before ++ Client fd cevs sends :: rest /\
      AcceptLoop srv i before s = Some (Done (log, s1)) /\ R s s1 /\ bad (i + length (clients before))%nat cevs sends s1
  end.
Proof.
  intros Hrefl Htrans HI Hc. induction evs as [|[|fd cevs sends] evs IH]; intros i s Hs; cbn [AcceptLoop]; [by auto| |].
  - specialize (IH i s Hs). destruct (AcceptLoop srv i evs s) as [[[log s']|]|]; [done|..];
      destruct IH as (before & fd & ce & se & rest & log & s1 & -> & Hl & Hr & Hb); by exists (NoClient :: before), fd, ce, se, rest, log, s1.
  - pose proof (Hc i cevs sends s Hs) as H1.
    destruct (serve_client (srv i) cevs sends s) as [[[out s1]|]|] eqn:E;
      [|exists [], fd, cevs, sends, evs, [], s; rewrite Nat.add_0_r; by auto..].
    specialize (IH (Datatypes.S i) s1 (HI _ _ H1)).
    assert ((exists before fd cevs sends rest log s2, evs = before ++ Client fd cevs sends :: rest /\
        AcceptLoop srv (Datatypes.S i) before s1 = Some (Done (log, s2)) /\ R s1 s2 /\
        bad (Datatypes.S i + length (clients before))%nat cevs sends s2) ->
      exists before fd' cevs' sends' rest log s2, Client fd cevs sends :: evs = before ++ Client fd' cevs' sends' :: rest /\
        AcceptLoop srv i before s = Some (Done (log, s2)) /\ R s s2 /\
        bad (i + length (clients before))%nat cevs' sends' s2) as Hlift.
    { intros (before & fd' & ce & se & rest & log & s2 & -> & Hl & Hr & Hb).
      exists (Client fd cevs sends :: before), fd', ce, se, rest, ((fd, out) :: log), s2. split; [done|]. cbn [AcceptLoop].
      rewrite E, Hl. split; [done|]. split; [by eapply Htrans|]. cbn. by rewrite Nat.add_succ_r. }
    destruct (AcceptLoop srv (Datatypes.S i) evs s1) as [[[log s']|]|]; [|by apply Hlift..].
    destruct IH as [H2 Hl]. split; [by eapply Htrans|]. cbn. by rewrite Hl.
Qed.
End AcceptLoop.

(** * Sessions *)

Section Session.
Context {ossl : OpenSSL} {laws : OpenSSLLaws ossl} {ec : EcKeys ossl} {cph : Cipher}.
Context {St : Type} {stor : IStorage St} {slaws : StorageLaws St} (params : ChainParams).
Context (localNonce : Z) (write : list (Z * bytes) -> Z -> bytes -> bool * bytes) (difficulty_text feerate_text : Z -> text).
Context (sort : list SelectedInput -> list SelectedInput) (fuel : nat).
Abbreviation state := (RpcState (St := St)).

(** What the node finds around it while it serves a client. *)
Record surroundings := {
  su_now : Z; su_dial : text -> Z -> option Z; su_rand : nat -> option bytes; su_iv : bytes; su_draws : nat -> change_draw }.
Definition node_server (user pass : text) (w : surroundings) : CRpcServer (St := state) := {|
  rs_user := user; rs_password := pass;
  rs_methods := RegisterRpcMethods params (su_now w) localNonce write (su_dial w) difficulty_text feerate_text (su_rand w) (su_iv w)
                  (su_draws w) sort fuel |}.

Lemma find_registered (l : list (string * (list text -> @RpcM state text))) : forall t m fn,
  find_method (foldl (fun t nf => Register t (lit nf.1) nf.2) t l) m = Some fn ->
  find_method t m = Some fn \/ exists name, m = lit name /\ (name, fn) ∈ l.
Proof.
  induction l as [|[name f] l IH]; intros t m fn H; [by left|]. cbn [foldl] in H. apply IH in H as [H|(nm & -> & Hin)].
  - cbn in H. case_bool_decide as E; [|by left]. injection H as ->. right. exists name. split; [done|left].
  - right. exists nm. split; [done|by right].
Qed.

(** The clients the theorem on sessions makes an exception for: what they send
    and take when the server serves them in the state [s]. *)
Definition hard_client (srv : CRpcServer (St := state)) (evs : list rpc_event) (sends : list send_result) (s : state) : Prop :=
  read_loop evs true [] [] = Undef \/
  (exists request auth, read_loop evs true [] [] = Done (request, auth) /\ CheckAuth srv auth = true /\
     findJsonStr request (lit "method") = lit "sendtoaddress") \/
  (exists http s', serve_connection srv evs s = Some (Done (Some http, s')) /\ (SendError ∉ sends) /\ (taken sends < length http)%nat).

Lemma serve_client_step user pass w evs sends (s : state) : rpc_inv params s ->
  match serve_client (node_server user pass w) evs sends s with
  | Some (Done (_, s')) => rpc_step params s s'
  | _ => hard_client (node_server user pass w) evs sends s
  end.
Proof.
  intros Hs. unfold serve_client, hard_client.
  assert (match serve_connection (node_server user pass w) evs s with
    | Some (Done (_, s')) => rpc_step params s s'
    | _ => read_loop evs true [] [] = Undef \/ exists request auth, read_loop evs true [] [] = Done (request, auth) /\
        CheckAuth (node_server user pass w) auth = true /\ findJsonStr request (lit "method") = lit "sendtoaddress" end) as H.
  { unfold serve_connection. destruct (read_loop evs true [] []) as [[[|c request] auth]|] eqn:Er; [by apply step_refl| |by left].
    set (req := c :: request) in *. unfold HandleRequest, send_response.
    destruct (CheckAuth _ _) eqn:Ea; [|by apply step_refl]. unfold HandleRequestInner.
    destruct (find_method _ _) as [fn|] eqn:Ef; [|by apply step_refl].
    apply find_registered in Ef as [?|(name & Hm & Hin)]; [done|].
    pose proof (rpc_methods_safe params (su_now w) localNonce write (su_dial w) difficulty_text feerate_text (su_rand w) (su_iv w)
      (su_draws w) sort fuel name fn (params_of req) s Hin Hs) as H.
    destruct (fn (params_of req) s) as [[[[r|e] s']|]|]; [done|done|..];
      right; exists req, auth; (split; [done|]); (split; [exact Ea|]); by rewrite Hm, H. }
  destruct (serve_connection _ _ _) as [[[[http|] s']|]|] eqn:Es; [|done|tauto..].
  destruct (send_loop sends http) eqn:E; cbn [mbind option_bind]; [done|]. right; right. apply send_loop_stuck in E. by exists http, s'.
Qed.

(** C12: a whole session of RPC clients is safe.  Any clients may connect, one
    after the other, with any credentials, requests and broken connections, at
    any times: the loop returns, closes each of their connections after its
    turn, leaves the chain, its coins and its supply as they were, the pool one
    that accepted transactions lead to, and every address in the wallet.  When
    it does not return, there is a first client it does not come back from: the
    loop has served those before it, with the same guarantees, and this client
    either sent a header that ends in two bare newlines within the last two
    bytes, or has the credentials and asks for a payment, whose signing loop and
    cipher may not return, or has taken fewer bytes than the answer the server
    made for it has, without an error that would end the connection. *)
Theorem rpc_session_safe user pass (world : nat -> surroundings) evs i (s : state) :
  daemon_inv params (r_d s) ->
  let srv i := node_server user pass (world i) in
  let kept s' := daemon_inv params (r_d s') /\ nd_chain (d_node (r_d s')) = nd_chain (d_node (r_d s)) /\
    dom (ks_keys (r_ks s)) ⊆ dom (ks_keys (r_ks s')) in
  match AcceptLoop srv i evs s with
  | Some (Done (log, s')) => kept s' /\ log.*1 = clients evs
  | _ => exists before fd cevs sends rest log s1, evs = before ++ Client fd cevs sends :: rest /\
      AcceptLoop srv i before s = Some (Done (log, s1)) /\ kept s1 /\
      hard_client (srv (i + length (clients before))%nat) cevs sends s1
  end.
Proof.
  intros Hs srv kept.
  apply (accept_loop_rule (rpc_inv params) (rpc_step params) (fun j cevs sends s => hard_client (srv j) cevs sends s));
    [apply step_refl| | | |done].
  - apply step_trans.
  - by intros a b [? _].
  - intros. by apply serve_client_step.
Qed.

(** Without the credentials a client changes nothing. *)
Theorem rpc_strangers_change_nothing user pass (world : nat -> surroundings) : forall evs i (s s' : state) log,
  (forall fd cevs sends request auth, Client fd cevs sends ∈ evs -> read_loop cevs true [] [] = Done (request, auth) ->
     CheckAuth (St := state) {| rs_user := user; rs_password := pass; rs_methods := [] |} auth = false) ->
  AcceptLoop (fun i => node_server user pass (world i)) i evs s = Some (Done (log, s')) -> s' = s.
Proof.
  induction evs as [|[|fd cevs sends] evs IH]; intros i s s' log Hc H; cbn [AcceptLoop] in H; [by injection H as _ <-| |].
  - eapply IH; [|done]. intros. eapply Hc; [by right|done].
  - destruct (serve_client _ _ _ s) as [[[out s1]|]|] eqn:Es; [|done..].
    destruct (AcceptLoop _ _ evs s1) as [[[log' s2]|]|] eqn:Ea; [|done..]. injection H as _ <-.
    assert (s1 = s) as ->; [|eapply IH; [|done]; intros; eapply Hc; [by right|done]].
    revert Es. unfold serve_client, serve_connection. destruct (read_loop cevs true [] []) as [[[|c r] auth]|] eqn:Er; [by intros [= _ <-]| |done].
    unfold HandleRequest, send_response. pose proof (Hc fd cevs sends _ _ (list_elem_of_here _ _) Er) as Hf.
    change (CheckAuth (node_server user pass (world i)) auth = false) in Hf. rewrite Hf.
    destruct (send_loop _ _); cbn [mbind option_bind]; [|done]. by intros [= _ <-].
Qed.
End Session.

(** * Witnesses *)

Section RpcServerWitnesses.
#[local] Existing Instance mini_ossl.
#[local] Existing Instance mini_ec.
#[local] Existing Instance toy_cipher.

(** A client with the node's credentials asks for a balance and takes the answer
    in two pieces, one with others is turned away. *)
Definition ses_world : surroundings := {|
  su_now := 7; su_dial := fun _ _ => None; su_rand := fun _ => None; su_iv := wit_iv; su_draws := wit_draws |}.
Definition ses_client (pass : string) : CliConfig :=
  {| cc_network := "testnet"; cc_rpcUser := lit "cdx"; cc_rpcPassword := lit pass; cc_rpcPort := []; cc_dataDir := [] |}.
Definition ses_events : list accept_result := [
  NoClient;
  Client 8 (server_events (http_request (ses_client "cdx") (request_body (lit "getblockcount") []))) [Sent 9; SendAgain; Sent 999];
  Client 9 (server_events (http_request (ses_client "no") (request_body (lit "stopmining") []))) [Sent 999] ].
Abbreviation ses_run := (AcceptLoop (fun _ => node_server (St := MemStorage) TESTNET 1 good_write to_string to_string (fun l => l) 9
  (lit "cdx") (lit "cdx") ses_world) 0 ses_events (rw_state rw_node)).
Lemma ses_returns : match ses_run with Some (Done _) => true | _ => false end = true.
Proof. vm_compute. reflexivity. Qed.
Lemma rpc_session_safe_witness :
  exists log s', ses_run = Some (Done (log, s')) /\ log.*1 = [8; 9] /\ daemon_inv TESTNET (r_d s').
Proof.
  pose proof (rpc_session_safe TESTNET 1 good_write to_string to_string (fun l => l) 9 (lit "cdx") (lit "cdx") (fun _ => ses_world)
    ses_events 0 (rw_state rw_node) (rw_inv rw_node rw_node_reachable)) as H. cbn zeta beta in H.
  pose proof ses_returns as Hr. destruct ses_run as [[[log s']|]|]; [|discriminate Hr..].
  exists log, s'. split; [reflexivity|]. split; [exact (proj2 H)|exact (proj1 (proj1 H))].
Defined.

(** Listening and closing. *)
Example listener_closed :
  rl_open (RpcStop (RpcStart 19343 (Some 5) true true new_listener).2) = [] /\
  rl_open (RpcStart 19343 (Some 5) false true new_listener).2 = [].
Proof. split; reflexivity. Qed.
End RpcServerWitnesses.
