(* ===== verification/Bson.v ===== *)
(** The BSON documents of [storage/mongo.cpp]: the builder [BsonDoc] and the
    reader [ParseBson].

    A builder is the vector it has written.  The reader gets a pointer and a
    length: [mem] is the memory that can be read from the pointer on.  Every
    read goes through [rd], [rd_bytes] or [key_end], which are undefined when
    they leave it; so is the conversion of a double that does not fit an
    [int64_t].  [ParseBson] fills an output vector that the
    caller keeps even when it returns false. *)
From S2P Require Import Prelude Compact Text.
Open Scope cdx_scope.

Module Bson.

(** * Writing *)

Definition bson_new : bytes := repeat 0 4.
Definition bson_finish (b : bytes) : bytes :=
  let b := b ++ [0] in
  le_bytes 4 (u32 (Z.of_nat (length b))) ++ drop 4 b.
Definition bson_key (k : bytes) : bytes := k ++ [0].
Definition addI32 (v : Z) : bytes := le_bytes 4 (u32 v).
Definition addI64 (v : Z) : bytes := le_bytes 8 (u64 v).
Definition bson_str (b : bytes) (k v : bytes) : bytes :=
  b ++ [0x02] ++ bson_key k ++ addI32 (i32 (i32 (Z.of_nat (length v)) + 1)) ++ v ++ [0].
Definition bson_i32 (b : bytes) (k : bytes) (v : Z) : bytes := b ++ [0x10] ++ bson_key k ++ addI32 v.
Definition bson_i64 (b : bytes) (k : bytes) (v : Z) : bytes := b ++ [0x12] ++ bson_key k ++ addI64 v.
Definition bson_boolean (b : bytes) (k : bytes) (v : bool) : bytes := b ++ [0x08] ++ bson_key k ++ [if v then 1 else 0].
Definition bson_null (b : bytes) (k : bytes) : bytes := b ++ [0x0A] ++ bson_key k.
Definition bson_binary (b : bytes) (k v : bytes) : bytes :=
  b ++ [0x05] ++ bson_key k ++ addI32 (i32 (Z.of_nat (length v))) ++ [0] ++ v.
(** [d] is passed by value: the copy is finished. *)
Definition bson_doc (b : bytes) (k d : bytes) : bytes := b ++ [0x03] ++ bson_key k ++ bson_finish d.

(** [std::to_string(i)] as a key. *)
Definition index_key (i : nat) : bytes := map ascii_Z (to_string (Z.of_nat i)).
Definition bson_arrDoc (b : bytes) (k : bytes) (items : list bytes) : bytes :=
  let arr := foldl (fun arr it => bson_doc arr (index_key it.1) it.2) bson_new (imap (fun i d => (i, d)) items) in
  b ++ [0x04] ++ bson_key k ++ bson_finish arr.

(** * Reading *)

#[warnings="-register-all"] Inductive BsonValue :=
| BV (v_type : Z) (v_str : bytes) (v_i64 : Z) (v_boolean : bool) (v_bytes : bytes) (v_doc : list (bytes * BsonValue)).
Definition bv_type (v : BsonValue) : Z := let '(BV t _ _ _ _ _) := v in t.
Definition bv_str (v : BsonValue) : bytes := let '(BV _ s _ _ _ _) := v in s.
Definition bv_i64 (v : BsonValue) : Z := let '(BV _ _ i _ _ _) := v in i.
Definition bv_boolean (v : BsonValue) : bool := let '(BV _ _ _ b _ _) := v in b.
Definition bv_bytes (v : BsonValue) : bytes := let '(BV _ _ _ _ x _) := v in x.
Definition bv_doc (v : BsonValue) : list (bytes * BsonValue) := let '(BV _ _ _ _ _ d) := v in d.
(** [BsonValue v; v.type = type;] with one more member set. *)
Definition bv_int (t i : Z) : BsonValue := BV t [] i false [] [].

(** [(int64_t)d] for the double with these bits: towards zero, undefined when
    the result is out of range, for an infinity and for a NaN. *)
Definition double_to_i64 (bits : Z) : outcome Z :=
  let e := Z.land (Z.shiftr bits 52) 0x7ff in
  let m := Z.land bits (Z.ones 52) in
  let mag := if e =? 0 then 0 else Z.shiftl (2 ^ 52 + m) (e - 1075) in
  let v := if Z.testbit bits 63 then - mag else mag in
  if (e =? 0x7ff) || negb ((- 2 ^ 63 <=? v) && (v <? 2 ^ 63)) then Undef else Done v.

(** [memcpy] of [n] bytes at [pos] as a little-endian number, and the bytes that
    [assign] copies: the reads of the parser.  One that leaves the memory is
    undefined, whether or not the caller has compared it with a length. *)
Definition le_at (mem : bytes) (pos n : nat) : Z := le_read (take n (drop pos mem)).
Definition rd (mem : bytes) (pos n : nat) : outcome Z := if (pos + n <=? length mem)%nat then Done (le_at mem pos n) else Undef.
Definition rd_bytes (mem : bytes) (pos n : nat) : outcome bytes :=
  if (pos + n <=? length mem)%nat then Done (take n (drop pos mem)) else Undef.
(** [while (pos < docLen && p[pos] != 0) ++pos;] over [n = docLen - pos] bytes of
    the memory from [pos] on: how far it gets, nothing when it meets no zero. *)
Fixpoint key_end (n : nat) (s : bytes) : outcome (option nat) :=
  match n, s with
  | O, _ => Done None
  | S n, [] => Undef
  | S n, b :: r => if b =? 0 then Done (Some 0%nat) else match key_end n r with Done o => Done (option_map S o) | Undef => Undef end
  end.

(** The parser's results: [None] when the fuel is used up. *)
Abbreviation parsed A := (option (outcome A)).
Definition use_read {X A} (o : outcome X) (k : X -> parsed A) : parsed A :=
  match o with Done x => k x | Undef => Some Undef end.
Notation "x ⟸ o ; k" := (use_read o (fun x => k)) (at level 20, o at level 100, k at level 200, only parsing).

(** One value: [None] is [return false]; otherwise the value and the new
    position.  [sub] is the recursive call. *)
Definition parse_value (sub : bytes -> nat -> parsed (bool * list (bytes * BsonValue)))
    (mem : bytes) (docLen pos : nat) (type : Z) : parsed (option (BsonValue * nat)) :=
  if type =? 0x01 then
    if (docLen <? pos + 8)%nat then Some (Done None)
    else d ⟸ rd mem pos 8; i ⟸ double_to_i64 d; Some (Done (Some (bv_int type i, (pos + 8)%nat)))
  else if type =? 0x02 then
    if (docLen <? pos + 4)%nat then Some (Done None)
    else sl ⟸ rd mem pos 4;
         let sl := i32 sl in
         let pos := (pos + 4)%nat in
         if (sl <? 0) || (Z.of_nat (docLen - pos) <? sl) then Some (Done None)
         else str ⟸ rd_bytes mem pos (Z.to_nat sl - 1); Some (Done (Some (BV type str 0 false [] [], (pos + Z.to_nat sl)%nat)))
  else if (type =? 0x03) || (type =? 0x04) then
    if (docLen <? pos + 4)%nat then Some (Done None)
    else subLen ⟸ rd mem pos 4;
         if (subLen <? 5) || (Z.of_nat (docLen - pos) <? subLen) then Some (Done None)
         else match sub (drop pos mem) (Z.to_nat subLen) with
              | Some (Done (_, d)) => Some (Done (Some (BV type [] 0 false [] d, (pos + Z.to_nat subLen)%nat)))
              | Some Undef => Some Undef
              | None => None
              end
  else if type =? 0x05 then
    if (docLen <? pos + 5)%nat then Some (Done None)
    else bl ⟸ rd mem pos 4;
         let bl := i32 bl in
         _ ⟸ rd mem (pos + 4) 1;
         let pos := (pos + 5)%nat in
         if (bl <? 0) || (Z.of_nat (docLen - pos) <? bl) then Some (Done None)
         else bin ⟸ rd_bytes mem pos (Z.to_nat bl); Some (Done (Some (BV type [] 0 false bin [], (pos + Z.to_nat bl)%nat)))
  else if type =? 0x07 then Some (Done (Some (bv_int type 0, (pos + 12)%nat)))
  else if type =? 0x08 then
    b ⟸ rd mem pos 1; Some (Done (Some (BV type [] 0 (negb (b =? 0)) [] [], (pos + 1)%nat)))
  else if (type =? 0x09) || (type =? 0x11) then
    if (docLen <? pos + 8)%nat then Some (Done None) else x ⟸ rd mem pos 8; Some (Done (Some (bv_int type (i64 x), (pos + 8)%nat)))
  else if type =? 0x0A then Some (Done (Some (bv_int type 0, pos)))
  else if type =? 0x10 then
    if (docLen <? pos + 4)%nat then Some (Done None) else x ⟸ rd mem pos 4; Some (Done (Some (bv_int type (i32 x), (pos + 4)%nat)))
  else if type =? 0x12 then
    if (docLen <? pos + 8)%nat then Some (Done None) else x ⟸ rd mem pos 8; Some (Done (Some (bv_int type (i64 x), (pos + 8)%nat)))
  else Some (Done None).

(** What [ParseBson] does before its loop over the fields. *)
Definition enter_doc (fields : bytes -> nat -> parsed (bool * list (bytes * BsonValue))) (mem : bytes) (len : nat) :
    parsed (bool * list (bytes * BsonValue)) :=
  if (len <? 5)%nat then Some (Done (false, []))
  else docLen ⟸ rd mem 0 4;
       if (docLen <? 5) || (Z.of_nat len <? docLen) then Some (Done (false, [])) else fields mem (Z.to_nat docLen).
(** The loop over the fields, with the recursive [ParseBson]. *)
Fixpoint parse_fields (fuel : nat) (mem : bytes) (docLen pos : nat) (out : list (bytes * BsonValue)) :
    parsed (bool * list (bytes * BsonValue)) :=
  match fuel with
  | O => None
  | S k =>
      if (pos + 1 <? docLen)%nat then
        type ⟸ rd mem pos 1;
        let pos := (pos + 1)%nat in
        if type =? 0 then Some (Done (true, out))
        else key ⟸ key_end (docLen - pos) (drop pos mem);
             match key with
             | None => Some (Done (false, out))
             | Some n =>
                 let key := take n (drop pos mem) in
                 match parse_value (enter_doc (fun m subLen => parse_fields k m subLen 4 [])) mem docLen (pos + n + 1) type with
                 | Some (Done (Some (v, pos))) => parse_fields k mem docLen pos (out ++ [(key, v)])
                 | Some (Done None) => Some (Done (false, out))
                 | Some Undef => Some Undef
                 | None => None
                 end
             end
      else Some (Done (true, out))
  end.
Definition ParseBson (fuel : nat) : bytes -> nat -> parsed (bool * list (bytes * BsonValue)) :=
  enter_doc (fun mem docLen => parse_fields fuel mem docLen 4 []).

Fixpoint FindField (doc : list (bytes * BsonValue)) (name : bytes) : option BsonValue :=
  match doc with
  | [] => None
  | (k, v) :: r => if bool_decide (k = name) then Some v else FindField r name
  end.

(** [double] 1.0, 2.5, -7.9 and a value out of range. *)
Example double_examples :
  double_to_i64 0x3FF0000000000000 = Done 1 /\ double_to_i64 0x4004000000000000 = Done 2 /\
  double_to_i64 0xC01F99999999999A = Done (-7) /\ double_to_i64 0x43E0000000000000 = Undef.
Proof. by vm_compute. Qed.

End Bson.
Import Bson.
#[local] Opaque double_to_i64 rd i32 i64.

(** * Termination and bounds *)

Lemma rd_ok mem pos n : (pos + n <= length mem)%nat -> rd mem pos n = Done (le_at mem pos n).
Proof. Transparent rd. unfold rd. destruct (Nat.leb_spec (pos + n) (length mem)); [done|lia]. Opaque rd. Qed.
Lemma rd_undef mem pos n : rd mem pos n = Undef -> (length mem < pos + n)%nat.
Proof. Transparent rd. unfold rd. by destruct (Nat.leb_spec (pos + n) (length mem)). Opaque rd. Qed.
Lemma rd_bytes_undef mem pos n : rd_bytes mem pos n = Undef -> (length mem < pos + n)%nat.
Proof. unfold rd_bytes. by destruct (Nat.leb_spec (pos + n) (length mem)). Qed.
Lemma key_end_undef n s : key_end n s = Undef -> (length s < n)%nat.
Proof.
  revert s. induction n as [|n IH]; intros [|b s]; cbn; [done..|lia|]. destruct (b =? 0); [done|].
  destruct (key_end n s) eqn:E; [done|]. intros _. apply IH in E. lia.
Qed.
Lemma key_end_spec n s k : key_end n s = Done (Some k) -> (k < n)%nat /\ s !! k = Some 0.
Proof.
  revert s k. induction n as [|n IH]; intros [|b s] k; cbn; [done..|]. destruct (Z.eqb_spec b 0) as [->|].
  - intros [= <-]. split; [lia|done].
  - destruct (key_end n s) as [[j|]|] eqn:E; [|done..]. intros [= <-]. apply IH in E as [? ?]. split; [lia|done].
Qed.
Lemma key_end_bound mem docLen pos n :
  key_end (docLen - pos) (drop pos mem) = Done (Some n) -> (pos + n < docLen)%nat /\ mem !! (pos + n)%nat = Some 0.
Proof. intros [H Hn]%key_end_spec. rewrite lookup_drop in Hn. split; [lia|done]. Qed.

(** Case analysis on the type byte, the reads and the bounds of [parse_value]. *)
Ltac value_cases :=
  unfold parse_value; repeat (match goal with
  | |- context [if ?x then _ else _] => let E := fresh "E" in destruct x eqn:E
  | |- context [use_read ?o _] => let R := fresh "R" in let v := fresh "rv" in destruct o as [v|] eqn:R; cbn [use_read]
  end; cbv beta zeta).

Lemma parse_value_pos sub mem docLen pos type v pos' :
  parse_value sub mem docLen pos type = Some (Done (Some (v, pos'))) -> (pos <= pos')%nat.
Proof.
  value_cases; try (intros [= <- <-]; lia); try done.
  destruct (sub _ _) as [[[]|]|]; [|done..]. intros [= <- <-]. lia.
Qed.
(** The recursive call is on a sub-document that lies inside. *)
Lemma parse_value_sub sub mem docLen pos type :
  parse_value sub mem docLen pos type = None ->
  exists subLen, (5 <= subLen)%nat /\ (pos + subLen <= docLen)%nat /\ sub (drop pos mem) subLen = None.
Proof.
  value_cases; try done. intros H. exists (Z.to_nat rv). apply orb_false_iff in E3 as [E3%Z.ltb_ge E4%Z.ltb_ge]. apply Nat.ltb_ge in E2.
  split_and!; [lia..|]. by destruct (sub _ _) as [[[]|]|].
Qed.
(** Where undefined behaviour of a value comes from when the document lies in
    the memory. *)
Lemma parse_value_undef sub mem docLen pos type : (docLen <= length mem)%nat ->
  parse_value sub mem docLen pos type = Some Undef ->
  (type = 0x01 /\ (pos + 8 <= docLen)%nat /\ double_to_i64 (le_at mem pos 8) = Undef) \/
  (type = 0x08 /\ (length mem <= pos)%nat) \/
  exists subLen, (5 <= subLen)%nat /\ (pos + subLen <= docLen)%nat /\ sub (drop pos mem) subLen = Some Undef.
Proof.
  intros Hl. value_cases; try done; intros H;
    repeat match goal with
    | E : (_ <? _)%nat = false |- _ => apply Nat.ltb_ge in E
    | E : _ || _ = false |- _ => apply orb_false_iff in E as [E%Z.ltb_ge ?%Z.ltb_ge]
    | R : rd _ _ _ = Undef |- _ => apply rd_undef in R
    | R : rd_bytes _ _ _ = Undef |- _ => apply rd_bytes_undef in R
    end; try lia.
  - left. rewrite rd_ok in R by lia. injection R as <-. split; [by apply Z.eqb_eq|]. split; [done|]. done.
  - right. right. exists (Z.to_nat rv). split_and!; [lia..|]. by destruct (sub _ _) as [[[]|]|].
Qed.

(** Enough fuel: every round consumes at least two bytes, a sub-document is
    shorter than the one it is in. *)
Lemma enter_doc_none fields mem len : enter_doc fields mem len = None ->
  exists docLen, (5 <= docLen <= len)%nat /\ fields mem docLen = None.
Proof.
  unfold enter_doc. destruct (Nat.ltb_spec len 5); [done|]. destruct (rd mem 0 4) as [v|]; [|done]. cbn [use_read].
  destruct (_ || _) eqn:E; [done|]. apply orb_false_iff in E as [E1%Z.ltb_ge E2%Z.ltb_ge]. intros ?. exists (Z.to_nat v). split; [lia|done].
Qed.
Lemma enter_doc_undef fields mem len : (len <= length mem)%nat -> enter_doc fields mem len = Some Undef ->
  exists docLen, (5 <= docLen <= len)%nat /\ fields mem docLen = Some Undef.
Proof.
  intros Hl. unfold enter_doc. destruct (Nat.ltb_spec len 5); [done|]. rewrite rd_ok by lia. cbn [use_read].
  destruct (_ || _) eqn:E; [done|]. apply orb_false_iff in E as [E1%Z.ltb_ge E2%Z.ltb_ge]. intros ?.
  exists (Z.to_nat (le_at mem 0 4)). split; [lia|done].
Qed.
Lemma parse_fields_total fuel : forall mem docLen pos out,
  (0 < fuel)%nat -> (docLen < fuel + pos)%nat -> parse_fields fuel mem docLen pos out <> None.
Proof.
  induction fuel as [|k IH]; intros mem docLen pos out H0 Hf; cbn [parse_fields]; [lia|].
  destruct (Nat.ltb_spec (pos + 1) docLen); [|done]. destruct (rd mem pos 1) as [ty|]; [|done]. cbn [use_read]. destruct (ty =? 0); [done|].
  destruct (key_end _ _) as [[n|]|] eqn:Ek; [|done..]. cbn [use_read]. apply key_end_bound in Ek as [Hn _].
  destruct (parse_value _ _ _ _ _) as [[[[v pos']|]|]|] eqn:Ev; [|done|done|].
  - apply parse_value_pos in Ev. apply IH; lia.
  - apply parse_value_sub in Ev as (subLen & H5 & Hs & (docLen' & Hd & Ev)%enter_doc_none). exfalso. revert Ev. apply IH; lia.
Qed.
Lemma parse_total mem len : exists r, ParseBson (S len) mem len = Some r.
Proof.
  destruct (ParseBson (S len) mem len) as [r|] eqn:E; [by exists r|]. apply enter_doc_none in E as (docLen & Hd & E).
  exfalso. revert E. apply parse_fields_total; lia.
Qed.

(** A field of type [ty] whose value begins at [p]: the type byte, a key and its
    zero lie in front of it. *)
Definition field_at (mem : bytes) (ty : Z) (p : nat) : Prop :=
  exists q n, p = (q + n + 2)%nat /\ le_at mem q 1 = ty /\ key_end (S n) (drop (q + 1) mem) = Done (Some n).
(** Where undefined behaviour can come from: the eight bytes of a double field
    that are not a double in range, or a boolean field whose key ends where
    the memory ends. *)
Definition bad_double (mem : bytes) (len : nat) : Prop :=
  exists p, field_at mem 0x01 p /\ (p + 8 <= len)%nat /\ double_to_i64 (le_at mem p 8) = Undef.
Definition cut_boolean (mem : bytes) (len : nat) : Prop := field_at mem 0x08 len /\ length mem = len.
Lemma le_at_drop mem pos p n : le_at (drop pos mem) p n = le_at mem (pos + p) n.
Proof. unfold le_at. by rewrite drop_drop. Qed.
Lemma field_at_drop mem pos ty p : field_at (drop pos mem) ty p -> field_at mem ty (pos + p).
Proof.
  intros (q & n & -> & Hq & Hk). rewrite le_at_drop in Hq. rewrite drop_drop in Hk. exists (pos + q)%nat, n.
  split; [lia|]. split; [done|]. by rewrite <- Nat.add_assoc.
Qed.
Lemma key_end_shorter n m s k : key_end n s = Done (Some k) -> (k < m)%nat -> key_end m s = Done (Some k).
Proof.
  revert m s k. induction n as [|n IH]; intros [|m] [|b s] k; cbn; try done; [lia|]. destruct (b =? 0); [done|].
  destruct (key_end n s) as [[j|]|] eqn:E; [|done..]. intros [= <-] Hm. by rewrite (IH m s j E) by lia.
Qed.
Lemma parse_fields_undef fuel : forall mem docLen pos out,
  (docLen <= length mem)%nat -> parse_fields fuel mem docLen pos out = Some Undef -> bad_double mem docLen \/ cut_boolean mem docLen.
Proof.
  induction fuel as [|k IH]; intros mem docLen pos out Hl; cbn [parse_fields]; [done|].
  destruct (Nat.ltb_spec (pos + 1) docLen); [|done]. rewrite rd_ok by lia. cbn [use_read].
  destruct (le_at mem pos 1 =? 0); [done|].
  destruct (key_end _ _) as [[n|]|] eqn:Ek; cbn [use_read]; [|done|apply key_end_undef in Ek; rewrite length_drop in Ek; lia].
  pose proof (key_end_bound _ _ _ _ Ek) as [Hn _].
  destruct (parse_value _ _ _ _ _) as [[[[v pos']|]|]|] eqn:Ev; [by apply IH|done| |done]. intros _.
  assert (field_at mem (le_at mem pos 1) (pos + 1 + n + 1)) as Hf.
  { exists pos, n. split; [lia|]. split; [done|]. eapply key_end_shorter; [exact Ek|lia]. }
  apply parse_value_undef in Ev as [(Ht & H1 & H2)|[[Ht H1]|(subLen & H5 & Hs & Ev)]]; [| | |done].
  - left. rewrite Ht in Hf. by eexists.
  - right. rewrite Ht in Hf. assert (docLen = pos + 1 + n + 1)%nat as -> by lia. split; [done|lia].
  - apply enter_doc_undef in Ev as (docLen' & Hd & Ev); [|rewrite length_drop; lia].
    apply IH in Ev as [(p & Hp & Hp8 & Hdb)|[Hc Hz]]; [| |rewrite length_drop; lia].
    + left. exists (pos + 1 + n + 1 + p)%nat. rewrite le_at_drop in Hdb. split; [by apply field_at_drop|]. split; [lia|done].
    + right. rewrite length_drop in Hz. apply field_at_drop in Hc. replace docLen with (pos + 1 + n + 1 + docLen')%nat by lia. split; [done|lia].
Qed.

(** C28: the reader stays inside its buffer.  On any bytes, with a length that
    is not more than the memory it may read, [ParseBson] returns; and none of
    its reads, of lengths, keys, numbers, strings, binary data and nested
    documents, leaves the memory, nor does it have any other undefined
    behaviour, with two exceptions: a double field whose value is out of the
    range of [int64_t], and a boolean field whose key ends the document and
    the memory, whose value is read from the byte after the buffer. *)
Theorem bson_reader_bounds mem len :
  (len <= length mem)%nat ->
  (exists r, ParseBson (S len) mem len = Some r) /\
  (ParseBson (S len) mem len = Some Undef -> exists docLen, (docLen <= len)%nat /\ (bad_double mem docLen \/ cut_boolean mem docLen)).
Proof.
  intros Hl. split; [apply parse_total|]. intros (docLen & Hd & E)%enter_doc_undef; [|done].
  exists docLen. split; [lia|]. eapply parse_fields_undef; [|exact E]. lia.
Qed.
Lemma bson_reader_bounds_witness : exists r, ParseBson 8 [7; 0; 0; 0; 0x08; 97; 0] 7 = Some r.
Proof. exact (proj1 (bson_reader_bounds [7; 0; 0; 0; 0x08; 97; 0] 7 (le_n 7))). Defined.
(** Seven bytes from the server are enough: the field [a] is a boolean whose
    value would be the eighth. *)
Example bson_reads_past_end : ParseBson 8 [7; 0; 0; 0; 0x08; 97; 0] 7 = Some Undef.
Proof. by vm_compute. Qed.

(** * Round trip *)

(** A document as its fields.  [BSub] is a sub-document ([0x03]) or an array
    ([0x04]); [BDbl] is a double by its bits, which the builder does not write
    but a server does. *)
#[warnings="-register-all"] Inductive bson :=
| BStr (v : bytes) | BI32 (v : Z) | BI64 (v : Z) | BBool (v : bool) | BNull | BBin (v : bytes)
| BDbl (bits : Z) | BSub (ty : Z) (fs : list (bytes * bson)).
Definition bson_type (x : bson) : Z :=
  match x with BStr _ => 0x02 | BI32 _ => 0x10 | BI64 _ => 0x12 | BBool _ => 0x08 | BNull => 0x0A | BBin _ => 0x05 | BDbl _ => 0x01 | BSub ty _ => ty end.
Fixpoint enc_value (x : bson) : bytes :=
  match x with
  | BStr v => addI32 (i32 (i32 (Z.of_nat (length v)) + 1)) ++ v ++ [0]
  | BI32 v => addI32 v
  | BI64 v => addI64 v
  | BBool v => [if v then 1 else 0]
  | BNull => []
  | BBin v => addI32 (i32 (Z.of_nat (length v))) ++ [0] ++ v
  | BDbl v => addI64 v
  | BSub _ fs => bson_finish (bson_new ++ flat_map (fun kx => [bson_type kx.2] ++ bson_key kx.1 ++ enc_value kx.2) fs)
  end.
Definition enc_field (kx : bytes * bson) : bytes := [bson_type kx.2] ++ bson_key kx.1 ++ enc_value kx.2.
Definition enc_fields (fs : list (bytes * bson)) : bytes := flat_map enc_field fs.
(** What the reader should give back. *)
Fixpoint value_of (x : bson) : BsonValue :=
  match x with
  | BStr v => BV 0x02 v 0 false [] []
  | BI32 v => bv_int 0x10 v
  | BI64 v => bv_int 0x12 v
  | BBool v => BV 0x08 [] 0 v [] []
  | BNull => bv_int 0x0A 0
  | BBin v => BV 0x05 [] 0 false v []
  | BDbl v => bv_int 0x01 (match double_to_i64 v with Done i => i | Undef => 0 end)
  | BSub ty fs => BV ty [] 0 false [] (map (fun kx => (kx.1, value_of kx.2)) fs)
  end.
Definition fields_of (fs : list (bytes * bson)) : list (bytes * BsonValue) := map (fun kx => (kx.1, value_of kx.2)) fs.
(** Lengths and integers that fit, keys without a zero byte. *)
Fixpoint bson_ok (x : bson) : Prop :=
  match x with
  | BStr v => Z.of_nat (length v) + 1 < 2 ^ 31
  | BI32 v => is_i32 v
  | BI64 v => is_i64 v
  | BBool _ | BNull => True
  | BBin v => Z.of_nat (length v) < 2 ^ 31
  | BDbl v => is_u64 v /\ exists i, double_to_i64 v = Done i
  | BSub ty fs => (ty = 3 \/ ty = 4) /\ Z.of_nat (length (enc_fields fs)) + 5 < 2 ^ 32 /\
      (fix all (l : list (bytes * bson)) : Prop := match l with [] => True | kx :: l => (0 ∉ kx.1) /\ bson_ok kx.2 /\ all l end) fs
  end.
Definition fields_ok (fs : list (bytes * bson)) : Prop := Forall (fun kx => (0 ∉ kx.1) /\ bson_ok kx.2) fs.
Lemma bson_ok_sub ty fs :
  bson_ok (BSub ty fs) <-> (ty = 3 \/ ty = 4) /\ Z.of_nat (length (enc_fields fs)) + 5 < 2 ^ 32 /\ fields_ok fs.
Proof.
  cbn [bson_ok]. do 2 apply and_iff_compat_l. unfold fields_ok.
  induction fs as [|kx fs IH]; [by rewrite Forall_nil|]. rewrite Forall_cons, <- IH. tauto.
Qed.

(** A finished document: its length, its fields and a zero. *)
Lemma finish_enc fs : bson_finish (bson_new ++ enc_fields fs) = addI32 (Z.of_nat (length (enc_fields fs)) + 5) ++ enc_fields fs ++ [0].
Proof.
  unfold bson_finish, addI32. change bson_new with [0; 0; 0; 0]. cbn [app drop]. f_equal. f_equal. f_equal.
  cbn [length]. rewrite length_app. cbn [length]. lia.
Qed.
Lemma enc_sub ty fs : enc_value (BSub ty fs) = addI32 (Z.of_nat (length (enc_fields fs)) + 5) ++ enc_fields fs ++ [0].
Proof. apply finish_enc. Qed.

Lemma le_at_here pre n v rest : le_at (pre ++ le_bytes n v ++ rest) (length pre) n = v mod 2 ^ (8 * Z.of_nat n).
Proof. unfold le_at. rewrite drop_app_length, take_app_length' by (by rewrite length_le_bytes). by rewrite le_read_bytes. Qed.
Lemma rd_here pre n v rest : rd (pre ++ le_bytes n v ++ rest) (length pre) n = Done (v mod 2 ^ (8 * Z.of_nat n)).
Proof. rewrite rd_ok, le_at_here; [done|]. rewrite !length_app, length_le_bytes. lia. Qed.
Lemma rd_bytes_here pre v rest : rd_bytes (pre ++ v ++ rest) (length pre) (length v) = Done v.
Proof.
  unfold rd_bytes. rewrite drop_app_length, take_app_length, !length_app. by destruct (Nat.leb_spec (length pre + length v) (length pre + (length v + length rest))); [|lia].
Qed.
Lemma rd_byte pre b rest : 0 <= b < 256 -> rd (pre ++ b :: rest) (length pre) 1 = Done b.
Proof.
  intros Hb. replace (b :: rest) with (le_bytes 1 b ++ rest); [rewrite rd_here; f_equal; apply Z.mod_small; lia|].
  unfold le_bytes. cbn. rewrite Z.shiftr_0_r. unfold u8. by rewrite Z.mod_small.
Qed.
Lemma i32_u32_mod z : is_i32 z -> i32 (u32 z mod 2 ^ (8 * Z.of_nat 4)) = z.
Proof.
  intros Hz. change (2 ^ (8 * Z.of_nat 4)) with (2 ^ 32). rewrite Z.mod_small by apply u32_range. by apply i32_u32.
Qed.
Lemma i64_u64_mod z : is_i64 z -> i64 (u64 z mod 2 ^ (8 * Z.of_nat 8)) = z.
Proof.
  intros Hz. change (2 ^ (8 * Z.of_nat 8)) with (2 ^ 64). rewrite Z.mod_small by apply u64_range. by apply i64_u64.
Qed.
Lemma key_end_fresh k rest : 0 ∉ k -> forall n, (length k < n)%nat -> key_end n (k ++ 0 :: rest) = Done (Some (length k)).
Proof.
  induction k as [|b k IH]; intros Hk [|n] Hn; cbn in *; try lia; [done|]. apply not_elem_of_cons in Hk as [Hb Hk].
  destruct (Z.eqb_spec b 0); [by subst|]. by rewrite IH by (done || lia).
Qed.

Lemma parse_string sub pre v rest docLen :
  bson_ok (BStr v) -> (length pre + length (enc_value (BStr v)) <= docLen)%nat ->
  parse_value sub (pre ++ enc_value (BStr v) ++ rest) docLen (length pre) (bson_type (BStr v)) =
    Some (Done (Some (value_of (BStr v), (length pre + length (enc_value (BStr v)))%nat))).
Proof.
  intros Hok Hl. cbn [bson_type].
  cbn [enc_value bson_ok] in *. unfold addI32 in *. rewrite !length_app, length_le_bytes in *. cbn [length] in *.
  unfold parse_value. cbn [Z.eqb Pos.eqb].
  destruct (Nat.ltb_spec docLen (length pre + 4)); [lia|]. rewrite <- !(assoc_L (++)), rd_here. cbn [use_read]. cbv beta zeta. rewrite i32_u32_mod.
  2:{ rewrite !i32_id; unfold is_i32; rewrite ?i32_id; unfold is_i32; lia. }
  rewrite !i32_id by (unfold is_i32; rewrite ?i32_id; unfold is_i32; lia).
  destruct (_ || _) eqn:E; [apply orb_true_iff in E as [E%Z.ltb_lt|E%Z.ltb_lt]; lia|].
  replace (Z.to_nat (Z.of_nat (length v) + 1)) with (S (length v)) by lia. cbn [Nat.sub]. rewrite Nat.sub_0_r.
  replace (length pre + 4)%nat with (length (pre ++ le_bytes 4 (u32 (Z.of_nat (length v) + 1)))) by (by rewrite length_app, length_le_bytes).
  rewrite (assoc_L (++) pre), rd_bytes_here. cbn [value_of use_read]. do 4 f_equal.
  rewrite length_app, length_le_bytes. lia.
Qed.
Lemma parse_binary sub pre v rest docLen :
  bson_ok (BBin v) -> (length pre + length (enc_value (BBin v)) <= docLen)%nat ->
  parse_value sub (pre ++ enc_value (BBin v) ++ rest) docLen (length pre) (bson_type (BBin v)) =
    Some (Done (Some (value_of (BBin v), (length pre + length (enc_value (BBin v)))%nat))).
Proof.
  intros Hok Hl. cbn [bson_type].
  cbn [enc_value bson_ok value_of] in *. unfold addI32 in *. rewrite !length_app, length_le_bytes in *. cbn [length] in *.
  unfold parse_value. cbn [Z.eqb Pos.eqb orb].
  destruct (Nat.ltb_spec docLen (length pre + 5)); [lia|]. rewrite <- !(assoc_L (++)), rd_here. cbn [use_read]. cbv beta zeta.
  rewrite i32_u32_mod, i32_id by (rewrite ?i32_id; unfold is_i32; lia).
  replace (length pre + 4)%nat with (length (pre ++ le_bytes 4 (u32 (Z.of_nat (length v))))) by (by rewrite length_app, length_le_bytes).
  rewrite (assoc_L (++) pre). change ([0] ++ v ++ rest) with (0 :: v ++ rest). rewrite rd_byte by lia. cbn [use_read]. cbv beta zeta.
  destruct (_ || _) eqn:E; [apply orb_true_iff in E as [E%Z.ltb_lt|E%Z.ltb_lt]; lia|].
  rewrite Nat2Z.id.
  replace (length pre + 5)%nat with (length (pre ++ le_bytes 4 (u32 (Z.of_nat (length v))) ++ [0])) by (by rewrite !length_app, length_le_bytes).
  replace ((pre ++ le_bytes 4 (u32 (Z.of_nat (length v)))) ++ 0 :: v ++ rest)
    with ((pre ++ le_bytes 4 (u32 (Z.of_nat (length v))) ++ [0]) ++ v ++ rest) by (by rewrite <- !(assoc_L (++))).
  rewrite rd_bytes_here. cbn [use_read]. do 4 f_equal. rewrite !length_app, length_le_bytes. cbn [length]. lia.
Qed.
(** One value in its place: the reader gives it back and moves past it. *)
Lemma parse_value_enc sub pre x rest docLen :
  bson_ok x -> (length pre + length (enc_value x) <= docLen)%nat ->
  (forall ty fs, x = BSub ty fs ->
     sub (drop (length pre) (pre ++ enc_value x ++ rest)) (length (enc_fields fs) + 5)%nat = Some (Done (true, fields_of fs))) ->
  parse_value sub (pre ++ enc_value x ++ rest) docLen (length pre) (bson_type x) =
    Some (Done (Some (value_of x, (length pre + length (enc_value x))%nat))).
Proof.
  intros Hok Hl Hsub. destruct x as [v|v|v|v| |v|v|ty fs]; cbn [bson_type].
  - by apply parse_string.
  - cbn [enc_value bson_ok value_of] in *. unfold addI32 in *. rewrite length_le_bytes in *. unfold parse_value. cbn [Z.eqb Pos.eqb orb].
    destruct (Nat.ltb_spec docLen (length pre + 4)); [lia|]. rewrite rd_here. cbn [use_read]. by rewrite i32_u32_mod.
  - cbn [enc_value bson_ok value_of] in *. unfold addI64 in *. rewrite length_le_bytes in *. unfold parse_value. cbn [Z.eqb Pos.eqb orb].
    destruct (Nat.ltb_spec docLen (length pre + 8)); [lia|]. rewrite rd_here. cbn [use_read]. by rewrite i64_u64_mod.
  - cbn [enc_value value_of] in *. unfold parse_value. cbn [Z.eqb Pos.eqb orb app].
    rewrite rd_byte by (destruct v; lia). by destruct v.
  - cbn [enc_value value_of length]. by rewrite Nat.add_0_r.
  - by apply parse_binary.
  - cbn [enc_value bson_ok value_of] in *. unfold addI64 in *. rewrite length_le_bytes in *. unfold parse_value. cbn [Z.eqb Pos.eqb orb].
    destruct (Nat.ltb_spec docLen (length pre + 8)); [lia|]. destruct Hok as [Hv [i Hi]].
    assert (u64 v mod 2 ^ (8 * Z.of_nat 8) = v) as Hm by (unfold u64, is_u64 in *; change (2 ^ (8 * Z.of_nat 8)) with (2 ^ 64); rewrite Z.mod_mod, Z.mod_small; lia).
    rewrite rd_here, Hm. cbn [use_read]. by rewrite Hi.
  - apply bson_ok_sub in Hok as (Hty & Hlen & _). specialize (Hsub ty fs eq_refl). rewrite enc_sub in *.
    unfold addI32 in *. rewrite !length_app, length_le_bytes in *. cbn [length] in *.
    assert (rd (pre ++ (le_bytes 4 (u32 (Z.of_nat (length (enc_fields fs)) + 5)) ++ enc_fields fs ++ [0]) ++ rest) (length pre) 4
            = Done (Z.of_nat (length (enc_fields fs)) + 5)) as Hrd.
    { rewrite <- !(assoc_L (++)), rd_here. f_equal. unfold u32. change (2 ^ (8 * Z.of_nat 4)) with (2 ^ 32).
      rewrite Z.mod_mod, Z.mod_small; lia. }
    unfold parse_value. assert ((ty =? 1) = false /\ (ty =? 2) = false /\ (ty =? 3) || (ty =? 4) = true) as (-> & -> & ->) by (by destruct Hty as [-> | ->]).
    destruct (Nat.ltb_spec docLen (length pre + 4)); [lia|]. rewrite Hrd. cbn [use_read].
    destruct (_ || _) eqn:E; [apply orb_true_iff in E as [E%Z.ltb_lt|E%Z.ltb_lt]; lia|].
    replace (Z.to_nat (Z.of_nat (length (enc_fields fs)) + 5)) with (length (enc_fields fs) + 5)%nat by lia.
    rewrite Hsub. cbn [value_of]. do 4 f_equal. lia.
Qed.

Lemma bson_type_range x : bson_ok x -> 0 < bson_type x < 256.
Proof. destruct x; cbn [bson_type]; try lia. intros [[-> | ->] _]%bson_ok_sub; lia. Qed.
Lemma enc_fields_cons k x fs : enc_fields ((k, x) :: fs) = [bson_type x] ++ (k ++ [0]) ++ enc_value x ++ enc_fields fs.
Proof. unfold enc_fields. cbn [flat_map]. unfold enc_field. cbn [fst snd]. unfold bson_key. by rewrite <- !(assoc_L (++)). Qed.

(** A finished document, given what the loop does on its fields. *)
Lemma parse_doc_enc k fs tl ty :
  Z.of_nat (length (enc_fields fs)) + 5 < 2 ^ 32 ->
  (forall pre, parse_fields k (pre ++ enc_fields fs ++ [0] ++ tl) (length pre + length (enc_fields fs) + 1) (length pre) []
     = Some (Done (true, fields_of fs))) ->
  ParseBson k (enc_value (BSub ty fs) ++ tl) (length (enc_fields fs) + 5) = Some (Done (true, fields_of fs)).
Proof.
  intros Hlen Hp. unfold ParseBson, enter_doc. rewrite enc_sub. unfold addI32. set (v := Z.of_nat (length (enc_fields fs)) + 5) in *.
  assert (rd ((le_bytes 4 (u32 v) ++ enc_fields fs ++ [0]) ++ tl) 0 4 = Done v) as Hrd.
  { rewrite <- (assoc_L (++)). transitivity (Done (u32 v mod 2 ^ (8 * Z.of_nat 4))); [exact (rd_here [] 4 (u32 v) ((enc_fields fs ++ [0]) ++ tl))|]. f_equal. unfold u32. change (2 ^ (8 * Z.of_nat 4)) with (2 ^ 32).
    rewrite Z.mod_mod, Z.mod_small; lia. }
  rewrite Hrd. destruct (Nat.ltb_spec (length (enc_fields fs) + 5) 5); [lia|]. cbn [use_read].
  destruct (_ || _) eqn:E; [apply orb_true_iff in E as [E%Z.ltb_lt|E%Z.ltb_lt]; lia|].
  specialize (Hp (le_bytes 4 (u32 v))). rewrite length_le_bytes in Hp. rewrite <- !(assoc_L (++)).
  by replace (Z.to_nat v) with (4 + length (enc_fields fs) + 1)%nat by lia.
Qed.

Lemma parse_fields_enc n : forall fs fuel pre rest out,
  (length (enc_fields fs) < n)%nat -> (n <= fuel)%nat -> fields_ok fs ->
  parse_fields fuel (pre ++ enc_fields fs ++ [0] ++ rest) (length pre + length (enc_fields fs) + 1) (length pre) out
    = Some (Done (true, out ++ fields_of fs)).
Proof.
  induction n as [|n IH]; intros fs fuel pre rest out Hn Hf Hok; [lia|]. destruct fuel as [|k]; [lia|]. cbn [parse_fields].
  destruct fs as [|[key x] fs].
  - cbn [enc_fields flat_map length]. rewrite Nat.add_0_r. destruct (Nat.ltb_spec (length pre + 1) (length pre + 1)); [lia|].
    by rewrite app_nil_r.
  - apply Forall_cons in Hok as [[Hkey Hx] Hok]. cbn [fst snd] in Hkey, Hx. pose proof (bson_type_range x Hx) as Ht.
    rewrite enc_fields_cons in *. rewrite !length_app in *. cbn [length] in *.
    destruct (Nat.ltb_spec (length pre + 1) (length pre + (1 + (length key + 1 + (length (enc_value x) + length (enc_fields fs)))) + 1)); [|lia].
    set (docLen := (length pre + (1 + (length key + 1 + (length (enc_value x) + length (enc_fields fs)))) + 1)%nat).
    set (tl := enc_fields fs ++ [0] ++ rest).
    assert (pre ++ ([bson_type x] ++ (key ++ [0]) ++ enc_value x ++ enc_fields fs) ++ [0] ++ rest
            = pre ++ bson_type x :: key ++ 0 :: enc_value x ++ tl) as ->.
    { unfold tl. cbn [app]. by rewrite <- !(assoc_L (++)). }
    rewrite rd_byte by lia. cbn [use_read]. destruct (Z.eqb_spec (bson_type x) 0); [lia|].
    set (P := pre ++ [bson_type x]). set (Q := P ++ key ++ [0]).
    replace (pre ++ bson_type x :: key ++ 0 :: enc_value x ++ tl) with (P ++ key ++ 0 :: enc_value x ++ tl) by (unfold P; by rewrite <- (assoc_L (++))).
    replace (length pre + 1)%nat with (length P) by (unfold P; by rewrite length_app). rewrite drop_app_length.
    rewrite key_end_fresh by (done || (unfold docLen, P; rewrite length_app; cbn [length]; lia)). cbn [use_read]. rewrite take_app_length.
    replace (length P + length key + 1)%nat with (length Q) by (unfold Q; rewrite !length_app; cbn [length]; lia).
    replace (P ++ key ++ 0 :: enc_value x ++ tl) with (Q ++ enc_value x ++ tl) by (unfold Q; by rewrite <- !(assoc_L (++))).
    assert (length Q = length pre + 2 + length key)%nat as HQ by (unfold Q, P; rewrite !length_app; cbn [length]; lia).
    rewrite parse_value_enc; [|done|unfold docLen; lia|].
    + replace (Q ++ enc_value x ++ tl) with ((Q ++ enc_value x) ++ enc_fields fs ++ [0] ++ rest) by (unfold tl; by rewrite <- !(assoc_L (++))).
      rewrite <- length_app. replace docLen with (length (Q ++ enc_value x) + length (enc_fields fs) + 1)%nat by (unfold docLen; rewrite length_app; lia).
      rewrite IH by (done || lia). unfold fields_of. cbn [map]. by rewrite <- (assoc_L (++)).
    + intros ty sub ->. apply bson_ok_sub in Hx as (_ & Hlen & Hsub). rewrite drop_app_length.
      apply (parse_doc_enc k sub tl ty Hlen). intros pre'. apply (IH sub k pre' tl []); [|lia|done].
      rewrite enc_sub in Hn. unfold addI32 in Hn. rewrite !length_app, length_le_bytes in Hn. lia.
Qed.

(** A document under construction. *)
Definition built (fs : list (bytes * bson)) : bytes := bson_new ++ enc_fields fs.
Lemma length_finish fs : length (bson_finish (built fs)) = (length (enc_fields fs) + 5)%nat.
Proof. unfold built. rewrite finish_enc. unfold addI32. rewrite !length_app, length_le_bytes. cbn [length]. lia. Qed.
Lemma parse_built fs rest :
  fields_ok fs -> Z.of_nat (length (enc_fields fs)) + 5 < 2 ^ 32 ->
  ParseBson (S (length (bson_finish (built fs)))) (bson_finish (built fs) ++ rest) (length (bson_finish (built fs))) = Some (Done (true, fields_of fs)).
Proof.
  intros Hok Hlen. rewrite length_finish. apply (parse_doc_enc _ fs rest 3 Hlen). intros pre.
  apply (parse_fields_enc (S (length (enc_fields fs))) fs _ pre rest []); [lia|lia|done].
Qed.

(** The builder, one field at a time. *)
Lemma enc_fields_snoc fs kx : enc_fields (fs ++ [kx]) = enc_fields fs ++ enc_field kx.
Proof. unfold enc_fields. rewrite flat_map_app. cbn [flat_map]. by rewrite app_nil_r. Qed.
Lemma built_snoc fs kx : built fs ++ enc_field kx = built (fs ++ [kx]).
Proof. unfold built. by rewrite enc_fields_snoc, (assoc_L (++)). Qed.
Lemma built_nil : bson_new = built [].
Proof. done. Qed.
Lemma built_str fs k v : bson_str (built fs) k v = built (fs ++ [(k, BStr v)]).
Proof. apply (built_snoc fs (k, BStr v)). Qed.
Lemma built_i32 fs k v : bson_i32 (built fs) k v = built (fs ++ [(k, BI32 v)]).
Proof. apply (built_snoc fs (k, BI32 v)). Qed.
Lemma built_i64 fs k v : bson_i64 (built fs) k v = built (fs ++ [(k, BI64 v)]).
Proof. apply (built_snoc fs (k, BI64 v)). Qed.
Lemma built_bool fs k v : bson_boolean (built fs) k v = built (fs ++ [(k, BBool v)]).
Proof. apply (built_snoc fs (k, BBool v)). Qed.
Lemma built_binary fs k v : bson_binary (built fs) k v = built (fs ++ [(k, BBin v)]).
Proof. apply (built_snoc fs (k, BBin v)). Qed.
Lemma built_doc fs k d : bson_doc (built fs) k (built d) = built (fs ++ [(k, BSub 3 d)]).
Proof. apply (built_snoc fs (k, BSub 3 d)). Qed.
Lemma built_arr fs k d : bson_arrDoc (built fs) k [built d] = built (fs ++ [(k, BSub 4 [(index_key 0, BSub 3 d)])]).
Proof.
  unfold bson_arrDoc. cbn [imap foldl fst snd]. rewrite built_nil, built_doc. apply (built_snoc fs (k, BSub 4 [(index_key 0, BSub 3 d)])).
Qed.
Create Rewrite HintDb bson.
#[export] Hint Rewrite built_nil built_str built_i32 built_i64 built_bool built_binary built_doc built_arr : bson.
#[global] Opaque built.

(** C29: what the builder writes, the reader reads.  For any document of
    strings, 32- and 64-bit integers, booleans, nulls, binary data, doubles
    in the range of [int64_t] (given back truncated), sub-documents and arrays nested to any depth, whose keys have no zero byte
    and whose sizes fit their length fields, reading the finished document
    returns true and the same fields in the same order, whatever follows it
    in the buffer. *)
Theorem bson_roundtrip fs rest :
  fields_ok fs -> Z.of_nat (length (enc_fields fs)) + 5 < 2 ^ 32 ->
  let doc := bson_finish (bson_new ++ enc_fields fs) in
  ParseBson (S (length doc)) (doc ++ rest) (length doc) = Some (Done (true, fields_of fs)).
Proof. exact (parse_built fs rest). Qed.

Lemma bson_roundtrip_witness :
  let fs := [([112; 105], BI32 (-1)); ([113], BSub 3 [([97], BStr [104; 105]); ([98], BSub 4 [([48], BSub 3 [([99], BBool true)])])]); ([122], BI64 (2 ^ 40))] in
  let doc := bson_finish (bson_new ++ enc_fields fs) in
  ParseBson (S (length doc)) (doc ++ [9]) (length doc) = Some (Done (true, fields_of fs)).
Proof.
  apply bson_roundtrip.
  - repeat (apply Forall_cons_2; [split; [apply (bool_decide_unpack _); vm_compute; exact I|]|]); [..|apply Forall_nil_2].
    + split; [discriminate|reflexivity].
    + vm_compute. repeat split; try discriminate; try (left; reflexivity); try (right; reflexivity); intros H; repeat inversion H as [|? ? ? H']; subst; discriminate || inversion H'.
    + split; [discriminate|reflexivity].
  - vm_compute. reflexivity.
Defined.
