(* ===== verification/Dns.v ===== *)
(** The DNS SRV lookup of [storage/mongo.cpp]: the query [DnsSrvQueryOne]
    sends, how it reads the answer, and the list of name servers
    [DnsSrvLookup] goes through.  The datagram that comes back is a parameter;
    a read outside the received bytes is undefined. *)
From Stdlib Require Import Ascii.
From S2P Require Import Prelude Compact Value KeyStore Text.
Import Value.
Open Scope cdx_scope.

(** [std::getline(ss, part, sep)] until it fails: what follows the last
    separator counts only when it is not empty. *)
Fixpoint getlines (sep : ascii) (s : text) (cur : text) : list text :=
  match s with
  | [] => match cur with [] => [] | _ => [cur] end
  | c :: r => if Ascii.eqb c sep then cur :: getlines sep r [] else getlines sep r (cur ++ [c])
  end.

Definition label_bytes (label : text) : bytes := u8 (Z.of_nat (length label)) :: chars_bytes label.
Definition be16 (v : Z) : bytes := [u8 (Z.shiftr v 8); Z.land v 0xff].
Definition srv_query (id : Z) (domain : text) : bytes :=
  be16 id ++ [0x01; 0x00] ++ [0x00; 0x01] ++ [0; 0] ++ [0; 0] ++ [0; 0]
  ++ flat_map label_bytes (getlines "."%char domain []) ++ [0] ++ [0x00; 0x21] ++ [0x00; 0x01].

Section Answer.
Context (resp : bytes).
Abbreviation n := (length resp).

Definition at_ (pos : nat) : outcome Z := match resp !! pos with Some b => Done b | None => Undef end.
Definition at16 (pos : nat) : outcome Z := a ← at_ pos; b ← at_ (pos + 1)%nat; Done (Z.lor (Z.shiftl a 8) b).
(** [while (pos < n && resp[pos] != 0) pos += resp[pos] + 1;] *)
Fixpoint skip_name (fuel : nat) (pos : nat) : nat :=
  match fuel with
  | O => pos
  | S k =>
      match resp !! pos with
      | Some b => if b =? 0 then pos else skip_name k (pos + Z.to_nat b + 1)%nat
      | None => pos
      end
  end.
(** The labels of the target, joined by dots. *)
Fixpoint read_target (fuel : nat) (tp : nat) (host : text) : text :=
  match fuel with
  | O => host
  | S k =>
      match resp !! tp with
      | None => host
      | Some b =>
          if b =? 0 then host
          else if Z.land b 0xC0 =? 0xC0 then host
          else
            let tp := (tp + 1)%nat in
            if (n <? tp + Z.to_nat b)%nat then host
            else let host := match host with [] => [] | _ => host ++ lit "." end in
                 read_target k (tp + Z.to_nat b)%nat (host ++ string_chars (take (Z.to_nat b) (drop tp resp)))
      end
  end.
(** [while (!host.empty() && host.back() == '.') host.pop_back();] *)
Fixpoint drop_dots (s : text) : text :=
  match s with c :: r => if Ascii.eqb c "."%char then drop_dots r else s | [] => [] end.
Definition strip_dots (host : text) : text := rev (drop_dots (rev host)).

Definition srv_record (pos : nat) (out : list (text * Z)) : outcome (nat * list (text * Z)) :=
  type ← at16 pos; rdlen ← at16 (pos + 8)%nat;
  let pos := (pos + 10)%nat in
  if (type =? 33) && (6 <=? rdlen) && (pos + Z.to_nat rdlen <=? n)%nat then
    port ← at16 (pos + 4)%nat;
    let host := strip_dots (read_target (S n) (pos + 6)%nat []) in
    Done ((pos + Z.to_nat rdlen)%nat, match host with [] => out | _ => out ++ [(host, port)] end)
  else Done ((pos + Z.to_nat rdlen)%nat, out).
Fixpoint srv_answers (i : nat) (pos : nat) (out : list (text * Z)) : outcome (list (text * Z)) :=
  match i with
  | O => Done out
  | S i =>
      if (pos + 12 <=? n)%nat then
        b ← at_ pos;
        let pos := if Z.land b 0xC0 =? 0xC0 then (pos + 2)%nat else (skip_name (S n) pos + 1)%nat in
        if (n <? pos + 10)%nat then Done out
        else r ← srv_record pos out; srv_answers i r.1 r.2
      else Done out
  end.
(** The answer to the query with this identifier: the targets found. *)
Definition srv_response (id : Z) : outcome (list (text * Z)) :=
  if (n <? 12)%nat then Done []
  else
    a ← at_ 0; b ← at_ 1;
    if negb (a =? u8 (Z.shiftr id 8)) || negb (b =? Z.land id 0xff) then Done []
    else
      ancount ← at16 6;
      srv_answers (Z.to_nat ancount) (skip_name (S n) 12 + 5)%nat [].
End Answer.

(** [uint8_t resp[4096]] *)
Definition DNS_BUF : nat := Z.to_nat 4096.
(** [DnsSrvQueryOne]: [ask] sends the query to the server and gives the
    datagram that comes back, if any; true when a target was found. *)
Definition DnsSrvQueryOne (ask : text -> bytes -> option bytes) (id : Z) (ns domain : text) : outcome (list (text * Z)) :=
  match ask ns (srv_query id domain) with
  | None => Done []
  | Some resp => srv_response (take DNS_BUF resp) id
  end.

(** The second word of a [nameserver] line of [resolv.conf]. *)
Definition blank (c : ascii) : bool := mem c (lit " " ++ [TAB; CR; chr 11; chr 12]).
Fixpoint skip_blank (s : text) : text := match s with c :: r => if blank c then skip_blank r else s | [] => [] end.
Fixpoint word (s : text) : text := match s with c :: r => if blank c then [] else c :: word r | [] => [] end.
Definition nameserver_of (line : text) : option text :=
  if starts_with (lit "nameserver") line then
    let kw := word (skip_blank line) in
    let rest := drop (length kw) (skip_blank line) in
    match word (skip_blank rest) with [] => None | ip => Some ip end
  else None.
Definition nameservers (resolv_conf : text) : list text :=
  omap nameserver_of (getlines LF resolv_conf []) ++ [lit "8.8.8.8"; lit "1.1.1.1"].
Fixpoint lookup_loop (ask : text -> bytes -> option bytes) (ids : nat -> Z) (i : nat) (nss : list text) (domain : text) : outcome (option (list (text * Z))) :=
  match nss with
  | [] => Done None
  | ns :: r =>
      out ← DnsSrvQueryOne ask (ids i) ns domain;
      match out with [] => lookup_loop ask ids (S i) r domain | _ => Done (Some out) end
  end.
(** The identifiers are what [rand()] gives. *)
Definition DnsSrvLookup (ask : text -> bytes -> option bytes) (ids : nat -> Z) (resolv_conf domain : text) : outcome (option (list (text * Z))) :=
  lookup_loop ask ids 0 (nameservers resolv_conf) domain.

(** * Bounds *)

Lemma at_defined resp pos : (pos < length resp)%nat -> exists b, at_ resp pos = Done b.
Proof. intros H. unfold at_. destruct (lookup_lt_is_Some_2 resp pos H) as [b ->]. by exists b. Qed.
Lemma at16_defined resp pos : (pos + 1 < length resp)%nat -> exists b, at16 resp pos = Done b.
Proof.
  intros H. unfold at16. destruct (at_defined resp pos) as [a ->]; [lia|]. destruct (at_defined resp (pos + 1)) as [b ->]; [lia|].
  by eexists.
Qed.
(** The fuel of the name loop is enough: it ends on the zero byte or at the
    end of the answer. *)
Lemma skip_name_stops resp : forall fuel pos, (length resp < fuel + pos)%nat ->
  resp !! skip_name resp fuel pos = None \/ resp !! skip_name resp fuel pos = Some 0.
Proof.
  induction fuel as [|k IH]; intros pos Hf; cbn [skip_name]; [left; apply lookup_ge_None; lia|].
  destruct (resp !! pos) as [b|] eqn:E; [|by left]. destruct (Z.eqb_spec b 0) as [->|]; [by right|]. apply IH. lia.
Qed.
(** A target the lookup may give: its host is not empty. *)
Definition named (t : text * Z) : Prop := t.1 <> [].
Lemma srv_record_defined resp pos out : (pos + 10 <= length resp)%nat -> Forall named out ->
  exists pos' out', srv_record resp pos out = Done (pos', out') /\ Forall named out'.
Proof.
  intros H Ho. unfold srv_record. destruct (at16_defined resp pos) as [ty ->]; [lia|]. cbn [mbind outcome_bind].
  destruct (at16_defined resp (pos + 8)) as [rdlen ->]; [lia|]. cbn [mbind outcome_bind].
  destruct (_ && _ && _) eqn:E; [|by eexists _, _]. apply andb_true_iff in E as [[_ E1%Z.leb_le]%andb_true_iff E2%Nat.leb_le].
  destruct (at16_defined resp (pos + 10 + 4)) as [port ->]; [lia|]. eexists _, _. split; [reflexivity|].
  destruct (strip_dots _) eqn:Eh; [done|]. apply Forall_app. split; [done|]. apply Forall_cons_2; [done|apply Forall_nil_2].
Qed.
Lemma srv_answers_defined resp i : forall pos out, Forall named out -> exists r, srv_answers resp i pos out = Done r /\ Forall named r.
Proof.
  induction i as [|i IH]; intros pos out Ho; cbn [srv_answers]; [by eexists|].
  destruct (Nat.leb_spec (pos + 12) (length resp)); [|by eexists]. destruct (at_defined resp pos) as [b ->]; [lia|]. cbn [mbind outcome_bind].
  match goal with |- context [(length resp <? ?x + 10)%nat] => generalize x end. intros pos'.
  destruct (Nat.ltb_spec (length resp) (pos' + 10)); [by eexists|].
  destruct (srv_record_defined resp pos' out) as (p & o & -> & Ho'); [lia|done|]. by apply IH.
Qed.
(** Whatever datagram a name server sends, reading it stays inside the
    received bytes: the lookup returns for any answers, any name server list
    and any domain, and what it finds is a non-empty list of targets, each
    with a host. *)
Theorem srv_lookup_defined ask ids resolv_conf domain :
  exists r, DnsSrvLookup ask ids resolv_conf domain = Done r /\ forall ts, r = Some ts -> ts <> [] /\ Forall named ts.
Proof.
  unfold DnsSrvLookup. generalize 0%nat. induction (nameservers resolv_conf) as [|ns nss IH]; intros i; cbn [lookup_loop]; [by eexists|].
  assert (exists out, DnsSrvQueryOne ask (ids i) ns domain = Done out /\ Forall named out) as (out & -> & Hout).
  { unfold DnsSrvQueryOne. destruct (ask ns _) as [resp|]; [|by eexists]. unfold srv_response.
    destruct (Nat.ltb_spec (length (take DNS_BUF resp)) 12); [by eexists|].
    destruct (at_defined (take DNS_BUF resp) 0) as [a ->]; [lia|]. destruct (at_defined (take DNS_BUF resp) 1) as [b ->]; [lia|]. cbn [mbind outcome_bind].
    destruct (_ || _); [by eexists|]. destruct (at16_defined (take DNS_BUF resp) 6) as [c ->]; [lia|]. by apply srv_answers_defined. }
  cbn [mbind outcome_bind]. destruct out as [|t out]; [apply IH|]. eexists. split; [done|]. by intros ts [= <-].
Qed.

(** * A well-formed answer *)

(** A label: not empty, at most 63 characters, no dot. *)
Definition label_ok (l : text) : Prop := (0 < length l < 64)%nat /\ "."%char ∉ l.
Definition name_bytes (ls : list text) : bytes := flat_map label_bytes ls ++ [0].
Definition dotted_from (h : text) (ls : list text) : text :=
  foldl (fun h l => (match h with [] => [] | _ => h ++ lit "." end) ++ l) h ls.
Definition dotted (ls : list text) : text := dotted_from [] ls.
(** A record with a compressed owner name, class IN and a time to live. *)
Definition record_bytes (r : list text * Z) : bytes :=
  [0xC0; 0x0C] ++ be16 33 ++ be16 1 ++ [0; 0; 0; 60] ++ be16 (6 + Z.of_nat (length (name_bytes r.1))) ++ [0; 0; 0; 0] ++ be16 r.2 ++ name_bytes r.1.
Definition answer_bytes (id : Z) (question : list text) (recs : list (list text * Z)) : bytes :=
  be16 id ++ [0x81; 0x80; 0; 1] ++ be16 (Z.of_nat (length recs)) ++ [0; 0; 0; 0] ++ name_bytes question ++ be16 33 ++ be16 1
  ++ flat_map record_bytes recs.
Definition record_ok (r : list text * Z) : Prop :=
  r.1 <> [] /\ Forall label_ok r.1 /\ is_u16 r.2 /\ 6 + Z.of_nat (length (name_bytes r.1)) < 2 ^ 16.

Lemma lookup_here (pre : bytes) b rest : (pre ++ b :: rest) !! length pre = Some b.
Proof. by apply list_lookup_middle. Qed.
Lemma label_head l : label_ok l -> label_bytes l = Z.of_nat (length l) :: chars_bytes l.
Proof. intros [H _]. unfold label_bytes, u8. rewrite Z.mod_small by lia. done. Qed.
Lemma length_label l : length (label_bytes l) = S (length l).
Proof. unfold label_bytes, chars_bytes. cbn. by rewrite length_map. Qed.

Lemma label_lookup (pre : bytes) l x rest : label_ok l -> (pre ++ (label_bytes l ++ x) ++ rest) !! length pre = Some (Z.of_nat (length l)).
Proof. intros Hl. rewrite (label_head l Hl). cbn [app]. apply lookup_here. Qed.
Lemma label_shift (pre : bytes) l x rest : pre ++ (label_bytes l ++ x) ++ rest = (pre ++ label_bytes l) ++ x ++ rest.
Proof. by rewrite <- !(assoc_L (++)). Qed.

Lemma skip_labels ls : forall fuel pre rest,
  Forall label_ok ls -> (length ls < fuel)%nat ->
  skip_name (pre ++ flat_map label_bytes ls ++ 0 :: rest) fuel (length pre) = (length pre + length (flat_map label_bytes ls))%nat.
Proof.
  induction ls as [|l ls IH]; intros fuel pre rest Hok Hf; (destruct fuel as [|k]; [cbn in Hf; lia|]); cbn [skip_name flat_map].
  - cbn [app length]. rewrite lookup_here. cbn. lia.
  - apply Forall_cons in Hok as [Hl Hok]. rewrite label_lookup by done.
    destruct (Z.eqb_spec (Z.of_nat (length l)) 0); [destruct Hl; lia|]. rewrite label_shift.
    replace (length pre + Z.to_nat (Z.of_nat (length l)) + 1)%nat with (length (pre ++ label_bytes l)) by (rewrite length_app, length_label; lia).
    rewrite IH by (done || (cbn in Hf; lia)). rewrite !length_app. lia.
Qed.

Lemma read_labels ls : forall fuel pre rest h,
  Forall label_ok ls -> (length ls < fuel)%nat ->
  read_target (pre ++ flat_map label_bytes ls ++ 0 :: rest) fuel (length pre) h = dotted_from h ls.
Proof.
  induction ls as [|l ls IH]; intros fuel pre rest h Hok Hf; (destruct fuel as [|k]; [cbn in Hf; lia|]); cbn [read_target flat_map].
  - cbn [app]. by rewrite lookup_here.
  - apply Forall_cons in Hok as [Hl Hok]. rewrite label_lookup by done. destruct (id Hl) as [Hlen _].
    destruct (Z.eqb_spec (Z.of_nat (length l)) 0); [lia|].
    assert ((Z.land (Z.of_nat (length l)) 0xC0 =? 0xC0) = false) as ->.
    { apply Z.eqb_neq. intros Hc. assert (Z.testbit (Z.of_nat (length l)) 7 = true) as Hb.
      { rewrite <- (andb_true_r (Z.testbit _ 7)). change true with (Z.testbit 0xC0 7) at 1. rewrite <- Z.land_spec, Hc. done. }
      rewrite Z.bits_above_log2 in Hb; [done|lia|]. assert (Z.log2 (Z.of_nat (length l)) < 6) by (apply Z.log2_lt_pow2; lia). lia. }
    rewrite label_shift, Nat2Z.id. rewrite !length_app, length_label.
    destruct (Nat.ltb_spec (length pre + S (length l) + (length (flat_map label_bytes ls) + length (0 :: rest))) (length pre + 1 + length l)); [cbn [length] in *; lia|].
    replace (length pre + 1 + length l)%nat with (length (pre ++ label_bytes l)) by (rewrite length_app, length_label; lia).
    rewrite IH by (done || (cbn in Hf; lia)). unfold dotted_from. cbn [foldl]. f_equal. f_equal.
    rewrite (label_head l Hl). replace (pre ++ Z.of_nat (length l) :: chars_bytes l) with ((pre ++ [Z.of_nat (length l)]) ++ chars_bytes l) by (by rewrite <- (assoc_L (++))).
    rewrite <- (assoc_L (++)). replace (length pre + 1)%nat with (length (pre ++ [Z.of_nat (length l)])) by (by rewrite length_app).
    rewrite drop_app_length, take_app_length' by (unfold chars_bytes; by rewrite length_map). apply string_chars_bytes.
Qed.

Lemma drop_dots_id s : s <> [] -> last (rev s) <> Some "."%char -> drop_dots s = s.
Proof.
  destruct s as [|c s]; [done|]. intros _. cbn [rev drop_dots]. rewrite last_snoc. intros H.
  destruct (Ascii.eqb_spec c "."); [by subst|done].
Qed.
Lemma dotted_from_last h ls l : dotted_from h (ls ++ [l]) = (match dotted_from h ls with [] => [] | _ => dotted_from h ls ++ lit "." end) ++ l.
Proof. unfold dotted_from. rewrite foldl_app. done. Qed.
Lemma strip_dotted ls : ls <> [] -> Forall label_ok ls -> strip_dots (dotted ls) = dotted ls /\ dotted ls <> [].
Proof.
  intros Hne Hok. destruct (exists_last Hne) as (ls' & l & ->). apply Forall_app in Hok as [_ Hl]. apply Forall_cons in Hl as [[Hlen Hdot] _]. unfold dotted. rewrite dotted_from_last. match goal with |- context [?x ++ l] => generalize x end. intros p.
  assert (l <> []) as Hl by (by destruct l; [cbn in Hlen; lia|]). split; [|by destruct p, l].
  unfold strip_dots. rewrite drop_dots_id, rev_involutive; [done| |].
  - intros E. apply (f_equal (@rev _)) in E. rewrite rev_involutive in E. by destruct p, l.
  - rewrite rev_involutive, last_app. destruct (last l) as [c|] eqn:E; [|by apply last_None in E].
    intros [= ->]. by apply Hdot, last_Some_elem_of.
Qed.

Lemma at16_here pre v rest : is_u16 v -> at16 (pre ++ be16 v ++ rest) (length pre) = Done v.
Proof.
  intros Hv. unfold at16, at_, be16. cbn [app]. rewrite lookup_here. cbn [mbind outcome_bind].
  replace (pre ++ u8 (Z.shiftr v 8) :: Z.land v 255 :: rest) with ((pre ++ [u8 (Z.shiftr v 8)]) ++ Z.land v 255 :: rest) by (by rewrite <- (assoc_L (++))).
  replace (length pre + 1)%nat with (length (pre ++ [u8 (Z.shiftr v 8)])) by (by rewrite length_app). rewrite lookup_here. cbn [mbind outcome_bind].
  f_equal. change 255 with (Z.ones 8). rewrite Z.land_ones, Z.shiftr_div_pow2, Z.shiftl_mul_pow2 by done. unfold u8, is_u16 in *.
  rewrite Z.lor_comm, lor_disjoint_add by (try apply Z.mod_pos_bound; lia). change (2 ^ 8) with 256 in *.
  Z.to_euclidean_division_equations. lia.
Qed.

(** A record after its owner name. *)
Definition record_tail (r : list text * Z) : bytes :=
  be16 33 ++ be16 1 ++ [0; 0; 0; 60] ++ be16 (6 + Z.of_nat (length (name_bytes r.1))) ++ [0; 0; 0; 0] ++ be16 r.2 ++ name_bytes r.1.
Lemma length_labels ls : (length ls <= length (flat_map label_bytes ls))%nat.
Proof. induction ls as [|l ls IH]; [done|]. cbn [flat_map]. rewrite length_app, length_label. cbn [length]. lia. Qed.
Lemma length_record_tail r : length (record_tail r) = (16 + length (name_bytes r.1))%nat.
Proof. unfold record_tail. rewrite !length_app. done. Qed.
(** A search position written as the length of what comes before it. *)
Ltac at_pos pre := match goal with |- context [at16 ?m ?p] => replace p with (length pre) by (rewrite ?length_app; cbn [length be16]; lia) end.

Lemma srv_record_read pre r rest out :
  record_ok r ->
  srv_record (pre ++ record_tail r ++ rest) (length pre) out =
  Done ((length pre + length (record_tail r))%nat, out ++ [(dotted r.1, r.2)]).
Proof.
  intros (Hne & Hls & Hport & Hlen). pose proof (strip_dotted r.1 Hne Hls) as [Hs Hn]. rewrite length_record_tail.
  unfold srv_record, record_tail. set (nm := name_bytes r.1) in *. set (rdlen := 6 + Z.of_nat (length nm)) in *.
  assert (is_u16 rdlen) as Hrd by (unfold is_u16, rdlen in *; lia).
  set (A := be16 1 ++ [0; 0; 0; 60]). pose proof (eq_refl : length A = 6%nat) as HA. set (m := pre ++ _).
  assert (at16 m (length pre) = Done 33) as -> by (unfold m; rewrite <- !(assoc_L (++)); by apply at16_here).
  assert (m = (pre ++ be16 33 ++ A) ++ be16 rdlen ++ [0; 0; 0; 0] ++ be16 r.2 ++ nm ++ rest) as Hm1 by (unfold m, A; by rewrite <- !(assoc_L (++))).
  assert (at16 m (length pre + 8) = Done rdlen) as ->.
  { rewrite Hm1. at_pos (pre ++ be16 33 ++ A). by apply at16_here. }
  cbn [mbind outcome_bind]. change (33 =? 33) with true. cbn [andb].
  assert ((6 <=? rdlen) && (length pre + 10 + Z.to_nat rdlen <=? length m)%nat = true) as ->.
  { apply andb_true_iff. split; [apply Z.leb_le; unfold rdlen; lia|apply Nat.leb_le]. rewrite Hm1, !length_app, HA. unfold rdlen. cbn [length be16]. lia. }
  assert (m = (pre ++ be16 33 ++ A ++ be16 rdlen ++ [0; 0; 0; 0]) ++ be16 r.2 ++ nm ++ rest) as Hm2 by (rewrite Hm1; by rewrite <- !(assoc_L (++))).
  assert (at16 m (length pre + 10 + 4) = Done r.2) as ->.
  { rewrite Hm2. at_pos (pre ++ be16 33 ++ A ++ be16 rdlen ++ [0; 0; 0; 0]). by apply at16_here. }
  cbn [mbind outcome_bind].
  assert (read_target m (S (length m)) (length pre + 10 + 6) [] = dotted r.1) as ->.
  { assert (m = (pre ++ be16 33 ++ A ++ be16 rdlen ++ [0; 0; 0; 0] ++ be16 r.2) ++ flat_map label_bytes r.1 ++ 0 :: rest) as Hm3.
    { rewrite Hm2. unfold nm, name_bytes. by rewrite <- !(assoc_L (++)). }
    rewrite Hm3. replace (length pre + 10 + 6)%nat with (length (pre ++ be16 33 ++ A ++ be16 rdlen ++ [0; 0; 0; 0] ++ be16 r.2)).
    2:{ rewrite !length_app, HA. cbn [length be16]. lia. }
    apply read_labels; [done|]. pose proof (length_labels r.1). rewrite !length_app. lia. }
  rewrite Hs. destruct (dotted r.1) as [|c h] eqn:E; [done|]. do 2 f_equal. unfold rdlen. lia.
Qed.

Lemma srv_answers_read recs : forall pre out,
  Forall record_ok recs ->
  srv_answers (pre ++ flat_map record_bytes recs) (length recs) (length pre) out =
  Done (out ++ map (fun r => (dotted r.1, r.2)) recs).
Proof.
  induction recs as [|r recs IH]; intros pre out Hok; cbn [srv_answers length flat_map map]; [by rewrite app_nil_r|].
  apply Forall_cons in Hok as [Hr Hok].
  assert (pre ++ record_bytes r ++ flat_map record_bytes recs = (pre ++ [0xC0; 0x0C]) ++ record_tail r ++ flat_map record_bytes recs) as E.
  { unfold record_bytes, record_tail. by rewrite <- !(assoc_L (++)). }
  assert (length (pre ++ record_bytes r ++ flat_map record_bytes recs) = length pre + 2 + length (record_tail r) + length (flat_map record_bytes recs))%nat as El.
  { rewrite E, !length_app. cbn [length]. lia. }
  rewrite El. rewrite length_record_tail in *. destruct (Nat.leb_spec (length pre + 12) (length pre + 2 + (16 + length (name_bytes r.1)) + length (flat_map record_bytes recs))); [|lia].
  assert (at_ (pre ++ record_bytes r ++ flat_map record_bytes recs) (length pre) = Done 0xC0) as -> by (unfold at_, record_bytes; cbn [app]; by rewrite lookup_here).
  cbn [mbind outcome_bind]. change (Z.land 0xC0 0xC0 =? 0xC0) with true. cbn iota.
  destruct (Nat.ltb_spec (length pre + 2 + (16 + length (name_bytes r.1)) + length (flat_map record_bytes recs)) (length pre + 2 + 10)); [lia|].
  rewrite E. replace (length pre + 2)%nat with (length (pre ++ [0xC0; 0x0C])) by (by rewrite length_app).
  rewrite srv_record_read by done. cbn [mbind outcome_bind fst snd].
  rewrite <- length_app, (assoc_L (++)), IH by done. by rewrite <- (assoc_L (++)).
Qed.

(** A well-formed answer is read as what it says.  For an answer with the
    query's identifier, its question and any number of SRV records, each with
    a compressed owner name, a port and a target of labels, the reader returns
    the targets with their ports, in order. *)
Theorem srv_answer_read id question recs :
  0 <= id < 2 ^ 16 -> Forall label_ok question -> Forall record_ok recs -> Z.of_nat (length recs) < 2 ^ 16 ->
  srv_response (answer_bytes id question recs) id = Done (map (fun r => (dotted r.1, r.2)) recs).
Proof.
  intros Hid Hq Hrecs Hn. set (cnt := Z.of_nat (length recs)) in *.
  set (H12 := be16 id ++ [0x81; 0x80; 0; 1] ++ be16 cnt ++ [0; 0; 0; 0]).
  pose proof (eq_refl : length H12 = 12%nat) as HH.
  assert (answer_bytes id question recs = H12 ++ flat_map label_bytes question ++ 0 :: be16 33 ++ be16 1 ++ flat_map record_bytes recs) as E.
  { unfold answer_bytes, H12, name_bytes. by rewrite <- !(assoc_L (++)). }
  assert (length (answer_bytes id question recs) = 17 + length (flat_map label_bytes question) + length (flat_map record_bytes recs))%nat as El.
  { rewrite E, !length_app, HH. cbn [length]. rewrite !length_app. cbn [length be16]. lia. }
  unfold srv_response. destruct (Nat.ltb_spec (length (answer_bytes id question recs)) 12); [lia|].
  assert (at_ (answer_bytes id question recs) 0 = Done (u8 (Z.shiftr id 8)) /\ at_ (answer_bytes id question recs) 1 = Done (Z.land id 0xff)) as [-> ->] by done.
  cbn [mbind outcome_bind]. rewrite !Z.eqb_refl. cbn [negb orb].
  assert (at16 (answer_bytes id question recs) 6 = Done cnt) as ->.
  { unfold answer_bytes. rewrite (assoc_L (++)). apply (at16_here (be16 id ++ [129; 128; 0; 1]) cnt). unfold is_u16, cnt. lia. }
  cbn [mbind outcome_bind].
  assert (skip_name (answer_bytes id question recs) (S (length (answer_bytes id question recs))) 12 = 12 + length (flat_map label_bytes question))%nat as ->.
  { rewrite E at 1. apply (skip_labels question _ H12); [done|]. pose proof (length_labels question). lia. }
  unfold cnt. rewrite Nat2Z.id.
  replace (12 + length (flat_map label_bytes question) + 5)%nat with (length (H12 ++ flat_map label_bytes question ++ 0 :: be16 33 ++ be16 1)).
  2:{ rewrite !length_app, HH. cbn [length be16 app]. lia. }
  replace (answer_bytes id question recs) with ((H12 ++ flat_map label_bytes question ++ 0 :: be16 33 ++ be16 1) ++ flat_map record_bytes recs).
  2:{ rewrite E, <- !(assoc_L (++)). cbn [app]. by rewrite <- !(assoc_L (++)). }
  by apply (srv_answers_read recs _ []).
Qed.

Lemma srv_answer_read_witness :
  srv_response (answer_bytes 0xBEEF [lit "_mongodb"; lit "_tcp"; lit "x"; lit "net"] [([lit "a"; lit "x"; lit "net"], 27017); ([lit "b"], 1)]) 0xBEEF
  = Done [(lit "a.x.net", 27017); (lit "b", 1)].
Proof.
  refine (srv_answer_read 0xBEEF _ _ _ _ _ _); [lia| | |reflexivity].
  - repeat (apply Forall_cons_2; [split; [cbn; lia|apply (bool_decide_unpack _); vm_compute; exact I]|]); apply Forall_nil_2.
  - repeat (apply Forall_cons_2; [split; [discriminate|split; [|split; [vm_compute; split; [discriminate|reflexivity]|reflexivity]]]|]); try apply Forall_nil_2;
      repeat (apply Forall_cons_2; [split; [cbn; lia|apply (bool_decide_unpack _); vm_compute; exact I]|]); apply Forall_nil_2.
Defined.
