(* ===== verification/Mongo.v ===== *)
(** The peer registry client of [storage/mongo.cpp] ([CMongoClient]) and the
    registry thread of [bin/cdxd.cpp]: the OP_MSG framing, the command and
    reply exchange, SCRAM authentication, the connection URI, and the three
    registry commands.

    The TLS socket is an interface ([TlsSocket]), the hash functions and the
    base64 codec of OpenSSL another ([ScramLib]); the SRV lookup is the one of
    [Dns], passed as a function.  Random draws and the clock are arguments. *)
From Stdlib Require Import Ascii.
From S2P Require Import Prelude Config Compact Crypto Block Value KeyStore Net Daemon Text Connect Bson Dns.
Import Value Bson.
Open Scope cdx_scope.

(** What the client uses of [TlsSocket]: [Connect], [Close], [WriteAll] and
    [ReadExact]. *)
Class TlsSocket (Conn : Type) := {
  ts_connect : text -> Z -> Conn -> res unit * Conn;
  ts_close : Conn -> Conn;
  ts_write : bytes -> Conn -> bool * Conn;
  ts_read : nat -> Conn -> option bytes * Conn
}.

Inductive digest := SHA256_MD | SHA1_MD.
(** OpenSSL: [EVP_Digest], [HMAC], [PKCS5_PBKDF2_HMAC] (of [dlen] bytes),
    [MD5], [EVP_EncodeBlock] and the base64 BIO. *)
Class ScramLib := {
  sl_hash : digest -> bytes -> bytes;
  sl_hmac : digest -> bytes -> bytes -> bytes;
  sl_pbkdf2 : digest -> bytes -> bytes -> Z -> option bytes;
  sl_md5 : bytes -> bytes;
  sl_b64enc : bytes -> text;
  sl_b64dec : text -> bytes
}.
Class ScramLaws `{ScramLib} : Prop := {
  b64_inverse b : bytes_wf b -> sl_b64dec (sl_b64enc b) = b;
  b64_no_comma b : ","%char ∉ sl_b64enc b;
  b64_length b : length (sl_b64enc b) = (4 * ((length b + 2) / 3))%nat;
  hmac_length d k m : length (sl_hmac d k m) = match d with SHA256_MD => 32%nat | SHA1_MD => 20%nat end;
  hmac_bytes d k m : bytes_wf (sl_hmac d k m)
}.

(** Literals as bytes. *)
Definition kb (s : string) : bytes := string_bytes s.
Definition tb (t : text) : bytes := chars_bytes t.
(** [sprintf("%02x")] of every byte. *)
Definition hex_bytes_text (b : bytes) : text := flat_map (fun x => [hex_digit (x / 16); hex_digit (x mod 16)]) b.

Definition push32 (v : Z) : bytes := le_bytes 4 (u32 v).
Definition BuildOpMsg (requestId : Z) (body : bytes) : bytes :=
  let out := push32 0 ++ push32 requestId ++ push32 0 ++ push32 2013 ++ push32 0 ++ [0] ++ body in
  le_bytes 4 (u32 (Z.of_nat (length out))) ++ drop 4 out.

Section Client.
Context {Conn : Type} {sock : TlsSocket Conn} {scram : ScramLib}.

Record Mongo := { mg_conn : Conn; mg_db : text; mg_authSource : text; mg_requestId : Z; mg_connected : bool }.
Definition new_mongo (c : Conn) : Mongo :=
  {| mg_conn := c; mg_db := lit "cdx"; mg_authSource := lit "admin"; mg_requestId := 1; mg_connected := false |}.
Definition with_conn (m : Mongo) (c : Conn) : Mongo :=
  {| mg_conn := c; mg_db := mg_db m; mg_authSource := mg_authSource m; mg_requestId := mg_requestId m; mg_connected := mg_connected m |}.
Definition with_request (m : Mongo) (r : Z) : Mongo :=
  {| mg_conn := mg_conn m; mg_db := mg_db m; mg_authSource := mg_authSource m; mg_requestId := r; mg_connected := mg_connected m |}.
Definition with_connected (m : Mongo) (b : bool) : Mongo :=
  {| mg_conn := mg_conn m; mg_db := mg_db m; mg_authSource := mg_authSource m; mg_requestId := mg_requestId m; mg_connected := b |}.
Definition with_source (m : Mongo) (db authSource : text) : Mongo :=
  {| mg_conn := mg_conn m; mg_db := db; mg_authSource := authSource; mg_requestId := mg_requestId m; mg_connected := mg_connected m |}.

(** A client operation: undefined, or a value or an error text with the
    client's state. *)
Definition MgM (A : Type) : Type := Mongo -> outcome (res A * Mongo).
#[global] Instance MgM_ret : MRet MgM := fun A a m => Done (Ok a, m).
#[global] Instance MgM_bind : MBind MgM := fun A B f x m =>
  match x m with
  | Done (Ok a, m') => f a m'
  | Done (Err e, m') => Done (Err e, m')
  | Undef => Undef
  end.
Definition mfail {A} (e : string) : MgM A := fun m => Done (Err e, m).
Definition mget : MgM Mongo := fun m => Done (Ok m, m).
Definition mput (f : Mongo -> Mongo) : MgM unit := fun m => Done (Ok tt, f m).
Definition mtry {A} (x : MgM A) : MgM (res A) := fun m =>
  match x m with Done (r, m') => Done (Ok r, m') | Undef => Undef end.
(** [if (!x) { err = prefix + e; return false; }] *)
Definition mprefix {A} (prefix : string) (x : MgM A) : MgM A :=
  r ← mtry x; match r with Ok a => mret a | Err e => mfail (String.append prefix e) end.
Definition mwrite (b : bytes) : MgM bool := fun m =>
  let '(ok, c) := ts_write b (mg_conn m) in Done (Ok ok, with_conn m c).
Definition mread (n : nat) : MgM (option bytes) := fun m =>
  let '(r, c) := ts_read n (mg_conn m) in Done (Ok r, with_conn m c).

Definition bytes_string (b : bytes) : string := of_text (string_chars b).
(** The checks on the reply document. *)
Definition check_reply (doc : list (bytes * BsonValue)) : res (list (bytes * BsonValue)) :=
  match FindField doc (kb "ok") with
  | None => Err "no ok field"
  | Some ok =>
      if bv_i64 ok =? 1 then Ok doc
      else Err (match FindField doc (kb "errmsg") with Some em => bytes_string (bv_str em) | None => "command failed" end)
  end.
Definition read_reply (rest : bytes) : MgM (list (bytes * BsonValue)) :=
  if (length rest <? 5)%nat then mfail "short body"
  else if negb (nth 4 rest 0 =? 0) then mfail "unsupported section"
  else match ParseBson (S (length rest - 5)) (drop 5 rest) (length rest - 5) with
       | Some (Done (true, doc)) => fun m => Done (check_reply doc, m)
       | Some (Done (false, _)) => mfail "bson parse failed"
       | Some Undef | None => fun _ => Undef
       end.
Definition Command (body : bytes) : MgM (list (bytes * BsonValue)) :=
  m ← mget;
  _ ← mput (fun m => with_request m (i32 (mg_requestId m + 1)));
  ok ← mwrite (BuildOpMsg (mg_requestId m) body);
  if negb ok then mfail "write failed"
  else
    hdr ← mread 16;
    match hdr with
    | None => mfail "read header failed"
    | Some hdr =>
        v ← (fun m => match rd hdr 0 4 with Done v => Done (Ok v, m) | Undef => Undef end);
        let msgLen := i32 v in
        if (msgLen <? 16) || (msgLen >? 16 * 1024 * 1024) then mfail "bad message length"
        else
          rest ← mread (Z.to_nat (msgLen - 16));
          match rest with
          | None => mfail "read body failed"
          | Some rest => read_reply rest
          end
    end.

(** * SCRAM *)

Definition ScramPasswordDigest (user pass : text) : text := hex_bytes_text (sl_md5 (tb (user ++ lit ":mongo:" ++ pass))).
Definition mechanism_name (d : digest) : string := match d with SHA256_MD => "SCRAM-SHA-256" | SHA1_MD => "SCRAM-SHA-1" end.
Definition password_data (d : digest) (user pass : text) : text :=
  match d with SHA256_MD => pass | SHA1_MD => ScramPasswordDigest user pass end.

Definition sasl_start (d : digest) (cfm authSource : text) : bytes :=
  let sasl := bson_i32 bson_new (kb "saslStart") 1 in
  let sasl := bson_str sasl (kb "mechanism") (kb (mechanism_name d)) in
  let sasl := bson_binary sasl (kb "payload") (tb cfm) in
  let opts := bson_boolean bson_new (kb "skipEmptyExchange") true in
  let sasl := bson_doc sasl (kb "options") opts in
  let sasl := bson_str sasl (kb "$db") (tb authSource) in
  bson_finish sasl.
Definition sasl_continue (conversationId : Z) (cfmFull authSource : text) : bytes :=
  let cont := bson_i32 bson_new (kb "saslContinue") 1 in
  let cont := bson_i64 cont (kb "conversationId") conversationId in
  let cont := bson_binary cont (kb "payload") (tb cfmFull) in
  let cont := bson_str cont (kb "$db") (tb authSource) in
  bson_finish cont.

(** [r=], [s=] and [i=] of the server's first message; a later one wins. *)
Definition server_first_part (st : text * text * text) (part : text) : text * text * text :=
  let '(rv, sv, iv) := st in
  match strip_prefix (lit "r=") part with
  | Some v => (v, sv, iv)
  | None =>
      match strip_prefix (lit "s=") part with
      | Some v => (rv, v, iv)
      | None => match strip_prefix (lit "i=") part with Some v => (rv, sv, v) | None => st end
      end
  end.
Definition parse_server_first (serverFirst : text) : text * text * text :=
  foldl server_first_part ([], [], []) (getlines ","%char serverFirst []).

Definition xor_bytes (a b : bytes) : bytes := zip_with Z.lxor a b.
(** The client's final message from the server's first. *)
Definition client_final (d : digest) (user pass nonce serverFirst : text) : res text :=
  let '(rv, sv, iv) := parse_server_first serverFirst in
  if bool_decide (rv = [] \/ sv = [] \/ iv = []) then Err "bad server-first"
  else
    let iterations := atoi (of_text iv) in
    let salt := sl_b64dec sv in
    if bool_decide (salt = []) || (iterations <=? 0) then Err "bad salt/iterations"
    else
      let cfWithoutProof := lit "c=biws,r=" ++ rv in
      match sl_pbkdf2 d (tb (password_data d user pass)) salt iterations with
      | None => Err "pbkdf2 failed"
      | Some salted =>
          let clientKey := sl_hmac d salted (kb "Client Key") in
          let storedKey := sl_hash d clientKey in
          let authMessage := lit "n=" ++ user ++ lit ",r=" ++ nonce ++ lit "," ++ serverFirst ++ lit "," ++ cfWithoutProof in
          let clientSig := sl_hmac d storedKey (tb authMessage) in
          Ok (cfWithoutProof ++ lit ",p=" ++ sl_b64enc (xor_bytes clientKey clientSig))
      end.
(** [rnd] are the eighteen random bytes of the nonce. *)
Definition ScramAuth (d : digest) (user pass : text) (rnd : bytes) : MgM unit :=
  let nonce := hex_bytes_text rnd in
  let cfm := lit "n,,n=" ++ user ++ lit ",r=" ++ nonce in
  m ← mget;
  reply ← mprefix "saslStart failed: " (Command (sasl_start d cfm (mg_authSource m)));
  let conversationId := match FindField reply (kb "conversationId") with Some v => bv_i64 v | None => 0 end in
  match FindField reply (kb "payload") with
  | None => mfail "no sasl payload"
  | Some pl =>
      if bool_decide (bv_bytes pl = []) then mfail "no sasl payload"
      else match client_final d user pass nonce (string_chars (bv_bytes pl)) with
           | Err e => mfail e
           | Ok cfmFull =>
               _ ← mprefix "saslContinue failed: " (Command (sasl_continue conversationId cfmFull (mg_authSource m))); mret tt
           end
  end.

(** * Connecting *)

Definition split_at (c : ascii) (u : text) : option (text * text) :=
  match find [c] u with Some p => Some (take p u, drop (p + 1) u) | None => None end.
Definition rsplit_at (c : ascii) (u : text) : option (text * text) :=
  match rfind c u with Some p => Some (take p u, drop (p + 1) u) | None => None end.
Record MongoUri := {
  mu_srv : bool; mu_user : text; mu_pass : text; mu_host : text; mu_port : Z;
  mu_db : text; mu_authSource : option text }.
(** The last [authSource=] of the query string. *)
Definition auth_source (query : text) : option text :=
  foldl (fun acc kv => match strip_prefix (lit "authSource=") kv with Some v => Some v | None => acc end) None (getlines "&"%char query []).
Definition parse_uri (uri : text) : res MongoUri :=
  match (match strip_prefix (lit "mongodb+srv://") uri with
         | Some u => Some (true, u)
         | None => match strip_prefix (lit "mongodb://") uri with Some u => Some (false, u) | None => None end
         end) with
  | None => Err "unsupported uri scheme"
  | Some (useSrv, u) =>
      let '(user, pass, u) := match rsplit_at "@"%char u with
        | Some (cred, u) => match split_at ":"%char cred with
                            | Some (user, pass) => (user, pass, u)
                            | None => (cred, [], u)
                            end
        | None => ([], [], u)
        end in
      let '(u, query) := match split_at "?"%char u with Some (u, q) => (u, q) | None => (u, []) end in
      let '(u, dbPath) := match split_at "/"%char u with Some (u, d) => (u, d) | None => (u, []) end in
      let '(host, port) := match rsplit_at ":"%char u with
        | Some (h, p) => if useSrv then (u, 27017) else (h, u16 (atoi (of_text p)))
        | None => (u, 27017)
        end in
      Ok {| mu_srv := useSrv; mu_user := user; mu_pass := pass; mu_host := host; mu_port := port;
            mu_db := dbPath; mu_authSource := auth_source query |}
  end.

Definition Disconnect : MgM unit := mput (fun m => with_connected (with_conn m (ts_close (mg_conn m))) false).
Definition mconnect (host : text) (port : Z) : MgM (res unit) := fun m =>
  let '(r, c) := ts_connect host port (mg_conn m) in Done (Ok r, with_conn m c).
(** The first target that can be reached; otherwise the last error. *)
Fixpoint connect_any (targets : list (text * Z)) (err : string) : MgM (res unit) :=
  match targets with
  | [] => mret (Err err)
  | t :: r =>
      c ← mconnect t.1 t.2;
      match c with Ok _ => mret (Ok tt) | Err e => connect_any r e end
  end.

Definition hello_doc (authSource user : text) : bytes :=
  let hello := bson_i32 bson_new (kb "hello") 1 in
  let mechs := bson_str bson_new (kb "db") (tb authSource) in
  let mechs := bson_str mechs (kb "user") (tb user) in
  let hello := bson_doc hello (kb "saslSupportedMechs") mechs in
  let hello := bson_str hello (kb "$db") (tb authSource) in
  bson_finish hello.
Definition hello_primary_doc (authSource : text) : bytes :=
  let hello := bson_i32 bson_new (kb "hello") 1 in
  let hello := bson_str hello (kb "$db") (tb authSource) in
  bson_finish hello.
Definition ping_doc (authSource : text) : bytes :=
  let ping := bson_i32 bson_new (kb "ping") 1 in
  let ping := bson_str ping (kb "$db") (tb authSource) in
  bson_finish ping.

(** [err = ...; Disconnect(); return false;] around an operation. *)
Definition or_disconnect {A} (x : MgM A) : MgM A :=
  r ← mtry x; match r with Ok a => mret a | Err e => _ ← Disconnect; mfail e end.
(** The reconnection to the primary of a replica set: the address the server
    names is compared with the first target. *)
Definition switch_primary (targets : list (text * Z)) (primary authSource : text) : MgM unit :=
  match split_host_port primary with
  | None => mret tt
  | Some (ph, pp) =>
      if bool_decide (head targets = Some (ph, pp)) || (pp =? 0) then mret tt
      else
        _ ← mput (fun m => with_conn m (ts_close (mg_conn m)));
        c ← mconnect ph pp;
        match c with
        | Err e => mfail (String.append "primary connect failed: " e)
        | Ok _ => _ ← mprefix "hello(primary) failed: " (Command (hello_primary_doc authSource)); mret tt
        end
  end.
Definition authenticate (user pass : text) (rnd1 rnd2 : bytes) : MgM unit :=
  r1 ← mtry (ScramAuth SHA256_MD user pass rnd1);
  match r1 with
  | Ok _ => mret tt
  | Err e1 =>
      r2 ← mtry (ScramAuth SHA1_MD user pass rnd2);
      match r2 with
      | Ok _ => mret tt
      | Err e2 => mfail (String.append "auth failed (SHA-256: " (String.append e1 (String.append "; SHA-1: " (String.append e2 ")"))))
      end
  end.
(** The hosts to try: those of the SRV records, or the one of the URI. *)
Definition uri_targets (lookup : text -> outcome (option (list (text * Z)))) (u : MongoUri) : MgM (list (text * Z)) :=
  if mu_srv u then
    let domain := lit "_mongodb._tcp." ++ mu_host u in
    match lookup domain with
    | Undef => fun _ => Undef
    | Done (Some (t :: r)) => mret (t :: r)
    | Done _ => mfail (String.append "SRV lookup failed for " (of_text domain))
    end
  else mret [(mu_host u, mu_port u)].
(** [lookup] is [DnsSrvLookup]; [rnd1] and [rnd2] are the nonces. *)
Definition MongoConnect (lookup : text -> outcome (option (list (text * Z)))) (rnd1 rnd2 : bytes) (uri : text) : MgM unit :=
  _ ← Disconnect;
  match parse_uri uri with
  | Err e => mfail e
  | Ok u =>
      _ ← mput (fun m => with_source m (match mu_db u with [] => mg_db m | d => d end) (default (mg_authSource m) (mu_authSource u)));
      m ← mget;
      if bool_decide (mu_user u = [] \/ mu_pass u = []) then mfail "mongo uri must include user:pass"
      else
        targets ← uri_targets lookup u;
        ok ← connect_any targets EmptyString;
        match ok with
        | Err e => mfail (String.append "no reachable host: " e)
        | Ok _ =>
            reply ← or_disconnect (mprefix "hello failed: " (Command (hello_doc (mg_authSource m) (mu_user u))));
            _ ← (match FindField reply (kb "primary") with
                 | Some prim => if bool_decide (bv_str prim = []) then mret tt
                                else or_disconnect (switch_primary targets (string_chars (bv_str prim)) (mg_authSource m))
                 | None => mret tt
                 end : MgM unit);
            _ ← or_disconnect (authenticate (mu_user u) (mu_pass u) rnd1 rnd2);
            _ ← or_disconnect (mprefix "ping failed: " (Command (ping_doc (mg_authSource m))));
            mput (fun m => with_connected m true)
        end
  end.

(** * The registry *)

Definition if_connected {A} (f : Mongo -> MgM A) : MgM A :=
  m ← mget; if mg_connected m then f m else mfail "not connected".
Definition Ping : MgM unit := if_connected (fun m => _ ← Command (ping_doc (mg_authSource m)); mret tt).

Definition upsert_doc (db network addr : text) (lastSeen : Z) : bytes :=
  let cmd := bson_str bson_new (kb "update") (kb "peers") in
  let q := bson_str bson_new (kb "_id") (tb (network ++ lit ":" ++ addr)) in
  let set := bson_str bson_new (kb "addr") (tb addr) in
  let set := bson_str set (kb "network") (tb network) in
  let set := bson_i64 set (kb "lastSeen") lastSeen in
  let u := bson_doc bson_new (kb "$set") set in
  let upd := bson_doc bson_new (kb "q") q in
  let upd := bson_doc upd (kb "u") u in
  let upd := bson_boolean upd (kb "upsert") true in
  let cmd := bson_arrDoc cmd (kb "updates") [upd] in
  let cmd := bson_boolean cmd (kb "ordered") true in
  let cmd := bson_str cmd (kb "$db") (tb db) in
  bson_finish cmd.
Definition UpsertPeer (network addr : text) (lastSeen : Z) : MgM unit :=
  if_connected (fun m => _ ← Command (upsert_doc (mg_db m) network addr lastSeen); mret tt).

Definition find_doc (db network excludeAddr : text) : bytes :=
  let cmd := bson_str bson_new (kb "find") (kb "peers") in
  let filter := bson_str bson_new (kb "network") (tb network) in
  let filter := match excludeAddr with
                | [] => filter
                | _ => bson_doc filter (kb "addr") (bson_str bson_new (kb "$ne") (tb excludeAddr))
                end in
  let cmd := bson_doc cmd (kb "filter") filter in
  let sort := bson_i32 bson_new (kb "lastSeen") (-1) in
  let cmd := bson_doc cmd (kb "sort") sort in
  let cmd := bson_i32 cmd (kb "limit") 100 in
  let proj := bson_i32 bson_new (kb "addr") 1 in
  let proj := bson_i32 proj (kb "network") 1 in
  let proj := bson_i32 proj (kb "lastSeen") 1 in
  let cmd := bson_doc cmd (kb "projection") proj in
  let cmd := bson_str cmd (kb "$db") (tb db) in
  bson_finish cmd.
Record MongoPeer := { mp_addr : text; mp_network : text; mp_lastSeen : Z }.
Definition field_str (doc : list (bytes * BsonValue)) (name : string) : text :=
  match FindField doc (kb name) with Some v => string_chars (bv_str v) | None => [] end.
Definition field_i64 (doc : list (bytes * BsonValue)) (name : string) : Z :=
  match FindField doc (kb name) with Some v => bv_i64 v | None => 0 end.
Definition peer_of (e : bytes * BsonValue) : option MongoPeer :=
  let doc := bv_doc e.2 in
  let p := {| mp_addr := field_str doc "addr"; mp_network := field_str doc "network"; mp_lastSeen := field_i64 doc "lastSeen" |} in
  match mp_addr p with [] => None | _ => Some p end.
Definition FetchPeers (network excludeAddr : text) : MgM (list MongoPeer) :=
  if_connected (fun m =>
    reply ← Command (find_doc (mg_db m) network excludeAddr);
    match FindField reply (kb "cursor") with
    | None => mfail "no cursor"
    | Some cursor =>
        match FindField (bv_doc cursor) (kb "firstBatch") with
        | None => mfail "no firstBatch"
        | Some firstBatch => mret (omap peer_of (bv_doc firstBatch))
        end
    end).

Definition cleanup_doc (db network : text) (cutoff : Z) : bytes :=
  let cmd := bson_str bson_new (kb "delete") (kb "peers") in
  let q := bson_str bson_new (kb "network") (tb network) in
  let lt := bson_i64 bson_new (kb "$lt") cutoff in
  let q := bson_doc q (kb "lastSeen") lt in
  let del := bson_doc bson_new (kb "q") q in
  let del := bson_i32 del (kb "limit") 0 in
  let cmd := bson_arrDoc cmd (kb "deletes") [del] in
  let cmd := bson_str cmd (kb "$db") (tb db) in
  bson_finish cmd.
Definition CleanupStale (network : text) (cutoff : Z) : MgM unit :=
  if_connected (fun m => _ ← Command (cleanup_doc (mg_db m) network cutoff); mret tt).

End Client.

(** * What the commands say *)

(** The documents as MongoDB's manual gives the commands. *)
Definition upsert_fields (db network addr : text) (lastSeen : Z) : list (bytes * bson) :=
  [(kb "update", BStr (kb "peers"));
   (kb "updates", BSub 4 [(index_key 0, BSub 3
      [(kb "q", BSub 3 [(kb "_id", BStr (tb (network ++ lit ":" ++ addr)))]);
       (kb "u", BSub 3 [(kb "$set", BSub 3 [(kb "addr", BStr (tb addr)); (kb "network", BStr (tb network)); (kb "lastSeen", BI64 lastSeen)])]);
       (kb "upsert", BBool true)])]);
   (kb "ordered", BBool true); (kb "$db", BStr (tb db))].
Definition find_fields (db network excludeAddr : text) : list (bytes * bson) :=
  [(kb "find", BStr (kb "peers"));
   (kb "filter", BSub 3 ((kb "network", BStr (tb network)) ::
      match excludeAddr with [] => [] | _ => [(kb "addr", BSub 3 [(kb "$ne", BStr (tb excludeAddr))])] end));
   (kb "sort", BSub 3 [(kb "lastSeen", BI32 (-1))]); (kb "limit", BI32 100);
   (kb "projection", BSub 3 [(kb "addr", BI32 1); (kb "network", BI32 1); (kb "lastSeen", BI32 1)]);
   (kb "$db", BStr (tb db))].
Definition cleanup_fields (db network : text) (cutoff : Z) : list (bytes * bson) :=
  [(kb "delete", BStr (kb "peers"));
   (kb "deletes", BSub 4 [(index_key 0, BSub 3
      [(kb "q", BSub 3 [(kb "network", BStr (tb network)); (kb "lastSeen", BSub 3 [(kb "$lt", BI64 cutoff)])]); (kb "limit", BI32 0)])]);
   (kb "$db", BStr (tb db))].
Definition sasl_start_fields (d : digest) (cfm authSource : text) : list (bytes * bson) :=
  [(kb "saslStart", BI32 1); (kb "mechanism", BStr (kb (mechanism_name d))); (kb "payload", BBin (tb cfm));
   (kb "options", BSub 3 [(kb "skipEmptyExchange", BBool true)]); (kb "$db", BStr (tb authSource))].
Definition sasl_continue_fields (conversationId : Z) (cfmFull authSource : text) : list (bytes * bson) :=
  [(kb "saslContinue", BI32 1); (kb "conversationId", BI64 conversationId); (kb "payload", BBin (tb cfmFull)); (kb "$db", BStr (tb authSource))].
Definition hello_fields (authSource user : text) : list (bytes * bson) :=
  [(kb "hello", BI32 1); (kb "saslSupportedMechs", BSub 3 [(kb "db", BStr (tb authSource)); (kb "user", BStr (tb user))]); (kb "$db", BStr (tb authSource))].
Definition one_field (name : string) (authSource : text) : list (bytes * bson) :=
  [(kb name, BI32 1); (kb "$db", BStr (tb authSource))].

Ltac by_building := intros; autorewrite with bson; reflexivity.
Lemma upsert_built db network addr t : upsert_doc db network addr t = bson_finish (built (upsert_fields db network addr t)).
Proof. unfold upsert_doc. by_building. Qed.
Lemma find_built db network x : find_doc db network x = bson_finish (built (find_fields db network x)).
Proof. unfold find_doc. destruct x; by_building. Qed.
Lemma cleanup_built db network t : cleanup_doc db network t = bson_finish (built (cleanup_fields db network t)).
Proof. unfold cleanup_doc. by_building. Qed.
Lemma sasl_start_built d cfm a : sasl_start d cfm a = bson_finish (built (sasl_start_fields d cfm a)).
Proof. unfold sasl_start. by_building. Qed.
Lemma sasl_continue_built c t a : sasl_continue c t a = bson_finish (built (sasl_continue_fields c t a)).
Proof. unfold sasl_continue. by_building. Qed.
Lemma hello_built a u : hello_doc a u = bson_finish (built (hello_fields a u)).
Proof. unfold hello_doc. by_building. Qed.
Lemma hello_primary_built a : hello_primary_doc a = bson_finish (built (one_field "hello" a)).
Proof. unfold hello_primary_doc. by_building. Qed.
Lemma ping_built a : ping_doc a = bson_finish (built (one_field "ping" a)).
Proof. unfold ping_doc. by_building. Qed.

(** * Frames *)

Lemma length_enc_cons k x fs : length (enc_fields ((k, x) :: fs)) = (length k + 2 + length (enc_value x) + length (enc_fields fs))%nat.
Proof. rewrite enc_fields_cons, !length_app. cbn [length]. lia. Qed.
Lemma length_enc_nil : length (enc_fields []) = 0%nat.
Proof. done. Qed.
Lemma length_enc_str v : length (enc_value (BStr v)) = (length v + 5)%nat.
Proof. cbn [enc_value]. unfold addI32. rewrite !length_app, length_le_bytes. cbn [length]. lia. Qed.
Lemma length_enc_bin v : length (enc_value (BBin v)) = (length v + 5)%nat.
Proof. cbn [enc_value]. unfold addI32. rewrite !length_app, length_le_bytes. cbn [length]. lia. Qed.
Lemma length_enc_i32 v : length (enc_value (BI32 v)) = 4%nat.
Proof. apply length_le_bytes. Qed.
Lemma length_enc_i64 v : length (enc_value (BI64 v)) = 8%nat.
Proof. apply length_le_bytes. Qed.
Lemma length_enc_dbl v : length (enc_value (BDbl v)) = 8%nat.
Proof. apply length_le_bytes. Qed.
Lemma length_enc_bool v : length (enc_value (BBool v)) = 1%nat.
Proof. done. Qed.
Lemma length_enc_sub ty fs : length (enc_value (BSub ty fs)) = (length (enc_fields fs) + 5)%nat.
Proof. exact (length_finish fs). Qed.
Lemma length_tb t : length (tb t) = length t.
Proof. apply length_map. Qed.
Create Rewrite HintDb bsonlen.
#[export] Hint Rewrite length_enc_cons length_enc_nil length_enc_str length_enc_bin length_enc_i32 length_enc_i64 length_enc_dbl
  length_enc_bool length_enc_sub length_tb @length_app : bsonlen.
(** Sizes of documents with literal keys. *)
Ltac bson_size :=
  autorewrite with bsonlen;
  repeat match goal with
  | |- context [length (kb ?s)] => let n := eval vm_compute in (length (kb s)) in change (length (kb s)) with n
  | |- context [length (lit ?s)] => let n := eval vm_compute in (length (lit s)) in change (length (lit s)) with n
  | |- context [length (index_key ?s)] => let n := eval vm_compute in (length (index_key s)) in change (length (index_key s)) with n
  end.
Lemma fields_ok_cons k x fs : bool_decide (0 ∉ k) = true -> bson_ok x -> fields_ok fs -> fields_ok ((k, x) :: fs).
Proof. intros Hk Hx Hfs. apply Forall_cons_2; [|done]. by apply bool_decide_eq_true in Hk. Qed.
Ltac bson_fits :=
  repeat match goal with
  | |- fields_ok (_ :: _) => apply fields_ok_cons; [vm_compute; reflexivity| |]
  | |- fields_ok [] => apply Forall_nil_2
  | |- bson_ok (BSub _ _) => apply bson_ok_sub; split; [auto|split; [bson_size; lia|]]
  | |- bson_ok (BStr _) => cbn [bson_ok]; bson_size; lia
  | |- bson_ok (BBin _) => cbn [bson_ok]; bson_size; lia
  | |- bson_ok (BI32 _) => cbn [bson_ok]; unfold is_i32; lia
  | |- bson_ok (BI64 _) => cbn [bson_ok]; done
  | |- bson_ok (BBool _) => exact I
  end.

(** How a server takes an OP_MSG frame apart: the length, the opcode, no flag,
    one section of kind 0 and its document. *)
Definition server_reads (frame : bytes) : option (list (bytes * BsonValue)) :=
  if (le_at frame 0 4 =? Z.of_nat (length frame)) && (le_at frame 12 4 =? 2013) && (le_at frame 16 4 =? 0) && (le_at frame 20 1 =? 0) then
    match ParseBson (S (length frame - 21)) (drop 21 frame) (length frame - 21) with
    | Some (Done (true, doc)) => Some doc
    | _ => None
    end
  else None.
Lemma BuildOpMsg_frame r body :
  BuildOpMsg r body = le_bytes 4 (u32 (Z.of_nat (length body + 21))) ++ push32 r ++ push32 0 ++ push32 2013 ++ push32 0 ++ [0] ++ body.
Proof.
  unfold BuildOpMsg. f_equal.
  - do 2 f_equal. unfold push32. rewrite !length_app, !length_le_bytes. cbn [length]. lia.
Qed.
Lemma length_op_msg r body : length (BuildOpMsg r body) = (length body + 21)%nat.
Proof. rewrite BuildOpMsg_frame. unfold push32. rewrite !length_app, !length_le_bytes. cbn [length]. lia. Qed.
Lemma frame_read r fs :
  fields_ok fs -> Z.of_nat (length (enc_fields fs)) + 26 < 2 ^ 32 ->
  server_reads (BuildOpMsg r (bson_finish (built fs))) = Some (fields_of fs).
Proof.
  intros Hok Hl. unfold server_reads. rewrite length_op_msg. set (body := bson_finish (built fs)).
  assert (length body = length (enc_fields fs) + 5)%nat as Hb by apply length_finish.
  rewrite BuildOpMsg_frame. set (len := u32 (Z.of_nat (length body + 21))).
  assert (len mod 2 ^ (8 * Z.of_nat 4) = Z.of_nat (length body + 21)) as Hlen.
  { unfold len, u32. change (2 ^ (8 * Z.of_nat 4)) with (2 ^ 32). rewrite Z.mod_mod, Z.mod_small; lia. }
  pose proof (le_at_here [] 4 len (push32 r ++ push32 0 ++ push32 2013 ++ push32 0 ++ [0] ++ body)) as H0. rewrite Hlen in H0. cbn [app length] in H0 |- *.
  rewrite H0, Z.eqb_refl.
  pose proof (le_at_here (le_bytes 4 len ++ push32 r ++ push32 0) 4 (u32 2013) (push32 0 ++ [0] ++ body)) as H1.
  pose proof (le_at_here (le_bytes 4 len ++ push32 r ++ push32 0 ++ push32 2013) 4 (u32 0) ([0] ++ body)) as H2.
  pose proof (le_at_here (le_bytes 4 len ++ push32 r ++ push32 0 ++ push32 2013 ++ push32 0) 1 0 body) as H3. change (le_bytes 1 0 ++ body) with (0 :: body) in H3.
  unfold push32 in *. rewrite <- !(assoc_L (++)), !length_app, !length_le_bytes in H1.
  rewrite <- !(assoc_L (++)), !length_app, !length_le_bytes in H2. rewrite <- !(assoc_L (++)), !length_app, !length_le_bytes in H3.
  cbn [Nat.add app] in H1, H2, H3.
  rewrite H1, H2, H3. cbn [Z.eqb andb].
  replace (drop 21 _) with body.
  2:{ rewrite !(assoc_L (++)). change (0 :: body) with ([0] ++ body). rewrite (assoc_L (++)), drop_app_length'; [done|]. by rewrite !length_app, !length_le_bytes. }
  replace (length body + 21 - 21)%nat with (length body) by lia. 
  pose proof (parse_built fs [] Hok ltac:(lia)) as Hp. fold body in Hp. rewrite app_nil_r in Hp. by rewrite Hp.
Qed.

(** * Commands and replies *)

Section Exchange.
Context {Conn : Type} {sock : TlsSocket Conn} {scram : ScramLib}.

(** The socket takes the frame and then delivers the reply. *)
Definition exchange (c : Conn) (sent reply : bytes) (c' : Conn) : Prop :=
  exists c1 c2, ts_write sent c = (true, c1) /\ ts_read 16 c1 = (Some (take 16 reply), c2) /\
    ts_read (length reply - 16) c2 = (Some (drop 16 reply), c').
(** An OP_MSG reply with any request ids, opcode and flags. *)
Definition op_reply (ids flags : bytes) (fs : list (bytes * bson)) : bytes :=
  le_bytes 4 (Z.of_nat (length (enc_fields fs) + 26)) ++ ids ++ flags ++ [0] ++ bson_finish (built fs).
Definition reply_ok (fs : list (bytes * bson)) : Prop :=
  fields_ok fs /\ Z.of_nat (length (enc_fields fs)) + 26 <= 16 * 1024 * 1024.
(** The server behind the connection answers a command with a document: any
    frame it reads as that command gets a reply that carries the document. *)
Definition answers (c : Conn) (req reply : list (bytes * bson)) (c' : Conn) : Prop :=
  reply_ok reply /\
  forall sent, server_reads sent = Some (fields_of req) ->
  exists ids flags, length ids = 12%nat /\ length flags = 4%nat /\ exchange c sent (op_reply ids flags reply) c'.
(** The client after a command. *)
Definition asked (m : Mongo) (c' : Conn) : Mongo := with_conn (with_request m (i32 (mg_requestId m + 1))) c'.

Lemma Command_reply m body ids flags fs c' :
  length ids = 12%nat -> length flags = 4%nat -> reply_ok fs ->
  exchange (mg_conn m) (BuildOpMsg (mg_requestId m) body) (op_reply ids flags fs) c' ->
  Command body m = Done (check_reply (fields_of fs), asked m c').
Proof.
  intros Hi Hf [Hok Hl] (c1 & c2 & Hw & Hr1 & Hr2).
  unfold Command, mbind, MgM_bind, mget, mput, mwrite, mread. cbn [with_request mg_conn mg_requestId]. rewrite Hw. cbn [negb with_conn mg_conn].
  rewrite Hr1. cbn [with_conn mg_conn].
  set (body' := bson_finish (built fs)) in *. assert (length body' = length (enc_fields fs) + 5)%nat as Hb by apply length_finish.
  set (len := Z.of_nat (length (enc_fields fs) + 26)) in *.
  assert (op_reply ids flags fs = (le_bytes 4 len ++ ids) ++ flags ++ [0] ++ body') as Hop by (unfold op_reply; by rewrite <- (assoc_L (++))).
  assert (length (le_bytes 4 len ++ ids) = 16%nat) as Hh by (rewrite length_app, length_le_bytes, Hi; done).
  assert (take 16 (op_reply ids flags fs) = le_bytes 4 len ++ ids) as ->.
  { rewrite Hop. by rewrite take_app_length'. }
  assert (rd (le_bytes 4 len ++ ids) 0 4 = Done len) as ->.
  { pose proof (rd_here [] 4 len ids) as H. cbn [app length] in H. rewrite H. change (2 ^ (8 * Z.of_nat 4)) with (2 ^ 32).
    by rewrite Z.mod_small by lia. }
  cbv beta zeta. rewrite (i32_id len) by (unfold is_i32; lia).
  destruct (_ || _) eqn:E; [apply orb_true_iff in E as [E%Z.ltb_lt|E]; [lia|]; rewrite Z.gtb_ltb in E; apply Z.ltb_lt in E; lia|].
  assert (length (op_reply ids flags fs) - 16 = Z.to_nat (len - 16))%nat as Hn.
  { rewrite Hop, !length_app, length_le_bytes, Hi, Hf, Hb. cbn [length]. lia. }
  rewrite <- Hn. cbn [with_conn with_request mg_conn]. rewrite Hr2. cbv beta iota.
  assert (drop 16 (op_reply ids flags fs) = flags ++ [0] ++ body') as ->.
  { rewrite Hop. by rewrite drop_app_length'. }
  unfold read_reply. assert (length (flags ++ [0%Z] ++ body') = length body' + 5)%nat as Hr by (rewrite !length_app, Hf; cbn [length]; lia).
  rewrite Hr. destruct (Nat.ltb_spec (length body' + 5) 5); [lia|].
  replace (nth 4 (flags ++ [0] ++ body') 0) with 0 by (by rewrite app_nth2, Hf by lia). cbn [Z.eqb negb].
  replace (drop 5 (flags ++ [0] ++ body')) with body'.
  2:{ rewrite (assoc_L (++)), drop_app_length'; [done|]. by rewrite length_app, Hf. }
  replace (length body' + 5 - 5)%nat with (length body') by lia.
  pose proof (parse_built fs [] Hok ltac:(lia)) as Hp. fold body' in Hp. rewrite app_nil_r in Hp. by rewrite Hp.
Qed.
(** A command the server answers. *)
Lemma Command_answered m req reply c' :
  fields_ok req -> Z.of_nat (length (enc_fields req)) + 26 < 2 ^ 32 -> answers (mg_conn m) req reply c' ->
  Command (bson_finish (built req)) m = Done (check_reply (fields_of reply), asked m c').
Proof.
  intros Hok Hl [Hr Hs]. destruct (Hs _ (frame_read (mg_requestId m) req Hok Hl)) as (ids & flags & Hi & Hf & He).
  by apply (Command_reply m _ ids flags).
Qed.

(** The replies of a server in good health. *)
Definition OK_REPLY : list (bytes * bson) := [(kb "ok", BDbl 0x3FF0000000000000)].
Definition peer_fields (p : MongoPeer) : list (bytes * bson) :=
  [(kb "_id", BStr (tb (mp_network p ++ lit ":" ++ mp_addr p))); (kb "addr", BStr (tb (mp_addr p)));
   (kb "lastSeen", BI64 (mp_lastSeen p)); (kb "network", BStr (tb (mp_network p)))].
Definition peers_reply (ps : list MongoPeer) : list (bytes * bson) :=
  [(kb "cursor", BSub 3 [(kb "firstBatch", BSub 4 (imap (fun i p => (index_key i, BSub 3 (peer_fields p))) ps));
                         (kb "id", BI64 0); (kb "ns", BStr (kb "cdx.peers"))]);
   (kb "ok", BDbl 0x3FF0000000000000)].
Lemma ok_checked : check_reply (fields_of OK_REPLY) = Ok (fields_of OK_REPLY).
Proof. by vm_compute. Qed.

Lemma FindField_hit k v doc : FindField ((k, v) :: doc) k = Some v.
Proof. cbn. by rewrite bool_decide_eq_true_2. Qed.
Lemma FindField_miss k k' v doc : k <> k' -> FindField ((k, v) :: doc) k' = FindField doc k'.
Proof. intros H. cbn. by rewrite bool_decide_eq_false_2. Qed.
Lemma string_chars_tb t : string_chars (tb t) = t.
Proof. apply string_chars_bytes. Qed.
Lemma peer_of_fields k p : peer_of (k, value_of (BSub 3 (peer_fields p))) = match mp_addr p with [] => None | _ => Some p end.
Proof.
  unfold peer_of, field_str, field_i64, peer_fields. cbn [value_of bv_doc snd map fst].
  rewrite !(FindField_miss (kb "_id")) by (vm_compute; discriminate). rewrite !FindField_hit.
  rewrite !(FindField_miss (kb "addr")) by (vm_compute; discriminate).
  rewrite FindField_hit. rewrite (FindField_miss (kb "lastSeen")) by (vm_compute; discriminate). rewrite FindField_hit.
  cbn [bv_str bv_i64 bv_int]. rewrite !string_chars_tb. by destruct p as [[]].
Qed.
Lemma peers_batch ps (f : nat -> bytes) :
  omap peer_of (map (fun kx => (kx.1, value_of kx.2)) (imap (fun i p => (f i, BSub 3 (peer_fields p))) ps)) =
  filter (fun p => mp_addr p <> []) ps.
Proof.
  revert f. induction ps as [|p ps IH]; intros f; [done|]. cbn [imap map omap list_omap fst snd]. rewrite peer_of_fields.
  change (imap _ ps) with (imap (fun i p => ((f ∘ S) i, BSub 3 (peer_fields p))) ps). specialize (IH (f ∘ S)).
  rewrite filter_cons. destruct (mp_addr p) eqn:E; cbn [decide]; rewrite <- IH; by case_decide.
Qed.
End Exchange.

(** * The SCRAM exchange *)

Lemma getlines_fresh sep a cur : sep ∉ a -> getlines sep a cur = match cur ++ a with [] => [] | t => [t] end.
Proof.
  revert cur. induction a as [|c a IH]; intros cur Ha; cbn [getlines]; [rewrite app_nil_r; by destruct cur|].
  apply not_elem_of_cons in Ha as [Hc Ha]. destruct (Ascii.eqb_spec c sep); [congruence|].
  rewrite IH, <- (assoc_L (++)) by done. done.
Qed.
Lemma getlines_part sep a r cur : sep ∉ a -> getlines sep (a ++ sep :: r) cur = (cur ++ a) :: getlines sep r [].
Proof.
  revert cur. induction a as [|c a IH]; intros cur Ha; cbn [getlines app].
  - by rewrite Ascii.eqb_refl, app_nil_r.
  - apply not_elem_of_cons in Ha as [Hc Ha]. destruct (Ascii.eqb_spec c sep); [congruence|]. rewrite IH, <- (assoc_L (++)) by done. done.
Qed.
Lemma not_in_lit c s t : mem c (lit s) = false -> c ∉ t -> c ∉ lit s ++ t.
Proof.
  intros Hs Ht. apply not_elem_of_app. split; [|done]. intros Hin%mem_spec. congruence.
Qed.

Section Scram.
Context {scram : ScramLib} {laws : ScramLaws}.

(** RFC 5802, the server's side: its first message, and its check of the
    client's last one against the stored key of the account. *)
Definition server_first (nonce snonce : text) (salt : bytes) (iterations : Z) : text :=
  lit "r=" ++ (nonce ++ snonce) ++ lit ",s=" ++ sl_b64enc salt ++ lit ",i=" ++ to_string iterations.
Definition stored_key (d : digest) (salted : bytes) : bytes := sl_hash d (sl_hmac d salted (kb "Client Key")).
Definition scram_accepts (d : digest) (stored : bytes) (clientFirstBare serverFirst nonce final : text) : bool :=
  match getlines ","%char final [] with
  | [channel; r; p] =>
      match strip_prefix (lit "p=") p with
      | None => false
      | Some proof =>
          let authMessage := clientFirstBare ++ lit "," ++ serverFirst ++ lit "," ++ channel ++ lit "," ++ r in
          let clientKey := xor_bytes (sl_b64dec proof) (sl_hmac d stored (tb authMessage)) in
          bool_decide (channel = lit "c=biws") && bool_decide (r = lit "r=" ++ nonce) && bool_decide (sl_hash d clientKey = stored)
      end
  | _ => false
  end.

Lemma xor_bytes_undo a b : length a = length b -> xor_bytes (xor_bytes a b) b = a.
Proof.
  unfold xor_bytes. revert b. induction a as [|x a IH]; intros [|y b] H; try done. cbn. injection H as H.
  rewrite Z.lxor_assoc, Z.lxor_nilpotent, Z.lxor_0_r. f_equal. by apply IH.
Qed.
Lemma xor_bytes_wf a b : bytes_wf a -> bytes_wf b -> bytes_wf (xor_bytes a b).
Proof.
  unfold bytes_wf, xor_bytes. intros Ha. revert b. induction Ha as [|x a Hx _ IH]; intros [|y b] Hb; try by constructor.
  apply Forall_cons in Hb as [Hy Hb]. cbn. constructor; [|by apply IH]. unfold is_u8 in *.
  split; [by apply Z.lxor_nonneg; split; intros; lia|].
  change 256 with (2 ^ 8). destruct (decide (Z.lxor x y = 0)) as [->|Hne]; [lia|].
  assert (0 <= Z.lxor x y) by (apply Z.lxor_nonneg; lia).
  apply Z.log2_lt_pow2; [lia|]. eapply Z.le_lt_trans; [apply Z.log2_lxor; lia|].
  apply Z.max_lub_lt.
  - destruct (decide (x = 0)) as [->|]; [done|]. apply Z.log2_lt_pow2; lia.
  - destruct (decide (y = 0)) as [->|]; [done|]. apply Z.log2_lt_pow2; lia.
Qed.
Lemma parse_first nonce snonce salt i :
  ","%char ∉ nonce ++ snonce -> parse_server_first (server_first nonce snonce salt i) = (nonce ++ snonce, sl_b64enc salt, to_string i).
Proof.
  intros Hn. unfold parse_server_first, server_first. set (rv := nonce ++ snonce) in *. set (sv := sl_b64enc salt).
  replace (lit "r=" ++ rv ++ lit ",s=" ++ sv ++ lit ",i=" ++ to_string i)
    with ((lit "r=" ++ rv) ++ ","%char :: (lit "s=" ++ sv) ++ ","%char :: lit "i=" ++ to_string i) by (by rewrite <- !(assoc_L (++))).
  rewrite getlines_part by (by apply not_in_lit). rewrite getlines_part by (apply not_in_lit; [done|apply b64_no_comma]).
  rewrite getlines_fresh by (apply not_in_lit; [done|apply to_string_no; by vm_compute]).
  cbn [app lit String.list_ascii_of_string foldl server_first_part]. done.
Qed.

Lemma scram_final d user pass nonce snonce salt iterations salted :
  ","%char ∉ nonce ++ snonce -> nonce <> [] -> salt <> [] -> bytes_wf salt -> 0 < iterations < 2 ^ 31 ->
  sl_pbkdf2 d (tb (password_data d user pass)) salt iterations = Some salted ->
  exists final,
    client_final d user pass nonce (server_first nonce snonce salt iterations) = Ok final /\
    scram_accepts d (stored_key d salted) (lit "n=" ++ user ++ lit ",r=" ++ nonce)
      (server_first nonce snonce salt iterations) (nonce ++ snonce) final = true /\
    (length final <= length (nonce ++ snonce) + 60)%nat.
Proof.
  intros Hc Hn Hs Hw Hi Hp. unfold client_final. rewrite parse_first by done. set (sf := server_first nonce snonce salt iterations).
  set (rv := nonce ++ snonce) in *.
  rewrite bool_decide_eq_false_2.
  2:{ intros [H|[H|H]].
      - unfold rv in H. by apply app_nil in H as [-> _].
      - apply (f_equal length) in H. rewrite b64_length in H. destruct salt as [|x salt]; [done|]. cbn [length] in H. revert H. clear.
        intros H. pose proof (Nat.Div0.div_le_mono 3 (S (length salt) + 2) 3 ltac:(lia)) as Hd. change (3 / 3)%nat with 1%nat in Hd. lia.
      - pose proof (strtol_to_string iterations) as Hz. rewrite H in Hz. change (strtol (of_text [])) with 0 in Hz.
        rewrite <- Hz in Hi; [lia|unfold is_i64; lia]. }
  rewrite atoi_to_string by (unfold is_i32; lia). rewrite b64_inverse by done. rewrite bool_decide_eq_false_2 by done.
  destruct (Z.leb_spec iterations 0); [lia|]. cbn [orb]. rewrite Hp. eexists. split; [done|]. split.
  2:{ rewrite !length_app, b64_length. unfold xor_bytes. rewrite length_zip_with, !hmac_length. destruct d; cbn; lia. }
  fold (stored_key d salted). set (ck := sl_hmac d salted (kb "Client Key")). set (sig := sl_hmac d _ _).
  assert (bytes_wf (xor_bytes ck sig)) as Hx by (apply xor_bytes_wf; apply hmac_bytes).
  unfold scram_accepts.
  replace ((lit "c=biws,r=" ++ rv) ++ lit ",p=" ++ sl_b64enc (xor_bytes ck sig))
    with (lit "c=biws" ++ ","%char :: (lit "r=" ++ rv) ++ ","%char :: lit "p=" ++ sl_b64enc (xor_bytes ck sig)) by (by rewrite <- !(assoc_L (++))).
  rewrite getlines_part by (intros ?%mem_spec; done). rewrite getlines_part by (by apply not_in_lit).
  rewrite getlines_fresh by (apply not_in_lit; [done|apply b64_no_comma]). cbn [app lit String.list_ascii_of_string].
  change (strip_prefix _ _) with (Some (sl_b64enc (xor_bytes ck sig))). cbv beta iota zeta. rewrite b64_inverse by done.
  rewrite !bool_decide_eq_true_2; [done| |done|done].
  match goal with |- sl_hash d (xor_bytes _ (sl_hmac d _ (tb ?m))) = _ =>
    assert (sl_hmac d (stored_key d salted) (tb m) = sig) as -> end.
  - unfold sig. do 2 f_equal. fold sf. cbn [app lit String.list_ascii_of_string]. by rewrite <- !(assoc_L (++)).
  - rewrite xor_bytes_undo; [done|]. unfold ck, sig. by rewrite !hmac_length.
Qed.

(** C30: the authentication answers the server's challenge as RFC 5802 asks.
    For the challenge of a server that extends the client's nonce and names
    the salt and the iteration count of the account, the client computes a
    final message, and a server that knows only the stored key accepts it:
    the nonce and the channel binding are right and the key recovered from the
    proof hashes to the stored key.  Holds for SCRAM-SHA-256, with the
    password, and for SCRAM-SHA-1, with the digest of user and password. *)
Theorem scram_proof_accepted d user pass nonce snonce salt iterations salted :
  ","%char ∉ nonce ++ snonce -> nonce <> [] -> salt <> [] -> bytes_wf salt -> 0 < iterations < 2 ^ 31 ->
  sl_pbkdf2 d (tb (password_data d user pass)) salt iterations = Some salted ->
  exists final,
    client_final d user pass nonce (server_first nonce snonce salt iterations) = Ok final /\
    scram_accepts d (stored_key d salted) (lit "n=" ++ user ++ lit ",r=" ++ nonce)
      (server_first nonce snonce salt iterations) (nonce ++ snonce) final = true.
Proof.
  intros Hc Hn Hs Hw Hi Hp. destruct (scram_final d user pass nonce snonce salt iterations salted Hc Hn Hs Hw Hi Hp) as (final & H1 & H2 & _).
  by exists final.
Qed.
End Scram.

(** * The URI *)

Lemma find_single c a r : c ∉ a -> find [c] (a ++ c :: r) = Some (length a).
Proof.
  intros Ha. rewrite find_never by (by apply never_fresh). change (c :: r) with ([c] ++ r). rewrite find_here. cbn. by rewrite Nat.add_0_r.
Qed.
Lemma drop_past {A} (a r : list A) c : drop (length a + 1) (a ++ c :: r) = r.
Proof. rewrite drop_app_ge by lia. by replace (length a + 1 - length a)%nat with 1%nat by lia. Qed.
Lemma split_at_first c a r : c ∉ a -> split_at c (a ++ c :: r) = Some (a, r).
Proof. intros Ha. unfold split_at. by rewrite find_single, take_app_length, drop_past. Qed.
Lemma rsplit_at_last c a r : c ∉ r -> rsplit_at c (a ++ c :: r) = Some (a, r).
Proof. intros Hr. unfold rsplit_at. by rewrite rfind_last, take_app_length, drop_past. Qed.

(** A plain and a [+srv] URI with everything in it. *)
Definition plain_uri (user pass host : text) (port : Z) (db source : text) : text :=
  lit "mongodb://" ++ user ++ lit ":" ++ pass ++ lit "@" ++ host_port host port ++ lit "/" ++ db ++ lit "?authSource=" ++ source.
Definition srv_uri (user pass host db source : text) : text :=
  lit "mongodb+srv://" ++ user ++ lit ":" ++ pass ++ lit "@" ++ host ++ lit "/" ++ db ++ lit "?authSource=" ++ source.
(** The parts contain none of the separators the parser looks for in them;
    the password may contain any character, the host colons. *)
Definition uri_parts (user host db source : text) : Prop :=
  (":"%char ∉ user) /\ ("@"%char ∉ host ++ db ++ source) /\ ("?"%char ∉ host ++ db) /\ ("/"%char ∉ host) /\ ("&"%char ∉ source).
Lemma auth_source_one source : "&"%char ∉ source -> auth_source (lit "authSource=" ++ source) = Some source.
Proof.
  intros Hs. unfold auth_source. rewrite getlines_fresh by (by apply not_in_lit). cbn [app lit String.list_ascii_of_string foldl].
  by change (strip_prefix _ _) with (Some source).
Qed.
Lemma parse_rest (useSrv : bool) (scheme user pass host tail db source : text) :
  uri_parts user host db source -> ("@"%char ∉ tail) -> ("?"%char ∉ tail) -> ("/"%char ∉ tail) ->
  (forall u, strip_prefix (lit "mongodb+srv://") (scheme ++ u) = if useSrv then Some u else None) ->
  (forall u, useSrv = false -> strip_prefix (lit "mongodb://") (scheme ++ u) = Some u) ->
  parse_uri (scheme ++ user ++ lit ":" ++ pass ++ lit "@" ++ (host ++ tail) ++ lit "/" ++ db ++ lit "?authSource=" ++ source) =
  let '(h, p) := match rsplit_at ":"%char (host ++ tail) with
    | Some (h, p) => if useSrv then (host ++ tail, 27017) else (h, u16 (atoi (of_text p)))
    | None => (host ++ tail, 27017)
    end in
  Ok {| mu_srv := useSrv; mu_user := user; mu_pass := pass; mu_host := h; mu_port := p; mu_db := db; mu_authSource := Some source |}.
Proof.
  intros (Hu & Ha & Hq & Hsl & Hamp) Ht1 Ht2 Ht3 Hs1 Hs2. unfold parse_uri. rewrite Hs1.
  set (rest := user ++ _). assert ((if useSrv then Some (true, rest) else
      match strip_prefix (lit "mongodb://") (scheme ++ rest) with Some u => Some (false, u) | None => None end) = Some (useSrv, rest)) as Hsch
    by (destruct useSrv; [done|by rewrite Hs2]).
  replace (match _ with Some u => Some (true, u) | None => _ end) with (Some (useSrv, rest)) by (rewrite <- Hsch; by destruct useSrv).
  clear Hsch. unfold rest. apply not_elem_of_app in Ha as [Ha1 Ha23]. apply not_elem_of_app in Hq as [Hq1 Hq2].
  assert (user ++ lit ":" ++ pass ++ lit "@" ++ (host ++ tail) ++ lit "/" ++ db ++ lit "?authSource=" ++ source =
    (user ++ ":"%char :: pass) ++ "@"%char :: ((host ++ tail) ++ lit "/" ++ db ++ lit "?authSource=" ++ source)) as ->
    by (rewrite <- !(assoc_L (++)); done).
  apply not_elem_of_app in Ha23 as [Ha2 Ha3].
  rewrite rsplit_at_last.
  2:{ rewrite !not_elem_of_app. split_and!; try done; intros ?%mem_spec; done. }
  rewrite split_at_first by done.
  replace ((host ++ tail) ++ lit "/" ++ db ++ lit "?authSource=" ++ source)
    with (((host ++ tail) ++ "/"%char :: db) ++ "?"%char :: lit "authSource=" ++ source) by (rewrite <- !(assoc_L (++)); done).
  rewrite split_at_first.
  2:{ rewrite !not_elem_of_app. split_and!; try done. apply not_elem_of_cons. split; [discriminate|done]. }
  rewrite split_at_first by (rewrite not_elem_of_app; done). rewrite auth_source_one by done.
  by destruct (match rsplit_at _ _ with Some _ => _ | None => _ end) as [h p].
Qed.

(** The registry URI is taken apart into what it was put together from,
    in both forms: user, password, host and port (or the domain of the SRV
    lookup, with the default port), database and authentication source.  The
    password may contain any character and the host of the plain form colons;
    the other parts must not contain the separators that follow them. *)
Theorem mongo_uri_parsed user pass host port db source :
  uri_parts user host db source -> is_u16 port ->
  parse_uri (plain_uri user pass host port db source) =
    Ok {| mu_srv := false; mu_user := user; mu_pass := pass; mu_host := host; mu_port := port; mu_db := db; mu_authSource := Some source |} /\
  parse_uri (srv_uri user pass host db source) =
    Ok {| mu_srv := true; mu_user := user; mu_pass := pass; mu_host := host; mu_port := 27017; mu_db := db; mu_authSource := Some source |}.
Proof.
  intros Hp Hport. split.
  - unfold plain_uri, host_port. rewrite (parse_rest false (lit "mongodb://")); [|done| | | |done|done].
    + cbn [lit String.list_ascii_of_string app]. rewrite rsplit_at_last by apply to_string_no_colon.
      rewrite atoi_to_string by (unfold is_i32, is_u16 in *; lia). unfold u16. by rewrite Z.mod_small.
    + apply not_in_lit; [done|]. by apply to_string_no.
    + apply not_in_lit; [done|]. by apply to_string_no.
    + apply not_in_lit; [done|]. by apply to_string_no.
  - unfold srv_uri. pose proof (parse_rest true (lit "mongodb+srv://") user pass host [] db source Hp) as H. rewrite app_nil_r in H.
    rewrite H; [|apply not_elem_of_nil..|done|done]. by destruct (rsplit_at _ _) as [[]|].
Qed.
Lemma mongo_uri_parsed_witness :
  exists u, parse_uri (plain_uri (lit "node") (lit "p:@/?x") (lit "fd::1") 27018 (lit "cdx") (lit "admin")) = Ok u /\ mu_host u = lit "fd::1".
Proof.
  eexists. split.
  - refine (proj1 (mongo_uri_parsed (lit "node") (lit "p:@/?x") (lit "fd::1") 27018 (lit "cdx") (lit "admin") _ _)).
    + unfold uri_parts. split_and!; apply (bool_decide_unpack _); vm_compute; exact I.
    + unfold is_u16. lia.
  - reflexivity.
Defined.

(** * A session *)

(** Strings of less than 16 MB. *)
Definition short (t : text) : Prop := Z.of_nat (length t) < 2 ^ 24.
Definition sendable (fs : list (bytes * bson)) : Prop := fields_ok fs /\ Z.of_nat (length (enc_fields fs)) + 26 < 2 ^ 32.
Ltac by_size := unfold short, sendable; intros; split; [bson_fits|bson_size; lia].
Lemma upsert_sendable db network addr t : short db -> short network -> short addr -> is_i64 t -> sendable (upsert_fields db network addr t).
Proof. unfold upsert_fields. by_size. Qed.
Lemma find_sendable db network x : short db -> short network -> short x -> sendable (find_fields db network x).
Proof. unfold find_fields. destruct x; by_size. Qed.
Lemma cleanup_sendable db network t : short db -> short network -> is_i64 t -> sendable (cleanup_fields db network t).
Proof. unfold cleanup_fields. by_size. Qed.
Lemma hello_sendable a u : short a -> short u -> sendable (hello_fields a u).
Proof. unfold hello_fields. by_size. Qed.
Lemma ping_sendable a : short a -> sendable (one_field "ping" a).
Proof. unfold one_field. by_size. Qed.
Lemma sasl_start_sendable d t a : Z.of_nat (length t) < 2 ^ 26 -> short a -> sendable (sasl_start_fields d t a).
Proof. unfold sasl_start_fields. destruct d; unfold mechanism_name; by_size. Qed.
Lemma sasl_continue_sendable c t a : is_i64 c -> Z.of_nat (length t) < 2 ^ 26 -> short a -> sendable (sasl_continue_fields c t a).
Proof. unfold sasl_continue_fields. by_size. Qed.

Lemma hex_digit_no_comma z : 0 <= z < 16 -> hex_digit z <> ","%char.
Proof.
  intros Hz He. apply (f_equal nat_of_ascii) in He. unfold hex_digit in He. change (nat_of_ascii ",") with 44%nat in He.
  rewrite nat_ascii_embedding in He; destruct (Z.ltb_spec z 10); lia.
Qed.
Lemma hex_text_no_comma b : bytes_wf b -> ","%char ∉ hex_bytes_text b.
Proof.
  intros Hb Hin. unfold hex_bytes_text in Hin. apply list_elem_of_In, in_flat_map in Hin as (x & Hx & Hin).
  apply list_elem_of_In in Hx. unfold bytes_wf in Hb. rewrite Forall_forall in Hb. specialize (Hb x Hx). unfold is_u8 in Hb.
  destruct Hin as [H|[H|[]]]; revert H; apply hex_digit_no_comma; Z.to_euclidean_division_equations; lia.
Qed.
Lemma length_hex_text b : length (hex_bytes_text b) = (2 * length b)%nat.
Proof. induction b as [|x b IH]; [done|]. cbn [hex_bytes_text flat_map app length] in *. unfold hex_bytes_text in IH. rewrite IH. lia. Qed.

Section Session.
Context {Conn : Type} {sock : TlsSocket Conn} {scram : ScramLib} {laws : ScramLaws}.

Definition challenge_reply (conversationId : Z) (serverFirst : text) : list (bytes * bson) :=
  [(kb "conversationId", BI32 conversationId); (kb "done", BBool false); (kb "payload", BBin (tb serverFirst)); (kb "ok", BDbl 0x3FF0000000000000)].
Definition client_first (user nonce : text) : text := lit "n,,n=" ++ user ++ lit ",r=" ++ nonce.
Definition client_first_bare (user nonce : text) : text := lit "n=" ++ user ++ lit ",r=" ++ nonce.

(** A server that knows the account: it answers the start of the exchange with
    a challenge and the final message, when it accepts it, with success. *)
Definition scram_server (d : digest) (user pass nonce source : text) (c c' : Conn) : Prop :=
  exists snonce salt iterations salted conversationId c1,
    (","%char ∉ snonce) /\ short snonce /\ salt <> [] /\ bytes_wf salt /\ 0 < iterations < 2 ^ 31 /\ is_i32 conversationId /\
    sl_pbkdf2 d (tb (password_data d user pass)) salt iterations = Some salted /\
    answers c (sasl_start_fields d (client_first user nonce) source)
      (challenge_reply conversationId (server_first nonce snonce salt iterations)) c1 /\
    forall final, scram_accepts d (stored_key d salted) (client_first_bare user nonce) (server_first nonce snonce salt iterations) (nonce ++ snonce) final = true ->
      answers c1 (sasl_continue_fields conversationId final source) OK_REPLY c'.

Lemma Command_ok m body req reply c' :
  body = bson_finish (built req) -> sendable req -> answers (mg_conn m) req reply c' -> check_reply (fields_of reply) = Ok (fields_of reply) ->
  Command body m = Done (Ok (fields_of reply), asked m c').
Proof. intros -> [H1 H2] Ha Hc. rewrite (Command_answered m req reply c' H1 H2 Ha). by rewrite Hc. Qed.
Lemma mprefix_ok {A} p (x : MgM (Conn := Conn) A) m a m' : x m = Done (Ok a, m') -> mprefix p x m = Done (Ok a, m').
Proof. intros H. unfold mprefix, mtry, mbind, MgM_bind. by rewrite H. Qed.
Lemma or_disconnect_ok {A} (x : MgM (Conn := Conn) A) m a m' : x m = Done (Ok a, m') -> or_disconnect x m = Done (Ok a, m').
Proof. intros H. unfold or_disconnect, mtry, mbind, MgM_bind. by rewrite H. Qed.
Lemma bind_ok {A B} (x : MgM (Conn := Conn) A) (f : A -> MgM (Conn := Conn) B) m a m' : x m = Done (Ok a, m') -> (x ≫= f) m = f a m'.
Proof. intros H. unfold mbind, MgM_bind. by rewrite H. Qed.

Lemma tb_nil t : tb t = [] -> t = [].
Proof. by destruct t. Qed.
Lemma scram_session d user pass rnd m c' :
  rnd <> [] -> bytes_wf rnd -> (length rnd <= 18)%nat -> short user -> short (mg_authSource m) ->
  scram_server d user pass (hex_bytes_text rnd) (mg_authSource m) (mg_conn m) c' ->
  exists m', ScramAuth d user pass rnd m = Done (Ok tt, m') /\ mg_conn m' = c' /\ mg_db m' = mg_db m /\ mg_authSource m' = mg_authSource m.
Proof.
  intros Hr Hrw Hl Hu Hsrc (snonce & salt & iters & salted & cid & c1 & Hcm & Hsn & Hs & Hw & Hi & Hcid & Hp & Ha1 & Ha2).
  set (nonce := hex_bytes_text rnd) in *. set (sf := server_first nonce snonce salt iters) in *.
  assert (nonce <> []) as Hn by (unfold nonce; by destruct rnd).
  assert (length nonce <= 36)%nat as Hnl by (unfold nonce; rewrite length_hex_text; lia).
  assert (","%char ∉ nonce ++ snonce) as Hc by (apply not_elem_of_app; split; [by apply hex_text_no_comma|done]).
  destruct (scram_final d user pass nonce snonce salt iters salted Hc Hn Hs Hw Hi Hp) as (final & Hf & Hacc & Hfl).
  fold sf in Hf, Hacc. specialize (Ha2 final Hacc).
  eexists. split.
  - unfold ScramAuth. fold nonce. fold (client_first user nonce). rewrite (bind_ok mget _ m m m) by done.
    rewrite (bind_ok _ _ m (fields_of (challenge_reply cid sf)) (asked m c1)).
    2:{ apply mprefix_ok. eapply Command_ok; [apply sasl_start_built| |done|done]. apply sasl_start_sendable; [|done].
        unfold client_first, short in *. rewrite !length_app. cbn [lit length String.list_ascii_of_string]. lia. }
    change (FindField (fields_of (challenge_reply cid sf)) (kb "conversationId")) with (Some (bv_int 0x10 cid)).
    change (FindField (fields_of (challenge_reply cid sf)) (kb "payload")) with (Some (BV 0x05 [] 0 false (tb sf) [])).
    cbn [bv_i64 bv_int bv_bytes]. rewrite bool_decide_eq_false_2 by (intros ?%tb_nil; done).
    rewrite string_chars_tb, Hf.
    erewrite bind_ok; [reflexivity|]. apply mprefix_ok. eapply Command_ok; [apply sasl_continue_built| |exact Ha2|done].
    apply sasl_continue_sendable; [unfold is_i32, is_i64 in *; lia| |done]. rewrite !length_app in *. unfold short in *. lia.
  - done.
Qed.

(** A server that can be reached at the target, greets the client, knows the
    account and answers the ping. *)
Definition mongo_server (t : text * Z) (user pass nonce source : text) (c c' : Conn) : Prop :=
  exists c1 c2 c3, ts_connect t.1 t.2 c = (Ok tt, c1) /\ answers c1 (hello_fields source user) OK_REPLY c2 /\
    scram_server SHA256_MD user pass nonce source c2 c3 /\ answers c3 (one_field "ping" source) OK_REPLY c'.
(** The database and the authentication source after the URI was read. *)
Definition uri_db (u : MongoUri) (m : Mongo (Conn := Conn)) : text := match mu_db u with [] => mg_db m | d => d end.
Definition uri_source (u : MongoUri) (m : Mongo (Conn := Conn)) : text := default (mg_authSource m) (mu_authSource u).

Lemma MongoConnect_session lookup rnd1 rnd2 uri u t r m c' :
  parse_uri uri = Ok u -> mu_user u <> [] -> mu_pass u <> [] -> (forall m : Mongo (Conn := Conn), uri_targets lookup u m = Done (Ok (t :: r), m)) ->
  rnd1 <> [] -> bytes_wf rnd1 -> (length rnd1 <= 18)%nat -> short (mu_user u) -> short (uri_source u m) ->
  mongo_server t (mu_user u) (mu_pass u) (hex_bytes_text rnd1) (uri_source u m) (ts_close (mg_conn m)) c' ->
  exists m', MongoConnect lookup rnd1 rnd2 uri m = Done (Ok tt, m') /\ mg_conn m' = c' /\ mg_connected m' = true /\ mg_db m' = uri_db u m.
Proof.
  intros Hu Hus Hpa Ht Hr Hrw Hrl Hsu Hss (c1 & c2 & c3 & Hc & Ha1 & Hs & Ha2).
  unfold MongoConnect. rewrite (bind_ok Disconnect _ m tt _ eq_refl). rewrite Hu.
  set (m1 := with_source (with_connected (with_conn m (ts_close (mg_conn m))) false) (uri_db u m) (uri_source u m)).
  rewrite (bind_ok _ _ _ tt m1 eq_refl), (bind_ok mget _ m1 m1 m1 eq_refl).
  rewrite bool_decide_eq_false_2 by (by intros [|]). rewrite (bind_ok _ _ m1 _ m1 (Ht m1)).
  rewrite (bind_ok _ _ m1 (Ok tt) (with_conn m1 c1)).
  2:{ cbn [connect_any]. rewrite (bind_ok _ _ m1 (Ok tt) (with_conn m1 c1)); [done|]. unfold mconnect.
      change (mg_conn m1) with (ts_close (mg_conn m)). by rewrite Hc. }
  cbv beta iota. change (mg_authSource m1) with (uri_source u m).
  rewrite (bind_ok _ _ _ (fields_of OK_REPLY) (asked (with_conn m1 c1) c2)).
  2:{ apply or_disconnect_ok, mprefix_ok. eapply Command_ok; [apply hello_built|by apply hello_sendable|done|apply ok_checked]. }
  change (FindField (fields_of OK_REPLY) (kb "primary")) with (@None BsonValue). cbv beta iota.
  rewrite (bind_ok _ _ _ tt _ eq_refl).
  destruct (scram_session SHA256_MD (mu_user u) (mu_pass u) rnd1 (asked (with_conn m1 c1) c2) c3 Hr Hrw Hrl Hsu Hss Hs) as (m2 & Hm2 & Hc2 & Hd2 & Hs2).
  rewrite (bind_ok _ _ _ tt m2).
  2:{ apply or_disconnect_ok. unfold authenticate. erewrite (bind_ok _ _ _ (Ok tt) m2); [done|]. unfold mtry. by rewrite Hm2. }
  rewrite (bind_ok _ _ m2 (fields_of OK_REPLY) (asked m2 c')).
  2:{ apply or_disconnect_ok, mprefix_ok. eapply Command_ok; [apply ping_built|by apply ping_sendable| |apply ok_checked]. by rewrite Hc2. }
  eexists. split; [done|]. split; [done|]. split; [done|]. cbn. by rewrite Hd2.
Qed.

(** * The registry commands *)

Lemma connected_op {A} (f : Mongo -> MgM (Conn := Conn) A) m : mg_connected m = true -> if_connected f m = f m m.
Proof. intros H. unfold if_connected. rewrite (bind_ok mget _ m m m eq_refl). by rewrite H. Qed.
Lemma UpsertPeer_ok network addr t m c' :
  mg_connected m = true -> short (mg_db m) -> short network -> short addr -> is_i64 t ->
  answers (mg_conn m) (upsert_fields (mg_db m) network addr t) OK_REPLY c' ->
  UpsertPeer network addr t m = Done (Ok tt, asked m c').
Proof.
  intros Hc H1 H2 H3 H4 Ha. unfold UpsertPeer. rewrite connected_op by done.
  erewrite bind_ok; [reflexivity|]. eapply Command_ok; [apply upsert_built|by apply upsert_sendable|done|apply ok_checked].
Qed.
Lemma CleanupStale_ok network t m c' :
  mg_connected m = true -> short (mg_db m) -> short network -> is_i64 t ->
  answers (mg_conn m) (cleanup_fields (mg_db m) network t) OK_REPLY c' ->
  CleanupStale network t m = Done (Ok tt, asked m c').
Proof.
  intros Hc H1 H2 H3 Ha. unfold CleanupStale. rewrite connected_op by done.
  erewrite bind_ok; [reflexivity|]. eapply Command_ok; [apply cleanup_built|by apply cleanup_sendable|done|apply ok_checked].
Qed.
Lemma FetchPeers_ok network x ps m c' :
  mg_connected m = true -> short (mg_db m) -> short network -> short x ->
  answers (mg_conn m) (find_fields (mg_db m) network x) (peers_reply ps) c' ->
  FetchPeers network x m = Done (Ok (filter (fun p => mp_addr p <> []) ps), asked m c').
Proof.
  intros Hc H1 H2 H3 Ha. unfold FetchPeers. rewrite connected_op by done.
  erewrite bind_ok; [|eapply Command_ok; [apply find_built|by apply find_sendable|done|done]].
  unfold peers_reply. cbn [fields_of map fst snd value_of]. rewrite FindField_hit. cbn [bv_doc]. rewrite FindField_hit.
  cbn [bv_doc]. by rewrite peers_batch.
Qed.
End Session.
