(* ===== verification/Registry.v ===== *)
(** The registry thread of [bin/cdxd.cpp] ([RunMongoRegistry]): connect to the
    MongoDB peer registry, register the node's own address, fetch the others
    and add them as targets of the P2P server, drop stale entries.

    The client is the one of [Mongo], the server's [AddTarget] the one of
    [Connect].  [DetectLocalIp] is modelled over the answers of the socket
    calls it makes; the address it finds, the clock and the random bytes are
    arguments of a round. *)
From Stdlib Require Import Ascii.
From S2P Require Import Prelude Config Compact Crypto Block Value KeyStore Protocol Net Daemon Text Connect Rpc Bson Dns Mongo.
Import Value Bson Base64.
Open Scope cdx_scope.

(** ** The node's own address *)

(** The answers of the calls of [DetectLocalIp]: the descriptor of [socket],
    whether [inet_pton], [connect] and [getsockname] succeed, and the text that
    [inet_ntop] writes. *)
Record IpProbe := {
  ip_socket : Z;
  ip_pton : bool;
  ip_connect : bool;
  ip_getsockname : bool;
  ip_ntop : option text;
}.
(** The text returned and the descriptors closed, in order. *)
Definition DetectLocalIp (p : IpProbe) : text * list Z :=
  let fd := ip_socket p in
  if fd <? 0 then ([], [])
  else if negb (ip_pton p) then ([], [fd])
  else if negb (ip_connect p) then ([], [fd])
  else if negb (ip_getsockname p) then ([], [fd])
  else match ip_ntop p with
       | None => ([], [fd])
       | Some buf => (buf, [fd])
       end.

Section Registry.
Context {ossl : OpenSSL} (magic : Z) (write : Z -> bytes -> bool * bytes) (dial : text -> Z -> option Z) (netNow localNonce : Z).
Context {Conn : Type} {sock : TlsSocket Conn} {scram : ScramLib}.
Context (lookup : text -> outcome (option (list (text * Z)))).
Abbreviation add_node := (AddTarget magic write dial netNow localNonce).

(** The address the node registers; [port] is [params.defaultPort]. *)
Definition self_addr (opts : NodeOptions) (port : Z) (localIp : text) : text :=
  match lit (o_externalAddr opts) with
  | [] => match localIp with [] => [] | _ => host_port localIp port end
  | a => a
  end.
(** The loop over the addresses of the registry. *)
Definition target_peer (self : text) (st : CNetServer * list (Z * bytes)) (p : MongoPeer) : CNetServer * list (Z * bytes) :=
  if bool_decide (mp_addr p = self) then st
  else match split_host_port (mp_addr p) with
       | None => st
       | Some (host, port) => let '(s, out) := add_node st.1 host port in (s, st.2 ++ out)
       end.
(** One iteration of the thread's loop, with a new client [m]. *)
Definition registry_round (opts : NodeOptions) (port : Z) (localIp : text) (now : Z) (rnd1 rnd2 : bytes)
    (m : Mongo (Conn := Conn)) (s : CNetServer) : outcome (Mongo (Conn := Conn) * CNetServer * list (Z * bytes)) :=
  let network := lit (o_network opts) in
  '(r, m) ← MongoConnect lookup rnd1 rnd2 (lit (o_mongoUri opts)) m;
  match r with
  | Err _ => Done (m, s, [])
  | Ok _ =>
      let selfAddr := self_addr opts port localIp in
      '(_, m) ← (match selfAddr with [] => Done (Ok tt, m) | _ => UpsertPeer network selfAddr now m end);
      '(peers, m) ← FetchPeers network selfAddr m;
      let '(s, out) := match peers with Ok ps => foldl (target_peer selfAddr) (s, []) ps | Err _ => (s, []) end in
      '(_, m) ← CleanupStale network (now - 600) m;
      '(_, m) ← Disconnect m;
      Done (m, s, out)
  end.

(** * The targets after a round *)

Lemma SendTo_targets s fd c p : sv_targets (SendTo magic write s fd c p).1.1 = sv_targets s.
Proof. unfold SendTo. destruct (BuildMessage _ _ _), (sv_peers s !! fd); try done. by destruct (write _ _) as [[] ?]. Qed.
Lemma AddTarget_targets s host port :
  sv_targets (add_node s host port).1 = sv_targets (add_target s (chars_bytes (host_port host port))).
Proof.
  unfold AddTarget, add_target. destruct (existsb _ _); [done|]. unfold ConnectTo. destruct (dial host port) as [fd|]; [|done].
  unfold add_peer. destruct (_ <=? _)%nat; [done|]. set (s' := {| sv_peers := _; sv_targets := _ |}).
  pose proof (SendTo_targets s' fd (string_bytes "version") (SerializeVersion (outbound_version netNow localNonce))) as H.
  by destruct (SendTo _ _ _ _ _ _) as [[] ?].
Qed.
Lemma add_target_in s t x : x ∈ sv_targets (add_target s t) <-> x ∈ sv_targets s \/ x = t.
Proof.
  unfold add_target. destruct (existsb _ _) eqn:E; cbn [sv_targets].
  - apply existsb_exists in E as (y & Hy & ->%bool_decide_eq_true). apply list_elem_of_In in Hy. split; [by left|]. by intros [ | -> ].
  - by rewrite elem_of_app, list_elem_of_singleton.
Qed.
Lemma add_target_nodup s t : NoDup (sv_targets s) -> NoDup (sv_targets (add_target s t)).
Proof.
  intros H. unfold add_target. destruct (existsb _ _) eqn:E; [done|]. cbn [sv_targets]. apply NoDup_app. split_and!; [done| |apply NoDup_singleton].
  intros x Hx ->%list_elem_of_singleton. assert (existsb (fun x => bool_decide (x = t)) (sv_targets s) = true) as Ht; [|congruence].
  apply existsb_exists. exists t. split; [by apply list_elem_of_In|]. by rewrite bool_decide_eq_true_2.
Qed.
(** The target an address of the registry becomes. *)
Definition registry_target (self : text) (p : MongoPeer) (t : bytes) : Prop :=
  mp_addr p <> self /\ exists host port, split_host_port (mp_addr p) = Some (host, port) /\ t = chars_bytes (host_port host port).
Lemma target_peer_spec self st p :
  (forall t, t ∈ sv_targets (target_peer self st p).1 <-> t ∈ sv_targets st.1 \/ registry_target self p t) /\
  (NoDup (sv_targets st.1) -> NoDup (sv_targets (target_peer self st p).1)).
Proof.
  unfold target_peer, registry_target. case_bool_decide as E; [split; [intros t; split; [by left|intros [|[]]; done]|done]|].
  destruct (split_host_port (mp_addr p)) as [[host port]|].
  - pose proof (AddTarget_targets st.1 host port) as H. destruct (add_node st.1 host port) as [s out]. cbn [fst] in *. rewrite H. split; [|apply add_target_nodup].
    intros t. rewrite add_target_in. apply or_iff_compat_l. split; [intros ->; by eauto|]. intros (_ & h & q & [= <- <-] & ->). done.
  - split; [|done]. intros t. split; [by left|]. intros [|(_ & h & q & ? & _)]; done.
Qed.
Lemma target_peers_spec self ps st :
  (forall t, t ∈ sv_targets (foldl (target_peer self) st ps).1 <-> t ∈ sv_targets st.1 \/ exists p, p ∈ ps /\ registry_target self p t) /\
  (NoDup (sv_targets st.1) -> NoDup (sv_targets (foldl (target_peer self) st ps).1)).
Proof.
  revert st. induction ps as [|p ps IH]; intros st; cbn [foldl].
  - split; [|done]. intros t. split; [by left|]. by intros [|(p & []%not_elem_of_nil & _)].
  - destruct (IH (target_peer self st p)) as [H1 H2]. destruct (target_peer_spec self st p) as [H3 H4]. split; [|by auto].
    intros t. rewrite H1, H3. split.
    + intros [[|]|(q & Hq & Ht)]; [by left|right; exists p; split; [left|done]|right; exists q; split; [by right|done]].
    + intros [|(q & [->|Hq]%elem_of_cons & Ht)]; [by left; left|by left; right|right; by exists q].
Qed.
End Registry.

(** * A round with a server *)

Section Round.
Context {ossl : OpenSSL} (magic : Z) (write : Z -> bytes -> bool * bytes) (dial : text -> Z -> option Z) (netNow localNonce : Z).
Context {Conn : Type} {sock : TlsSocket Conn} {scram : ScramLib} {laws : ScramLaws}.
Context (lookup : text -> outcome (option (list (text * Z)))).

(** The server answers the registration, the query and the clean-up. *)
Definition registry_server (db network self : text) (now : Z) (ps : list MongoPeer) (c c' : Conn) : Prop :=
  exists c1 c2, answers c (upsert_fields db network self now) OK_REPLY c1 /\
    answers c1 (find_fields db network self) (peers_reply ps) c2 /\ answers c2 (cleanup_fields db network (now - 600)) OK_REPLY c'.

(** C19: a round of the registry thread makes the registered nodes targets.
    When the URI names an account of a server that can be reached and answers
    the commands it reads (the greeting, the SCRAM exchange with a proof it
    accepts, the ping, the registration of this node with the time, the query
    for the other nodes of the network, the removal of the entries older than
    ten minutes), the round completes: the targets are those of before and the
    host and port of every address the registry returned, except this node's
    own and those without a port, none twice; the connection is closed. *)
Theorem registry_round_targets opts port localIp now rnd1 rnd2 m s u t r ps c1 c2 :
  let network := lit (o_network opts) in
  let self := self_addr opts port localIp in
  parse_uri (lit (o_mongoUri opts)) = Ok u -> mu_user u <> [] -> mu_pass u <> [] ->
  (forall m : Mongo (Conn := Conn), uri_targets lookup u m = Done (Ok (t :: r), m)) ->
  rnd1 <> [] -> bytes_wf rnd1 -> (length rnd1 <= 18)%nat -> self <> [] -> is_i64 (now - 600) -> is_i64 now ->
  Forall short [mu_user u; uri_source u m; uri_db u m; network; self] ->
  mongo_server t (mu_user u) (mu_pass u) (hex_bytes_text rnd1) (uri_source u m) (ts_close (mg_conn m)) c1 ->
  registry_server (uri_db u m) network self now ps c1 c2 ->
  exists m' s' out,
    registry_round magic write dial netNow localNonce lookup opts port localIp now rnd1 rnd2 m s = Done (m', s', out) /\
    (forall x, x ∈ sv_targets s' <-> x ∈ sv_targets s \/ exists p, p ∈ ps /\ registry_target self p x) /\
    (NoDup (sv_targets s) -> NoDup (sv_targets s')) /\ mg_connected m' = false /\ mg_conn m' = ts_close c2.
Proof.
  intros network self Hu Hus Hpa Ht Hr Hrw Hrl Hself Hnow1 Hnow2 Hsh Hm (c3 & c4 & Ha1 & Ha2 & Ha3).
  repeat (apply Forall_cons in Hsh as [? Hsh]).
  destruct (MongoConnect_session lookup rnd1 rnd2 _ u t r m c1 Hu Hus Hpa Ht Hr Hrw Hrl) as (m1 & Hm1 & Hc1 & Hcon & Hdb); [done..|].
  rewrite <- Hdb in Ha1, Ha2, Ha3. rewrite <- Hc1 in Ha1.
  assert (short (mg_db m1)) by (by rewrite Hdb).
  pose proof (UpsertPeer_ok network self now m1 c3 Hcon ltac:(done) ltac:(done) ltac:(done) Hnow2 Ha1) as Hup.
  pose proof (FetchPeers_ok network self ps (asked m1 c3) c4 Hcon ltac:(done) ltac:(done) ltac:(done) Ha2) as Hfe.
  pose proof (CleanupStale_ok network (now - 600) (asked (asked m1 c3) c4) c2 Hcon ltac:(done) ltac:(done) Hnow1 Ha3) as Hcl.
  unfold registry_round. rewrite Hm1. cbn [mbind outcome_bind]. fold self network.
  replace (match self with [] => Done (Ok tt, m1) | _ => UpsertPeer network self now m1 end) with (UpsertPeer network self now m1) by (by destruct self).
  rewrite Hup. cbn [mbind outcome_bind]. rewrite Hfe. cbn [mbind outcome_bind].
  destruct (target_peers_spec magic write dial netNow localNonce self (filter (fun p => mp_addr p <> []) ps) (s, [])) as [HT1 HT2].
  destruct (foldl _ _ _) as [s' out]. rewrite Hcl. cbn [fst] in HT1, HT2.
  eexists _, s', out. split; [reflexivity|]. split; [|by split].
  intros x. rewrite HT1. apply or_iff_compat_l. split; intros (p & Hp & Hx); exists p.
  - apply list_elem_of_filter in Hp as [_ Hp]. by split.
  - split; [|done]. apply list_elem_of_filter. split; [|done]. destruct Hx as (_ & h & q & Hx & _). by intros He; rewrite He in Hx.
Qed.
End Round.

(** * Witnesses *)

(** The quotient and the remainder as variables. *)
Ltac nat_div a b := pose proof (Nat.div_mod_eq a b); pose proof (Nat.mod_upper_bound a b ltac:(lia)).
Lemma length_sextets k r l : (k < 3)%nat -> length (sextets k r l) = ((4 * (length l + k) + 2) / 3 - k)%nat.
Proof.
  revert k r. induction l as [|c l IH]; intros k r Hk.
  - by destruct k as [|[|[|k]]]; [..|lia].
  - rewrite sextets_cons, length_app, IH by (done || apply Nat.mod_upper_bound; lia). cbn [length].
    destruct k as [|[|[|k]]]; [..|lia].
    + change ((0 + 1) mod 3)%nat with 1%nat. cbn [length]. nat_div (4 * (length l + 1) + 2)%nat 3%nat. nat_div (4 * (S (length l) + 0) + 2)%nat 3%nat. lia.
    + change ((1 + 1) mod 3)%nat with 2%nat. cbn [length]. nat_div (4 * (length l + 2) + 2)%nat 3%nat. nat_div (4 * (S (length l) + 1) + 2)%nat 3%nat. lia.
    + change ((2 + 1) mod 3)%nat with 0%nat. cbn [length]. nat_div (4 * (length l + 0) + 2)%nat 3%nat. nat_div (4 * (S (length l) + 2) + 2)%nat 3%nat. lia.
Qed.
Lemma length_base64 l : length (Base64Encode l) = (4 * ((length l + 2) / 3))%nat.
Proof.
  rewrite base64_groups. unfold pad4. rewrite length_app, repeat_length, length_map, length_sextets by lia.
  rewrite Nat.sub_0_r, Nat.add_0_r. nat_div (4 * length l + 2)%nat 3%nat. nat_div (length l + 2)%nat 3%nat.
  set (n := ((4 * length l + 2) / 3)%nat) in *. nat_div n 4%nat. nat_div (4 - n mod 4)%nat 4%nat. lia.
Qed.
Lemma chars_string_bytes b : bytes_wf b -> chars_bytes (string_chars b) = b.
Proof.
  unfold chars_bytes, string_chars. induction 1 as [|x b Hx _ IH]; [done|]. cbn [map]. rewrite IH. f_equal. by apply ascii_Z_chr.
Qed.
(** OpenSSL with the base64 codec of [Rpc] and short hash functions. *)
Definition mini_scram : ScramLib := {|
  sl_hash := fun _ m => toy_digest m;
  sl_hmac := fun d k m => take (match d with SHA256_MD => 32 | SHA1_MD => 20 end) (toy_digest (k ++ m));
  sl_pbkdf2 := fun _ p salt _ => Some (toy_digest (p ++ salt));
  sl_md5 := fun m => take 16 (toy_digest m);
  sl_b64enc := fun b => Base64Encode (string_chars b);
  sl_b64dec := fun t => chars_bytes (decode t) |}.
Lemma mini_scram_laws : ScramLaws (H := mini_scram).
Proof.
  split; cbn [sl_b64dec sl_b64enc sl_hmac mini_scram].
  - intros b Hb. rewrite decode_encode. by apply chars_string_bytes.
  - intros b. apply b64_fresh; [by vm_compute|done].
  - intros b. rewrite length_base64. unfold string_chars. by rewrite length_map.
  - intros d k m. rewrite length_take. pose proof (EVP_sha256_length (OpenSSLLaws := toy_ossl_laws) (k ++ m)) as H. cbn [EVP_sha256 toy_ossl] in H. rewrite H. by destruct d.
  - intros d k m. apply Forall_take. exact (EVP_sha256_bytes (OpenSSLLaws := toy_ossl_laws) (k ++ m)).
Qed.
(** A server that sends prepared replies, one for each frame it gets. *)
Record Script := { sc_replies : list bytes; sc_buffer : bytes }.
Definition script_socket : TlsSocket Script := {|
  ts_connect := fun _ _ c => (Ok tt, c);
  ts_close := fun c => c;
  ts_write := fun _ c => match sc_replies c with
                         | r :: rs => (true, {| sc_replies := rs; sc_buffer := sc_buffer c ++ r |})
                         | [] => (false, c) end;
  ts_read := fun n c => if (n <=? length (sc_buffer c))%nat
                        then (Some (take n (sc_buffer c)), {| sc_replies := sc_replies c; sc_buffer := drop n (sc_buffer c) |})
                        else (None, c) |}.
Definition scripted (replies : list (list (bytes * bson))) : Script :=
  {| sc_replies := map (op_reply (repeat 0 12) (repeat 0 4)) replies; sc_buffer := [] |}.
Lemma scripted_answers req reply rs : reply_ok reply -> answers (sock := script_socket) (scripted (reply :: rs)) req reply (scripted rs).
Proof.
  intros Hok. split; [done|]. intros sent _. exists (repeat 0 12), (repeat 0 4). split; [done|]. split; [done|].
  set (f := op_reply (repeat 0 12) (repeat 0 4) reply). assert (length f = length (enc_fields reply) + 26)%nat as Hl.
  { unfold f, op_reply. rewrite !length_app, length_le_bytes, length_finish, !repeat_length. cbn [length]. lia. }
  exists {| sc_replies := map (op_reply (repeat 0 12) (repeat 0 4)) rs; sc_buffer := f |},
         {| sc_replies := map (op_reply (repeat 0 12) (repeat 0 4)) rs; sc_buffer := drop 16 f |}.
  split; [done|]. cbn [ts_read script_socket sc_buffer sc_replies].
  destruct (Nat.leb_spec 16 (length f)); [|lia]. split; [done|].
  rewrite length_drop. destruct (Nat.leb_spec (length f - 16) (length f - 16)); [|lia].
  rewrite <- (length_drop f 16), firstn_all, drop_all. done.
Qed.

Lemma scram_proof_accepted_witness :
  exists final,
    client_final (scram := mini_scram) SHA1_MD (lit "node") (lit "secret") (lit "abc") (server_first (scram := mini_scram) (lit "abc") (lit "def") [1; 2; 255] 4096) = Ok final /\
    scram_accepts (scram := mini_scram) SHA1_MD
      (stored_key (scram := mini_scram) SHA1_MD (toy_digest (tb (password_data (scram := mini_scram) SHA1_MD (lit "node") (lit "secret")) ++ [1; 2; 255])))
      (lit "n=" ++ lit "node" ++ lit ",r=" ++ lit "abc") (server_first (scram := mini_scram) (lit "abc") (lit "def") [1; 2; 255] 4096) (lit "abc" ++ lit "def") final = true.
Proof.
  apply (scram_proof_accepted (scram := mini_scram) (laws := mini_scram_laws)).
  - apply (bool_decide_unpack _). vm_compute. exact I.
  - discriminate.
  - discriminate.
  - repeat (apply Forall_cons_2; [unfold is_u8; lia|]). apply Forall_nil_2.
  - lia.
  - reflexivity.
Defined.

(** A registry that holds this node, another one and an entry without a port. *)
Definition reg_opts : NodeOptions := {|
  o_network := "mainnet"; o_dataDir := "data"; o_rpcUser := "cdx"; o_rpcPassword := "cdx"; o_port := 0; o_rpcPort := 0;
  o_disableMining := true; o_connect := []; o_addnode := []; o_mongoUri := "mongodb://node:secret@db:27017/cdx"; o_mongoEnabled := true;
  o_externalAddr := ""; o_walletPassword := "cdx"; o_generate := false; o_generateBlocks := 0; o_miningAddress := "";
  o_rescan := false; o_createWallet := false |}.
Definition reg_peer (addr : string) : MongoPeer := {| mp_addr := lit addr; mp_network := lit "mainnet"; mp_lastSeen := 5 |}.
Definition reg_peers : list MongoPeer := [reg_peer "10.0.0.1:19333"; reg_peer "10.0.0.2:19333"; reg_peer "bad"].
Definition reg_challenge : list (bytes * bson) :=
  challenge_reply 1 (server_first (scram := mini_scram) (hex_bytes_text [7]) (lit "srv") [1; 2; 255] 4096).
Definition reg_conn : Script := scripted [OK_REPLY; reg_challenge; OK_REPLY; OK_REPLY; OK_REPLY; peers_reply reg_peers; OK_REPLY].
(** Closed documents. *)
Ltac fits :=
  repeat match goal with
  | |- reply_ok _ => split; [|vm_compute; discriminate]
  | |- fields_ok (_ :: _) => apply fields_ok_cons; [by vm_compute| |]
  | |- fields_ok [] => apply Forall_nil_2
  | |- bson_ok (BSub _ _) => apply bson_ok_sub; split; [auto|split; [by vm_compute|]]
  | |- bson_ok (BDbl _) => split; [unfold is_u64; lia|exists 1; by vm_compute]
  | |- bson_ok _ => cbn [bson_ok]; unfold is_i32, is_i64; (done || by vm_compute)
  end.
Lemma ok_reply_ok : reply_ok OK_REPLY.
Proof. unfold OK_REPLY. fits. Qed.
Lemma reg_challenge_ok : reply_ok reg_challenge.
Proof. unfold reg_challenge, challenge_reply. fits. Qed.
Lemma reg_peers_ok : reply_ok (peers_reply reg_peers).
Proof. unfold peers_reply, reg_peers. cbn [imap]. unfold peer_fields. fits. Qed.

Lemma registry_round_targets_witness :
  exists (m' : Mongo (Conn := Script)) s' out,
    registry_round (ossl := toy_ossl) (sock := script_socket) (scram := mini_scram) 0xCDA1CD01 (fun _ f => (true, f)) (fun _ _ => None) 0 1 (fun _ => Done None)
      reg_opts 19333 (lit "10.0.0.1") 1000000 [7] [8] (new_mongo reg_conn) {| sv_peers := ∅; sv_targets := [] |} = Done (m', s', out) /\
    chars_bytes (lit "10.0.0.2:19333") ∈ sv_targets s'.
Proof.
  destruct (registry_round_targets (ossl := toy_ossl) (sock := script_socket) (scram := mini_scram) (laws := mini_scram_laws)
      0xCDA1CD01 (fun _ f => (true, f)) (fun _ _ => None) 0 1 (fun _ => Done None)
      reg_opts 19333 (lit "10.0.0.1") 1000000 [7] [8] (new_mongo reg_conn) {| sv_peers := ∅; sv_targets := [] |}
      {| mu_srv := false; mu_user := lit "node"; mu_pass := lit "secret"; mu_host := lit "db"; mu_port := 27017; mu_db := lit "cdx"; mu_authSource := None |}
      (lit "db", 27017) [] reg_peers (scripted [OK_REPLY; peers_reply reg_peers; OK_REPLY]) (scripted [])) as (m' & s' & out & Hr & Ht & _).
  - vm_compute. reflexivity.
  - discriminate.
  - discriminate.
  - reflexivity.
  - discriminate.
  - apply Forall_cons_2; [unfold is_u8; lia|apply Forall_nil_2].
  - vm_compute. lia.
  - discriminate.
  - unfold is_i64. lia.
  - unfold is_i64. lia.
  - repeat (apply Forall_cons_2; [vm_compute; reflexivity|]). apply Forall_nil_2.
  - exists reg_conn, (scripted [reg_challenge; OK_REPLY; OK_REPLY; OK_REPLY; peers_reply reg_peers; OK_REPLY]), (scripted [OK_REPLY; OK_REPLY; peers_reply reg_peers; OK_REPLY]).
    split; [reflexivity|]. split; [apply scripted_answers, ok_reply_ok|]. split; [|apply scripted_answers, ok_reply_ok].
    exists (lit "srv"), [1; 2; 255], 4096, (toy_digest (tb (lit "secret") ++ [1; 2; 255])), 1, (scripted [OK_REPLY; OK_REPLY; OK_REPLY; peers_reply reg_peers; OK_REPLY]).
    split; [apply (bool_decide_unpack _); vm_compute; exact I|]. split; [vm_compute; reflexivity|]. split; [discriminate|].
    split; [repeat (apply Forall_cons_2; [unfold is_u8; lia|]); apply Forall_nil_2|]. split; [lia|]. split; [unfold is_i32; lia|]. split; [reflexivity|].
    split; [apply scripted_answers, reg_challenge_ok|]. intros final _. apply scripted_answers, ok_reply_ok.
  - exists (scripted [peers_reply reg_peers; OK_REPLY]), (scripted [OK_REPLY]).
    split; [apply scripted_answers, ok_reply_ok|]. split; [apply scripted_answers, reg_peers_ok|apply scripted_answers, ok_reply_ok].
  - exists m', s', out. split; [exact Hr|]. apply Ht. right. exists (reg_peer "10.0.0.2:19333"). split; [right; left|].
    split; [discriminate|]. exists (lit "10.0.0.2"), 19333. split; vm_compute; reflexivity.
Defined.

(** What the node registers without [-externaladdr]: the address the kernel
    routes from, with the port of the network, and nothing when any of the
    calls fails; in every case the descriptor that was opened, and no other, is
    closed exactly once. *)
Theorem detected_address opts port p : o_externalAddr opts = "" ->
  let '(ip, closed) := DetectLocalIp p in
  closed = (if ip_socket p <? 0 then [] else [ip_socket p]) /\
  (self_addr opts port ip <> [] <->
   0 <= ip_socket p /\ ip_pton p = true /\ ip_connect p = true /\ ip_getsockname p = true /\
   exists buf, ip_ntop p = Some buf /\ buf <> [] /\ self_addr opts port ip = host_port buf port).
Proof.
  intros Ho. unfold DetectLocalIp, self_addr. rewrite Ho. change (lit "") with ([] : text).
  destruct (Z.ltb_spec (ip_socket p) 0); [split; [done|naive_solver lia]|].
  destruct (ip_pton p), (ip_connect p), (ip_getsockname p); cbn [negb]; try (split; [done|naive_solver]).
  destruct (ip_ntop p) as [[|c buf]|]; (split; [done|]).
  - naive_solver.
  - split; [|by intros (_ & _ & _ & _ & b & [= <-] & _)]. intros _. split_and!; [done..|]. by exists (c :: buf).
  - naive_solver.
Qed.
