(* ===== verification/Node.v ===== *)
(** [main] of [bin/cdxd.cpp]: how a node is started from its options, its
    storage and its wallet file, what it runs, and what it writes when it
    stops.

    The wallet file is its contents, [None] when it cannot be opened.  Whether
    the P2P server can listen, whether files can be written, the clock and the
    random draws are arguments.  An exception that leaves [main] ends the
    program; it is [Err] here. *)
From Stdlib Require Import Ascii.
From S2P Require Import Prelude Config UInt256 Compact Crypto Encoding Value Keys KeyStore Mempool Chain Storage Mining Protocol Net Handlers Wallet Daemon Text Connect Rpc RpcMethods Registry.
Import Value Encoding.
Open Scope cdx_scope.

Section WalletFile.
Context {ossl : OpenSSL} {ec : EcKeys ossl} {cph : Cipher} (versionByte : Z).

(** The [try] block: the keystore is replaced before it is unlocked, and the
    result of [Unlock] is ignored. *)
Definition load_wallet (file : option bytes) (password salt : bytes) : outcome (bool * CKeystore) :=
  match file with
  | None => Done (false, new_keystore)
  | Some data =>
      match DeserializeKeystore data with
      | Err _ => Done (false, new_keystore)
      | Ok ks =>
          match Unlock password salt ks with
          | Done (Ok _, ks) => Done (true, ks)
          | Done (Err _, ks) => Done (false, ks)
          | Undef => Undef
          end
      end
  end.
(** [if (!walletLoaded && opts.createWallet)]; the last component is the wallet
    file afterwards. *)
Definition create_wallet (create writable : bool) (file : option bytes) (password salt : bytes) (draw : change_draw) (now : Z)
    (st : bool * CKeystore) : outcome (res (bool * CKeystore * option bytes)) :=
  let '(loaded, ks) := st in
  if negb loaded && create then
    match (_ ← Unlock password salt; GenerateNewAddress versionByte (cd_rand draw) (cd_iv draw) now) ks with
    | Done (Ok _, ks) => Done (Ok (true, ks, if writable then Some (SerializeKeystore ks) else file))
    | Done (Err e, _) => Done (Err e)
    | Undef => Undef
    end
  else Done (Ok (loaded, ks, file)).
Definition open_wallet (opts : NodeOptions) (writable : bool) (file : option bytes) (salt1 salt2 : bytes) (draw : change_draw) (now : Z) :
    outcome (res (bool * CKeystore * option bytes)) :=
  let password := chars_bytes (lit (o_walletPassword opts)) in
  st ← load_wallet file password salt1;
  create_wallet (o_createWallet opts) writable file password salt2 draw now st.
(** The end of [main]. *)
Definition close_wallet (loaded writable : bool) (ks : CKeystore) (file : option bytes) : option bytes :=
  if loaded && writable then Some (SerializeKeystore ks) else file.
End WalletFile.

(** [params] with the ports of the command line. *)
Definition main_params (o : NodeOptions) (p : ChainParams) : ChainParams :=
  let '(port, rpc) := main_ports o p in {|
  name := name p; genesisHashHex := genesisHashHex p; genesisNonce := genesisNonce p; networkMagic := networkMagic p;
  defaultPort := port; rpcPort := rpc; addressVersion := addressVersion p; privkeyVersion := privkeyVersion p;
  bech32Hrp := bech32Hrp p; initialBlockReward := initialBlockReward p; halvingInterval := halvingInterval p;
  targetBlockTime := targetBlockTime p; difficultyInterval := difficultyInterval p; maxAdjustment := maxAdjustment p;
  coinbaseMaturity := coinbaseMaturity p; maxSupplyBase := maxSupplyBase p; powNoRetarget := powNoRetarget p;
  allowMinDifficulty := allowMinDifficulty p; minDifficultyBits := minDifficultyBits p; maxBlockSize := maxBlockSize p;
  defaultFeeRate := defaultFeeRate p; seedNodes := seedNodes p; peerRegistryUri := peerRegistryUri p |}.
(** The URI of the registry thread; without one it is not started. *)
Definition registry_uri (o : NodeOptions) (p : ChainParams) : string :=
  match o_mongoUri o with
  | EmptyString => if o_mongoEnabled o then peerRegistryUri p else EmptyString
  | uri => uri
  end.
(** The miner's address: the one of the options, or the first of the wallet
    when the node mines. *)
Definition start_miner (o : NodeOptions) (p : ChainParams) (ks : CKeystore) : CMiner :=
  let miner := SetMiningAddress new_miner (lit (o_miningAddress o)) (addressVersion p) in
  match lit (o_miningAddress o), GetAddresses ks with
  | [], a :: _ => if o_disableMining o then miner else SetMiningAddress miner a (addressVersion p)
  | _, _ => miner
  end.

Section Main.
Context {ossl : OpenSSL} {ec : EcKeys ossl} {cph : Cipher} {St : Type} {stor : IStorage St}.
Context (write : list (Z * bytes) -> Z -> bytes -> bool * bytes) (dial : text -> Z -> option Z) (now localNonce : Z).

(** The loop over [-connect]. *)
Definition connect_target (magic : Z) (st : CNetServer * list (Z * bytes)) (c : string) : CNetServer * list (Z * bytes) :=
  match split_host_port (lit c) with
  | None => st
  | Some (host, port) =>
      let '(s, out) := AddTarget magic (write st.2) dial now localNonce st.1 host port in (s, st.2 ++ out)
  end.

(** The node as [main] sets it up, with the wallet file and the URI of the
    registry; [inl] is an exit code. *)
Definition node_start (opts : NodeOptions) (p : ChainParams) (store : St) (netUp writable : bool) (file : option bytes)
    (salt1 salt2 : bytes) (draw : change_draw) : outcome (res (Z + (RpcState (St := St) * bool * option bytes * string))) :=
  let params := main_params opts p in
  match Init params {| nd_chain := empty_chain; nd_store := store |} with
  | Undef => Undef
  | Done (Err _, _) => Done (Ok (inl 1))
  | Done (Ok _, n) =>
      w ← open_wallet (addressVersion params) opts writable file salt1 salt2 draw now;
      match w with
      | Err e => Done (Err e)
      | Ok (loaded, ks, file) =>
          match (if o_rescan opts && loaded then WalletRescan ks [] n else Done (Ok (0, []), n)) with
          | Undef => Undef
          | Done (Err e, _) => Done (Err e)
          | Done (Ok (_, history), n) =>
              if negb netUp then Done (Ok (inl 1))
              else
                let '(sv, out) := foldl (connect_target (networkMagic params)) ({| sv_peers := ∅; sv_targets := [] |}, []) (o_connect opts) in
                let '(miner, active) := (if o_disableMining opts then (start_miner opts params ks, false)
                                         else StartMiningThread (start_miner opts params ks) false) in
                Done (Ok (inr ({| r_d := {| d_node := n; d_pool := Clear; d_peers := sv_peers sv; d_sent := out; d_history := history |};
                                  r_targets := sv_targets sv; r_ks := ks; r_miner := miner; r_active := active |},
                               loaded, file, registry_uri opts params)))
          end
      end
  end.
(** After the loop that waits for the stop signal: the miner and the servers
    are stopped and the wallet is written. *)
Definition node_stop (s : RpcState (St := St)) (loaded writable : bool) (file : option bytes) : RpcState (St := St) * option bytes :=
  let '(miner, active) := StopMiningThread (r_miner s) (r_active s) in
  let s := with_miner s miner active in
  (with_server s (NetStop (net_of s)) [], close_wallet loaded writable (r_ks s) file).
End Main.

(** * The wallet file across a restart *)

Section WalletRestart.
Context {ossl : OpenSSL} {olaws : OpenSSLLaws ossl} {ec : EcKeys ossl} {ecl : EcKeysLaws ec} {cph : Cipher} {cl : CipherLaws cph}.
Context (versionByte : Z).
Abbreviation password opts := (chars_bytes (lit (o_walletPassword opts))).

Lemma load_saved opts ks m salt :
  keystore_wf ks -> holds (password opts) ks m -> length salt = 16%nat ->
  exists ks', load_wallet (Some (SerializeKeystore ks)) (password opts) salt = Done (true, ks') /\
    ks_locked ks' = false /\ holds (password opts) ks' m.
Proof.
  intros Hw Hh Hs. unfold load_wallet. rewrite keystore_reload by done. set (ks1 := {| ks_locked := true; ks_salt := ks_salt ks |}).
  assert (holds (password opts) ks1 m) as H1.
  { destruct Hh as [_ H1 H2]. split; [done| |done]. intros E. by destruct (H1 E). }
  destruct (Unlock_holds _ (password opts) ks1 m salt H1 (or_intror eq_refl) Hs) as (ks' & -> & Hl & Hh'). by exists ks'.
Qed.
Lemma create_new opts m0 file salt draw now w :
  length salt = 16%nat -> good_draw versionByte m0 draw -> m0 = ∅ ->
  exists ks d, create_wallet versionByte true w file (password opts) salt draw now (false, new_keystore) =
      Done (Ok (true, ks, if w then Some (SerializeKeystore ks) else file)) /\
    ks_locked ks = false /\ holds (password opts) ks {[address_of versionByte d := d]} /\ 0 < d < group_order.
Proof.
  intros Hs Hd ->. unfold create_wallet. cbn [negb andb].
  destruct (Unlock_holds (password opts) (password opts) new_keystore ∅ salt (new_keystore_holds _) (or_introl eq_refl) Hs) as (ks1 & E1 & Hl1 & Hh1).
  destruct (GenerateNewAddress_holds versionByte ks1 (password opts) ∅ Hh1 draw now Hd Hl1) as (ks2 & d & E2 & Hl2 & Hh2 & Hr & _).
  exists ks2, d. unfold mbind, KsM_bind. rewrite E1, E2. done.
Qed.

(** C24: the wallet survives a restart, and is created only on request.  What a
    node writes when it stops, it opens when it is started again with the same
    password, unlocked and with the same keys, and the file is left as it is.
    Without a file a node without [-createwallet] starts with no wallet and
    writes none when it stops; with the option it makes one key, unlocked
    under the password, and writes it.  A file that cannot be read is treated
    as no file: the option then overwrites it. *)
Theorem wallet_survives_restart opts w salt1 salt2 draw now :
  length salt1 = 16%nat -> length salt2 = 16%nat -> good_draw versionByte ∅ draw ->
  (forall ks m old, keystore_wf ks -> holds (password opts) ks m ->
     close_wallet true true ks old = Some (SerializeKeystore ks) /\
     exists ks', open_wallet versionByte opts w (Some (SerializeKeystore ks)) salt1 salt2 draw now =
         Done (Ok (true, ks', Some (SerializeKeystore ks))) /\
       ks_locked ks' = false /\ forall a, GetKey a ks' = Done (Ok (scalar_key <$> m !! a), ks')) /\
  (forall file, (forall data, file = Some data -> exists e, DeserializeKeystore data = Err e) ->
     if o_createWallet opts
     then exists ks d, open_wallet versionByte opts w file salt1 salt2 draw now =
              Done (Ok (true, ks, if w then Some (SerializeKeystore ks) else file)) /\
            ks_locked ks = false /\ holds (password opts) ks {[address_of versionByte d := d]}
     else open_wallet versionByte opts w file salt1 salt2 draw now = Done (Ok (false, new_keystore, file)) /\
          forall ks, close_wallet false w ks file = file).
Proof.
  intros Hs1 Hs2 Hd. split.
  - intros ks m old Hw Hh. split; [done|]. destruct (load_saved opts ks m salt1 Hw Hh Hs1) as (ks' & E & Hl & Hh').
    exists ks'. unfold open_wallet. rewrite E. split; [done|]. split; [done|]. intros a. by rewrite (GetKey_holds (password opts) ks' m), Hl.
  - intros file Hf. assert (load_wallet file (password opts) salt1 = Done (false, new_keystore)) as E.
    { unfold load_wallet. destruct file as [data|]; [|done]. by destruct (Hf data eq_refl) as [e ->]. }
    unfold open_wallet. rewrite E. cbn [mbind outcome_bind]. destruct (o_createWallet opts); [|done].
    destruct (create_new opts ∅ file salt2 draw now w Hs2 Hd eq_refl) as (ks & d & Ec & Hl & Hh & _). by exists ks, d.
Qed.
End WalletRestart.

(** * Backup files *)

Section BackupFile.
Context {ossl : OpenSSL} {ec : EcKeys ossl} {cph : Cipher}.

(** [SaveBackupFile] and [LoadBackupFile] of [wallet/backup.cpp] over the files
    by their path; the wallet is passed as a constant and stays as it is. *)
Definition backup_path (dataDir : string) : string := String.append dataDir "/wallets/cdx-wallet-backup.dat".
Definition SaveBackupFile (writable : bool) (files : gmap string bytes) (dataDir : string) (ks : CKeystore)
    (password salt : bytes) (ivs : nat -> bytes) : outcome (res string * gmap string bytes) :=
  match Backup password salt ivs ks with
  | Undef => Undef
  | Done (Err e, _) => Done (Err e, files)
  | Done (Ok backup, _) =>
      if writable then Done (Ok (backup_path dataDir), <[backup_path dataDir := backup]> files)
      else Done (Err "cannot open backup file", files)
  end.
(** The error text, empty for none, with the key store of the wallet. *)
Definition LoadBackupFile (files : gmap string bytes) (path : string) (password : bytes) (draw : restore_draw) :
    outcome (res (option string) * CKeystore) :=
  match files !! path with
  | None => Done (Ok (Some "cannot open backup file"), new_keystore)
  | Some data => Restore data password draw new_keystore
  end.

(** A saved backup, loaded again, is the wallet that was saved, whatever other
    files there are; when the file cannot be written nothing changes. *)
Theorem backup_file_roundtrip {olaws : OpenSSLLaws ossl} {ecl : EcKeysLaws ec} {cl : CipherLaws cph}
    files dataDir pw ks m bpw salt ivs draw :
  wallet_open wallet_default_version pw ks m -> (size m <= Z.to_nat 1000000)%nat -> (forall a, is_Some (m !! a) -> Z.of_nat (length a) < 2 ^ 64) ->
  length salt = 16%nat -> (forall i, length (ivs i) = 12%nat) -> good_restore_draw draw ->
  (exists files' path, SaveBackupFile true files dataDir ks bpw salt ivs = Done (Ok path, files') /\ delete path files' = delete path files /\
    exists ks', LoadBackupFile files' path bpw draw = Done (Ok None, ks') /\ holds bpw ks' m) /\
  SaveBackupFile false files dataDir ks bpw salt ivs = Done (Err "cannot open backup file", files).
Proof.
  intros Hw Hsz Ha Hs Hi Hd.
  destruct (backup_restores wallet_default_version pw ks m bpw salt ivs draw Hw Hsz Ha Hs Hi Hd) as (file & ks' & Hb & Hr & _ & Hh).
  unfold SaveBackupFile. rewrite Hb. split; [|done]. eexists _, _. split; [done|]. split; [by rewrite delete_insert_eq|].
  exists ks'. unfold LoadBackupFile. rewrite lookup_insert_eq. split; [exact Hr|]. by rewrite Z.eqb_refl in Hh.
Qed.
End BackupFile.

(** * The node after its start *)

Section Start.
Context {ossl : OpenSSL} {laws : OpenSSLLaws ossl} {ec : EcKeys ossl} {cph : Cipher}.
Context {St : Type} {stor : IStorage St} {slaws : StorageLaws St}.
Context (write : list (Z * bytes) -> Z -> bytes -> bool * bytes) (dial : text -> Z -> option Z) (now localNonce : Z).

Lemma rescan_reads_only params ks : forall n h, reads_only params (rescan_loop (St := St) ks n h).
Proof.
  induction n as [|n IH]; intros h; cbn [rescan_loop]; [apply reads_only_ret|].
  apply reads_only_bind; [apply reads_only_block|]. intros b. apply reads_only_bind; [apply IH|]. intros r. apply reads_only_ret.
Qed.
Lemma WalletRescan_reads params ks history : reads_only params (WalletRescan (St := St) ks history).
Proof.
  apply reads_only_get_bind. intros c Hc n Hn E. subst c.
  destruct (rescan_reads_only params ks (Z.to_nat (ch_height (nd_chain n) + 1)) 0 n Hn) as (r & n' & H & Hr & Hc').
  eexists _, n'. split; [|done]. unfold runs, mbind, NodeM_bind. rewrite H. reflexivity.
Qed.

(** The target a [-connect] argument stands for. *)
Definition option_target (c : string) (t : bytes) : Prop :=
  exists host port, split_host_port (lit c) = Some (host, port) /\ t = chars_bytes (host_port host port).
Lemma connect_targets_spec magic cs st :
  (forall t, t ∈ sv_targets (foldl (connect_target write dial now localNonce magic) st cs).1 <->
     t ∈ sv_targets st.1 \/ exists c, c ∈ cs /\ option_target c t) /\
  (NoDup (sv_targets st.1) -> NoDup (sv_targets (foldl (connect_target write dial now localNonce magic) st cs).1)).
Proof.
  revert st. induction cs as [|c cs IH]; intros st; cbn [foldl].
  - split; [|done]. intros t. split; [by left|]. by intros [|(p & []%not_elem_of_nil & _)].
  - destruct (IH (connect_target write dial now localNonce magic st c)) as [H1 H2].
    assert ((forall t, t ∈ sv_targets (connect_target write dial now localNonce magic st c).1 <-> t ∈ sv_targets st.1 \/ option_target c t) /\
            (NoDup (sv_targets st.1) -> NoDup (sv_targets (connect_target write dial now localNonce magic st c).1))) as [H3 H4].
    { unfold connect_target, option_target. destruct (split_host_port (lit c)) as [[host port]|].
      - pose proof (AddTarget_targets magic (write st.2) dial now localNonce st.1 host port) as H.
        destruct (AddTarget _ _ _ _ _ _ _ _) as [s out]. cbn [fst] in *. rewrite H. split; [|apply add_target_nodup].
        intros t. rewrite add_target_in. apply or_iff_compat_l. split; [intros ->; by eauto|]. by intros (h & q & [= <- <-] & ->).
      - split; [|done]. intros t. split; [by left|]. intros [|(h & q & ? & _)]; done. }
    split; [|by auto]. intros t. rewrite H1, H3. split.
    + intros [[|]|(q & Hq & Ht)]; [by left|right; exists c; split; [left|done]|right; exists q; split; [by right|done]].
    + intros [|(q & [->|Hq]%elem_of_cons & Ht)]; [by left; left|by left; right|right; by exists q].
Qed.

(** The node a start-up gives, on an empty data directory. *)
Lemma node_start_inv opts p store netUp writable file salt1 salt2 draw s loaded file' uri :
  LoadChainState store = None ->
  node_start write dial now localNonce opts p store netUp writable file salt1 salt2 draw = Done (Ok (inr (s, loaded, file', uri))) ->
  daemon_inv (main_params opts p) (r_d s).
Proof.
  intros Hl. unfold node_start. set (params := main_params opts p).
  destruct (Init params _) as [[[[]|] n]|] eqn:Hn; [|done..]. assert (reachable params n) as Hr by (by eapply reach_init).
  destruct (open_wallet _ _ _ _ _ _ _ _) as [[[[l ks] f]|]|]; cbn [mbind outcome_bind]; [|done..].
  assert (exists k hist n', (if o_rescan opts && l then WalletRescan ks [] n else Done (Ok (0, []), n)) = Done (Ok (k, hist), n') /\
            reachable params n') as (k & hist & n' & -> & Hr').
  { destruct (_ && _); [|by eexists _, _, _]. destruct (WalletRescan_reads params ks [] n Hr) as ([k h] & n' & H & H' & _).
    by exists k, h, n'. }
  destruct (negb netUp); [done|]. destruct (foldl _ _ _) as [sv out]. destruct (if o_disableMining opts then _ else _) as [miner active].
  intros [= <- _ _ _]. split; [done|apply pr_clear].
Qed.

(** C23: a node that starts is ready.  When the chain is initialised on an empty
    data directory, the wallet can be opened and the P2P server can listen,
    the start-up of the node completes, with or without a rescan of the wallet.
    The node it gives is one that the invariants of the chain and of the pool
    hold for (so every RPC method is safe in it), its targets are the hosts
    and ports of the [-connect] options, none twice, its wallet is the one
    that was opened, and the miner runs exactly when mining is enabled. *)
Theorem node_start_ready opts p store writable file salt1 salt2 draw n loaded ks file' :
  let params := main_params opts p in
  LoadChainState store = None ->
  runs (Init params) {| nd_chain := empty_chain; nd_store := store |} (Ok tt) n ->
  open_wallet (addressVersion params) opts writable file salt1 salt2 draw now = Done (Ok (loaded, ks, file')) ->
  exists s, node_start write dial now localNonce opts p store true writable file salt1 salt2 draw =
      Done (Ok (inr (s, loaded, file', registry_uri opts params))) /\
    daemon_inv params (r_d s) /\ nd_chain (d_node (r_d s)) = nd_chain n /\ r_ks s = ks /\
    (forall t, t ∈ r_targets s <-> exists c, c ∈ o_connect opts /\ option_target c t) /\ NoDup (r_targets s) /\
    m_running (r_miner s) = negb (o_disableMining opts).
Proof.
  intros params Hl Hn Hw. assert (reachable params n) as Hr by (by eapply reach_init).
  assert (exists k hist n', (if o_rescan opts && loaded then WalletRescan ks [] n else Done (Ok (0, []), n)) = Done (Ok (k, hist), n') /\
            reachable params n' /\ nd_chain n' = nd_chain n) as (k & hist & n' & Hre & Hr' & Hc).
  { destruct (_ && _); [|by eexists _, _, _]. destruct (WalletRescan_reads params ks [] n Hr) as ([k h] & n' & H & H').
    by exists k, h, n'. }
  unfold node_start. fold params. rewrite Hn, Hw. cbn [mbind outcome_bind]. rewrite Hre. cbn [negb].
  destruct (connect_targets_spec (networkMagic params) (o_connect opts) ({| sv_peers := ∅; sv_targets := [] |}, [])) as [H1 H2].
  destruct (foldl _ _ _) as [sv out]. cbn [fst sv_targets] in H1, H2.
  assert (m_running (start_miner opts params ks) = false) as Hm.
  { unfold start_miner. destruct (lit _), (GetAddresses ks); try done. by destruct (o_disableMining opts). }
  destruct (if o_disableMining opts then _ else _) as [miner active] eqn:Em.
  eexists. split; [reflexivity|]. cbn [r_d d_node d_pool r_ks r_targets r_miner]. split; [split; [done|apply pr_clear]|].
  split; [done|]. split; [done|]. split; [|split; [apply H2, NoDup_nil_2|]].
  - intros t. rewrite H1. split; [|by right]. by intros [[]%not_elem_of_nil|].
  - destruct (o_disableMining opts); [by injection Em as <- _|]. unfold StartMiningThread in Em. by injection Em as <- _.
Qed.
End Start.

(** * Witnesses *)

Section NodeWitnesses.
#[local] Existing Instance mini_ossl.
#[local] Existing Instance mini_ec.
#[local] Existing Instance toy_cipher.

Definition node_opts : NodeOptions := {|
  o_network := "testnet"; o_dataDir := "data"; o_rpcUser := "cdx"; o_rpcPassword := "cdx"; o_port := 0; o_rpcPort := 0;
  o_disableMining := false; o_connect := ["10.0.0.2:19334"; "nowhere"; "10.0.0.2:19334"]; o_addnode := []; o_mongoUri := ""; o_mongoEnabled := false;
  o_externalAddr := ""; o_walletPassword := "cdx"; o_generate := false; o_generateBlocks := 0; o_miningAddress := "";
  o_rescan := true; o_createWallet := true |}.
Lemma node_good_draw : good_draw wallet_default_version ∅ (wit_draws 0).
Proof.
  split; [|split; [reflexivity|]].
  - intros j b [= <-]. repeat (apply Forall_cons_2; [u_range|]). apply Forall_nil_2.
  - exists (scalar_key 77). split; vm_compute; reflexivity.
Qed.
Lemma wallet_survives_restart_witness :
  exists ks d, open_wallet wallet_default_version node_opts true None wit_salt wit_salt (wit_draws 0) 7 =
      Done (Ok (true, ks, Some (SerializeKeystore ks))) /\
    holds (chars_bytes (lit "cdx")) ks {[address_of wallet_default_version d := d]}.
Proof.
  destruct (proj2 (wallet_survives_restart wallet_default_version node_opts true wit_salt wit_salt (wit_draws 0) 7 eq_refl eq_refl node_good_draw)
    None ltac:(discriminate)) as (ks & d & E & _ & Hh).
  exists ks, d. split; [exact E|exact Hh].
Defined.

Definition start_node : Node MemStorage := run_state (Init (main_params node_opts TESTNET)) wit_start.
Lemma start_node_ok : runs (Init (main_params node_opts TESTNET)) wit_start (Ok tt) start_node.
Proof. apply run_ok_unit. vm_compute. reflexivity. Qed.
Lemma node_start_ready_witness :
  exists s loaded file uri,
    node_start (St := MemStorage) good_write (fun _ _ => None) 7 1 node_opts TESTNET (nd_store wit_start) true true None wit_salt wit_salt (wit_draws 0)
      = Done (Ok (inr (s, loaded, file, uri))) /\ NoDup (r_targets s) /\ chars_bytes (lit "10.0.0.2:19334") ∈ r_targets s.
Proof.
  destruct (open_wallet (addressVersion (main_params node_opts TESTNET)) node_opts true None wit_salt wit_salt (wit_draws 0) 7) as [[[[l ks] f]|e]|] eqn:E;
    [|vm_compute in E; discriminate E..].
  pose proof (node_start_ready (St := MemStorage) good_write (fun _ _ => None) 7 1 node_opts TESTNET (nd_store wit_start) true None wit_salt wit_salt (wit_draws 0)
    start_node l ks f) as H; specialize (H ltac:(reflexivity) start_node_ok E); destruct H as (s & Hs & _ & _ & _ & Ht & Hd & _).
  exists s, l, f, (registry_uri node_opts (main_params node_opts TESTNET)). split; [exact Hs|]. split; [exact Hd|].
  apply Ht. exists "10.0.0.2:19334". split; [left|]. exists (lit "10.0.0.2"), 19334. split; vm_compute; reflexivity.
Defined.
(** A damaged wallet file is replaced when the node is started with
    [-createwallet]. *)
Example damaged_wallet_overwritten :
  match open_wallet wallet_default_version node_opts true (Some (drop 1 (SerializeKeystore wit_store))) wit_salt wit_salt (wit_draws 0) 7 with
  | Done (Ok (true, ks, Some file)) => GetAddresses ks <> GetAddresses wit_store /\ file = SerializeKeystore ks
  | _ => False
  end.
Proof. vm_compute. split; [discriminate|reflexivity]. Qed.
End NodeWitnesses.
