(* ===== verification/System.v ===== *)
(** The node as a whole: everything that [main] of [bin/cdxd.cpp] starts, running
    at the same time on one state.  The message handlers, the RPC server, the
    mining thread, the registry thread, the connecting thread and peers that
    come and go take turns in any order: the mutexes of the chain and of the
    peer table make each of these steps atomic. *)
From Stdlib Require Import Ascii.
From S2P Require Import Prelude Config UInt256 Compact Consensus Ripemd160 Crypto Transaction Encoding Value Script Utxo Block Validation Keys KeyStore Mempool Chain Storage Mining Protocol Net Handlers Wallet Daemon Text Connect Rpc RpcMethods RpcServer Bson Dns Mongo Registry Node.
Import uint256 Rewards Value.
Open Scope cdx_scope.

Section System.
Context {ossl : OpenSSL} {ec : EcKeys ossl} {cph : Cipher} {St : Type} {stor : IStorage St}.
Context {Conn : Type} {sock : TlsSocket Conn} {scram : ScramLib}.
Context (params : ChainParams) (user pass : text) (localNonce : Z) (write : list (Z * bytes) -> Z -> bytes -> bool * bytes).
Context (difficulty_text feerate_text : Z -> text) (sort : list SelectedInput -> list SelectedInput) (fuel : nat).
Abbreviation state := (RpcState (St := St)).
Abbreviation magic := (networkMagic params).

(** The thread ends, and its flag is cleared, when the loop breaks. *)
Definition after_round (s : state) (e : round_end) (m : CMiner) (d : Daemon St) : state :=
  with_miner (with_d s d) m (match e with RoundBreak => false | RoundNext => r_active s end).

(** A step of one of the threads.  Beyond height 2^63 - 2 the next height
    overflows. *)
Inductive sys_step (s : state) : state -> Prop :=
| sys_message now msg n n' d : handle params now write msg (n, r_d s) = Done (tt, (n', d)) -> sys_step s (with_d s d)
| sys_peers peers : sys_step s (with_d s (with_net (r_d s) peers []))
| sys_rpc w evs sends out s' :
    serve_client (node_server params localNonce write difficulty_text feerate_text sort fuel user pass w) evs sends s = Some (Done (out, s')) ->
    sys_step s s'
| sys_mine rounds stop garbage now gen e m d : r_active s = true -> ch_height (nd_chain (d_node (r_d s))) < 2 ^ 63 - 1 ->
    RunMinerLoop_round params rounds stop garbage now write gen (r_miner s) (r_d s) = Some (Done (e, m, d)) ->
    sys_step s (after_round s e m d)
| sys_registry dial netNow lookup opts port ip now rnd1 rnd2 (m m' : Mongo (Conn := Conn)) sv out :
    registry_round magic (write (d_sent (r_d s))) dial netNow localNonce lookup opts port ip now rnd1 rnd2 m (net_of s) = Done (m', sv, out) ->
    sys_step s (with_server s sv out)
| sys_redial dial netNow sv out :
    ConnectLoop_round magic (write (d_sent (r_d s))) dial netNow localNonce (net_of s) = (sv, out) -> sys_step s (with_server s sv out).

Context {laws : OpenSSLLaws ossl} {slaws : StorageLaws St}.

Lemma server_keeps (s : state) sv out : rpc_inv params s -> rpc_inv params (with_server s sv out).
Proof. done. Qed.
(** Every step keeps the invariant of the node and the wallet's addresses. *)
Lemma sys_step_inv s s' : params_ok params -> rpc_inv params s -> sys_step s s' ->
  rpc_inv params s' /\ dom (ks_keys (r_ks s)) ⊆ dom (ks_keys (r_ks s')).
Proof.
  intros Hp H [now msg n n' d E|peers|w evs sends out s1 E|rounds stop garbage now gen e m d Ha Hh E|dial netNow lookup opts port ip now rnd1 rnd2 m m' sv out E|dial netNow sv out E].
  - pose proof (handle_inv params now write msg (n, r_d s) Hp H) as Hk. unfold wp in Hk. rewrite E in Hk. by split.
  - by split.
  - pose proof (serve_client_step params localNonce write difficulty_text feerate_text sort fuel user pass w evs sends s H) as Hs.
    rewrite E in Hs. destruct Hs as (Hi & _ & Hd). by split.
  - pose proof (miner_round_inv params rounds stop garbage now write gen (r_miner s) (r_d s) Hp H Hh) as Hm. rewrite E in Hm. by split.
  - by split.
  - by split.
Qed.
Lemma sys_inv s s' : params_ok params -> rpc_inv params s -> rtc sys_step s s' ->
  rpc_inv params s' /\ dom (ks_keys (r_ks s)) ⊆ dom (ks_keys (r_ks s')).
Proof.
  intros Hp H Hs. induction Hs as [s|s s1 s' Hst _ IH]; [done|].
  destruct (sys_step_inv s s1 Hp H Hst) as [H1 Hd1]. destruct (IH H1) as [H2 Hd2]. split; [done|by etransitivity].
Qed.
End System.

(** * Properties *)

Section SystemProperties.
Context {ossl : OpenSSL} {laws : OpenSSLLaws ossl} {ec : EcKeys ossl} {cph : Cipher}.
Context {St : Type} {stor : IStorage St} {slaws : StorageLaws St} {Conn : Type} {sock : TlsSocket Conn} {scram : ScramLib}.
Context (localNonce : Z) (write : list (Z * bytes) -> Z -> bytes -> bool * bytes) (difficulty_text feerate_text : Z -> text).
Context (sort : list SelectedInput -> list SelectedInput) (fuel : nat).

Lemma main_params_ok opts p : params_ok p -> params_ok (main_params opts p).
Proof. done. Qed.

(** C2: nothing the node does inflates the coin supply.  A node is started on an
    empty data directory; then messages from peers, RPC clients with or without
    credentials, rounds of its miner, of the registry and of the connecting
    thread, and peers that come and go follow each other in any order, at any
    times and over connections that behave in any way.  In every state it gets
    to, the value of all coins is at most the subsidies of the active chain and
    21 million coins; every pool transaction is valid and no two of them spend
    the same output; and every address the wallet had at the start is there. *)
Theorem node_cannot_inflate opts p user pass store dial now netUp writable file salt1 salt2 draw s0 loaded file' uri s :
  params_ok p -> LoadChainState store = None ->
  node_start write dial now localNonce opts p store netUp writable file salt1 salt2 draw = Done (Ok (inr (s0, loaded, file', uri))) ->
  rtc (sys_step (Conn := Conn) (main_params opts p) user pass localNonce write difficulty_text feerate_text sort fuel) s0 s ->
  let c := nd_chain (d_node (r_d s)) in let pool := d_pool (r_d s) in
  0 <= TotalValue (ch_view c) <= subsidy_sum (Z.to_nat (ch_height c + 1)) /\
  TotalValue (ch_view c) <= Rules.MAX_MONEY /\
  (forall id e, mapTx pool !! id = Some e -> id = GetTxID (e_tx e) /\ tx_valid (e_tx e)) /\
  (forall id1 id2 e1 e2 o, mapTx pool !! id1 = Some e1 -> mapTx pool !! id2 = Some e2 ->
     o ∈ prevouts (e_tx e1) -> o ∈ prevouts (e_tx e2) -> id1 = id2) /\
  dom (ks_keys (r_ks s0)) ⊆ dom (ks_keys (r_ks s)).
Proof.
  intros Hp Hl Hs0%node_start_inv Hs; [|done].
  destruct (sys_inv _ _ _ _ _ _ _ _ _ s0 s (main_params_ok opts p Hp) Hs0 Hs) as [Hi Hd].
  destruct (daemon_inv_money _ _ Hi) as (H1 & H2 & H3 & H4). done.
Qed.

End SystemProperties.

(** * Witnesses *)

Section SystemWitnesses.
#[local] Existing Instance mini_ossl.
#[local] Existing Instance mini_ec.
#[local] Existing Instance toy_cipher.

Abbreviation sys_start := (node_start (St := MemStorage) good_write (fun _ _ => None) 7 1 node_opts TESTNET (nd_store wit_start) true true None
  wit_salt wit_salt (wit_draws 0)).
Definition sys_world : surroundings := {|
  su_now := 7; su_dial := fun _ _ => None; su_rand := fun _ => Some (repeat 0 31 ++ [78]); su_iv := wit_iv; su_draws := wit_draws |}.
Abbreviation sys_server := (node_server (St := MemStorage) (main_params node_opts TESTNET) 1 good_write to_string to_string (fun l => l) 9
  (lit "cdx") (lit "cdx") sys_world).
(** The node is started and answers one client. *)
Definition sys_answer : option (RpcState (St := MemStorage) * RpcState (St := MemStorage)) :=
  match sys_start with
  | Done (Ok (inr (s0, _, _, _))) =>
      match serve_client sys_server (server_events (http_request (ses_client "cdx") (request_body (lit "getnewaddress") []))) [Sent 999] s0 with
      | Some (Done (_, s)) => Some (s0, s)
      | _ => None
      end
  | _ => None
  end.
Lemma sys_answered : exists s0 s, sys_answer = Some (s0, s).
Proof.
  assert (match sys_answer with Some _ => true | None => false end = true) as H by (vm_compute; reflexivity). revert H. generalize sys_answer.
  intros [[s0 s]|] H; [by exists s0, s|discriminate H].
Qed.
Lemma sys_answer_inv s0 s : sys_answer = Some (s0, s) ->
  exists l f u out, sys_start = Done (Ok (inr (s0, l, f, u))) /\
    serve_client sys_server (server_events (http_request (ses_client "cdx") (request_body (lit "getnewaddress") []))) [Sent 999] s0 = Some (Done (out, s)).
Proof.
  unfold sys_answer. generalize sys_start. intros [[[code|[[[s1 l] f] u]]|e]|]; [discriminate| |discriminate..].
  match goal with |- context [serve_client ?a ?b ?c s1] => destruct (serve_client a b c s1) as [[[out s2]|]|] eqn:Ec end; [|discriminate..].
  intros [= -> ->]. exists l, f, u, out. split; [reflexivity|exact Ec].
Qed.
Lemma node_cannot_inflate_witness :
  exists s0 s, sys_answer = Some (s0, s) /\ TotalValue (ch_view (nd_chain (d_node (r_d s)))) <= Rules.MAX_MONEY.
Proof.
  destruct sys_answered as (s0 & s & E). exists s0, s. split; [exact E|].
  destruct (sys_answer_inv s0 s E) as (l & f & u & out & Es & Ec).
  refine (proj1 (proj2 (node_cannot_inflate (sock := script_socket) (scram := mini_scram) 1 good_write to_string to_string (fun l => l) 9 node_opts TESTNET (lit "cdx") (lit "cdx")
    (nd_store wit_start) (fun _ _ => None) 7 true true None wit_salt wit_salt (wit_draws 0) s0 l f u s (GetParams_ok "testnet") eq_refl Es _))).
  eapply rtc_once, sys_rpc. exact Ec.
Defined.

(** [main] saves the wallet when it creates it and after a loop that nothing
    ends.  The node makes an address for a client and is killed: the next start
    opens the file of the first and knows one address of the two. *)
Example new_address_lost :
  match sys_start, sys_answer with
  | Done (Ok (inr (_, _, file, _))), Some (_, s) =>
      match open_wallet (addressVersion (main_params node_opts TESTNET)) node_opts true file wit_salt wit_salt (wit_draws 1) 8 with
      | Done (Ok (true, ks, _)) => length (GetAddresses (r_ks s)) = 2%nat /\ length (GetAddresses ks) = 1%nat
      | _ => False
      end
  | _, _ => False
  end.
Proof. vm_compute. split; reflexivity. Qed.
End SystemWitnesses.
