(* ===== verification/Tls.v ===== *)
(** [TlsSocket] of [storage/mongo.cpp]: the loops that read and write whole
    buffers, and the descriptors and OpenSSL objects that [Connect] and
    [Close] take and release.

    The calls into the C library and OpenSSL are events: what [SSL_read] and
    [SSL_write] return, which addresses can be connected, whether the context,
    the session and the handshake succeed.  A socket with such events is the
    instance [tls_stream] of the interface that the client of [Mongo] uses. *)
From Stdlib Require Import Ascii.
From S2P Require Import Prelude Config Compact Crypto Block Value KeyStore Net Daemon Text Connect Rpc Bson Dns Mongo Registry.
Import Value Bson.
Open Scope cdx_scope.

(** * Reading and writing *)

(** What a call of [SSL_read] finds: bytes, [SSL_ERROR_WANT_READ] or
    [SSL_ERROR_WANT_WRITE], or another error. *)
Inductive ssl_event := SslData (bs : bytes) | SslWant | SslFail.

(** [ReadExact] of [n] bytes: the result and what is left; [None] while the
    connection has nothing more to say, where the loop goes on waiting. *)
Fixpoint ReadExact (evs : list ssl_event) (n : nat) : option (option bytes * list ssl_event) :=
  match n with
  | O => Some (Some [], evs)
  | S _ =>
      match evs with
      | [] => None
      | SslWant :: r => ReadExact r n
      | SslFail :: r => Some (None, r)
      | SslData bs :: r =>
          if (n <? length bs)%nat then Some (Some (take n bs), SslData (drop n bs) :: r)
          else match ReadExact r (n - length bs)%nat with
               | Some (Some tl, r') => Some (Some (bs ++ tl), r')
               | other => other
               end
      end
  end.
(** [WriteAll]: [results] are the returns of [SSL_write]; the result, the bytes
    that were taken, and the returns that are left. *)
Fixpoint WriteAll (results : list Z) (data : bytes) : option (bool * bytes * list Z) :=
  match data with
  | [] => Some (true, [], results)
  | _ =>
      match results with
      | [] => None
      | n :: r =>
          if n <=? 0 then Some (false, [], r)
          else match WriteAll r (drop (Z.to_nat n) data) with
               | Some (ok, out, r') => Some (ok, take (Z.to_nat n) data ++ out, r')
               | None => None
               end
      end
  end.

(** The bytes the peer sends before an error. *)
Fixpoint content (evs : list ssl_event) : bytes :=
  match evs with
  | [] | SslFail :: _ => []
  | SslWant :: r => content r
  | SslData bs :: r => bs ++ content r
  end.

(** Reading does not depend on how the peer's bytes are cut into records: when
    enough of them come, [ReadExact] returns exactly the next [n] and leaves
    the rest. *)
Theorem read_exact_stream evs n : (n <= length (content evs))%nat ->
  exists evs', ReadExact evs n = Some (Some (take n (content evs)), evs') /\ content evs' = drop n (content evs).
Proof.
  revert n. induction evs as [|[bs| |] r IH]; intros n Hn; cbn [content] in *.
  - cbn [length] in Hn. assert (n = 0)%nat as -> by lia. by exists [].
  - destruct n as [|k]; [by exists (SslData bs :: r)|]. rewrite length_app in Hn. cbn [ReadExact].
    destruct (Nat.ltb_spec (S k) (length bs)).
    + eexists. split; [by rewrite take_app_le by lia|]. cbn [content]. by rewrite drop_app_le by lia.
    + destruct (IH (S k - length bs)%nat) as (evs' & -> & Hc); [lia|]. exists evs'. by rewrite take_app_ge, drop_app_ge by lia.
  - destruct n as [|k]; [by exists (SslWant :: r)|]. cbn [ReadExact]. by apply IH.
  - cbn [length] in Hn. assert (n = 0)%nat as -> by lia. by exists (SslFail :: r).
Qed.
(** A write that succeeds has handed over all of the buffer, in order, and a
    failed one a prefix of it. *)
Theorem write_all_stream results data ok out left : WriteAll results data = Some (ok, out, left) ->
  (ok = true -> out = data) /\ out `prefix_of` data.
Proof.
  revert data ok out. induction results as [|n r IH]; intros [|b data] ok out; cbn [WriteAll]; try done.
  - by intros [= <- <- _].
  - by intros [= <- <- _].
  - destruct (Z.leb_spec n 0); [intros [= <- <- _]; split; [done|apply prefix_nil]|].
    destruct (WriteAll r _) as [[[ok' out'] left']|] eqn:E; [|done]. intros [= <- <- <-]. apply IH in E as [H1 H2]. split.
    + intros Hok. rewrite (H1 Hok). apply take_drop.
    + destruct H2 as [tl Ht]. exists tl. by rewrite <- (assoc_L (++)), <- Ht, take_drop.
Qed.

(** * Descriptors and objects *)

(** The members of the socket, with the descriptors and the contexts and
    sessions of OpenSSL that are alive in the process. *)
Record Tls := { t_fd : option Z; t_ctx : bool; t_ssl : bool; t_open : gset Z; t_ctxs : nat; t_ssls : nat }.
Definition fresh_tls (open : gset Z) : Tls := {| t_fd := None; t_ctx := false; t_ssl := false; t_open := open; t_ctxs := 0; t_ssls := 0 |}.

(** The outcome of the calls [Connect] makes.  An address gives no socket, or
    a descriptor and whether [connect] succeeds on it; a handshake fails with
    the text of OpenSSL's error. *)
Record tls_dial := { td_resolves : bool; td_addrs : list (option (Z * bool)); td_ctx : bool; td_ssl : bool;
  td_handshake : option string }.
(** The loop over the addresses: the connected descriptor, the others closed. *)
Fixpoint dial_loop (addrs : list (option (Z * bool))) (open : gset Z) : option Z * gset Z :=
  match addrs with
  | [] => (None, open)
  | None :: r => dial_loop r open
  | Some (fd, true) :: _ => (Some fd, {[fd]} ∪ open)
  | Some (fd, false) :: r => dial_loop r (({[fd]} ∪ open) ∖ {[fd]})
  end.
Definition Close (t : Tls) : Tls := {|
  t_fd := None; t_ctx := false; t_ssl := false;
  t_open := match t_fd t with Some fd => t_open t ∖ {[fd]} | None => t_open t end;
  t_ctxs := if t_ctx t then pred (t_ctxs t) else t_ctxs t;
  t_ssls := if t_ssl t then pred (t_ssls t) else t_ssls t |}.
Definition tls_connect (host : text) (port : Z) (d : tls_dial) (t : Tls) : res unit * Tls :=
  if negb (td_resolves d) then (Err (String.append "resolve failed: " (of_text host)), t)
  else match dial_loop (td_addrs d) (t_open t) with
       | (None, open) =>
           (Err (String.append "connect failed: " (of_text (host_port host port))),
            {| t_fd := t_fd t; t_ctx := t_ctx t; t_ssl := t_ssl t; t_open := open; t_ctxs := t_ctxs t; t_ssls := t_ssls t |})
       | (Some fd, open) =>
           if negb (td_ctx d) then
             (Err "ssl ctx failed",
              {| t_fd := t_fd t; t_ctx := false; t_ssl := t_ssl t; t_open := open ∖ {[fd]}; t_ctxs := t_ctxs t; t_ssls := t_ssls t |})
           else if negb (td_ssl d) then
             (Err "ssl new failed",
              {| t_fd := t_fd t; t_ctx := true; t_ssl := false; t_open := open ∖ {[fd]}; t_ctxs := S (t_ctxs t); t_ssls := t_ssls t |})
           else
             let t := {| t_fd := t_fd t; t_ctx := true; t_ssl := true; t_open := open; t_ctxs := S (t_ctxs t); t_ssls := S (t_ssls t) |} in
             match td_handshake d with
             | Some e => (Err (String.append "TLS handshake failed: " e), Close t)
             | None => (Ok (), {| t_fd := Some fd; t_ctx := true; t_ssl := true; t_open := open; t_ctxs := t_ctxs t; t_ssls := t_ssls t |})
             end
       end.

(** The kernel gives descriptors that are not in use. *)
Definition fresh_fds (d : tls_dial) (open : gset Z) : Prop := forall fd ok, Some (fd, ok) ∈ td_addrs d -> fd ∉ open.
Lemma dial_loop_spec addrs open : (forall fd ok, Some (fd, ok) ∈ addrs -> fd ∉ open) ->
  match dial_loop addrs open with
  | (None, open') => open' = open
  | (Some fd, open') => open' = {[fd]} ∪ open /\ fd ∉ open
  end.
Proof.
  revert open. induction addrs as [|[[fd []]|] r IH]; intros open Hf; cbn [dial_loop]; [done| | |].
  - split; [done|]. apply (Hf fd true). left.
  - assert (({[fd]} ∪ open) ∖ {[fd]} = open) as ->; [|apply IH; intros fd' ok H; apply (Hf fd' ok); by right].
    assert (fd ∉ open) by (apply (Hf fd false); left). set_solver.
  - apply IH. intros fd' ok H. apply (Hf fd' ok). by right.
Qed.

(** Resources of a connection.  From a closed socket, a connection that
    succeeds owns one descriptor, one context and one session, and closing it
    releases all of them.  When it fails, closing the socket also leaves
    things as they were, except after a failed handshake: [Close] runs before
    the descriptor is recorded in the socket, and the descriptor stays open
    for good. *)
Theorem tls_resources host port d open : fresh_fds d open ->
  let '(r, t) := tls_connect host port d (fresh_tls open) in
  let ok := match r with Ok _ => true | Err _ => false end in
  let leaked := td_resolves d && negb ok && td_ctx d && td_ssl d in
  t_ctxs (Close t) = 0%nat /\ t_ssls (Close t) = 0%nat /\
  match (dial_loop (td_addrs d) open).1 with
  | Some fd => (ok = true -> t_fd t = Some fd /\ t_open t = {[fd]} ∪ open) /\
               t_open (Close t) = if leaked then {[fd]} ∪ open else open
  | None => ok = false /\ t_open (Close t) = open
  end.
Proof.
  intros Hf. pose proof (dial_loop_spec (td_addrs d) open Hf) as Hd. unfold tls_connect. cbn [t_open fresh_tls].
  destruct (dial_loop (td_addrs d) open) as [[fd|] open'].
  - destruct Hd as [-> Hfd]. assert (({[fd]} ∪ open) ∖ {[fd]} = open) as E by set_solver.
    destruct (td_resolves d), (td_ctx d), (td_ssl d), (td_handshake d); cbn; rewrite ?E; split_and!; done.
  - subst open'. destruct (td_resolves d); cbn; split_and!; done.
Qed.
Example handshake_leaks_descriptor :
  let d := {| td_resolves := true; td_addrs := [Some (7, true)]; td_ctx := true; td_ssl := true; td_handshake := Some "certificate verify failed" |} in
  forall host port, 7 ∈ t_open (Close (tls_connect host port d (fresh_tls ∅)).2).
Proof. intros d host port. vm_compute. set_solver. Qed.

(** * The socket of the registry client *)

(** A socket: the object, what the peer sends, what [SSL_write] returns, what
    was written, and the connections that can still be made. *)
Record TlsConn := {
  tc_tls : Tls; tc_in : list ssl_event; tc_results : list Z; tc_out : bytes; tc_dials : list (tls_dial * list ssl_event * list Z) }.
Definition with_in (c : TlsConn) (evs : list ssl_event) : TlsConn :=
  {| tc_tls := tc_tls c; tc_in := evs; tc_results := tc_results c; tc_out := tc_out c; tc_dials := tc_dials c |}.
Definition with_out (c : TlsConn) (ws : list Z) (out : bytes) : TlsConn :=
  {| tc_tls := tc_tls c; tc_in := tc_in c; tc_results := ws; tc_out := tc_out c ++ out; tc_dials := tc_dials c |}.
(** A call that waits for ever is not distinguished from one that fails; the
    theorem below is about calls that return. *)
#[export] Instance tls_stream : TlsSocket TlsConn := {|
  ts_connect host port c :=
    match tc_dials c with
    | [] => (Err (String.append "resolve failed: " (of_text host)), c)
    | (d, evs, ws) :: r =>
        let '(res, t) := tls_connect host port d (tc_tls c) in
        (res, {| tc_tls := t; tc_in := evs; tc_results := ws; tc_out := []; tc_dials := r |})
    end;
  ts_close c := {| tc_tls := Close (tc_tls c); tc_in := []; tc_results := []; tc_out := tc_out c; tc_dials := tc_dials c |};
  ts_write b c :=
    match WriteAll (tc_results c) b with
    | Some (ok, out, ws) => (ok, with_out c ws out)
    | None => (false, c)
    end;
  ts_read n c :=
    match ReadExact (tc_in c) n with
    | Some (r, evs) => (r, with_in c evs)
    | None => (None, c)
    end
|}.

(** A command and its reply over TLS.  However the server's bytes are cut into
    records, and however many calls the write takes: when the write goes
    through and what the server sends begins with an OP_MSG reply, the command
    returns what the document of the reply says, has sent exactly its frame,
    and leaves what follows the reply to be read. *)
Theorem command_over_tls (m : Mongo (Conn := TlsConn)) body ids flags fs rest out left :
  length ids = 12%nat -> length flags = 4%nat -> reply_ok fs ->
  content (tc_in (mg_conn m)) = op_reply ids flags fs ++ rest ->
  WriteAll (tc_results (mg_conn m)) (BuildOpMsg (mg_requestId m) body) = Some (true, out, left) ->
  exists c', Command body m = Done (check_reply (fields_of fs), asked m c') /\
    content (tc_in c') = rest /\ tc_out c' = tc_out (mg_conn m) ++ BuildOpMsg (mg_requestId m) body.
Proof.
  intros Hi Hf Hok Hin Hw. destruct (write_all_stream _ _ _ _ _ Hw) as [Hout _]. specialize (Hout eq_refl).
  set (reply := op_reply ids flags fs) in *.
  assert (16 <= length reply)%nat as Hl.
  { unfold reply, op_reply. rewrite !length_app, length_le_bytes, Hi. lia. }
  destruct (read_exact_stream (tc_in (mg_conn m)) 16) as (e1 & H1 & C1); [rewrite Hin, length_app; lia|].
  rewrite Hin, take_app_le in H1 by lia. rewrite Hin, drop_app_le in C1 by lia.
  destruct (read_exact_stream e1 (length reply - 16)) as (e2 & H2 & C2); [rewrite C1, length_app, length_drop; lia|].
  rewrite C1, take_app_length' in H2 by (by rewrite length_drop). rewrite C1, drop_app_length' in C2 by (by rewrite length_drop).
  exists (with_in (with_out (mg_conn m) left out) e2). split; [|by rewrite <- Hout].
  apply (Command_reply m body ids flags fs); [done|done|done|]. fold reply.
  exists (with_out (mg_conn m) left out), (with_in (with_out (mg_conn m) left out) e1).
  cbn [ts_write ts_read tls_stream]. rewrite Hw. split; [done|]. cbn [with_out with_in tc_in]. rewrite H1. split; [done|].
  cbn [with_out with_in tc_in]. by rewrite H2.
Qed.

Definition wit_tls_reply : bytes := op_reply (repeat 0 12) (repeat 0 4) OK_REPLY.
Definition wit_tls_client : Mongo (Conn := TlsConn) := {|
  mg_conn := {| tc_tls := fresh_tls ∅; tc_in := [SslData (take 5 wit_tls_reply); SslWant; SslData (drop 5 wit_tls_reply ++ [9])];
                tc_results := [10; 1000]; tc_out := []; tc_dials := [] |};
  mg_db := []; mg_authSource := []; mg_requestId := 1; mg_connected := true |}.
Lemma command_over_tls_witness :
  exists c', Command (bson_finish bson_new) wit_tls_client = Done (check_reply (fields_of OK_REPLY), asked wit_tls_client c') /\
    content (tc_in c') = [9] /\ tc_out c' = BuildOpMsg 1 (bson_finish bson_new).
Proof.
  refine (command_over_tls wit_tls_client (bson_finish bson_new) (repeat 0 12) (repeat 0 4) OK_REPLY [9] (BuildOpMsg 1 (bson_finish bson_new)) [] _ _ _ _ _).
  - reflexivity.
  - reflexivity.
  - exact ok_reply_ok.
  - reflexivity.
  - reflexivity.
Defined.
