(* ===== verification/UInt160.v ===== *)
(** [uint160] of [crypto/uint256.h], the 160-bit hash in three words, and the
    operators of [uint256] that the rest of the development does not call: the
    all-ones test, the boolean tests and the compound assignments. *)
From Stdlib Require Import Ascii.
From S2P Require Import Prelude UInt256 Compact Ripemd160 Crypto.
Import uint256.

(** ** [uint256::isMax] *)
Definition isMax (u : uint256) : bool :=
  (w0 u =? 2 ^ 64 - 1) && (w1 u =? 2 ^ 64 - 1) && (w2 u =? 2 ^ 64 - 1) && (w3 u =? 2 ^ 64 - 1).

Module Hash160.

Record uint160 := U160 { h0 : Z; h1 : Z; h2 : Z }.
Definition clear160 : uint160 := U160 0 0 0.
Definition isZero160 (u : uint160) : bool := Z.lor (Z.lor (h0 u) (h1 u)) (h2 u) =? 0.
Definition eqb160 (a b : uint160) : bool := (h0 a =? h0 b) && (h1 a =? h1 b) && (h2 a =? h2 b).

(** [v = (v << 8) | p[i]] over the bytes of one word. *)
Definition shift_in (l : bytes) : Z := foldl (fun v b => Z.lor (u64 (Z.shiftl v 8)) b) 0 l.
Definition setBytes (p : bytes) : uint160 :=
  U160 (shift_in (take 4 (drop 16 p))) (shift_in (take 8 (drop 8 p))) (shift_in (take 8 p)).
(** [p[i] = v & 0xff; v >>= 8] from the last byte to the first. *)
Fixpoint shift_out (n : nat) (v : Z) (acc : bytes) : bytes :=
  match n with O => acc | S n => shift_out n (Z.shiftr v 8) (Z.land v 0xff :: acc) end.
Definition getBytes (u : uint160) : bytes := shift_out 8 (h2 u) [] ++ shift_out 8 (h1 u) [] ++ shift_out 4 (h0 u) [].
Definition getHex160 (u : uint160) : list ascii :=
  flat_map (fun b => [hex_digit (Z.shiftr b 4); hex_digit (Z.land b 0xf)]) (getBytes u).
Definition wf160 (u : uint160) : Prop := is_u32 (h0 u) /\ is_u64 (h1 u) /\ is_u64 (h2 u).

End Hash160.
Import Hash160.

(** The value of a big-endian word. *)
Definition word_val (l : bytes) : Z := foldl (fun v b => 256 * v + b) 0 l.
Lemma word_val_snoc l b : word_val (l ++ [b]) = 256 * word_val l + b.
Proof. unfold word_val. by rewrite foldl_app. Qed.
Lemma word_val_bound l : bytes_wf l -> 0 <= word_val l < 2 ^ (8 * Z.of_nat (length l)).
Proof.
  intros H. induction l as [|b l IH] using rev_ind; [done|]. apply Forall_app in H as [Hl [Hb _]%Forall_cons].
  rewrite word_val_snoc, length_app. cbn [length]. specialize (IH Hl). unfold is_u8 in Hb.
  replace (8 * Z.of_nat (length l + 1)) with (8 * Z.of_nat (length l) + 8) by lia. rewrite Z.pow_add_r by lia.
  change (2 ^ 8) with 256. nia.
Qed.
Lemma shift_in_val l : bytes_wf l -> (length l <= 8)%nat -> shift_in l = word_val l.
Proof.
  intros H Hl. induction l as [|b l IH] using rev_ind; [done|]. rewrite length_app in Hl. cbn [length] in Hl.
  apply Forall_app in H as [Hw [Hb _]%Forall_cons]. unfold shift_in. rewrite foldl_app. cbn [foldl]. fold (shift_in l).
  rewrite IH, word_val_snoc by (done || lia). pose proof (word_val_bound l Hw) as Hv. unfold is_u8 in Hb.
  assert (word_val l < 2 ^ 56).
  { eapply Z.lt_le_trans; [apply Hv|]. apply Z.pow_le_mono_r; lia. }
  unfold u64. rewrite Z.shiftl_mul_pow2, Z.mod_small by lia. rewrite Z.lor_comm, lor_disjoint_add by lia. lia.
Qed.
Lemma shift_out_val l acc : bytes_wf l -> shift_out (length l) (word_val l) acc = l ++ acc.
Proof.
  revert acc. induction l as [|b l IH] using rev_ind; intros acc H; [done|]. apply Forall_app in H as [Hw [Hb _]%Forall_cons].
  rewrite length_app, Nat.add_1_r, word_val_snoc. cbn [shift_out]. unfold is_u8 in Hb.
  change 0xff with (Z.ones 8). rewrite Z.land_ones, Z.shiftr_div_pow2 by lia. change (2 ^ 8) with 256.
  replace ((256 * word_val l + b) / 256) with (word_val l) by (apply (Z.div_unique _ _ _ b); lia).
  replace ((256 * word_val l + b) mod 256) with b by (apply (Z.mod_unique _ _ (word_val l)); lia).
  rewrite IH, <- (assoc_L (++)) by done. done.
Qed.
Lemma shift_out_spec n v acc : 0 <= v < 2 ^ (8 * Z.of_nat n) ->
  exists l, shift_out n v acc = l ++ acc /\ length l = n /\ bytes_wf l /\ word_val l = v.
Proof.
  revert v acc. induction n as [|n IH]; intros v acc Hv; [exists []; split_and!; try done; [constructor|cbn in *; lia]|].
  cbn [shift_out]. replace (8 * Z.of_nat (S n)) with (8 * Z.of_nat n + 8) in Hv by lia. rewrite Z.pow_add_r in Hv by lia.
  change 0xff with (Z.ones 8). rewrite Z.land_ones, Z.shiftr_div_pow2 by lia. change (2 ^ 8) with 256 in *.
  destruct (IH (v / 256) (v mod 256 :: acc)) as (l & E & Hl & Hw & Hval).
  { split; [apply Z.div_pos; lia|]. apply Z.div_lt_upper_bound; lia. }
  exists (l ++ [v mod 256]). split_and!.
  - by rewrite E, <- (assoc_L (++)).
  - rewrite length_app. cbn [length]. lia.
  - apply Forall_app. split; [done|]. apply Forall_cons_2; [|constructor]. apply Z.mod_pos_bound. lia.
  - rewrite word_val_snoc, Hval. pose proof (Z.div_mod v 256). lia.
Qed.

(** The twenty bytes of a hash and its three words determine each other. *)
Theorem uint160_roundtrip p u :
  (length p = 20%nat -> bytes_wf p -> getBytes (setBytes p) = p /\ wf160 (setBytes p)) /\
  (wf160 u -> setBytes (getBytes u) = u /\ length (getBytes u) = 20%nat).
Proof.
  split.
  - intros Hl Hw. assert (p = take 8 p ++ take 8 (drop 8 p) ++ take 4 (drop 16 p)) as Hp.
    { rewrite (take_ge (drop 16 p)) by (rewrite length_drop; lia). rewrite <- (take_drop 8 p) at 1. f_equal.
      rewrite <- (take_drop 8 (drop 8 p)) at 1. by rewrite drop_drop. }
    assert (bytes_wf (take 8 p)) as W2 by (by apply Forall_take).
    assert (bytes_wf (take 8 (drop 8 p))) as W1 by (by apply Forall_take, Forall_drop).
    assert (bytes_wf (take 4 (drop 16 p))) as W0 by (by apply Forall_take, Forall_drop).
    assert (length (take 8 p) = 8%nat) as L2 by (rewrite length_take; lia).
    assert (length (take 8 (drop 8 p)) = 8%nat) as L1 by (rewrite length_take, length_drop; lia).
    assert (length (take 4 (drop 16 p)) = 4%nat) as L0 by (rewrite length_take, length_drop; lia).
    unfold getBytes, setBytes, wf160. cbn [h0 h1 h2]. rewrite !shift_in_val by (done || lia). split.
    + pose proof (shift_out_val _ [] W0) as E0. pose proof (shift_out_val _ [] W1) as E1. pose proof (shift_out_val _ [] W2) as E2.
      rewrite L0 in E0. rewrite L1 in E1. rewrite L2 in E2. rewrite E0, E1, E2, !app_nil_r. by symmetry.
    + pose proof (word_val_bound _ W0) as B0. pose proof (word_val_bound _ W1) as B1. pose proof (word_val_bound _ W2) as B2.
      rewrite L0 in B0. rewrite L1 in B1. rewrite L2 in B2. split_and!; [exact B0|exact B1|exact B2].
  - intros (B0 & B1 & B2). unfold getBytes.
    destruct (shift_out_spec 8 (h2 u) []) as (l2 & -> & L2 & W2 & V2); [exact B2|].
    destruct (shift_out_spec 8 (h1 u) []) as (l1 & -> & L1 & W1 & V1); [exact B1|].
    destruct (shift_out_spec 4 (h0 u) []) as (l0 & -> & L0 & W0 & V0); [exact B0|].
    rewrite !app_nil_r. split; [|rewrite !length_app; lia]. unfold setBytes.
    rewrite (take_app_length' l2), (drop_app_length' l2 _ 8), (take_app_length' l1) by lia.
    rewrite (assoc_L (++)), drop_app_length' by (rewrite length_app; lia). rewrite take_ge by lia.
    rewrite !shift_in_val by (done || lia). rewrite V0, V1, V2. by destruct u.
Qed.
(** ** [HASH160] as a [uint160] *)
Definition HASH160_words {ossl : OpenSSL} (data : bytes) : uint160 := setBytes (HASH160 data).
(** Reading the words back gives the digest. *)
Lemma HASH160_words_bytes {ossl : OpenSSL} data : getBytes (HASH160_words data) = HASH160 data.
Proof. apply uint160_roundtrip; [exact clear160|apply length_HASH160|apply Ripemd160.ripemd160_wf]. Qed.

Lemma isMax_value u : isMax u = true <-> u = U256 (2 ^ 64 - 1) (2 ^ 64 - 1) (2 ^ 64 - 1) (2 ^ 64 - 1).
Proof. unfold isMax. rewrite !andb_true_iff, !Z.eqb_eq. destruct u; cbn. split; [intros [[[-> ->] ->] ->]; done|by intros [= -> -> -> ->]]. Qed.

(** ** The remaining operators of [uint256] *)

Module Operators.

(** [explicit operator bool], [operator!] and [operator!=] *)
Definition to_bool (u : uint256) : bool := negb (isZero u).
Definition op_not (u : uint256) : bool := isZero u.
Definition neqb (a b : uint256) : bool := negb (eqb a b).

(** The compound assignments, each with its operand; the object assigned to is
    the argument and the result of [assign]. *)
Inductive compound :=
  | AndAssign (o : uint256) | OrAssign (o : uint256) | XorAssign (o : uint256)
  | ShlAssign (n : Z) | ShrAssign (n : Z)
  | AddAssign (o : uint256) | SubAssign (o : uint256).
Definition assign (this : uint256) (c : compound) : uint256 :=
  match c with
  | AndAssign o => land this o
  | OrAssign o => lor this o
  | XorAssign o => lxor this o
  | ShlAssign n => shl this n
  | ShrAssign n => shr this n
  | AddAssign o => add this o
  | SubAssign o => sub this o
  end.

End Operators.
Import Operators.

(** The operators as arithmetic on the 256-bit number. *)
Definition compound_wf (c : compound) : Prop :=
  match c with
  | AndAssign o | OrAssign o | XorAssign o | AddAssign o | SubAssign o => wf o
  | ShlAssign n | ShrAssign n => is_u32 n
  end.
Definition assign_Z (x : Z) (c : compound) : Z :=
  match c with
  | AndAssign o => Z.land x (to_Z o)
  | OrAssign o => Z.lor x (to_Z o)
  | XorAssign o => Z.lxor x (to_Z o)
  | ShlAssign n => x * 2 ^ n mod 2 ^ 256
  | ShrAssign n => x / 2 ^ n
  | AddAssign o => (x + to_Z o) mod 2 ^ 256
  | SubAssign o => (x - to_Z o) mod 2 ^ 256
  end.

Lemma words_op op f a b : (forall x y n, 0 <= n -> Z.testbit (op x y) n = f (Z.testbit x n) (Z.testbit y n)) -> f false false = false ->
  wf a -> wf b -> let r := words (fun i => op (w a i) (w b i)) in wf r /\ to_Z r = op (to_Z a) (to_Z b).
Proof.
  intros Hop Hff Ha Hb r.
  assert (r = of_Z (op (to_Z a) (to_Z b))) as ->.
  { assert (forall i, 0 <= i < 4 -> op (w a i) (w b i) = u64 (Z.shiftr (op (to_Z a) (to_Z b)) (64 * i))) as H.
    { intros i Hi. rewrite !w_spec by done. unfold u64. apply Z.bits_inj'. intros n Hn. rewrite Hop by done. destruct (Z.ltb_spec n 64).
      - rewrite !Z.mod_pow2_bits_low, Z.shiftr_spec, !Z.div_pow2_bits, Hop by lia. done.
      - by rewrite !Z.mod_pow2_bits_high by lia. }
    unfold r, of_Z, words. by rewrite !H by lia. }
  split; [apply of_Z_wf|]. rewrite to_Z_of_Z. apply Z.bits_inj'. intros n Hn. destruct (Z.ltb_spec n 256).
  - by rewrite Z.mod_pow2_bits_low.
  - rewrite Z.mod_pow2_bits_high, Hop by lia. pose proof (to_Z_bound a Ha). pose proof (to_Z_bound b Hb).
    rewrite <- (Z.mod_small (to_Z a) (2 ^ 256)), <- (Z.mod_small (to_Z b) (2 ^ 256)), !Z.mod_pow2_bits_high by lia. done.
Qed.

(** A sequence of compound assignments to one object computes, modulo [2^256],
    the number the same operators compute, and the tests read that number. *)
Theorem compound_assignments u l : wf u -> Forall compound_wf l ->
  let r := foldl assign u l in
  let z := foldl assign_Z (to_Z u) l in
  wf r /\ to_Z r = z /\ to_bool r = negb (z =? 0) /\ op_not r = (z =? 0).
Proof.
  intros Hu Hl. cbv zeta. assert (wf (foldl assign u l) /\ to_Z (foldl assign u l) = foldl assign_Z (to_Z u) l) as [Hw Hz].
  { revert u Hu. induction Hl as [|c l Hc _ IH]; intros u Hu; [done|]. cbn [foldl].
    assert (wf (assign u c) /\ to_Z (assign u c) = assign_Z (to_Z u) c) as [Hw <-]; [|by apply IH].
    destruct c; cbn [assign assign_Z compound_wf] in *.
    - by apply (words_op Z.land andb); [intros; apply Z.land_spec|..].
    - by apply (words_op Z.lor orb); [intros; apply Z.lor_spec|..].
    - by apply (words_op Z.lxor xorb); [intros; apply Z.lxor_spec|..].
    - unfold is_u32 in Hc. split; [apply wf_shl; lia || done|apply to_Z_shl; lia || done].
    - unfold is_u32 in Hc. split; [apply wf_shr; lia || done|apply to_Z_shr; lia || done].
    - by apply add_spec.
    - by apply sub_spec. }
  unfold to_bool, op_not. by rewrite isZero_spec, Hz.
Qed.
Lemma neqb_spec a b : neqb a b = true <-> a <> b.
Proof. unfold neqb. rewrite eqb_spec. case_bool_decide; naive_solver. Qed.
