(* ===== verification/GenesisTool.v ===== *)
(** The two tools that make a genesis block: [bin/cdx-genesis.cpp], which tries
    nonces and, when they are used up, later times, and the start and the end
    of [tools/mine_genesis.cpp] around the search of [GenesisMiner].

    What the tools print is their result here; the self-test compares with the digest of OpenSSL. *)
From Stdlib Require Import Ascii.
From S2P Require Import Prelude Config UInt256 Compact Consensus Sha256 Crypto Transaction Block Chain Value Mining Daemon Text Connect GenesisMiner.
Import uint256 Difficulty Sha256 Value GenesisMiner.
Open Scope cdx_scope.

(** * cdx-genesis *)

Section Tool.
Context {ossl : OpenSSL}.

Definition tool_block (p : ChainParams) (message : string) (ts nonce : Z) : CBlock :=
  CreateGenesisBlock (minDifficultyBits p) INITIAL_BLOCK_REWARD ts message nonce.
(** The [while (true)] loop: the time and the nonce that meet the target. *)
Fixpoint tool_loop (fuel : nat) (p : ChainParams) (message : string) (target : uint256) (hdr : bytes) (ts nonce : Z) : option (Z * Z) :=
  match fuel with
  | O => None
  | S k =>
      let hdr := set_nonce_bytes hdr nonce in
      if leb (SHA256d hdr) target then Some (ts, nonce)
      else
        let nonce := u32 (nonce + 1) in
        if nonce =? 0 then
          let ts := u32 (ts + 1) in
          tool_loop k p message target (SerializeBlockHeader (blk_header (tool_block p message ts 0))) ts nonce
        else tool_loop k p message target hdr ts nonce
  end.
(** [argv[1]], [argv[2]] and [argv[3]] with their defaults. *)
Definition tool_args (args : list string) : ChainParams * Z * string :=
  (GetParams (default "mainnet" (args !! 0%nat)),
   match args !! 1%nat with Some t => u32 (atoll t) | None => 1717200000 end,
   default GetGenesisMessage (args !! 2%nat)).
(** The block, and whether its proof of work and its merkle root are valid. *)
Definition genesis_tool (fuel : nat) (args : list string) : option (CBlock * bool * bool) :=
  let '(p, ts, message) := tool_args args in
  let target := TargetFromBits (minDifficultyBits p) in
  '(ts, nonce) ← tool_loop fuel p message target (SerializeBlockHeader (blk_header (tool_block p message ts 0))) ts 0;
  let genesis := tool_block p message ts nonce in
  Some (genesis, CheckProofOfWork (BlockHash genesis) (hdr_bits (blk_header genesis)), CheckMerkleRoot genesis).

(** * The first solution *)

(** The order in which times and nonces are tried. *)
Definition try_at (ts : Z) (k : nat) : Z * Z := (u32 (ts + Z.of_nat k / 2 ^ 32), Z.of_nat k mod 2 ^ 32).
Definition solves (p : ChainParams) (message : string) (ts : Z) (k : nat) : bool :=
  leb (BlockHash (tool_block p message (try_at ts k).1 (try_at ts k).2)) (TargetFromBits (minDifficultyBits p)).

Lemma try_next ts k :
  let '(t, n) := try_at ts k in
  try_at ts (S k) = if u32 (n + 1) =? 0 then (u32 (t + 1), 0) else (t, u32 (n + 1)).
Proof.
  unfold try_at, u32. set (z := Z.of_nat k). replace (Z.of_nat (S k)) with (z + 1) by lia.
  pose proof (Z.div_mod z (2 ^ 32) ltac:(lia)). pose proof (Z.mod_pos_bound z (2 ^ 32) ltac:(lia)).
  destruct (decide (z mod 2 ^ 32 = 2 ^ 32 - 1)) as [E|E].
  - assert ((z + 1) / 2 ^ 32 = z / 2 ^ 32 + 1) as -> by (symmetry; apply (Z.div_unique _ _ _ 0); lia).
    assert ((z + 1) mod 2 ^ 32 = 0) as -> by (symmetry; apply (Z.mod_unique _ _ (z / 2 ^ 32 + 1)); lia).
    rewrite E. change ((2 ^ 32 - 1 + 1) mod 2 ^ 32) with 0. cbn [Z.eqb]. by rewrite Z.add_mod_idemp_l, Z.add_assoc by lia.
  - assert ((z + 1) / 2 ^ 32 = z / 2 ^ 32) as -> by (symmetry; apply (Z.div_unique _ _ _ (z mod 2 ^ 32 + 1)); lia).
    assert ((z + 1) mod 2 ^ 32 = z mod 2 ^ 32 + 1) as -> by (symmetry; apply (Z.mod_unique _ _ (z / 2 ^ 32)); lia).
    rewrite (Z.mod_small (z mod 2 ^ 32 + 1)) by lia. by destruct (Z.eqb_spec (z mod 2 ^ 32 + 1) 0); [lia|].
Qed.

(** The loop from the [k]-th try on. *)
Lemma tool_loop_from p message ts fuel : forall k m, let '(t, n) := try_at ts k in
  (forall t' n', tool_loop fuel p message (TargetFromBits (minDifficultyBits p))
      (SerializeBlockHeader (blk_header (tool_block p message t m))) t n = Some (t', n') <->
    exists j, (k <= j < k + fuel)%nat /\ (t', n') = try_at ts j /\ solves p message ts j = true /\
      forall i, (k <= i < j)%nat -> solves p message ts i = false).
Proof.
  induction fuel as [|fuel IH]; intros k m; destruct (try_at ts k) as [t n] eqn:Et; intros t' n'; cbn [tool_loop].
  - split; [done|]. intros (j & Hj & _). lia.
  - assert (leb (SHA256d (set_nonce_bytes (SerializeBlockHeader (blk_header (tool_block p message t m))) n)) (TargetFromBits (minDifficultyBits p))
            = solves p message ts k) as ->.
    { unfold solves. rewrite Et. cbn [fst snd]. by rewrite set_nonce_header. }
    destruct (solves p message ts k) eqn:Es.
    + split.
      * intros [= <- <-]. exists k. split_and!; [lia|lia|done|done|lia].
      * intros (j & Hj & Ej & Hs & Hmin). destruct (decide (j = k)) as [->|]; [congruence|]. rewrite Hmin in Es; [done|lia].
    + pose proof (try_next ts k) as Hn. rewrite Et in Hn. rewrite set_nonce_header.
      change (with_nonce (blk_header (tool_block p message t m)) n) with (blk_header (tool_block p message t n)).
      assert (Hstep : forall P : Prop, (P <-> exists j, (S k <= j < S k + fuel)%nat /\ (t', n') = try_at ts j /\ solves p message ts j = true /\
                (forall i, (S k <= i < j)%nat -> solves p message ts i = false)) ->
              (P <-> exists j, (k <= j < k + S fuel)%nat /\ (t', n') = try_at ts j /\ solves p message ts j = true /\
                (forall i, (k <= i < j)%nat -> solves p message ts i = false))).
      { intros P HP. rewrite HP. split; intros (j & Hj & Ej & Hs & Hmin); exists j.
        - split_and!; [lia|lia|done|done|]. intros i Hi. destruct (decide (i = k)) as [->|]; [done|]. apply Hmin. lia.
        - assert (j <> k) by congruence. split_and!; [lia|lia|done|done|]. intros i Hi. apply Hmin. lia. }
      apply Hstep. destruct (u32 (n + 1) =? 0) eqn:E0.
      * specialize (IH (S k) 0). rewrite Hn in IH. apply Z.eqb_eq in E0. rewrite E0. apply IH.
      * specialize (IH (S k) n). rewrite Hn in IH. apply IH.
Qed.

Lemma eqb_same a : eqb a a = true.
Proof. rewrite eqb_spec. by rewrite bool_decide_eq_true_2. Qed.
Lemma network_target net : isZero (TargetFromBits (minDifficultyBits (GetParams net))) = false.
Proof. unfold GetParams. repeat case_bool_decide; by vm_compute. Qed.

(** [cdx-genesis] finds the first solution and its checks succeed.  For any
    arguments and any number of rounds, the tool returns a block exactly when
    one of that many tries (nonces from 0 on, then the next second, and so on)
    meets the target of the network; the block is the genesis block the node
    would build at the time and nonce of the first such try, and the tool
    reports its proof of work and its merkle root as valid. *)
Theorem genesis_tool_first args fuel r :
  let '(p, ts, message) := tool_args args in
  genesis_tool fuel args = Some r <->
  exists j, (j < fuel)%nat /\ solves p message ts j = true /\ (forall i, (i < j)%nat -> solves p message ts i = false) /\
    r = (tool_block p message (try_at ts j).1 (try_at ts j).2, true, true).
Proof.
  unfold genesis_tool. destruct (tool_args args) as [[p ts] message] eqn:Ea.
  assert (is_u32 ts /\ exists net, p = GetParams net) as [Hts [net Hp]].
  { unfold tool_args in Ea. injection Ea as <- <- _. split; [|by eexists]. destruct (args !! 1%nat); [apply u32_range|unfold is_u32; lia]. }
  pose proof (tool_loop_from p message ts fuel 0 0) as H. assert (try_at ts 0 = (ts, 0)) as E0.
  { unfold try_at. cbn [Z.of_nat]. rewrite Z.div_0_l, Z.mod_0_l, Z.add_0_r by lia. unfold u32. by rewrite Z.mod_small. }
  rewrite E0 in H.
  assert (forall j, solves p message ts j = true ->
     CheckProofOfWork (BlockHash (tool_block p message (try_at ts j).1 (try_at ts j).2)) (minDifficultyBits p) = true) as Hpow.
  { intros j Hj. unfold CheckProofOfWork. rewrite Hp, network_target, <- Hp. exact Hj. }
  assert (forall t n, CheckMerkleRoot (tool_block p message t n) = true) as Hmr.
  { intros t n. unfold CheckMerkleRoot, tool_block, CreateGenesisBlock. cbn [blk_vtx blk_header hdr_merkleRoot]. rewrite merkle_single. apply eqb_same. }
  destruct (tool_loop fuel p message _ _ ts 0) as [[t' n']|] eqn:El; cbn [mbind option_bind].
  - destruct (proj1 (H t' n') eq_refl) as (j & Hj & Ej & Hs & Hmin).
    assert (t' = (try_at ts j).1 /\ n' = (try_at ts j).2) as [-> ->] by (by rewrite <- Ej).
    change (hdr_bits _) with (minDifficultyBits p). rewrite Hpow, Hmr by done. split.
    + intros [= <-]. exists j. split_and!; [lia|done| |done]. intros i Hi. apply Hmin. lia.
    + intros (j' & Hj' & Hs' & Hmin' & ->). assert (j' = j) as ->; [|done].
      destruct (Nat.lt_trichotomy j' j) as [Hl|[?|Hl]]; [|done|].
      * rewrite Hmin in Hs' by lia. done.
      * rewrite Hmin' in Hs by lia. done.
  - split; [done|]. intros (j & Hj & Hs & Hmin & _). destruct (try_at ts j) as [a b] eqn:Ej.
    assert (@None (Z * Z) = Some (a, b)) as Hcon; [|done]. apply H. exists j. rewrite Ej. split_and!; [lia|lia|done|done|].
    intros i Hi. apply Hmin. lia.
Qed.
End Tool.

(** With the SHA-256 of the node the tool makes the genesis block that the
    configuration of the test network for regressions names. *)
Example tool_regtest :
  match genesis_tool (ossl := eval_ossl) 20 ["regtest"] with
  | Some (b, powOk, merkleOk) => GetGenesisHash REGTEST = Ok (BlockHash (H := eval_ossl) b) /\ powOk = true /\ merkleOk = true
  | None => False
  end.
Proof. vm_compute. repeat split. Qed.

(** * mine_genesis *)

(** The self-test of [main]: the SHA-256 of the tool against OpenSSL's. *)
Definition self_test {ossl : OpenSSL} : bool :=
  forallb (fun n => let buf := repeat (Z.of_nat n) n in
    bool_decide (sha256_full buf = EVP_sha256 buf) && bool_decide (sha256d_full buf = EVP_sha256 (EVP_sha256 buf))) (seq 1 200).
(** The arguments: network, threads and time. *)
Definition mine_args (args : list string) : string * Z * GenesisParams :=
  let network := default "mainnet" (args !! 0%nat) in
  let threads := match args !! 1%nat with Some t => atoi t | None => 2 end in
  (network, if threads <? 1 then 1 else threads,
   {| g_ts := match args !! 2%nat with Some t => u32 (atoll t) | None => 1717200000 end;
      g_bits := if bool_decide (network = "regtest") then 0x207fffff else 0x1d00ffff;
      g_reward := 50 * 100000000;
      g_message := "CDX Genesis - Codex Coin, 21,000,000 CDX, SHA-256d PoW, UTXO, P2P" |}).
(** ** The progress file *)

(** [f << g.ts << " " << counter << "\n"] *)
Definition progress_text (ts counter : Z) : text := to_string ts ++ lit " " ++ to_string counter ++ [LF].
(** [f >> x] for a [uint64_t]: whether it succeeds, what [x] is set to (zero
    without digits, the maximum when they do not fit) and the rest. *)
Fixpoint take_digits (s : text) : text * text :=
  match s with
  | c :: r => if is_digit c then let '(ds, rest) := take_digits r in (c :: ds, rest) else ([], s)
  | [] => ([], [])
  end.
Definition extract_u64 (s : text) : bool * Z * text :=
  let '(neg, s) := match skip_spaces s with
                   | c :: r => if Ascii.eqb c "-"%char then (true, r) else if Ascii.eqb c "+"%char then (false, r) else (false, c :: r)
                   | [] => (false, [])
                   end in
  let '(ds, rest) := take_digits s in
  match ds with
  | [] => (false, 0, rest)
  | _ => let v := read_digits ds 0 in
         if 2 ^ 64 <=? v then (false, 2 ^ 64 - 1, rest) else (true, if neg : bool then u64 (- v) else v, rest)
  end.
(** [f >> tsFile >> n].  When the first number cannot be read the second is not
    touched, and [n] is read without ever being set. *)
Definition read_progress (s : text) : outcome (Z * Z) :=
  let '(ok, ts, s) := extract_u64 s in
  if negb ok then Undef else let '(_, n, _) := extract_u64 s in Done (ts, n).

(** The numbers of the progress file replace the time and the start. *)
Definition resume (g : GenesisParams) (file : option text) : outcome (GenesisParams * Z) :=
  match file with
  | None => Done (g, 0)
  | Some s =>
      '(tsFile, n) ← read_progress s;
      Done ({| g_ts := u32 tsFile; g_bits := g_bits g; g_reward := g_reward g; g_message := g_message g |}, n)
  end.
(** What [main] sets up before it starts the threads: the parameters, the
    header, the target and the pool; [inl] is the exit code of the self-test. *)
Definition mine_start {ossl : OpenSSL} (args : list string) (file : option text) :
    outcome (Z + (GenesisParams * outcome (list Z) * pool)) :=
  if negb self_test then Done (inl 1)
  else
    let '(_, threads, g) := mine_args args in
    '(g, start) ← resume g file;
    Done (inr (g, target_from_bits (g_bits g), pool_init (build_genesis_header g) start (Z.to_nat threads))).
(** What it prints after the loop. *)
Definition mine_result (g : GenesisParams) (s : pool) : Z * list ascii :=
  let nonce := sh_foundNonce (pl_shared s) in
  (nonce, hex32_display (sha256d_full (set_nonce_bytes (build_genesis_header g) nonce))).

Lemma self_test_same {ossl : OpenSSL} : (forall m, EVP_sha256 m = sha256_full m) -> self_test = true.
Proof.
  intros H. apply forallb_forall. intros n _. apply andb_true_iff. unfold sha256d_full. rewrite !H.
  split; by apply bool_decide_eq_true_2.
Qed.
Lemma mine_bits args : g_bits (mine_args args).2 = minDifficultyBits (GetParams (mine_args args).1.1).
Proof.
  unfold mine_args, GetParams. cbn [fst snd g_bits]. destruct (decide (default "mainnet" (args !! 0%nat) = "regtest")) as [E|E].
  - rewrite E. by vm_compute.
  - rewrite (bool_decide_eq_false_2 _ E). by destruct (bool_decide _).
Qed.
Lemma nonce_bytes_hash g nonce : sha256d_full (set_nonce_bytes (build_genesis_header g) nonce) = nonce_hash (build_genesis_header g) nonce.
Proof.
  unfold nonce_hash, set_nonce_bytes. pose proof (length_build_genesis_header g) as Hl. rewrite (drop_ge (build_genesis_header g)) by lia. by rewrite app_nil_r.
Qed.

(** What [mine_genesis] prints is a genesis block of the node.  For any
    arguments and any progress file the tool passes its self-test and starts
    its threads on the target of the network, and for every interleaving of
    them, once a nonce is found, the block that the node builds for that
    network at that time with the nonce printed passes the node's proof of
    work, and the hash printed is the one of that block in the form the
    configuration takes. *)
Theorem mine_genesis_prints_genesis args file threads g start :
  threads = Z.to_nat (mine_args args).1.2 -> resume (mine_args args).2 file = Done (g, start) ->
  0 <= start <= 2 ^ 32 -> (mine_args args).1.2 < 2 ^ 31 ->
  let p := GetParams (mine_args args).1.1 in
  exists target, mine_start (ossl := eval_ossl) args file = Done (inr (g, Done target, pool_init (build_genesis_header g) start threads)) /\
    forall s, pool_reach (build_genesis_header g) target start threads s -> sh_found (pl_shared s) = true ->
    let '(nonce, printed) := mine_result g s in
    let hash := BlockHash (H := eval_ossl) (tool_block (ossl := eval_ossl) p GetGenesisMessage (g_ts g) nonce) in
    is_u32 nonce /\ CheckProofOfWork hash (minDifficultyBits p) = true /\
    fromHexReversed (String.string_of_list_ascii printed) = hash.
Proof.
  intros -> Er Hs Hth p. unfold mine_start. rewrite (self_test_same (ossl := eval_ossl) (fun m => eq_refl)). cbn [negb].
  pose proof (mine_bits args) as Hb. destruct (mine_args args) as [[net th] g0] eqn:Ea. cbn [fst snd] in *. fold p in Hb.
  assert (g_bits g = g_bits g0 /\ g_reward g = INITIAL_BLOCK_REWARD /\ g_message g = GetGenesisMessage) as (Hgb & Hgr & Hgm).
  { unfold mine_args in Ea. injection Ea as _ _ <-. unfold resume in Er. destruct file as [f|]; [|by injection Er as <- _].
    destruct (read_progress f) as [[]|]; [|done]. by injection Er as <- _. }
  assert (g_bits g = 0x1d00ffff \/ g_bits g = 0x207fffff) as Hc.
  { rewrite Hgb. unfold mine_args in Ea. injection Ea as _ _ <-. cbn [g_bits]. case_bool_decide; [by right|by left]. }
  assert (exists target, target_from_bits (g_bits g) = Done target) as [target Ht] by (destruct Hc as [-> | ->]; eexists; vm_compute; reflexivity).
  exists target. rewrite Er. cbn [mbind outcome_bind]. rewrite Ht. split; [done|]. intros s Hr Hf. unfold mine_result. rewrite nonce_bytes_hash.
  destruct (genesis_miner_sound g target start (Z.to_nat th) s) as (H1 & H2 & H3); [|..|done|done|lia|exact Hr|exact Hf|].
  - rewrite Hgm. vm_compute. lia.
  - destruct Hc as [-> | ->]; unfold is_u32; lia.
  - destruct Hc as [-> | ->]; vm_compute; split; discriminate.
  - destruct Hc as [-> | ->]; vm_compute; discriminate.
  - unfold tool_block. cbv zeta. rewrite <- Hb, <- Hgb. rewrite Hgr, Hgm in H2, H3. split; [exact H1|]. split; [exact H2|exact H3].
Qed.


(** ** Resuming *)

Lemma take_digits_all ds rest : Forall is_dec ds -> match rest with [] => True | c :: _ => is_digit c = false end ->
  take_digits (map digit_char ds ++ rest) = (map digit_char ds, rest).
Proof.
  intros Hd Hr. induction Hd as [|d ds Hd _ IH]; cbn [map app take_digits].
  - destruct rest as [|c r]; [done|]. cbn [take_digits]. by rewrite Hr.
  - destruct (digit_facts d Hd) as [-> _]. by rewrite IH.
Qed.
Lemma extract_number z rest : is_u64 z -> match rest with [] => True | c :: _ => is_digit c = false end ->
  extract_u64 (to_string z ++ rest) = (true, z, rest).
Proof.
  intros Hz Hr. unfold extract_u64, to_string. destruct (Z.ltb_spec z 0); [unfold is_u64 in Hz; lia|].
  destruct (llu_spec z Hz) as (Hd & Hv & Hn). pose proof (take_digits_all (llu z) rest Hd Hr) as Ht.
  pose proof (read_digits_all (llu z) 0 Hd) as Hrd. change (dval_from 0 (llu z)) with (dval (llu z)) in Hrd. rewrite Hv in Hrd.
  destruct (llu z) as [|d ds]; [done|]. apply Forall_cons in Hd as [Hd0 _]. cbn [map app] in *.
  rewrite skip_spaces_head by apply digit_facts, Hd0.
  destruct (digit_char_special d Hd0) as (_ & Hm & Hp).
  rewrite (proj2 (Ascii.eqb_neq _ _)) by exact Hm. rewrite (proj2 (Ascii.eqb_neq _ _)) by exact Hp.
  rewrite Ht, Hrd. destruct (Z.leb_spec (2 ^ 64) z); [unfold is_u64 in Hz; lia|]. done.
Qed.
Lemma progress_read ts counter : is_u64 ts -> is_u64 counter -> read_progress (progress_text ts counter) = Done (ts, counter).
Proof.
  intros Ht Hc. unfold read_progress, progress_text. rewrite extract_number by done. cbn [negb].
  assert (extract_u64 (lit " " ++ to_string counter ++ [LF]) = extract_u64 (to_string counter ++ [LF])) as -> by done.
  by rewrite extract_number.
Qed.

(** What a resumed search may miss.  The progress file that a run writes at any
    moment, in any interleaving of its threads, is read back as the time and
    the work counter of that moment, so the search goes on with the same
    header; and while nothing is found, every nonce before the counter that
    solves the header is one that some thread had in hand at that moment. *)
Theorem genesis_resume g target start threads s :
  0 <= start <= 2 ^ 32 -> Z.of_nat threads < 2 ^ 32 -> is_u32 (g_ts g) ->
  pool_reach (build_genesis_header g) target start threads s -> sh_found (pl_shared s) = false ->
  let counter := sh_counter (pl_shared s) in
  resume g (Some (progress_text (g_ts g) counter)) = Done (g, counter) /\
  forall n, start <= n < counter -> n < 2 ^ 32 -> hash_le_target (nonce_hash (build_genesis_header g) n) target = true ->
    exists w, w ∈ pl_workers s /\ (holds w n \/ wk_pc w = WSignal).
Proof.
  intros Hs Hth Hts Hr Hf counter. pose proof (length_build_genesis_header g) as H80.
  pose proof (pool_reach_inv _ _ _ _ H80 Hs Hth s Hr) as [Ilen _ Ic _ It _]. fold counter in Ic, It. split.
  - unfold resume. pose proof (overs_bound (build_genesis_header g) threads H80 (pl_workers s)) as [_ ?]. unfold is_u32 in Hts. rewrite progress_read by (unfold is_u64; lia). cbn [mbind outcome_bind].
    unfold u32. rewrite Z.mod_small by lia. by destruct g.
  - intros n Hn Hlt Hh. destruct (It n Hn Hlt Hh) as [?|?]; [congruence|done].
Qed.
(** The first nonce is skipped when the tool is stopped after a thread has
    fetched it and the file is written. *)
Theorem resume_skips_nonce hdr target start threads : (0 < threads)%nat -> 0 <= start < 2 ^ 64 - 1 ->
  exists s w, pool_reach hdr target start threads s /\ sh_counter (pl_shared s) = start + 1 /\ sh_found (pl_shared s) = false /\
    w ∈ pl_workers s /\ holds w start /\ Forall (fun w => wk_pc w = WFetch \/ wk_pc w = WCheck start) (pl_workers s).
Proof.
  intros Ht Hs. destruct threads as [|k]; [lia|].
  set (w0 := {| wk_pc := WFetch; wk_local := prepare hdr |}).
  exists {| pl_shared := {| sh_counter := start + 1; sh_found := false; sh_foundNonce := 0 |};
            pl_workers := goto w0 (WCheck start) :: repeat w0 k; pl_reporting := true |}, (goto w0 (WCheck start)).
  split_and!; [|done|done|left|done|].
  - eapply reach_step; [apply reach_init|].
    apply (step_worker target (pool_init hdr start (S k)) 0 w0 {| sh_counter := start + 1; sh_found := false; sh_foundNonce := 0 |} (goto w0 (WCheck start))); [done|done|].
    unfold worker_next. cbn [wk_pc w0]. unfold u64. cbn [pool_init pl_shared sh_counter]. by rewrite Z.mod_small by lia.
  - constructor; [by right|]. apply Forall_forall. intros w Hw. apply list_elem_of_In, repeat_spec in Hw as ->. by left.
Qed.
(** An empty file, which a tool stopped between opening and writing it leaves
    behind, makes the next run start from an indeterminate counter. *)
Example empty_progress_undefined : read_progress [] = Undef.
Proof. reflexivity. Qed.
